(* ===== verification/_CoqProject ===== *)
-Q . S2P
Prelude.v
GoStd.v
Encode.v
Json.v
Decode.v
Float64.v
Strconv.v
Risk.v
RiskProps.v
Posture.v
Policy.v
Columns.v
Behaviour.v
RateLimit.v
Identity.v
Config.v
Db.v
AuditLog.v
Device.v
User.v
Session.v
Telemetry.v
Incident.v
RiskStore.v
PolicyStore.v
PostureStore.v
BehaviourStore.v
Trust.v
Simulator.v
Web.v
SessionApi.v
DeviceApi.v
TrustApi.v
BodyProps.v
AdminApi.v
Router.v
Migrate.v
System.v
DeviceProps.v
Pool.v
SystemProps.v
SessionProps.v
PolicyProps.v
TrustProps.v
EventProps.v
HttpProps.v
UserProps.v
Schema.v
Concurrency.v
Interleave.v
Liveness.v
AuditProps.v
Middleware.v
MiddlewareProps.v
Startup.v
Process.v
Scenario.v
RaceScenario.v
HttpScenario.v
Demonstration.v
