(* ===== verification/Prelude.v ===== *)
(** * NETRA control plane: a verification library

    NETRA is a zero-trust access platform.  Its control plane ([src/backend], Go)
    enrols devices, authenticates people through an identity provider and devices
    through Ed25519 signatures, begins sessions only on a device attestation, takes
    in telemetry, scores the risk of every session after every event, turns the
    score into a decision through versioned policies, enforces the decision on the
    session, correlates escalations into incidents, and keeps a hash-chained audit
    log.  This library models that program, package by package, and proves what
    makes it correct.

    ** The parts and the files

    One file per Go package (or per route file); a definition keeps the name of the
    function it models.  All paths are under [src/backend].

    - The language: [GoStd] (machine integers, time, durations, strings, stable
      sort, errors), [Encode] (JSON and RFC 3339 text), [Json] (the parser of
      encoding/json), [Decode] (decoding into Go types, as a class of types with their
      decoders, and the class of types that a JSON column keeps), [Float64] (binary64
      bounds), [Strconv] (the parsers of [strconv] and [time]).
    - Pure cores: [Risk] (internal/risk engine.go, model.go), [Posture]
      (internal/posture signals.go, score.go), [Policy] (internal/policy policy.go,
      defaults.go), [Behaviour] (internal/behaviour/baseline.go), [RateLimit]
      (internal/httpapi/ratelimit.go), [Identity] (internal/identity), [Config]
      (internal/config).
    - The database and the stores: [Db] (the tables of migrations/*.sql with their
      constraints, and the monad of the stores), [AuditLog] (internal/audit),
      [Device] (internal/device: signing, store, middleware), [User] (internal/user),
      [Session] (internal/session), [Telemetry] (internal/telemetry), [Incident]
      (internal/incident), [RiskStore], [PolicyStore], [PostureStore],
      [BehaviourStore] (the store.go of those packages), [Columns] (the JSON columns:
      tags of the structs kept in them, and how the stores read them), [Migrate] and
      [Pool] (internal/store).
    - The loop: [Trust] (internal/trust: gather, score, decide, enforce, record),
      [Simulator] (internal/simulator: the demonstration scenarios).
    - The surface: [Web] (requests, replies, middleware of internal/httpapi and
      internal/auth), [SessionApi], [DeviceApi], [TrustApi], [AdminApi] (every
      handler of the route files), [Router] (router.go: every route with its plane,
      and what happens to a request), [Middleware] (middleware.go, problem.go and
      internal/logging: response writers, the middlewares as [NewRouter] composes
      them, the access log), [Startup] and [Process] (cmd/netrad/main.go up to
      serving, and from serving to exit).
    - Concurrency: [Concurrency] (the transactions of internal/audit, internal/device
      and internal/session that read before they write, statement by statement, with
      their locks), [Interleave] (every operation that makes several round trips, as a
      tree of them, and any number of operations run round trip by round trip).
    - Theorems: [RiskProps], [DeviceProps], [SystemProps], [SessionProps],
      [PolicyProps], [TrustProps], [EventProps], [HttpProps], [UserProps],
      [AuditProps], [Liveness], [Schema], [MiddlewareProps], [BodyProps]; the theorems about one
      pure package are in its file.
    - Concrete runs: [Scenario] (a deployment driven through the stores),
      [RaceScenario] (schedules of interleaved requests),
      [HttpScenario] (the same behind HTTP), [Demonstration] (the documented
      demonstration).  They apply the theorems to inputs on which the hypotheses
      hold.

    ** State and operations

    The state of the program is its database: [Db.Tables], one list of rows per
    table.  An operation of a store is a program of the monad [Db.M]: state passing
    over the tables with Go errors, in which every round trip to the server may be
    lost before or after it took effect, and in which [tx] commits or rolls back.
    A guard or early return of the code is an [if] or a [match] at the same place.
    Each operation takes the instant [now] it runs at (one reading of the clock per
    operation), the identifiers the server generates and the random bytes it draws
    as arguments, so that it is a function.

    [System.op] lists every operation that changes the tables, [System.run] runs one
    and [System.steps] is reachability by any sequence of them, at times that never
    decrease and with any faults: invariants are proved by rule induction on it.
    There, requests are interleaved at the granularity of operations.
    [Concurrency.step] interleaves finer: the transactions that read before they
    write (appends to the audit log, enrolments, openings of sessions) run statement
    by statement at READ COMMITTED, taking the locks the code takes, beside all other
    operations; [Concurrency.concurrent_serialisable] brings that back to whole
    transactions in commit order.  [Interleave.moves] interleaves everything else: an
    operation is a tree of autocommit statements and transactions ([Interleave.code]),
    [Interleave.alone_code] shows that the tree run alone is the operation, and the
    pieces of any number of operations run in any order.  [Router.serve] is the whole path of
    a request: gates, handler, calls, audit records, reply.
    [HttpProps.http_refines_operations] says that whatever a request does to the
    tables is a sequence of operations its endpoint is allowed, which carries every
    theorem about [steps] over to HTTP traffic.

    Code that is not in the repository is a parameter: SHA-256, Ed25519, base64 and
    the server's time range and collation ([Device.Crypto], with the laws
    [Device.CryptoLaws]), the JWT and OpenID Connect libraries ([Identity.Jwt],
    [Identity.Verifier]), [uuid.Parse] and driver
    error texts ([Web.Libs], [Pool.driver]), the JSONB type of the server
    ([Decode.Jsonb], with the law [Decode.JsonbLaws]), the reading of internet addresses ([inet],
    [parse_addr]), the effect of a migration script ([Migrate], [exec_sql]), and
    chi's matching of a path to a route.  The scenario files instantiate them.

    ** What the theorems show

    - Authentication: an accepted signed request is never accepted again
      ([SystemProps.replay_rejected]); signatures bind what they cover and the two
      kinds are never confused ([DeviceProps]); a revoked device is out for good;
      enrolment tokens and attestation challenges are spent once; a session begins
      only on proof ([SessionProps.begin_requires_proof]) and, conversely, an honest
      device and user are let in ([Liveness]); an ended session stays ended.
    - The loop: scores reconcile with their explanation and stay in 0..100, never fall when
      the context gets riskier, and are total on the inputs the evaluator gives ([RiskProps],
      [Posture]); the most
      restrictive policy wins, and the shipped policies implement the published
      table ([Policy]); an evaluation records and enforces what was decided, and an
      unattested session is shut out ([TrustProps]); ingestion is accounted for and
      idempotent, incidents correlate ([EventProps]); policy versions are immutable
      and the seeded set decides as the shipped one ([PolicyProps]).
    - The audit log: two verifying logs that end in the same hash are the same log, or show
      a hash collision, whatever their lengths; every run only appends, and keeps the log
      verifying as long as the entries come back from the database as they were hashed (an
      integer above 2^53 in a detail does not, [HttpScenario.audit_cursor_breaks_log]); the
      paged verification equals the whole one ([AuditLog], [SystemProps]); every
      successful privileged action leaves exactly one record, for peers whose address the
      server can store ([AuditProps]).
    - Integrity: most constraints of the migrations, listed in [Schema.schema_ok], hold along
      every run ([Schema.schema_respected]); races spend nothing twice and do not fork the audit
      chain ([Concurrency]); what the JSON columns are given they give back
      ([Columns.columns_roundtrip]).
    - Interleaving: when operations run round trip by round trip in any order, copies of
      a request are accepted at most once, the invariants hold of what is committed, and
      a revocation is effective for what starts after it is answered ([Interleave]).
    - Authority: what a request may change depends on the role its token verifies to
      ([HttpProps]); accounts are stable and a disabled one is shut out
      ([UserProps]); callers are limited ([RateLimit]); a body with a member that the endpoint does
      not know is refused, and what an agent encodes arrives ([BodyProps]); the middleware chain sends what
      the router decided, once, under an identifier of its own, and logs what it sent
      ([MiddlewareProps]).
    - Operation: only safe configurations are served, after the migrations (where they are
      automatic) and the policies are in place ([Config], [Migrate], [Startup]); from then to
      the exit every invariant holds ([Process]); errors of the connection pool do not reveal
      the database password, if it has no @ and no blank ([Pool]); the demonstration ends as
      documented ([Demonstration]).

    ** Bounds and fuel

    Recursion is structural except in four places.  [AuditLog.verify_pages] takes
    one unit of fuel per page and is called with one more than the number of rows,
    which [AuditLog.verify_pages_spec] shows is enough.  [Strconv.duration_loop]
    consumes at least one character per unit and is called with one more than
    the length of the text.  [Startup.connectWithRetry] has the code's own bound of ten attempts.
    [Json.value] takes fuel linear in the length of the text ([Json.enough]), which
    [Json.parser_total] shows is enough, and refuses nesting beyond 10000 as
    encoding/json does.
    Integers have the width of the code with the wrap-around written out;
    [time.Sub] and [time.Add] saturate and wrap as in Go; scoring is computed in
    IEEE-754 binary64.

    ** Not modelled

    The connections of the pool (a round trip works or fails; that [db.Close] waits for those
    in use is a phase of [Process]), what a process that exits leaves of a request in
    [Process] (the subject of [Interleave]), the formatting of log
    lines and the lines that the gates and stores write, build metadata, and a client
    connection that breaks while a response is written: no table and no reply depends
    on them.  In [Interleave] a transaction is one piece, which [Concurrency] justifies for those
    that read before they write, and a scenario of the simulator is one piece.  The
    tables hold the values of JSON columns, not their text, which [Columns] treats apart; of
    these only an audit detail is read back as something else ([AuditLog.read_detail]);
    the refusal of the character NUL by text and JSON columns is a premise of
    [Columns.columns_roundtrip] and not a failure of the stores. The endpoint agent (Rust), the desktop
    client and the dashboard (TypeScript) and the analytics service (Python) are
    separate programs; the control plane sees only the requests the theorems
    quantify over. *)

From stdpp Require Export base gmap strings list sorting.
From Stdlib Require Export ZArith Lia.

#[export] Set Warnings "-clear-no-such-hyp".
Open Scope Z_scope.

(** ** Automation shared by every component *)

(** Facts that close routine side conditions (bounds of clamps and sums,
    preservation lemmas) are collected in [netra]; equations that compute the
    model's operations are collected in [netra_eq]. *)
Create HintDb netra discriminated.
Create Rewrite HintDb netra_eq.

(** [cases] splits every [if], [match] and boolean test of the goal and keeps
    the equation of each test. *)
Ltac case_step :=
  match goal with
  | |- context [if ?b then _ else _] => destruct b eqn:?
  | |- context [match ?x with _ => _ end] => destruct x eqn:?
  end.
Ltac cases := repeat (case_step; simpl; try done).

(** Same for a hypothesis. *)
Ltac case_step_in H :=
  match type of H with
  | context [if ?b then _ else _] => destruct b eqn:?
  | context [match ?x with _ => _ end] => destruct x eqn:?
  end.
Ltac cases_in H := repeat (case_step_in H; simpl in H; try done).

(** Reflect boolean comparisons on [Z] into propositions [lia] can use. *)
Ltac zbool :=
  repeat match goal with
  | H : context [negb _] |- _ => rewrite negb_true_iff in H || rewrite negb_false_iff in H
  | H : (_ && _)%bool = true |- _ => apply andb_true_iff in H as [? ?]
  | H : (_ || _)%bool = false |- _ => apply orb_false_iff in H as [? ?]
  | H : (_ <? _) = true |- _ => apply Z.ltb_lt in H
  | H : (_ <? _) = false |- _ => apply Z.ltb_ge in H
  | H : (_ <=? _) = true |- _ => apply Z.leb_le in H
  | H : (_ <=? _) = false |- _ => apply Z.leb_gt in H
  | H : (_ >? _) = true |- _ => rewrite Z.gtb_ltb in H
  | H : (_ >? _) = false |- _ => rewrite Z.gtb_ltb in H
  | H : (_ >=? _) = true |- _ => rewrite Z.geb_leb in H
  | H : (_ >=? _) = false |- _ => rewrite Z.geb_leb in H
  | H : (_ =? _) = true |- _ => apply Z.eqb_eq in H
  | H : (_ =? _) = false |- _ => apply Z.eqb_neq in H
  end.
Ltac zlia := zbool; lia.

(** ** Sums *)

Definition zsum (l : list Z) : Z := foldr Z.add 0 l.
Arguments zsum : simpl never.

Lemma zsum_nil : zsum [] = 0.
Proof. done. Qed.
Lemma zsum_cons x l : zsum (x :: l) = x + zsum l.
Proof. done. Qed.
Lemma zsum_app l1 l2 : zsum (l1 ++ l2) = zsum l1 + zsum l2.
Proof. induction l1 as [|x l1 IH]; [done|]. rewrite <-app_comm_cons, !zsum_cons, IH. lia. Qed.
#[export] Hint Rewrite zsum_nil zsum_cons zsum_app : netra_eq.

#[export] Instance zsum_perm : Proper ((≡ₚ) ==> eq) zsum.
Proof. intros l1 l2 H. induction H; rewrite ?zsum_cons; lia. Qed.

Lemma zsum_nonneg l : Forall (λ x, 0 <= x) l → 0 <= zsum l.
Proof. induction 1; rewrite ?zsum_cons; [done|lia]. Qed.
Lemma zsum_pointwise {A} (f g : A → Z) l :
  (∀ x, x ∈ l → f x <= g x) → zsum (f <$> l) <= zsum (g <$> l).
Proof.
  induction l as [|x l IH]; intros H; [done|]. rewrite !fmap_cons, !zsum_cons.
  specialize (H x) as Hx. specialize (IH ltac:(intros; apply H; by right)).
  specialize (Hx ltac:(by left)). lia.
Qed.
#[export] Hint Resolve zsum_nonneg : netra.

(** [len(l) == 0]. *)
Definition is_nil {A} (l : list A) : bool := match l with [] => true | _ => false end.

(** ** Stable sorting

    [sort.SliceStable] is specified by its result: the stable rearrangement of
    the slice that is ordered by [less].  [sort_stable] inserts the elements
    from left to right, each after the elements it is not less than. *)
Section StableSort.
Context {A : Type} (less : A → A → bool).

Fixpoint insert_stable (x : A) (l : list A) : list A :=
  match l with
  | [] => [x]
  | y :: l' => if less x y then x :: y :: l' else y :: insert_stable x l'
  end.

Definition sort_stable (l : list A) : list A :=
  foldl (λ acc x, insert_stable x acc) [] l.

Lemma insert_stable_perm x l : insert_stable x l ≡ₚ x :: l.
Proof.
  induction l as [|y l IH]; simpl; [done|].
  destruct (less x y); [done|]. rewrite IH. constructor.
Qed.

Lemma foldl_insert_perm l acc :
  foldl (λ a x, insert_stable x a) acc l ≡ₚ l ++ acc.
Proof.
  revert acc. induction l as [|x l IH]; intros acc; simpl; [done|].
  rewrite IH, insert_stable_perm. by rewrite Permutation_middle.
Qed.

Lemma sort_stable_perm l : sort_stable l ≡ₚ l.
Proof. unfold sort_stable. rewrite foldl_insert_perm. by rewrite app_nil_r. Qed.

Lemma sort_stable_in x l : x ∈ sort_stable l ↔ x ∈ l.
Proof. by rewrite sort_stable_perm. Qed.

Lemma sort_stable_length l : length (sort_stable l) = length l.
Proof. by rewrite sort_stable_perm. Qed.

(** [notless x y]: the order in which [x] may stand before [y]. *)
Definition notless (x y : A) : Prop := less y x = false.

Context (less_asym : ∀ x y, less x y = true → less y x = false).

Lemma insert_stable_hd y x l :
  less x y = false → HdRel notless y l → HdRel notless y (insert_stable x l).
Proof.
  intros Hxy Hl. destruct l as [|z l]; simpl; [by constructor|].
  apply HdRel_inv in Hl. destruct (less x z); by constructor.
Qed.

Lemma insert_stable_sorted x l : Sorted notless l → Sorted notless (insert_stable x l).
Proof.
  induction l as [|y l IH]; intros Hs; simpl; [by repeat constructor|].
  destruct (less x y) eqn:E.
  - constructor; [done|]. constructor. by apply less_asym.
  - apply Sorted_inv in Hs as [Hs Hd]. constructor; [by apply IH|].
    by apply insert_stable_hd.
Qed.

Lemma sort_stable_sorted l : Sorted notless (sort_stable l).
Proof.
  unfold sort_stable.
  assert (H : ∀ acc, Sorted notless acc → Sorted notless
    (foldl (λ a x, insert_stable x a) acc l)); [|by apply H].
  induction l as [|x l IH]; intros acc Hacc; simpl; [done|].
  by apply IH, insert_stable_sorted.
Qed.

(** A sorted list is left as it is. *)
Lemma insert_stable_end x l :
  (∀ y, y ∈ l → less x y = false) → insert_stable x l = l ++ [x].
Proof using.
  induction l as [|y l IH]; intros H; simpl; [done|].
  rewrite H by left. f_equal. apply IH. intros z Hz. apply H. by right.
Qed.
Lemma sort_stable_id l : StronglySorted notless l → sort_stable l = l.
Proof using.
  unfold sort_stable. induction l as [|x l IH] using rev_ind; intros Hs; [done|].
  rewrite foldl_snoc, IH by (by apply StronglySorted_app_1_l in Hs).
  apply insert_stable_end. intros y Hy.
  apply (StronglySorted_app_1_elem_of _ _ _ y x Hs Hy). left.
Qed.

(** When no two distinct elements tie, the result depends only on the
    multiset of elements. *)
Lemma sort_stable_unique l1 l2 :
  Transitive notless →
  (∀ x y, x ∈ l1 → y ∈ l1 → less x y = false → less y x = false → x = y) →
  l1 ≡ₚ l2 → sort_stable l1 = sort_stable l2.
Proof.
  intros Htr Htie Hp. apply (Sorted_unique_strong notless).
  - intros x y Hx Hy Hxy Hyx. rewrite sort_stable_in in Hx, Hy.
    rewrite <-Hp in Hy. by apply Htie.
  - apply sort_stable_sorted.
  - apply sort_stable_sorted.
  - by rewrite !sort_stable_perm.
Qed.
End StableSort.

(** ** Lists *)

(** Last element, as [xs[len(xs)-1]] where the slice is not empty. *)
Lemma last_cons_ne {A} (x : A) l : l ≠ [] → last (x :: l) = last l.
Proof. destruct l; [done|]. intros _. done. Qed.

Lemma filter_all {A} (P : A → Prop) `{∀ x, Decision (P x)} l :
  Forall P l → filter P l = l.
Proof. induction 1; [done|]. rewrite filter_cons_True by done. by f_equal. Qed.

Lemma forallb_elem {A} (f : A → bool) l :
  forallb f l = true ↔ ∀ x, x ∈ l → f x = true.
Proof.
  rewrite forallb_forall. split; intros H x Hx; apply H;
    by apply list_elem_of_In.
Qed.
Lemma existsb_elem {A} (f : A → bool) l :
  existsb f l = true ↔ ∃ x, x ∈ l ∧ f x = true.
Proof.
  rewrite existsb_exists. split; intros (x & Hx & Hf); exists x; split; try done;
    by apply list_elem_of_In.
Qed.
Lemma existsb_perm {A} (f : A → bool) l1 l2 : l1 ≡ₚ l2 → existsb f l1 = existsb f l2.
Proof.
  intros Hp. apply eq_true_iff_eq. rewrite !existsb_elem.
  by setoid_rewrite Hp.
Qed.

Lemma StronglySorted_reverse {A} (R : relation A) l :
  StronglySorted R l → StronglySorted (flip R) (reverse l).
Proof.
  induction 1 as [|x l Hs IH Hf]; [constructor|]. rewrite reverse_cons.
  apply StronglySorted_app_2; [|done|by repeat constructor].
  intros y z Hy Hz. apply list_elem_of_singleton in Hz as ->.
  rewrite elem_of_reverse in Hy. rewrite Forall_forall in Hf. by apply Hf.
Qed.
Lemma StronglySorted_take {A} (R : relation A) n l :
  StronglySorted R l → StronglySorted R (take n l).
Proof.
  intros H. rewrite <-(take_drop n l) in H. by apply StronglySorted_app_1_l in H.
Qed.

(** The boolean filter of the Standard Library, as the queries use it. *)
Lemma lfilter_none {A} (p : A → bool) l : Forall (λ x, p x = false) l → List.filter p l = [].
Proof. induction 1 as [|x l Hx _ IH]; simpl; [done|]. by rewrite Hx. Qed.
Lemma lfilter_all {A} (p : A → bool) l : Forall (λ x, p x = true) l → List.filter p l = l.
Proof. induction 1 as [|x l Hx _ IH]; simpl; [done|]. by rewrite Hx, IH. Qed.
Lemma elem_of_lfilter {A} (p : A → bool) l x : x ∈ List.filter p l ↔ x ∈ l ∧ p x = true.
Proof. by rewrite !list_elem_of_In, filter_In. Qed.
