(* ===== verification/GoStd.v ===== *)
(** * The parts of Go and of its standard library the backend uses

    Integers are [int]/[int64] (64 bits, wrap-around), [time.Time] is an
    absolute nanosecond count with Go's saturating [Sub] and [Add],
    [time.Duration] is a 64-bit nanosecond count, strings and byte slices are
    byte sequences ([String.string]), [float64] is IEEE-754 binary64 (the
    specification [SpecFloat] of the Standard Library), a UUID is its 128-bit
    value. *)

From S2P Require Import Prelude.
From stdpp Require Import pretty.
From Stdlib Require Import Ascii.
From Stdlib Require Export SpecFloat.

Open Scope Z_scope.

(** ** 64-bit integers *)

Definition wrap64 (z : Z) : Z := (z + 2 ^ 63) mod 2 ^ 64 - 2 ^ 63.
Arguments wrap64 : simpl never.
Definition minInt64 : Z := - 2 ^ 63.
Definition maxInt64 : Z := 2 ^ 63 - 1.
Definition int64_range (z : Z) : Prop := minInt64 <= z <= maxInt64.

Declare Scope go_scope.
Delimit Scope go_scope with go.
Notation "x +! y" := (wrap64 (x + y)) (at level 50, left associativity) : go_scope.
Notation "x -! y" := (wrap64 (x - y)) (at level 50, left associativity) : go_scope.
Notation "x *! y" := (wrap64 (x * y)) (at level 40, left associativity) : go_scope.
Notation "-! x" := (wrap64 (- x)) (at level 35, right associativity) : go_scope.
Open Scope go_scope.

Lemma wrap64_id z : int64_range z → wrap64 z = z.
Proof. unfold int64_range, wrap64, minInt64, maxInt64. intros. rewrite Z.mod_small; lia. Qed.
(** Remove the wrap-arounds whose operand [lia] can bound. *)
Ltac unwrap := repeat match goal with
  | |- context [wrap64 ?z] =>
      rewrite (wrap64_id z) by (unfold int64_range, minInt64, maxInt64 in *; lia)
  end.
Lemma wrap64_range z : int64_range (wrap64 z).
Proof.
  unfold int64_range, wrap64, minInt64, maxInt64.
  pose proof (Z.mod_pos_bound (z + 2 ^ 63) (2 ^ 64) ltac:(lia)). lia.
Qed.
Lemma wrap64_congr a b : a mod 2 ^ 64 = b mod 2 ^ 64 → wrap64 a = wrap64 b.
Proof.
  intros H. unfold wrap64. f_equal.
  by rewrite <-(Zplus_mod_idemp_l a), H, Zplus_mod_idemp_l.
Qed.
Lemma wrap64_mod a : wrap64 a mod 2 ^ 64 = a mod 2 ^ 64.
Proof.
  unfold wrap64. rewrite Zminus_mod_idemp_l.
  f_equal. lia.
Qed.
Lemma wrap64_add_l a b : wrap64 (wrap64 a + b) = wrap64 (a + b).
Proof. apply wrap64_congr. by rewrite <-Zplus_mod_idemp_l, wrap64_mod, Zplus_mod_idemp_l. Qed.
Lemma wrap64_add_r a b : wrap64 (a + wrap64 b) = wrap64 (a + b).
Proof. rewrite Z.add_comm, wrap64_add_l. f_equal. lia. Qed.
#[export] Hint Resolve wrap64_range : netra.

(** [sum_go l]: the value of a loop [s += x] over [l]. *)
Definition sum_go (l : list Z) : Z := foldl (λ s x, s +! x) 0 l.

Lemma foldl_sum_wrap l s : foldl (λ s x, s +! x) (wrap64 s) l = wrap64 (s + zsum l).
Proof.
  revert s. induction l as [|x l IH]; intros s; simpl.
  - rewrite zsum_nil. f_equal. lia.
  - rewrite wrap64_add_l, IH, zsum_cons. f_equal. lia.
Qed.
Lemma sum_go_wrap l : sum_go l = wrap64 (zsum l).
Proof. unfold sum_go. apply (foldl_sum_wrap l 0). Qed.

(** ** Durations and times *)

Definition nanosecond : Z := 1.
Definition microsecond : Z := 1000.
Definition millisecond : Z := 1000 * microsecond.
Definition second : Z := 1000 * millisecond.
Definition minute : Z := 60 * second.
Definition hour : Z := 60 * minute.

(** A [time.Time] is the nanosecond count since the Unix epoch, at the range
    Go represents: a 64-bit count of seconds since year 1 plus nanoseconds. *)
Definition unixToInternal : Z := 62135596800.
Definition zero_time : Z := - (unixToInternal * second).
Definition time_isZero (t : Z) : bool := t =? zero_time.

(** [time.Unix(sec, 0)]: the internal seconds wrap. *)
Definition time_unix (sec : Z) : Z := (wrap64 (sec + unixToInternal) - unixToInternal) * second.
(** [time.UnixMilli(ms)] is [Unix(ms/1e3, (ms%1e3)*1e6)]; the quotient is far
    from the range where the internal seconds wrap. *)
Definition time_unixMilli (ms : Z) : Z := ms * millisecond.
(** [t.Unix()]. *)
Definition time_toUnix (t : Z) : Z := t / second.

(** [t.Add(d)]: seconds saturate. *)
Definition time_add (t d : Z) : Z :=
  let s := (t + d) / second + unixToInternal in
  if s >? maxInt64 then (maxInt64 - unixToInternal) * second + (t + d) mod second
  else if s <? minInt64 then (- maxInt64 - unixToInternal) * second + (t + d) mod second
  else t + d.

(** [t.Sub(u)]: the difference in a [Duration], saturating when it does not
    fit. *)
Definition time_sub (t u : Z) : Z :=
  let d := wrap64 (t - u) in
  if time_add u d =? t then d
  else if t <? u then minInt64 else maxInt64.

Arguments time_add : simpl never.
Arguments time_sub : simpl never.
Definition time_after (t u : Z) : bool := u <? t.
Definition time_before (t u : Z) : bool := t <? u.

(** [t.Truncate(time.Microsecond)] of a time after year 1. *)
Definition time_truncate_us (t : Z) : Z := t - (t - zero_time) mod microsecond.

(** [t.UTC().Hour()]. *)
Definition time_hour (t : Z) : Z := (t / hour) mod 24.

(** Times the internal representation holds with room for any duration. *)
Definition sane_time (t : Z) : Prop := - 2 ^ 62 * second <= t <= 2 ^ 62 * second.

Lemma time_add_sane t d : sane_time t → int64_range d → time_add t d = t + d.
Proof.
  unfold sane_time, int64_range, time_add, minInt64, maxInt64.
  intros Ht Hd. cbv zeta.
  assert (Hb : - 2 ^ 62 - 9223372037 <= (t + d) / second <= 2 ^ 62 + 9223372037).
  { change second with 1000000000 in *. split.
    - apply Z.div_le_lower_bound; lia.
    - apply Z.div_le_upper_bound; lia. }
  change unixToInternal with 62135596800.
  destruct (_ >? _) eqn:E1; [rewrite Z.gtb_ltb in E1; apply Z.ltb_lt in E1; lia|].
  destruct (_ <? _) eqn:E2; [apply Z.ltb_lt in E2; lia|]. done.
Qed.

(** [Sub] is exact when the difference fits in a [Duration], and saturates
    otherwise. *)
Lemma time_sub_sane t u : sane_time u →
  time_sub t u = if bool_decide (int64_range (t - u)) then t - u
                 else if t <? u then minInt64 else maxInt64.
Proof.
  intros Hu. unfold time_sub. cbv zeta.
  rewrite time_add_sane by auto using wrap64_range.
  case_bool_decide as Hr.
  - rewrite (wrap64_id (t - u)) by done.
    replace (u + (t - u) =? t) with true by (symmetry; apply Z.eqb_eq; lia). done.
  - destruct (u + wrap64 (t - u) =? t) eqn:E; [|done].
    apply Z.eqb_eq in E. exfalso. apply Hr.
    replace (t - u) with (wrap64 (t - u)) by lia. apply wrap64_range.
Qed.

Lemma time_sub_exact t u : sane_time u → int64_range (t - u) → time_sub t u = t - u.
Proof. intros. rewrite time_sub_sane by done. by rewrite bool_decide_eq_true_2. Qed.

(** ** Strings: byte sequences *)

Definition ch (c : ascii) : Z := Z.of_N (N_of_ascii c).
Definition len (s : string) : Z := Z.of_nat (String.length s).

Lemma ch_inj a b : ch a = ch b → a = b.
Proof.
  unfold ch. intros H%N2Z.inj. rewrite <-(ascii_N_embedding a), <-(ascii_N_embedding b).
  by rewrite H.
Qed.
Lemma len_nonneg s : 0 <= len s.
Proof. unfold len. lia. Qed.

(** [s < t] on strings: bytewise lexicographic. *)
Fixpoint str_ltb (s t : string) : bool :=
  match s, t with
  | _, EmptyString => false
  | EmptyString, String _ _ => true
  | String a s', String b t' =>
      if ch a <? ch b then true
      else if ch b <? ch a then false else str_ltb s' t'
  end.

Lemma str_ltb_irrefl s : str_ltb s s = false.
Proof. induction s as [|a s IH]; simpl; [done|]. by rewrite Z.ltb_irrefl. Qed.
Lemma str_ltb_asym s t : str_ltb s t = true → str_ltb t s = false.
Proof.
  revert t. induction s as [|a s IH]; intros [|b t]; simpl; try done.
  destruct (ch a <? ch b) eqn:E1, (ch b <? ch a) eqn:E2; try done; [zlia|].
  apply IH.
Qed.
Lemma str_ltb_total s t : str_ltb s t = false → str_ltb t s = false → s = t.
Proof.
  revert t. induction s as [|a s IH]; intros [|b t]; simpl; try done.
  destruct (ch a <? ch b) eqn:E1, (ch b <? ch a) eqn:E2; try done.
  intros. f_equal; [apply ch_inj; zlia|]. by apply IH.
Qed.
Lemma str_ltb_trans s t u : str_ltb s t = true → str_ltb t u = true → str_ltb s u = true.
Proof.
  revert t u. induction s as [|a s IH]; intros [|b t] [|c u]; simpl; try done.
  destruct (ch a <? ch b) eqn:E1, (ch b <? ch a) eqn:E2, (ch b <? ch c) eqn:E3,
    (ch c <? ch b) eqn:E4; try done; intros H1 H2;
    destruct (ch a <? ch c) eqn:E5, (ch c <? ch a) eqn:E6; try done; try zlia.
  by eapply IH.
Qed.
(** The order [less] induces by [not (y < x)] is transitive. *)
Lemma str_leb_trans s t u : str_ltb t s = false → str_ltb u t = false → str_ltb u s = false.
Proof.
  intros H1 H2. destruct (str_ltb u s) eqn:E; [|done].
  destruct (str_ltb s t) eqn:E2; [by rewrite (str_ltb_trans u s t) in H2|].
  by rewrite (str_ltb_total s t) in E by done; congruence.
Qed.

Definition str_eqb (s t : string) : bool := bool_decide (s = t).
Lemma str_eqb_eq s t : str_eqb s t = true ↔ s = t.
Proof. unfold str_eqb. by rewrite bool_decide_eq_true. Qed.
Lemma str_eqb_refl s : str_eqb s s = true.
Proof. by apply str_eqb_eq. Qed.

(** [slices.Contains], and the loop [contains]. *)
Definition str_mem (x : string) (l : list string) : bool := existsb (str_eqb x) l.
Lemma str_mem_elem x l : str_mem x l = true ↔ x ∈ l.
Proof.
  unfold str_mem. rewrite existsb_elem. split.
  - intros (y & Hy & ->%str_eqb_eq). done.
  - intros. exists x. split; [done|apply str_eqb_refl].
Qed.

(** *** [strings.TrimSpace]

    White space is what [unicode.IsSpace] accepts, in its UTF-8 encoding. *)
Definition space1 (a : ascii) : bool := ((9 <=? ch a) && (ch a <=? 13)) || (ch a =? 32).
Definition space2 (a b : ascii) : bool :=
  (ch a =? 194) && ((ch b =? 133) || (ch b =? 160)).
Definition space3 (a b c : ascii) : bool :=
  ((ch a =? 225) && (ch b =? 154) && (ch c =? 128))
  || ((ch a =? 226) && (ch b =? 128)
      && (((128 <=? ch c) && (ch c <=? 138)) || (ch c =? 168) || (ch c =? 169) || (ch c =? 175)))
  || ((ch a =? 226) && (ch b =? 129) && (ch c =? 159))
  || ((ch a =? 227) && (ch b =? 128) && (ch c =? 128)).

Fixpoint trim_left (s : string) : string :=
  match s with
  | EmptyString => s
  | String a s1 =>
      if space1 a then trim_left s1 else
      match s1 with
      | EmptyString => s
      | String b s2 =>
          if space2 a b then trim_left s2 else
          match s2 with
          | EmptyString => s
          | String c s3 => if space3 a b c then trim_left s3 else s
          end
      end
  end.

(** The same scan from the right end, on the reversed string. *)
Fixpoint trim_left_rev (s : string) : string :=
  match s with
  | EmptyString => s
  | String a s1 =>
      if space1 a then trim_left_rev s1 else
      match s1 with
      | EmptyString => s
      | String b s2 =>
          if space2 b a then trim_left_rev s2 else
          match s2 with
          | EmptyString => s
          | String c s3 => if space3 c b a then trim_left_rev s3 else s
          end
      end
  end.

Definition trim_space (s : string) : string :=
  String.rev (trim_left_rev (String.rev (trim_left s))).

(** *** Case mapping

    [strings.ToUpper], [strings.ToLower] and [strings.EqualFold] on the ASCII
    letters and on the four non-ASCII runes whose case mapping is an ASCII
    letter (U+0131, U+017F, U+0130, U+212A); every other byte is left as it
    is.  The code only compares results with ASCII constants, and there these
    functions agree with Go's. *)
Definition upper1 (c : ascii) : ascii :=
  if (97 <=? ch c) && (ch c <=? 122) then ascii_of_N (N_of_ascii c - 32) else c.
Definition lower1 (c : ascii) : ascii :=
  if (65 <=? ch c) && (ch c <=? 90) then ascii_of_N (N_of_ascii c + 32) else c.

Fixpoint to_upper (s : string) : string :=
  match s with
  | EmptyString => EmptyString
  | String a s1 =>
      match s1 with
      | String b s2 =>
          if (ch a =? 196) && (ch b =? 177) then String "I" (to_upper s2)
          else if (ch a =? 197) && (ch b =? 191) then String "S" (to_upper s2)
          else String (upper1 a) (to_upper s1)
      | EmptyString => String (upper1 a) EmptyString
      end
  end.

Fixpoint to_lower (s : string) : string :=
  match s with
  | EmptyString => EmptyString
  | String a s1 =>
      match s1 with
      | String b s2 =>
          if (ch a =? 196) && (ch b =? 176) then String "i" (to_lower s2)
          else match s2 with
          | String c s3 =>
              if (ch a =? 226) && (ch b =? 132) && (ch c =? 170) then String "k" (to_lower s3)
              else String (lower1 a) (to_lower s1)
          | EmptyString => String (lower1 a) (to_lower s1)
          end
      | EmptyString => String (lower1 a) EmptyString
      end
  end.

(** The representative of a string's folding class. *)
Fixpoint fold_key (s : string) : string :=
  match s with
  | EmptyString => EmptyString
  | String a s1 =>
      match s1 with
      | String b s2 =>
          if (ch a =? 197) && (ch b =? 191) then String "s" (fold_key s2)
          else match s2 with
          | String c s3 =>
              if (ch a =? 226) && (ch b =? 132) && (ch c =? 170) then String "k" (fold_key s3)
              else String (lower1 a) (fold_key s1)
          | EmptyString => String (lower1 a) (fold_key s1)
          end
      | EmptyString => String (lower1 a) EmptyString
      end
  end.
Definition equal_fold (s t : string) : bool := str_eqb (fold_key s) (fold_key t).

Lemma equal_fold_refl s : equal_fold s s = true.
Proof. apply str_eqb_refl. Qed.

(** *** [strconv.ParseInt(s, 10, 64)] and [strconv.Atoi]

    An optional sign and at least one decimal digit; [None] is a syntax or range
    error. *)
Definition is_digit (c : ascii) : bool := (48 <=? ch c) && (ch c <=? 57).
Fixpoint parse_digits (s : string) (acc : Z) : option Z :=
  match s with
  | EmptyString => Some acc
  | String c s' => if is_digit c then parse_digits s' (acc * 10 + (ch c - 48)) else None
  end.
Definition parse_uint (s : string) : option Z :=
  match s with EmptyString => None | _ => parse_digits s 0 end.
Definition in_int64 (z : Z) : option Z :=
  if (minInt64 <=? z) && (z <=? maxInt64) then Some z else None.
Definition parse_int64 (s : string) : option Z :=
  match s with
  | String c s' =>
      if ch c =? 45 then z ← parse_uint s'; in_int64 (- z)
      else if ch c =? 43 then z ← parse_uint s'; in_int64 z
      else z ← parse_uint s; in_int64 z
  | EmptyString => None
  end.
Lemma parse_int64_range s z : parse_int64 s = Some z → int64_range z.
Proof.
  assert (∀ n, in_int64 n = Some z → int64_range z) as H.
  { intros n. unfold in_int64, int64_range. destruct (_ && _) eqn:E; [|done].
    intros [= <-]. zlia. }
  unfold parse_int64. destruct s as [|c s]; [done|].
  destruct (ch c =? 45); [|destruct (ch c =? 43)];
    (destruct (parse_uint _); simpl; [apply H|done]).
Qed.

(** *** Joining, printing *)

(** [strings.Join]. *)
Fixpoint str_join (sep : string) (l : list string) : string :=
  match l with
  | [] => EmptyString
  | [x] => x
  | x :: l' => (x +:+ sep +:+ str_join sep l')%stdpp
  end.

Definition nl : string := String (ascii_of_N 10) EmptyString.

(** [fmt.Sprint] of an [int]. *)
Definition sprint_int (z : Z) : string := pretty z.
Arguments sprint_int : simpl never.

(** *** Printing a [time.Duration]

    [d.Round(m)] and [d.String()], the latter for durations of at least one
    second (the code only prints rounded durations above 15 minutes). *)
Definition duration_round (d m : Z) : Z :=
  if m <=? 0 then d else
  let r := Z.rem d m in
  if d <? 0 then
    let r := -! r in
    if (r +! r) <? m then d +! r
    else let d1 := (d -! m) +! r in if d1 <? d then d1 else minInt64
  else if (r +! r) <? m then d -! r
  else let d1 := (d +! m) -! r in if d <? d1 then d1 else maxInt64.

(** The digits of a fraction [n/10^k] of a second, without trailing zeros. *)
Fixpoint frac_digits (k : nat) (n : Z) : string :=
  match k with
  | O => EmptyString
  | S k' => if n =? 0 then EmptyString else
      (sprint_int (n / 10 ^ Z.of_nat k') +:+ frac_digits k' (n mod 10 ^ Z.of_nat k'))%stdpp
  end.
Definition duration_string (d : Z) : string :=
  let u := Z.abs d in
  let secs := u / second in
  let frac := u mod second in
  let h := secs / 3600 in let m := (secs / 60) mod 60 in let s := secs mod 60 in
  ((if d <? 0 then "-" else "")
   +:+ (if 0 <? h then sprint_int h +:+ "h" else "")
   +:+ (if 0 <? secs / 60 then sprint_int m +:+ "m" else "")
   +:+ sprint_int s +:+ (if frac =? 0 then "" else "." +:+ frac_digits 9 frac) +:+ "s")%stdpp.

Arguments duration_string : simpl never.
Arguments duration_round : simpl never.

(** Lower-case hexadecimal digits, as [hex.EncodeToString]. *)
Definition hex_digit (n : N) : ascii :=
  if (n <? 10)%N then ascii_of_N (48 + n) else ascii_of_N (87 + n).
(** [k] hexadecimal digits of [n], most significant first. *)
Fixpoint hex_digits (k : nat) (n : N) : string :=
  match k with
  | O => EmptyString
  | S k' => String (hex_digit ((n / 16 ^ N.of_nat k') mod 16)) (hex_digits k' n)
  end.
Fixpoint hex_encode (s : string) : string :=
  match s with
  | EmptyString => EmptyString
  | String c s' => (hex_digits 2 (N_of_ascii c) +:+ hex_encode s')%stdpp
  end.

(** ** UUIDs *)

Abbreviation uuid := N (only parsing).
Definition uuid_valid (u : uuid) : Prop := (u < 2 ^ 128)%N.
Definition uuid_nil : uuid := 0%N.

(** [u.String()]: xxxxxxxx-xxxx-xxxx-xxxx-xxxxxxxxxxxx. *)
Definition uuid_string (u : uuid) : string :=
  (hex_digits 8 (u / 2 ^ 96) +:+ "-" +:+ hex_digits 4 (u / 2 ^ 80)
   +:+ "-" +:+ hex_digits 4 (u / 2 ^ 64) +:+ "-" +:+ hex_digits 4 (u / 2 ^ 48)
   +:+ "-" +:+ hex_digits 12 u)%stdpp.

(** Hexadecimal printing loses nothing. *)
Lemma hex_digit_inj a b : (a < 16)%N → (b < 16)%N → hex_digit a = hex_digit b → a = b.
Proof.
  intros Ha Hb. unfold hex_digit.
  destruct (a <? 10)%N eqn:Ea, (b <? 10)%N eqn:Eb; intros H%(f_equal N_of_ascii);
    rewrite !N_ascii_embedding in H by lia; lia.
Qed.
Lemma hex_digits_length k n : String.length (hex_digits k n) = k.
Proof. induction k; simpl; congruence. Qed.
Lemma hex_digits_inj k a b :
  hex_digits k a = hex_digits k b → (a mod 16 ^ N.of_nat k = b mod 16 ^ N.of_nat k)%N.
Proof.
  induction k as [|k IH]; intros H; [by rewrite !N.mod_1_r|].
  cbn [hex_digits] in H. injection H as Hd Ht%IH.
  apply hex_digit_inj in Hd; [|apply N.mod_lt; lia..].
  rewrite Nat2N.inj_succ, N.pow_succ_r', (N.mul_comm 16).
  rewrite !N.Div0.mod_mul_r. by rewrite Hd, Ht.
Qed.
Lemma str_app_inv_len s1 s2 t1 t2 :
  String.length s1 = String.length s2 →
  (s1 +:+ t1 = s2 +:+ t2)%stdpp → s1 = s2 ∧ t1 = t2.
Proof.
  revert s2. induction s1 as [|a s1 IH]; intros [|b s2]; simpl; try done.
  intros Hl H. injection Hl as Hl. injection H as -> H.
  destruct (IH s2 Hl H) as [-> ->]. done.
Qed.
Fixpoint str_all (p : ascii → bool) (s : string) : bool :=
  match s with EmptyString => true | String c s' => p c && str_all p s' end.
Lemma str_all_app p s t : str_all p (s +:+ t)%stdpp = str_all p s && str_all p t.
Proof. induction s as [|c s IH]; [done|]. simpl. rewrite IH. apply andb_assoc. Qed.
Lemma str_all_impl (p q : ascii → bool) s :
  (∀ c, p c = true → q c = true) → str_all p s = true → str_all q s = true.
Proof.
  intros Hpq. induction s as [|c s IH]; [done|]. simpl. rewrite !andb_true_iff. naive_solver.
Qed.
Lemma str_app_nil_r (s : string) : (s +:+ "" = s)%stdpp.
Proof. induction s as [|a s IH]; [done|]. exact (f_equal (String a) IH). Qed.
Lemma str_app_assoc (s t u : string) : ((s +:+ t) +:+ u = s +:+ t +:+ u)%stdpp.
Proof. induction s as [|c s IH]; [done|]. exact (f_equal (String c) IH). Qed.
Lemma str_app_length (s t : string) :
  String.length (s +:+ t)%stdpp = (String.length s + String.length t)%nat.
Proof. induction s as [|a s IH]; simpl; [done|]. by rewrite IH. Qed.

Lemma uuid_string_inj u v :
  uuid_valid u → uuid_valid v → uuid_string u = uuid_string v → u = v.
Proof.
  unfold uuid_valid, uuid_string. intros Hu Hv H.
  apply str_app_inv_len in H as [H1%hex_digits_inj H]; [|by rewrite !hex_digits_length].
  apply str_app_inv_len in H as [_ H]; [|done].
  apply str_app_inv_len in H as [H2%hex_digits_inj H]; [|by rewrite !hex_digits_length].
  apply str_app_inv_len in H as [_ H]; [|done].
  apply str_app_inv_len in H as [H3%hex_digits_inj H]; [|by rewrite !hex_digits_length].
  apply str_app_inv_len in H as [_ H]; [|done].
  apply str_app_inv_len in H as [H4%hex_digits_inj H]; [|by rewrite !hex_digits_length].
  apply str_app_inv_len in H as [_ H5%hex_digits_inj]; [|done].
  change (16 ^ N.of_nat 8)%N with (2 ^ 32)%N in H1. change (16 ^ N.of_nat 4)%N with (2 ^ 16)%N in *.
  change (16 ^ N.of_nat 12)%N with (2 ^ 48)%N in H5.
  assert (∀ k n a b, a / 2 ^ (k + n) = b / 2 ^ (k + n) → (a / 2 ^ k) mod 2 ^ n = (b / 2 ^ k) mod 2 ^ n
    → a / 2 ^ k = b / 2 ^ k)%N as Hjoin.
  { intros k n a b Hq Hm. rewrite !N.pow_add_r, <-!N.Div0.div_div in Hq.
    rewrite (N.div_mod (a / 2 ^ k) (2 ^ n)), (N.div_mod (b / 2 ^ k) (2 ^ n))
      by (apply N.pow_nonzero; done). by rewrite Hq, Hm. }
  rewrite !N.mod_small in H1 by (apply N.Div0.div_lt_upper_bound; lia).
  apply (Hjoin 80%N 16%N u v H1) in H2. apply (Hjoin 64%N 16%N u v H2) in H3.
  apply (Hjoin 48%N 16%N u v H3) in H4.
  rewrite (N.div_mod u (2 ^ 48)), (N.div_mod v (2 ^ 48)) by done. by rewrite H4, H5.
Qed.

(** ** [float64] *)

Abbreviation f64 := spec_float (only parsing).
Definition f64_add : f64 → f64 → f64 := SFadd 53 1024.
Definition f64_sub : f64 → f64 → f64 := SFsub 53 1024.
Definition f64_mul : f64 → f64 → f64 := SFmul 53 1024.
Definition f64_div : f64 → f64 → f64 := SFdiv 53 1024.
Definition f64_sqrt : f64 → f64 := SFsqrt 53 1024.
Definition f64_ltb : f64 → f64 → bool := SFltb.
Definition f64_leb : f64 → f64 → bool := SFleb.

(** [float64(z)]. *)
Definition f64_of_int (z : Z) : f64 := binary_normalize 53 1024 z 0 false.
Arguments f64_of_int : simpl never.
(** The constant [n/10^k] (correctly rounded, as the compiler does). *)
Definition f64_const (n : Z) (k : nat) : f64 :=
  f64_div (f64_of_int n) (f64_of_int (10 ^ Z.of_nat k)).

Arguments f64_const : simpl never.
Arguments f64_add : simpl never.
Arguments f64_sub : simpl never.
Arguments f64_mul : simpl never.

(** [int(f)]: truncation toward zero.  Out of range (and for NaN) the result
    is implementation-defined; the amd64 instruction yields the smallest
    integer. *)
Definition f64_trunc (f : f64) : Z :=
  match f with
  | S754_zero _ => 0
  | S754_finite s m e =>
      let v := if 0 <=? e then Zpos m * 2 ^ e else Zpos m / 2 ^ (- e) in
      if s then - v else v
  | _ => minInt64
  end.
Definition f64_to_int (f : f64) : Z :=
  let v := f64_trunc f in
  if (minInt64 <=? v) && (v <=? maxInt64) then v else minInt64.

Lemma f64_to_int_range f : int64_range (f64_to_int f).
Proof.
  unfold f64_to_int, int64_range, minInt64, maxInt64. cbv zeta.
  destruct (_ && _) eqn:E; [zlia|lia].
Qed.
#[export] Hint Resolve f64_to_int_range : netra.

(** ** Errors and results of fallible code

    [error] collects the sentinel errors of the packages (their wrapping
    message is kept where the code returns it to a caller), failures of the
    database, and a run-time panic. *)
Inductive error :=
  | ErrDB (what : string)                    (* a failed query, begin or commit *)
  | ErrNoRows                                (* pgx.ErrNoRows *)
  | ErrUnique                                (* SQLSTATE 23505 *)
  | ErrInvalidPolicy (msg : string)
  | ErrThresholds | ErrWeights (name : string)
  | ErrPosture (msg : string)
  | ErrNoPosture
  | ErrNoProfile
  | ErrInvalidEvent (msg : string)
  | ErrIncidentNotFound
  | ErrChain (seq : Z) (reason : string)
  | ErrAuditEntry
  | ErrEnrollmentToken | ErrDeviceExists | ErrDeviceNotFound | ErrDeviceNotActive
  | ErrReplayedNonce | ErrSignature | ErrClockSkew | ErrDeviceValidation (msg : string)
  | ErrNonce | ErrAttestation | ErrDeviceUnusable | ErrSessionValidation (msg : string)
  | ErrInvalidToken | ErrClaims | ErrDisabled
  | ErrConfig (msgs : list string)
  | ErrPanic (what : string).
#[export] Instance error_eq_dec : EqDecision error.
Proof. solve_decision. Defined.

Abbreviation result A := (A + error)%type (only parsing).
Definition is_ok {A} (r : result A) : bool := match r with inl _ => true | inr _ => false end.

Definition rbind {A B} (r : result A) (f : A → result B) : result B :=
  match r with inl a => f a | inr e => inr e end.
Notation "'let!' x := r 'in' k" := (rbind r (λ x, k))
  (at level 10, x name, r at level 100, k at level 200, only parsing) : go_scope.
(** [if cond { return err }] in a validation function. *)
Definition reject (c : bool) (e : error) (k : result unit) : result unit :=
  if c then inr e else k.
Notation "'reject!' c 'with' e ';' k" := (reject c e k)
  (at level 10, c at level 100, e at level 100, k at level 200, only parsing) : go_scope.
