(* ===== verification/Encode.v ===== *)
(** * Text encodings of the Go standard library

    [encoding/json] for the values the code marshals (null, booleans, integers,
    strings, slices and maps with string keys) and [time.Format] with the RFC
    3339 layouts, for times in UTC. *)

From S2P Require Import Prelude GoStd.
From Stdlib Require Import Ascii.
Open Scope Z_scope.
Open Scope go_scope.

(** ** JSON *)

#[warnings="-register-all"]
Inductive json :=
  | JNull | JBool (b : bool) | JInt (z : Z) | JString (s : string)
  | JArray (l : list json) | JObject (kvs : list (string * json)).

Definition byte (n : Z) : ascii := ascii_of_N (Z.to_N n).
Definition quote : ascii := byte 34.
Definition hex4 (n : N) : string := (String (byte 92) (String (byte 117) (hex_digits 4 n))).

Definition cont (c : ascii) : bool := (128 <=? ch c) && (ch c <=? 191).
Definition between (lo hi : Z) (c : ascii) : bool := (lo <=? ch c) && (ch c <=? hi).
(** The length of the valid UTF-8 sequence that starts [s], 0 if there is none. *)
Definition rune_len (s : string) : nat :=
  match s with
  | EmptyString => 0%nat
  | String a s1 =>
      if ch a <? 128 then 1%nat else
      match s1 with
      | EmptyString => 0%nat
      | String b s2 =>
          if between 194 223 a && cont b then 2%nat else
          match s2 with
          | EmptyString => 0%nat
          | String c s3 =>
              if cont c && ((ch a =? 224) && between 160 191 b || between 225 236 a && cont b
                 || (ch a =? 237) && between 128 159 b || between 238 239 a && cont b) then 3%nat else
              match s3 with
              | EmptyString => 0%nat
              | String d _ =>
                  if cont c && cont d && ((ch a =? 240) && between 144 191 b
                     || between 241 243 a && cont b || (ch a =? 244) && between 128 143 b) then 4%nat
                  else 0%nat
              end
          end
      end
  end.

(** One ASCII byte inside a JSON string. *)
Definition escape_ascii (a : ascii) : string :=
  if (ch a =? 34) || (ch a =? 92) then String (byte 92) (String a EmptyString)
  else if ch a =? 8 then String (byte 92) "b" else if ch a =? 12 then String (byte 92) "f"
  else if ch a =? 10 then String (byte 92) "n" else if ch a =? 13 then String (byte 92) "r"
  else if ch a =? 9 then String (byte 92) "t"
  else if (ch a <? 32) || (ch a =? 60) || (ch a =? 62) || (ch a =? 38) then hex4 (N_of_ascii a)
  else String a EmptyString.

(** [appendString]: [skip] counts the bytes of the current rune still to copy. *)
Fixpoint escape_from (skip : nat) (s : string) : string :=
  match s with
  | EmptyString => EmptyString
  | String a s' =>
      match skip with
      | S k => String a (escape_from k s')
      | O =>
          match rune_len s with
          | O => (hex4 65533 +:+ escape_from 0 s')%stdpp
          | 1%nat => (escape_ascii a +:+ escape_from 0 s')%stdpp
          | S k =>
              match s' with
              | String b (String c s3) =>
                  if (ch a =? 226) && (ch b =? 128) && ((ch c =? 168) || (ch c =? 169))
                  then (hex4 (8232 + N_of_ascii c - 168) +:+ escape_from 0 s3)%stdpp
                  else String a (escape_from k s')
              | _ => String a (escape_from k s')
              end
          end
      end
  end.

Definition json_string (s : string) : string :=
  (String quote (escape_from 0 s) +:+ String quote EmptyString)%stdpp.

Fixpoint marshal (v : json) : string :=
  match v with
  | JNull => "null"
  | JBool b => if b then "true" else "false"
  | JInt z => sprint_int z
  | JString s => json_string s
  | JArray l => ("[" +:+ str_join "," (marshal <$> l) +:+ "]")%stdpp
  | JObject kvs =>
      ("{" +:+ str_join "," ((λ kv, (json_string kv.1 +:+ ":" +:+ marshal kv.2)%stdpp) <$> kvs) +:+ "}")%stdpp
  end.
(** Go marshals a map with its keys sorted. *)
Definition json_map (m : gmap string json) : json :=
  JObject (sort_stable (λ x y, str_ltb x.1 y.1) (map_to_list m)).

(** ** Numbers read into an interface

    [json.Unmarshal] makes every number of an [any] a [float64], and [json.Marshal]
    prints a [float64] below 10^21 with the fewest decimal digits that read back as the
    same number, without an exponent.  For integers: *)

(** The nearest number with 53 significant bits, ties to even. *)
Definition round53 (n : Z) : Z :=
  let a := Z.abs n in
  let p := 2 ^ Z.max 0 (Z.log2 a - 52) in
  let q := a / p in
  let q := if (p <? 2 * (a mod p)) || (2 * (a mod p) =? p) && Z.odd q then q + 1 else q in
  Z.sgn n * (q * p).
(** The two multiples of [p] around [r], the nearest first. *)
Definition around (p r : Z) : list Z :=
  let q := r / p in
  if (2 * (r mod p) <? p) || (2 * (r mod p) =? p) && Z.even q then [q * p; (q + 1) * p] else [(q + 1) * p; q * p].
(** The digits: as many trailing zeros as possible, at most [zeros]. *)
Fixpoint shortest (zeros : nat) (r : Z) : Z :=
  match zeros with
  | O => r
  | S n =>
      match List.find (λ c, round53 c =? r) (around (10 ^ Z.of_nat zeros) r) with
      | Some c => c
      | None => shortest n r
      end
  end.
(** The integer that is printed for [float64(n)]. *)
Definition shown (n : Z) : Z := Z.sgn n * shortest 20 (round53 (Z.abs n)).

Example shown_sample :
  shown 9007199254740993 = 9007199254740992 ∧ shown 9223372036854775807 = 9223372036854776000 ∧
  shown (-1000000000000000001) = -1000000000000000000 ∧ shown 500 = 500.
Proof. vm_compute. done. Qed.

Lemma round53_exact n : 0 <= n <= 2 ^ 53 → round53 n = n.
Proof.
  intros Hn. destruct (decide (n = 0)) as [->|]; [done|]. destruct (decide (n = 2 ^ 53)) as [->|]; [done|].
  unfold round53. rewrite Z.abs_eq, Z.sgn_pos by lia. assert (Z.log2 n < 53) by (apply Z.log2_lt_pow2; lia).
  rewrite Z.max_l by lia. rewrite Z.pow_0_r, Z.div_1_r, Z.mod_1_r. change (1 <? 2 * 0) with false. change (2 * 0 =? 1) with false.
  cbn [orb andb]. lia.
Qed.
Lemma round53_above n : 2 ^ 53 + 1 < n → 2 ^ 53 < round53 n.
Proof.
  intros Hn. unfold round53. rewrite Z.abs_eq, Z.sgn_pos by lia.
  destruct (decide (n < 2 ^ 54)) as [Hlt|Hge].
  - assert (Z.log2 n = 53) as -> by (apply Z.log2_unique; lia). change (2 ^ Z.max 0 (53 - 52)) with 2.
    assert (2 ^ 52 + 1 <= n / 2) by (apply Z.div_le_lower_bound; lia).
    destruct (_ || _); lia.
  - assert (54 <= Z.log2 n) by (apply Z.log2_le_pow2; lia). set (e := Z.log2 n - 52).
    assert (2 ^ 52 <= n / 2 ^ e) as Hq.
    { apply Z.div_le_lower_bound; [apply Z.pow_pos_nonneg; lia|]. rewrite <-Z.pow_add_r by lia.
      replace (e + 52) with (Z.log2 n) by lia. apply Z.log2_spec. lia. }
    rewrite Z.max_r by lia. assert (2 ^ 2 <= 2 ^ e) as Hp by (apply Z.pow_le_mono_r; lia).
    destruct (_ || _); nia.
Qed.
Lemma shortest_exact zeros r : 0 <= r <= 2 ^ 53 → shortest zeros r = r.
Proof.
  intros Hr. induction zeros as [|n IH]; [done|]. cbn [shortest]. destruct (List.find _ _) as [c|] eqn:E; [|done].
  apply List.find_some in E as [Hin Hc%Z.eqb_eq]. set (p := 10 ^ Z.of_nat (S n)) in *.
  assert (∃ k, c = k * p ∧ 0 <= k) as (k & -> & Hk).
  { assert (0 < p) by (apply Z.pow_pos_nonneg; lia). pose proof (Z.div_pos r p ltac:(lia) ltac:(lia)).
    unfold around in Hin. destruct (_ || _); simpl in Hin; destruct Hin as [<-|[<-|[]]]; eexists; (split; [done|lia]). }
  assert (∃ x, p = 10 * x ∧ 0 < x) as (x & Hx & Hpos).
  { exists (10 ^ Z.of_nat n). split; [|apply Z.pow_pos_nonneg; lia]. unfold p. rewrite Nat2Z.inj_succ, Z.pow_succ_r by lia. lia. }
  destruct (decide (k * p <= 2 ^ 53)) as [Hle|Hgt]; [rewrite round53_exact in Hc; [done|nia]|].
  destruct (decide (k * p = 2 ^ 53 + 1)) as [He|Hne]; [rewrite Hx in He; lia|].
  pose proof (round53_above (k * p) ltac:(lia)). lia.
Qed.
(** Integers of up to 53 bits are printed as they are. *)
Lemma shown_exact n : Z.abs n <= 2 ^ 53 → shown n = n.
Proof. intros Hn. unfold shown. rewrite round53_exact, shortest_exact by lia. lia. Qed.

(** ** RFC 3339 *)

(** Year, month and day of a day count since the Unix epoch (proleptic Gregorian
    calendar): days are counted from 1 March of year 0, so that leap days end a
    four-year cycle. *)
Definition civil (days : Z) : Z * Z * Z :=
  let z := days + 719468 in
  let era := z / 146097 in
  let doe := z mod 146097 in
  let yoe := (doe - doe / 1460 + doe / 36524 - doe / 146096) / 365 in
  let doy := doe - (365 * yoe + yoe / 4 - yoe / 100) in
  let mp := (5 * doy + 2) / 153 in
  let d := doy - (153 * mp + 2) / 5 + 1 in
  let m := if mp <? 10 then mp + 3 else mp - 9 in
  (yoe + era * 400 + (if m <=? 2 then 1 else 0), m, d).

(** [n] in decimal, padded with zeros to [w] digits. *)
Fixpoint pad (w : nat) (n : Z) : string :=
  match w with
  | O => EmptyString
  | S w' => (pad w' (n / 10) +:+ String (byte (48 + n mod 10)) EmptyString)%stdpp
  end.
Definition pad_year (y : Z) : string :=
  if y <? 0 then ("-" +:+ pad 4 (- y))%stdpp
  else if y <? 10000 then pad 4 y else sprint_int y.

Definition rfc3339_secs (t : Z) : string :=
  let '(y, m, d) := civil (t / (24 * hour)) in
  let s := (t / second) mod 86400 in
  (pad_year y +:+ "-" +:+ pad 2 m +:+ "-" +:+ pad 2 d +:+ "T" +:+ pad 2 (s / 3600)
   +:+ ":" +:+ pad 2 ((s / 60) mod 60) +:+ ":" +:+ pad 2 (s mod 60))%stdpp.
(** [t.UTC().Format(time.RFC3339)]. *)
Definition rfc3339 (t : Z) : string := (rfc3339_secs t +:+ "Z")%stdpp.
(** [t.UTC().Format(time.RFC3339Nano)]: fractional digits without trailing zeros. *)
Definition rfc3339_nano (t : Z) : string :=
  let frac := t mod second in
  (rfc3339_secs t +:+ (if frac =? 0 then "" else "." +:+ frac_digits 9 frac) +:+ "Z")%stdpp.

Example rfc3339_sample : rfc3339_nano (1709210096123456000) = "2024-02-29T12:34:56.123456Z".
Proof. vm_compute. reflexivity. Qed.
Example marshal_sample :
  marshal (json_map (<["b" := JString "x<y"]> (<["a" := JArray [JInt 3; JBool true]]> ∅)))
  = ("{" +:+ String quote "a" +:+ String quote ":[3,true]," +:+ String quote "b" +:+ String quote ":"
     +:+ String quote "x" +:+ String (byte 92) "u003cy" +:+ String quote "}")%stdpp.
Proof. vm_compute. reflexivity. Qed.
