(* ===== verification/Json.v ===== *)
(** * [encoding/json]: the syntax

    What [json.Unmarshal] and [json.Decoder] make of a text before it is stored in a Go
    value: numbers are kept as they are written, strings as they are written and
    unquoted (escapes, surrogate pairs, U+FFFD for what is not UTF-8), objects keep
    their members in order.  The main result is that parsing what [Encode.marshal] prints gives the
    value back, with every byte that is not UTF-8 replaced. *)

From stdpp Require Import pretty.
From S2P Require Import Prelude GoStd Encode.
From Stdlib Require Import Ascii.
Open Scope Z_scope.
Open Scope go_scope.

#[warnings="-register-all"]
Inductive jval :=
  | VNull | VBool (b : bool) | VNum (lit : string) | VStr (raw s : string)
  | VArr (l : list jval) | VObj (kvs : list (string * jval)).

(** ** Strings *)

(** [utf8.EncodeRune]. *)
Definition utf8 (r : N) : string :=
  let b n := String (ascii_of_N n) EmptyString in
  (if r <? 128 then b r
   else if r <? 2048 then b (192 + r / 64) +:+ b (128 + r mod 64)
   else if r <? 65536 then b (224 + r / 4096) +:+ b (128 + r / 64 mod 64) +:+ b (128 + r mod 64)
   else b (240 + r / 262144) +:+ b (128 + r / 4096 mod 64) +:+ b (128 + r / 64 mod 64) +:+ b (128 + r mod 64))%N%stdpp.
Definition replacement : string := utf8 65533.

Definition hex_value (c : ascii) : option N :=
  if is_digit c then Some (N_of_ascii c - 48)%N
  else if between 97 102 c then Some (N_of_ascii c - 87)%N
  else if between 65 70 c then Some (N_of_ascii c - 55)%N else None.
(** [getu4], without the leading backslash and u. *)
Definition getu4 (a b c d : ascii) : option N :=
  x ← hex_value a; y ← hex_value b; z ← hex_value c; w ← hex_value d;
  Some (((x * 16 + y) * 16 + z) * 16 + w)%N.
Definition is_surrogate (r : N) : bool := ((55296 <=? r) && (r <=? 57343))%N.
(** [utf16.DecodeRune]. *)
Definition decode_pair (r r' : N) : option N :=
  if ((55296 <=? r) && (r <=? 56319) && (56320 <=? r') && (r' <=? 57343))%N
  then Some ((r - 55296) * 1024 + (r' - 56320) + 65536)%N else None.
Definition simple_escape (c : ascii) : option ascii :=
  if (ch c =? 34) || (ch c =? 92) || (ch c =? 47) then Some c
  else if ch c =? 98 then Some (byte 8) else if ch c =? 102 then Some (byte 12)
  else if ch c =? 110 then Some (byte 10) else if ch c =? 114 then Some (byte 13)
  else if ch c =? 116 then Some (byte 9) else None.

Definition push (x : string) (r : option (string * string)) : option (string * string) :=
  '(s, rest) ← r; Some ((x +:+ s)%stdpp, rest).
Definition push1 (a : ascii) : option (string * string) → option (string * string) := push (String a "").

(** The rest of a string literal after its opening quote: its value and what follows
    it; [skip] bytes of the current rune are copied. *)
Fixpoint unquote (skip : nat) (s : string) : option (string * string) :=
  match s with
  | EmptyString => None
  | String a s1 =>
      match skip with
      | S k => push1 a (unquote k s1)
      | O =>
          if ch a =? 34 then Some ("", s1)
          else if ch a =? 92 then
            match s1 with
            | EmptyString => None
            | String b s2 =>
                match simple_escape b with
                | Some c => push1 c (unquote 0 s2)
                | None =>
                    if negb (ch b =? 117) then None else
                    match s2 with
                    | String h1 (String h2 (String h3 (String h4 s3))) =>
                        match getu4 h1 h2 h3 h4 with
                        | None => None
                        | Some r =>
                            if is_surrogate r then
                              match s3 with
                              | String c1 (String c2 (String g1 (String g2 (String g3 (String g4 s4))))) =>
                                  match (if (ch c1 =? 92) && (ch c2 =? 117)
                                         then r' ← getu4 g1 g2 g3 g4; decode_pair r r' else None) with
                                  | Some p => push (utf8 p) (unquote 0 s4)
                                  | None => push replacement (unquote 0 s3)
                                  end
                              | _ => push replacement (unquote 0 s3)
                              end
                            else push (utf8 r) (unquote 0 s3)
                        end
                    | _ => None
                    end
                end
            end
          else if ch a <? 32 then None
          else match rune_len s with
            | O => push replacement (unquote 0 s1)
            | S k => push1 a (unquote k s1)
            end
      end
  end.

(** Bytes that are not UTF-8 become U+FFFD. *)
Fixpoint scrub (skip : nat) (s : string) : string :=
  match s with
  | EmptyString => EmptyString
  | String a s' =>
      match skip with
      | S k => String a (scrub k s')
      | O => match rune_len s with
             | O => (replacement +:+ scrub 0 s')%stdpp
             | S k => String a (scrub k s')
             end
      end
  end.

(** ** Numbers *)

Definition num_char (c : ascii) : bool :=
  is_digit c || (ch c =? 45) || (ch c =? 43) || (ch c =? 46) || (ch c =? 101) || (ch c =? 69).
Fixpoint span (p : ascii → bool) (s : string) : string * string :=
  match s with
  | String c s' => if p c then let '(x, y) := span p s' in (String c x, y) else (EmptyString, s)
  | EmptyString => (EmptyString, EmptyString)
  end.
Definition some_digits (s : string) : option string :=
  match span is_digit s with (EmptyString, _) => None | (_, rest) => Some rest end.
(** The grammar of a number, without its sign: the integer part, the fraction and the
    exponent. *)
Definition int_part (s : string) : option string :=
  match s with
  | String c s' => if ch c =? 48 then Some s' else some_digits s
  | EmptyString => None
  end.
Definition frac_part (s : string) : option string :=
  match s with String c s' => if ch c =? 46 then some_digits s' else Some s | EmptyString => Some s end.
Definition exp_part (s : string) : option string :=
  match s with
  | String c s' =>
      if (ch c =? 101) || (ch c =? 69) then
        match s' with
        | String d s'' => some_digits (if (ch d =? 43) || (ch d =? 45) then s'' else s')
        | EmptyString => None
        end
      else Some s
  | EmptyString => Some s
  end.
Definition valid_number (s : string) : bool :=
  let body := match s with String c s' => if ch c =? 45 then s' else s | EmptyString => s end in
  match (a ← int_part body; b ← frac_part a; exp_part b) with Some EmptyString => true | _ => false end.

(** ** Values *)

(** The outcome of a parser: [Starved] when the fuel does not suffice. *)
Inductive parsed (A : Type) := Parsed (a : A) (rest : string) | SyntaxError | Starved.
Arguments Parsed {A}. Arguments SyntaxError {A}. Arguments Starved {A}.
Definition pbind {A B} (p : parsed A) (k : A → string → parsed B) : parsed B :=
  match p with Parsed a rest => k a rest | SyntaxError => SyntaxError | Starved => Starved end.

Definition blank (c : ascii) : bool := (ch c =? 32) || (ch c =? 9) || (ch c =? 10) || (ch c =? 13).
Fixpoint skip_ws (s : string) : string :=
  match s with String c s' => if blank c then skip_ws s' else s | EmptyString => s end.
(** The literal [w] starts [s]. *)
Fixpoint strip (w s : string) : option string :=
  match w, s with
  | EmptyString, _ => Some s
  | String a w', String b s' => if ch a =? ch b then strip w' s' else None
  | _, EmptyString => None
  end.
Definition maxNestingDepth : Z := 10000.

Definition literal {A} (w : string) (a : A) (s : string) : parsed A :=
  match strip w s with Some rest => Parsed a rest | None => SyntaxError end.
(** A string literal: its text between the quotes, and its value. *)
Definition quoted (s : string) : parsed (string * string) :=
  match s with
  | String c s' =>
      if ch c =? 34 then
        match unquote 0 s' with
        | Some (x, rest) => Parsed (String.substring 0 (String.length s' - String.length rest - 1) s', x) rest
        | None => SyntaxError
        end
      else SyntaxError
  | EmptyString => SyntaxError
  end.
(** After an element: a comma and the rest of the list, or the end. *)
Definition more {A} (close : Z) (a : A) (rest : string) (next : string → parsed (list A)) : parsed (list A) :=
  match skip_ws rest with
  | String c s =>
      if ch c =? 44 then pbind (next s) (λ l s', Parsed (a :: l) s')
      else if ch c =? close then Parsed [a] s else SyntaxError
  | EmptyString => SyntaxError
  end.

(** A value with [depth] open brackets around it; [elements] and [members] read the
    rest of an array or object that has at least one. *)
Fixpoint value (fuel : nat) (depth : Z) (s : string) : parsed jval :=
  match fuel with
  | O => Starved
  | S f =>
      match skip_ws s with
      | EmptyString => SyntaxError
      | String c s1 as t =>
          if ch c =? 34 then pbind (quoted t) (λ x r, Parsed (VStr x.1 x.2) r)
          else if ch c =? 91 then
            if maxNestingDepth <=? depth then SyntaxError else
            match skip_ws s1 with
            | String d r => if ch d =? 93 then Parsed (VArr []) r
                            else pbind (elements f (depth + 1) s1) (λ l r', Parsed (VArr l) r')
            | EmptyString => SyntaxError
            end
          else if ch c =? 123 then
            if maxNestingDepth <=? depth then SyntaxError else
            match skip_ws s1 with
            | String d r => if ch d =? 125 then Parsed (VObj []) r
                            else pbind (members f (depth + 1) s1) (λ l r', Parsed (VObj l) r')
            | EmptyString => SyntaxError
            end
          else if ch c =? 116 then literal "true" (VBool true) t
          else if ch c =? 102 then literal "false" (VBool false) t
          else if ch c =? 110 then literal "null" VNull t
          else let '(lit, r) := span num_char t in
               if valid_number lit then Parsed (VNum lit) r else SyntaxError
      end
  end
with elements (fuel : nat) (depth : Z) (s : string) : parsed (list jval) :=
  match fuel with
  | O => Starved
  | S f => pbind (value f depth s) (λ v r, more 93 v r (elements f depth))
  end
with members (fuel : nat) (depth : Z) (s : string) : parsed (list (string * jval)) :=
  match fuel with
  | O => Starved
  | S f =>
      pbind (quoted (skip_ws s)) (λ k r,
      match skip_ws r with
      | String c r1 =>
          if ch c =? 58 then pbind (value f depth r1) (λ v r2, more 125 (k.2, v) r2 (members f depth))
          else SyntaxError
      | EmptyString => SyntaxError
      end)
  end.
Definition enough (s : string) : nat := 2 * String.length s + 2.

(** [json.Decoder.Decode] reads the first value of its input. *)
Definition parse_stream (s : string) : option jval :=
  match value (enough s) 0 s with Parsed v _ => Some v | _ => None end.
(** [json.Unmarshal]: one value and nothing else. *)
Definition parse (s : string) : option jval :=
  match value (enough s) 0 s with
  | Parsed v rest => match skip_ws rest with EmptyString => Some v | _ => None end
  | _ => None
  end.

Example parse_sample : parse (marshal (json_map (<["b" := JString "x<y"]> (<["a" := JArray [JInt (-3); JNull]]> ∅)))) =
  Some (VObj [("a", VArr [VNum "-3"; VNull]); ("b", VStr (escape_from 0 "x<y") "x<y")]).
Proof. vm_compute. reflexivity. Qed.
Example parse_escapes : parse (String quote (hex4 55357 +:+ hex4 56832 +:+ hex4 55357 +:+ "x" +:+ String quote "")%stdpp) =
  Some (VStr (hex4 55357 +:+ hex4 56832 +:+ hex4 55357 +:+ "x") (utf8 128512 +:+ replacement +:+ "x"))%stdpp.
Proof. vm_compute. reflexivity. Qed.

(** ** The parser consumes its input, and its fuel suffices *)

Lemma skip_ws_length s : (String.length (skip_ws s) <= String.length s)%nat.
Proof. induction s as [|c s IH]; simpl; [lia|]. destruct (blank c); simpl; lia. Qed.
Lemma span_length p s : (String.length (snd (span p s)) <= String.length s)%nat.
Proof. induction s as [|c s IH]; simpl; [lia|]. destruct (p c); [|simpl; lia]. destruct (span p s). simpl in *. lia. Qed.
Lemma strip_length w s r : strip w s = Some r → (String.length r + String.length w <= String.length s)%nat.
Proof.
  revert s. induction w as [|a w IH]; intros s; simpl; [intros [= <-]; lia|].
  destruct s as [|b s]; [done|]. destruct (ch a =? ch b); [|done]. intros H%IH. simpl. lia.
Qed.
Lemma push_Some x o s r : push x o = Some (s, r) → ∃ s', o = Some (s', r) ∧ s = (x +:+ s')%stdpp.
Proof. destruct o as [[s' r']|]; simpl; [|done]. intros [= <- <-]. by eexists. Qed.
Lemma unquote_length n : ∀ s k x r, (String.length s <= n)%nat → unquote k s = Some (x, r) → (String.length r < String.length s)%nat.
Proof.
  induction n as [|n IH]; intros [|a s1] k x r Hn; try done; simpl in Hn; [lia|].
  assert (∀ y s' k', (String.length s' <= String.length s1)%nat → push y (unquote k' s') = Some (x, r) →
    (String.length r < String.length (String a s1))%nat) as Hrec.
  { intros y s' k' Hl (z & Hz & _)%push_Some. apply IH in Hz; simpl; lia. }
  cbn [unquote]. destruct k as [|k]; [|by apply Hrec].
  destruct (ch a =? 34); [intros [= _ <-]; simpl; lia|]. destruct (ch a =? 92).
  - destruct s1 as [|b s2]; [done|]. destruct (simple_escape b); [apply Hrec; simpl; lia|]. destruct (negb _); [done|].
    destruct s2 as [|h1 [|h2 [|h3 [|h4 s3]]]]; try done. destruct (getu4 _ _ _ _) as [u|]; [|done].
    destruct (is_surrogate u); [|apply Hrec; simpl; lia].
    destruct s3 as [|c1 [|c2 [|g1 [|g2 [|g3 [|g4 s4]]]]]]; try (apply Hrec; simpl; lia).
    destruct (if (ch c1 =? 92) && _ then _ else _); apply Hrec; simpl; lia.
  - destruct (ch a <? 32); [done|]. destruct (rune_len _); apply Hrec; simpl; lia.
Qed.

(** A parser on [s] with enough fuel: it is not starved, and consumes something. *)
Definition settles {A} (p : parsed A) (s : string) (ample : Prop) : Prop :=
  match p with Parsed _ r => (String.length r < String.length s)%nat | SyntaxError => True | Starved => ¬ ample end.
Lemma settles_weaken {A} (p : parsed A) s s' (ample ample' : Prop) :
  settles p s ample → (String.length s <= String.length s')%nat → (ample' → ample) → settles p s' ample'.
Proof. destruct p; simpl; [lia|done|auto]. Qed.
Lemma settles_bind {A B} (p : parsed A) (k : A → string → parsed B) s s' (ample ample' : Prop) :
  settles p s ample → (String.length s <= String.length s')%nat → (ample' → ample) →
  (∀ a r, (String.length r < String.length s)%nat → settles (k a r) s' ample') → settles (pbind p k) s' ample'.
Proof. destruct p; simpl; auto. Qed.
Lemma settles_quoted s : settles (quoted s) s True.
Proof.
  destruct s as [|c s]; [done|]. simpl. destruct (ch c =? 34); [|done].
  destruct (unquote 0 s) as [[x r]|] eqn:E; [|done]. apply (unquote_length (String.length s)) in E; simpl; lia.
Qed.
Lemma settles_more {A} close (a : A) rest next s (ample : Prop) :
  (String.length rest < String.length s)%nat →
  (∀ s', (String.length s' < String.length rest)%nat → settles (next s') s' ample) → settles (more close a rest next) s ample.
Proof.
  intros Hl Hn. unfold more. pose proof (skip_ws_length rest) as Hw. destruct (skip_ws rest) as [|c s']; [done|]. simpl in Hw.
  destruct (ch c =? 44).
  - eapply settles_bind; [apply Hn; lia|lia|done|]. intros l r Hr. simpl. lia.
  - destruct (ch c =? close); [|done]. simpl. lia.
Qed.

Definition ample (f : nat) (s : string) (extra : nat) : Prop := (2 * String.length s + extra <= f)%nat.
Lemma settles_brackets {A} f (inner : nat → Z → string → parsed (list A)) (wrap : list A → jval) depth close s s1 c t :
  (∀ d s, settles (inner f d s) s (ample f s 2)) → t = String c s1 → (String.length t <= String.length s)%nat →
  settles (if maxNestingDepth <=? depth then SyntaxError else
           match skip_ws s1 with
           | String d r => if ch d =? close then Parsed (wrap []) r
                           else pbind (inner f (depth + 1) s1) (λ l r', Parsed (wrap l) r')
           | EmptyString => SyntaxError
           end) s (ample (S f) s 1).
Proof.
  intros Hi -> Hl. simpl in Hl. destruct (maxNestingDepth <=? depth); [done|].
  pose proof (skip_ws_length s1) as Hw. destruct (skip_ws s1) as [|d r]; [done|]. simpl in Hw.
  destruct (ch d =? close); [simpl; lia|]. eapply settles_bind; [apply Hi|lia|unfold ample; lia|].
  intros l r' Hr. simpl. lia.
Qed.
Lemma parser_settles f :
  (∀ d s, settles (value f d s) s (ample f s 1)) ∧ (∀ d s, settles (elements f d s) s (ample f s 2)) ∧
  (∀ d s, settles (members f d s) s (ample f s 2)).
Proof.
  induction f as [|f (IHv & IHe & IHm)]; [unfold ample; simpl; split_and!; intros; lia|]. split_and!; intros d s.
  - cbn [value]. pose proof (skip_ws_length s) as Hw. destruct (skip_ws s) as [|c s1]; [done|].
    destruct (ch c =? 34).
    { eapply settles_bind; [apply settles_quoted|done|done|]. intros x r Hr. simpl in *. lia. }
    destruct (ch c =? 91); [by eapply (settles_brackets f elements)|].
    destruct (ch c =? 123); [by eapply (settles_brackets f members)|].
    assert (∀ w (v : jval), w ≠ "" → settles (literal w v (String c s1)) s (ample (S f) s 1)) as Hlit.
    { intros w v Hne. unfold literal. destruct (strip w _) as [r|] eqn:E; [|done]. apply strip_length in E.
      destruct w; [done|]. simpl in *. lia. }
    destruct (ch c =? 116); [by apply Hlit|]. destruct (ch c =? 102); [by apply Hlit|].
    destruct (ch c =? 110); [by apply Hlit|]. destruct (span num_char (String c s1)) as [lit r] eqn:E.
    destruct (valid_number lit) eqn:Ev; [|done]. simpl in *. destruct (num_char c).
    + pose proof (span_length num_char s1). destruct (span num_char s1). injection E as _ <-. simpl in *. lia.
    + injection E as <- _. done.
  - cbn [elements]. eapply settles_bind; [apply IHv|done|unfold ample; lia|]. intros v r Hr.
    apply settles_more; [done|]. intros s' Hs. eapply settles_weaken; [apply IHe|done|unfold ample in *; lia].
  - cbn [members]. pose proof (skip_ws_length s) as Hw. eapply settles_bind; [apply settles_quoted|done|done|].
    intros k r Hr. pose proof (skip_ws_length r) as Hw'. destruct (skip_ws r) as [|c r1]; [done|]. simpl in Hw'.
    destruct (ch c =? 58); [|done]. eapply settles_bind; [apply IHv|lia|unfold ample; lia|]. intros v r2 Hr2.
    apply settles_more; [lia|]. intros s' Hs. eapply settles_weaken; [apply IHm|done|unfold ample in *; lia].
Qed.
Lemma value_not_starved d s : value (enough s) d s ≠ Starved.
Proof.
  destruct (parser_settles (enough s)) as [Hv _]. specialize (Hv d s). intros E. rewrite E in Hv. apply Hv.
  unfold ample, enough. lia.
Qed.

(** ** Strings round-trip *)

Lemma str_cons_app a (s t : string) : (String a s +:+ t = String a (s +:+ t))%stdpp.
Proof. done. Qed.
Lemma single_app a (s : string) : (String a "" +:+ s = String a s)%stdpp.
Proof. done. Qed.
Lemma push_push x y o : push x (push y o) = push (x +:+ y)%stdpp o.
Proof. destruct o as [[s r]|]; simpl; [|done]. by rewrite str_app_assoc. Qed.
Lemma rune_len_length s : (rune_len s <= String.length s)%nat.
Proof.
  destruct s as [|a [|b [|c [|d s]]]]; cbn [rune_len String.length]; repeat case_match; lia.
Qed.
(** The length of a rune is decided by its own bytes. *)
Lemma rune_len_prefix a s t k :
  rune_len (String a s) = S (S k) → rune_len (String a (escape_from (S k) s +:+ t))%stdpp = S (S k) ∧ 128 <= ch a.
Proof.
  destruct s as [|b [|c [|d s]]]; cbn [rune_len escape_from]; destruct (ch a <? 128) eqn:Ea; try done; intros H;
    (split; [|zlia]).
  - destruct (between 194 223 a && cont b) eqn:E2; [|done]. injection H as <-. rewrite !str_cons_app. cbn [rune_len].
    by rewrite ?Ea, ?E2.
  - destruct (between 194 223 a && cont b) eqn:E2; [injection H as <-; rewrite !str_cons_app; cbn [rune_len]; by rewrite ?Ea, ?E2|].
    destruct (cont c && _) eqn:E3; [|done]. injection H as <-. cbn [escape_from]. rewrite !str_cons_app. cbn [rune_len].
    by rewrite ?Ea, ?E2, ?E3.
  - destruct (between 194 223 a && cont b) eqn:E2; [injection H as <-; rewrite !str_cons_app; cbn [rune_len]; by rewrite ?Ea, ?E2|].
    destruct (cont c && (_ || _)) eqn:E3;
      [injection H as <-; cbn [escape_from]; rewrite !str_cons_app; cbn [rune_len]; by rewrite ?Ea, ?E2, ?E3|].
    destruct (cont c && cont d && _) eqn:E4; [|done]. injection H as <-. cbn [escape_from]. rewrite !str_cons_app. cbn [rune_len].
    by rewrite ?Ea, ?E2, ?E3, ?E4.
Qed.
Lemma rune_len_one a s : rune_len (String a s) = 1%nat → (ch a <? 128) = true.
Proof. cbn [rune_len]. destruct (ch a <? 128); [done|]. repeat case_match; done. Qed.
Lemma unquote_ascii a t :
  (ch a <? 128) = true → unquote 0 (escape_ascii a +:+ t)%stdpp = push1 a (unquote 0 t).
Proof. destruct a as [[] [] [] [] [] [] [] []]; first [discriminate|intros _; reflexivity]. Qed.
Lemma unquote_replacement t : unquote 0 (hex4 65533 +:+ t)%stdpp = push replacement (unquote 0 t).
Proof. reflexivity. Qed.
Lemma unquote_separator a b c s t :
  (ch a =? 226) && (ch b =? 128) && ((ch c =? 168) || (ch c =? 169)) = true →
  rune_len (String a (String b (String c s))) = 3%nat ∧
  unquote 0 (hex4 (8232 + N_of_ascii c - 168) +:+ t)%stdpp = push (String a (String b (String c ""))) (unquote 0 t).
Proof.
  intros [[Ha%Z.eqb_eq Hb%Z.eqb_eq]%andb_true_iff Hc]%andb_true_iff.
  rewrite <-(ch_inj (byte 226) a) by done. rewrite <-(ch_inj (byte 128) b) by done.
  apply orb_true_iff in Hc as [Hc%Z.eqb_eq|Hc%Z.eqb_eq].
  - rewrite <-(ch_inj (byte 168) c) by done. split; reflexivity.
  - rewrite <-(ch_inj (byte 169) c) by done. split; reflexivity.
Qed.
Lemma unquote_escape n : ∀ s k t, (String.length s <= n)%nat → (k <= String.length s)%nat →
  unquote k (escape_from k s +:+ String quote t)%stdpp = Some (scrub k s, t).
Proof.
  induction n as [|n IH]; intros [|a s] k t Hn Hk; simpl in Hn, Hk; try lia.
  - by destruct k; [|lia].
  - by destruct k; [|lia].
  - destruct k as [|k].
    2:{ cbn [escape_from scrub]. rewrite str_cons_app. cbn [unquote]. rewrite IH by lia. done. }
    cbn [escape_from scrub]. destruct (rune_len (String a s)) as [|[|k]] eqn:El.
    + rewrite str_app_assoc, unquote_replacement, IH by lia. done.
    + rewrite str_app_assoc, unquote_ascii, IH by (lia || by eapply rune_len_one). done.
    + pose proof (rune_len_length (String a s)) as Hlen. rewrite El in Hlen. simpl in Hlen.
      assert (unquote 0 (String a (escape_from (S k) s) +:+ String quote t)%stdpp = Some (String a (scrub (S k) s), t)) as Hcopy.
      { rewrite str_cons_app. destruct (rune_len_prefix a s (String quote t) k El) as [Hr Ha]. cbn [unquote]. rewrite Hr.
        rewrite (proj2 (Z.eqb_neq _ _)), (proj2 (Z.eqb_neq (ch a) 92)), (proj2 (Z.ltb_ge _ _)) by lia.
        rewrite IH by lia. done. }
      destruct s as [|b [|c s3]]; [exact Hcopy|exact Hcopy|].
      destruct ((ch a =? 226) && (ch b =? 128) && ((ch c =? 168) || (ch c =? 169))) eqn:E; [|exact Hcopy].
      destruct (unquote_separator a b c s3 (escape_from 0 s3 +:+ String quote t)%stdpp E) as [Hl Hu].
      rewrite Hl in El. injection El as <-. rewrite str_app_assoc, Hu. simpl in Hn.
      rewrite IH by lia. done.
Qed.
Lemma substring_app (x y : string) : String.substring 0 (String.length x) (x +:+ y)%stdpp = x.
Proof. induction x as [|a x IH]; [by destruct y|]. exact (f_equal (String a) IH). Qed.
Lemma quoted_json_string s t : quoted (json_string s +:+ t)%stdpp = Parsed (escape_from 0 s, scrub 0 s) t.
Proof.
  unfold json_string. rewrite str_app_assoc, !str_cons_app. cbn [quoted]. simpl (ch quote =? 34).
  change ("" +:+ t)%stdpp with t. rewrite (unquote_escape (String.length s)) by lia. cbv iota.
  replace (String.length _ - String.length t - 1)%nat with (String.length (escape_from 0 s))
    by (rewrite str_app_length; simpl; lia). by rewrite substring_app.
Qed.

(** ** Integers round-trip *)

Definition is_nonzero (c : ascii) : bool := is_digit c && negb (ch c =? 48).
Lemma pretty_char_digit x : (x < 10)%N → ch (pretty_N_char x) = 48 + Z.of_N x.
Proof. intros Hx. unfold pretty_N_char. destruct x as [|p]; [done|]. do 4 (destruct p as [p|p|]; try done; try lia). Qed.
(** The digits of a positive number: none but digits, the first not zero, and their
    value. *)
Lemma pretty_digits x s : (0 < x)%N → ∃ c t,
  pretty_N_go x s = (String c t +:+ s)%stdpp ∧ is_nonzero c = true ∧ span is_digit t = (t, "") ∧
  ∀ acc u, parse_digits (String c t +:+ u)%stdpp acc = parse_digits u (acc * 10 ^ len (String c t) + Z.of_N x).
Proof.
  revert s. induction (N.lt_wf_0 x) as [x _ IH]; intros s Hx. rewrite pretty_N_go_step by lia.
  assert (x mod 10 < 10)%N as Hm by (apply N.mod_lt; lia).
  pose proof (pretty_char_digit _ Hm) as Hc. pose proof (N2Z.is_nonneg (x mod 10)). set (c := pretty_N_char (x mod 10)) in *. clearbody c.
  assert (is_digit c = true) as Hd by (unfold is_digit; rewrite Hc; apply andb_true_iff; split; apply Z.leb_le; lia).
  assert (∀ acc u, parse_digits (String c u) acc = parse_digits u (acc * 10 + Z.of_N (x mod 10))) as Hp.
  { intros acc u. cbn [parse_digits]. rewrite Hd. f_equal. lia. }
  destruct (decide (x / 10 = 0)%N) as [E|E].
  - rewrite E, pretty_N_go_0. apply N.div_small_iff in E; [|lia]. rewrite N.mod_small in Hc, Hp by done.
    exists c, "". split_and!; [done| |done|].
    + unfold is_nonzero. rewrite Hd, Hc. apply negb_true_iff, Z.eqb_neq. lia.
    + intros acc u. rewrite str_cons_app, Hp. f_equal.
  - destruct (IH (x / 10)%N (N.div_lt x 10 Hx ltac:(lia)) (String c s) (proj1 (N.neq_0_lt_0 _) E)) as (c' & t & Ht & Hn & Hs & Hv).
    exists c', (t +:+ String c "")%stdpp. split_and!; [|done|..].
    + rewrite Ht, !str_cons_app, str_app_assoc. done.
    + clear -Hs Hd. induction t as [|b t IH]; simpl in *; [by rewrite Hd|]. destruct (is_digit b); [|done].
      destruct (span is_digit t) as [y z]. injection Hs as <- ->. by rewrite IH.
    + intros acc u. replace (String c' (t +:+ String c "") +:+ u)%stdpp with (String c' t +:+ String c u)%stdpp
        by (rewrite !str_cons_app, str_app_assoc; done). rewrite Hv, Hp. f_equal.
      replace (len (String c' (t +:+ String c ""))%stdpp) with (len (String c' t) + 1)
        by (unfold len; simpl; rewrite str_app_length; simpl; lia).
      rewrite Z.pow_add_r by (pose proof (len_nonneg (String c' t)); lia).
      pose proof (N.div_mod x 10 ltac:(lia)) as Hdm. apply (f_equal Z.of_N) in Hdm. rewrite N2Z.inj_add, N2Z.inj_mul in Hdm. lia.
Qed.
(** A number as it is printed: a sign, then a zero or digits that start with another. *)
Inductive int_text : Z → string → Prop :=
  | text_zero : int_text 0 "0"
  | text_pos z c t : 0 < z → is_nonzero c = true → span is_digit t = (t, "") →
      (∀ acc, parse_digits (String c t) acc = Some (acc * 10 ^ len (String c t) + z)) → int_text z (String c t)
  | text_neg z c t : int_text z (String c t) → 0 < z → int_text (- z) (String "-" (String c t)).
Lemma sprint_int_text z : int_text z (sprint_int z).
Proof.
  assert (∀ p, int_text (Zpos p) (pretty_N_go (Npos p) "")) as Hpos.
  { intros p. destruct (pretty_digits (Npos p) "") as (c & t & -> & Hn & Hs & Hv); [lia|]. rewrite str_app_nil_r.
    apply text_pos; [done..|]. intros acc. specialize (Hv acc ""). rewrite str_app_nil_r in Hv. by rewrite Hv. }
  destruct z as [|p|p]; [apply text_zero|apply (Hpos p)|].
  specialize (Hpos p). destruct (pretty_N_go (Npos p) "") as [|c t] eqn:E; [inversion Hpos|].
  change (sprint_int (Zneg p)) with ("-" +:+ pretty_N_go (Npos p) "")%stdpp. rewrite E. by apply (text_neg (Zpos p)).
Qed.
Lemma digit_num c : is_digit c = true → num_char c = true.
Proof. intros H. unfold num_char. by rewrite H. Qed.
Lemma nonzero_digit c : is_nonzero c = true → is_digit c = true.
Proof. intros [H _]%andb_true_iff. done. Qed.
(** What may follow a number. *)
Definition ends_number (s : string) : Prop := match s with String c _ => num_char c = false | EmptyString => True end.
Lemma span_stop p s : match s with String c _ => p c = false | EmptyString => True end → span p s = ("", s).
Proof. destruct s as [|c s]; [done|]. intros H. simpl. by rewrite H. Qed.
Lemma span_num t rest : span is_digit t = (t, "") → ends_number rest → span num_char (t +:+ rest)%stdpp = (t, rest).
Proof.
  intros Ht Hr. induction t as [|c t IH]; [by apply span_stop|]. rewrite str_cons_app. simpl in *.
  destruct (is_digit c) eqn:Ed; [|done]. destruct (span is_digit t) as [x y]. injection Ht as -> ->.
  rewrite (digit_num c Ed), IH; done.
Qed.
Lemma valid_digits c t : is_nonzero c = true → span is_digit t = (t, "") → valid_number (String c t) = true ∧ (ch c =? 45) = false.
Proof.
  intros Hc Ht. pose proof (nonzero_digit c Hc) as Hd. apply andb_true_iff in Hc as [_ Hz%negb_true_iff].
  assert ((ch c =? 45) = false) as Hm by (unfold is_digit in Hd; apply andb_true_iff in Hd; zlia).
  split; [|done]. unfold valid_number. rewrite Hm. unfold int_part. rewrite Hz. unfold some_digits. cbn [span].
  rewrite Hd, Ht. done.
Qed.
Lemma int_text_lex z s rest : int_text z s → ends_number rest →
  span num_char (s +:+ rest)%stdpp = (s, rest) ∧ valid_number s = true.
Proof.
  assert (∀ z c t, int_text z (String c t) → 0 < z → ends_number rest →
    span num_char (String c t +:+ rest)%stdpp = (String c t, rest) ∧ valid_number (String c t) = true ∧ (ch c =? 45) = false) as Hpos.
  { intros z' c t Hi Hz Hr. inversion Hi as [|? ? ? _ Hc Ht _|? ? ? _ Hp]; subst; [lia| |lia].
    destruct (valid_digits c t Hc Ht) as [Hv Hm]. split_and!; [|done|done].
    rewrite str_cons_app. cbn [span]. rewrite (digit_num c (nonzero_digit c Hc)), (span_num t rest) by done. done. }
  intros Hi Hr. destruct Hi as [|z c t Hz Hc Ht Hv|z c t Hi Hz].
  - split; [|reflexivity]. rewrite str_cons_app. cbn [span]. change (num_char "0") with true. cbv iota.
    by rewrite span_stop.
  - destruct (Hpos z c t) as (H1 & H2 & _); [by constructor|done..].
  - destruct (Hpos z c t Hi Hz Hr) as (H1 & H2 & H3). split.
    + rewrite str_cons_app. cbn [span]. change (num_char "-") with true. cbv iota. by rewrite H1.
    + revert H2. unfold valid_number. rewrite H3. done.
Qed.
Lemma parse_int64_sprint z : int64_range z → parse_int64 (sprint_int z) = Some z.
Proof.
  intros Hr. assert (in_int64 z = Some z) as Hin.
  { unfold in_int64, int64_range in *. rewrite (proj2 (Z.leb_le _ _)), (proj2 (Z.leb_le _ _)) by lia. done. }
  destruct (sprint_int_text z) as [|z c t Hz Hc Ht Hv|z c t Hi Hz]; [reflexivity|..].
  - destruct (valid_digits c t Hc Ht) as [_ Hm]. pose proof (nonzero_digit c Hc) as Hd.
    unfold parse_int64. rewrite Hm, (proj2 (Z.eqb_neq (ch c) 43)) by (unfold is_digit in Hd; apply andb_true_iff in Hd; zlia).
    unfold parse_uint. rewrite Hv. simpl. rewrite Z.add_0_l || rewrite Z.mul_0_l, Z.add_0_l. done.
  - inversion Hi as [|? ? ? _ Hc Ht Hv|? ? ? _ Hp]; subst; [lia| |lia].
    unfold parse_int64. change (ch "-" =? 45) with true. cbv iota. unfold parse_uint. rewrite Hv. done.
Qed.

(** ** Values round-trip *)

Fixpoint of_json (j : json) : jval :=
  match j with
  | JNull => VNull
  | JBool b => VBool b
  | JInt z => VNum (sprint_int z)
  | JString s => VStr (escape_from 0 s) (scrub 0 s)
  | JArray l => VArr (of_json <$> l)
  | JObject kvs => VObj ((λ kv, (scrub 0 kv.1, of_json kv.2)) <$> kvs)
  end.
Fixpoint jdepth (j : json) : Z :=
  match j with
  | JArray l => 1 + foldr Z.max 0 (jdepth <$> l)
  | JObject kvs => 1 + foldr Z.max 0 ((λ kv, jdepth kv.2) <$> kvs)
  | _ => 0
  end.
Section JsonInd.
Context (P : json → Prop) (Hnull : P JNull) (Hbool : ∀ b, P (JBool b)) (Hint : ∀ z, P (JInt z)) (Hstr : ∀ s, P (JString s)).
Context (Harr : ∀ l, Forall P l → P (JArray l)) (Hobj : ∀ kvs, Forall (λ kv, P kv.2) kvs → P (JObject kvs)).
Fixpoint json_induction (j : json) : P j :=
  match j with
  | JNull => Hnull
  | JBool b => Hbool b
  | JInt z => Hint z
  | JString s => Hstr s
  | JArray l => Harr l ((fix go l : Forall P l := match l with
      | [] => @List.Forall_nil _ P
      | x :: l => @List.Forall_cons _ P x l (json_induction x) (go l) end) l)
  | JObject kvs => Hobj kvs ((fix go l : Forall (λ kv, P kv.2) l := match l with
      | [] => @List.Forall_nil _ (λ kv, P kv.2)
      | x :: l => @List.Forall_cons _ (λ kv, P kv.2) x l (json_induction x.2) (go l) end) kvs)
  end.
End JsonInd.

Lemma foldr_max_le {A} (f : A → Z) l x : x ∈ l → f x <= foldr Z.max 0 (f <$> l).
Proof.
  induction l as [|y l IH]; [by intros ?%elem_of_nil|]. rewrite fmap_cons; cbn [foldr].
  intros [->|H]%elem_of_cons; [lia|]. specialize (IH H). lia.
Qed.

(** The first byte of a printed value. *)
Definition starts_value (s : string) : Prop :=
  match s with String c _ => blank c = false ∧ (ch c =? 93) = false | EmptyString => False end.
Lemma int_text_starts z s t : int_text z s → starts_value (s +:+ t)%stdpp.
Proof.
  intros Hi. destruct Hi as [|z c u _ Hc|]; [done| |done]. apply nonzero_digit in Hc. rewrite str_cons_app. simpl.
  unfold is_digit in Hc. apply andb_true_iff in Hc. unfold blank. rewrite !orb_false_iff. zlia.
Qed.
Lemma marshal_starts j t : starts_value (marshal j +:+ t)%stdpp.
Proof. destruct j as [|[]| | | |]; try done. cbn [marshal]. eapply int_text_starts, sprint_int_text. Qed.
Lemma skip_ws_value s : starts_value s → skip_ws s = s.
Proof. destruct s as [|c s]; [done|]. intros [H _]. simpl. by rewrite H. Qed.

(** A printed value parses, whatever follows. *)
Definition reads (j : json) : Prop :=
  ∀ f d rest, d + jdepth j <= maxNestingDepth → ends_number rest → ample f (marshal j +:+ rest)%stdpp 1 →
    value f d (marshal j +:+ rest)%stdpp = Parsed (of_json j) rest.
Lemma ample_S f s n : ample f s (S n) → ∃ g, f = S g.
Proof. unfold ample. destruct f as [|g]; [lia|]. eauto. Qed.

Lemma reads_int z : reads (JInt z).
Proof.
  intros f d rest _ Hr [g ->]%ample_S. cbn [marshal value]. pose proof (sprint_int_text z) as Hi.
  rewrite skip_ws_value by (by eapply int_text_starts). destruct (int_text_lex z _ rest Hi Hr) as [Hs Hv].
  destruct (sprint_int z +:+ rest)%stdpp as [|c s1] eqn:E; [by destruct Hi|].
  assert (is_digit c = true ∨ c = "-"%char) as Hc.
  { destruct Hi as [|z c' t _ Hc _ _|z c' t _ _]; rewrite str_cons_app in E; injection E as <- _;
      [by left|left; by apply nonzero_digit|by right]. }
  assert (∀ n, 57 < n ∨ n = 34 → (ch c =? n) = false) as Hne.
  { intros n Hn. apply Z.eqb_neq. destruct Hc as [Hc| ->]; [|change (ch "-") with 45; lia].
    unfold is_digit in Hc. apply andb_true_iff in Hc. zlia. }
  rewrite !Hne by lia. rewrite Hs, Hv. done.
Qed.
Lemma reads_string s : reads (JString s).
Proof.
  intros f d rest _ _ [g ->]%ample_S. cbn [marshal value]. rewrite skip_ws_value by done.
  destruct (json_string s +:+ rest)%stdpp as [|c s1] eqn:E; [done|].
  assert (c = quote) as -> by (unfold json_string in E; rewrite !str_cons_app in E; by injection E as <- _).
  change (ch quote =? 34) with true. cbv iota. rewrite <-E, quoted_json_string. done.
Qed.

Lemma str_join_cons x y l : str_join "," (x :: y :: l) = (x +:+ "," +:+ str_join "," (y :: l))%stdpp.
Proof. done. Qed.
Lemma more_close {A} close (a : A) rest next :
  (close =? 44) = false → blank (byte close) = false → ch (byte close) = close →
  more close a (String (byte close) rest) next = Parsed [a] rest.
Proof. intros Hc Hb Hch. unfold more. cbn [skip_ws]. rewrite Hb, Hch, Hc, Z.eqb_refl. done. Qed.
Lemma more_comma {A} close (a : A) rest next l rest' :
  next rest = Parsed l rest' → more close a (String "," rest) next = Parsed (a :: l) rest'.
Proof. intros Hn. unfold more. cbn [skip_ws]. change (blank ",") with false. change (ch "," =? 44) with true. cbv iota. by rewrite Hn. Qed.

Ltac amply := unfold ample in *; rewrite ?str_app_length in *; cbn [String.length] in *; rewrite ?str_app_length in *; lia.
Lemma reads_elements l f d rest :
  l ≠ [] → Forall reads l → Forall (λ j, d + jdepth j <= maxNestingDepth) l →
  ample f (str_join "," (marshal <$> l) +:+ "]" +:+ rest)%stdpp 2 →
  elements f d (str_join "," (marshal <$> l) +:+ "]" +:+ rest)%stdpp = Parsed (of_json <$> l) rest.
Proof.
  intros Hne Hr. revert f. induction Hr as [|j l Hj Hl IH]; intros f Hd Hf; [done|]. apply Forall_cons in Hd as [Hdj Hd].
  destruct (ample_S _ _ _ Hf) as [g ->]. cbn [elements].
  destruct l as [|j' l]; rewrite ?fmap_cons in *.
  - cbn [str_join fmap list_fmap] in *. rewrite Hj; [|done|done|amply].
    apply (more_close 93); done.
  - rewrite str_join_cons in *. rewrite !str_app_assoc in *. rewrite Hj; [|done|done|amply]. cbn [pbind].
    apply more_comma. apply IH; [done|done|]. amply.
Qed.
Lemma reads_members kvs f d rest :
  kvs ≠ [] → Forall (λ kv, reads kv.2) kvs → Forall (λ kv : string * json, d + jdepth kv.2 <= maxNestingDepth) kvs →
  let text := str_join "," ((λ kv, (json_string kv.1 +:+ ":" +:+ marshal kv.2)%stdpp) <$> kvs) in
  ample f (text +:+ "}" +:+ rest)%stdpp 2 →
  members f d (text +:+ "}" +:+ rest)%stdpp = Parsed ((λ kv, (scrub 0 kv.1, of_json kv.2)) <$> kvs) rest.
Proof.
  intros Hne Hr. revert f. induction Hr as [|[k j] kvs Hj Hl IH]; intros f Hd text Hf; [done|].
  apply Forall_cons in Hd as [Hdj Hd]. destruct (ample_S _ _ _ Hf) as [g ->]. subst text. cbn [members].
  destruct kvs as [|kv' kvs]; rewrite ?fmap_cons in *.
  - cbn [str_join fmap list_fmap fst snd] in *. rewrite !str_app_assoc in *.
    rewrite skip_ws_value by done. rewrite quoted_json_string. cbn [pbind]. rewrite single_app. cbn [skip_ws]. change (blank ":") with false.
    change (ch ":" =? 58) with true. cbv iota.
    rewrite Hj; [|done|done|amply]. apply (more_close 125); done.
  - rewrite str_join_cons in *. cbn [fst snd] in *. rewrite !str_app_assoc in *.
    rewrite skip_ws_value by done. rewrite quoted_json_string. cbn [pbind]. rewrite single_app. cbn [skip_ws]. change (blank ":") with false.
    change (ch ":" =? 58) with true. cbv iota.
    rewrite Hj; [|done|done|amply]. cbn [pbind].
    apply more_comma. apply IH; [done|done|]. amply.
Qed.
Lemma depth_inner {A} (f : A → Z) d l :
  d + (1 + foldr Z.max 0 (f <$> l)) <= maxNestingDepth → Forall (λ x, d + 1 + f x <= maxNestingDepth) l.
Proof. intros Hd. apply Forall_forall. intros x Hx. pose proof (foldr_max_le f l x Hx). lia. Qed.
Lemma depth_nonneg {A} (f : A → Z) l : 0 <= foldr Z.max 0 (f <$> l).
Proof. induction l as [|x l IH]; [done|]. rewrite fmap_cons. cbn [foldr]. lia. Qed.
Lemma reads_all j : reads j.
Proof.
  induction j as [|b|z|s|l IH|kvs IH] using json_induction.
  - intros f d rest _ _ [g ->]%ample_S. done.
  - intros f d rest _ _ [g ->]%ample_S. by destruct b.
  - apply reads_int.
  - apply reads_string.
  - intros f d rest Hd Hr Hf. destruct (ample_S _ _ _ Hf) as [g ->]. cbn [marshal jdepth of_json] in *.
    rewrite !str_app_assoc in *. pose proof (depth_nonneg jdepth l). rewrite single_app in *.
    cbn [value skip_ws]. change (blank "[") with false. cbv iota.
    change (ch "[" =? 34) with false. change (ch "[" =? 91) with true. cbv iota. rewrite (proj2 (Z.leb_gt _ _)) by lia.
    destruct l as [|j l]; [done|].
    assert (starts_value (str_join "," (marshal <$> j :: l) +:+ "]" +:+ rest)%stdpp) as Hst.
    { destruct l as [|j' l]; [apply marshal_starts|]. rewrite !fmap_cons, str_join_cons, str_app_assoc. apply marshal_starts. }
    rewrite skip_ws_value by done. rewrite reads_elements; [|done|done|by apply depth_inner|unfold ample in *; cbn [String.length] in Hf; lia].
    destruct (_ +:+ _)%stdpp as [|c s]; [done|]. destruct Hst as [_ ->]. done.
  - intros f d rest Hd Hr Hf. destruct (ample_S _ _ _ Hf) as [g ->]. cbn [marshal jdepth of_json] in *.
    rewrite !str_app_assoc in *. pose proof (depth_nonneg (λ kv : string * json, jdepth kv.2) kvs). rewrite single_app in *.
    cbn [value skip_ws]. change (blank "{") with false. cbv iota.
    change (ch "{" =? 34) with false. change (ch "{" =? 91) with false. change (ch "{" =? 123) with true. cbv iota.
    rewrite (proj2 (Z.leb_gt _ _)) by lia. destruct kvs as [|kv kvs]; [done|].
    rewrite reads_members; [|done|done|by apply (depth_inner (λ kv : string * json, jdepth kv.2))|unfold ample in *; cbn [String.length] in Hf; lia].
    by destruct kvs as [|kv' kvs]; rewrite ?fmap_cons, ?str_join_cons.
Qed.

(** What the code marshals, it reads back.  The JSON text of any value that the
    code prints parses, both by [json.Unmarshal] and as the start of a stream, to that
    value: integers digit for digit, members in order, and strings with every byte that
    is not UTF-8 replaced by U+FFFD, so valid text comes back unchanged. *)
Theorem json_roundtrip (j : json) (rest : string) :
  jdepth j <= maxNestingDepth → parse (marshal j) = Some (of_json j) ∧
  (ends_number rest → parse_stream (marshal j +:+ rest)%stdpp = Some (of_json j)).
Proof.
  intros Hd. split.
  - unfold parse. pose proof (reads_all j (enough (marshal j)) 0 "" ltac:(lia) I) as Hr. rewrite str_app_nil_r in Hr.
    rewrite Hr; [done|]. unfold ample, enough. lia.
  - intros Hr. unfold parse_stream. rewrite reads_all; [done|lia|done|]. unfold ample, enough. lia.
Qed.

(** Text that is UTF-8. *)
Fixpoint utf8_text (skip : nat) (s : string) : bool :=
  match s with
  | EmptyString => true
  | String a s' =>
      match skip with
      | S k => utf8_text k s'
      | O => match rune_len s with O => false | S k => utf8_text k s' end
      end
  end.
Lemma scrub_utf8 k s : utf8_text k s = true → scrub k s = s.
Proof.
  revert k. induction s as [|a s IH]; intros [|k]; cbn [utf8_text scrub]; [done..| |].
  - destruct (rune_len _) as [|k]; [done|]. intros H. by rewrite IH.
  - intros H. by rewrite IH.
Qed.

(** Parsing ends on every input.  With the fuel the model gives it, linear in the
    length of the text, the parser never runs out: it answers with a value and strictly
    less text left, or with a syntax error. *)
Theorem parser_total (depth : Z) (s : string) :
  match value (enough s) depth s with
  | Parsed _ rest => (String.length rest < String.length s)%nat
  | SyntaxError => True
  | Starved => False
  end.
Proof.
  pose proof (value_not_starved depth s) as Hn. destruct (parser_settles (enough s)) as [Hv _]. specialize (Hv depth s).
  destruct (value (enough s) depth s); done.
Qed.
