(* ===== verification/Decode.v ===== *)
(** * [encoding/json]: storing a value in a Go variable

    [decode_into strict old v] is what [json.Unmarshal] makes of a variable that holds
    [old]: [null] leaves scalars alone and empties slices, maps and pointers, numbers
    must be written as integers in range, members of an object are matched to the fields
    of a struct by name, then up to case, a repeated member is stored again.  [strict] is
    [DisallowUnknownFields].  Every caller drops its variable on an error, so [None] is
    the only failure.  (A third occurrence of an array member can show elements that an
    earlier one left behind the end of the slice; they are taken as zero.)

    [Stored] is what a JSON column promises: the value read back is the value written,
    in whatever order the database lists the members. *)

From S2P Require Import Prelude GoStd Encode Json.
From Stdlib Require Import Ascii.
Open Scope Z_scope.
Open Scope go_scope.

Class FromJSON (A : Type) := {
  go_zero : A;
  decode_into : bool → A → jval → option A;
}.

#[export] Instance string_json : FromJSON string := {
  go_zero := "";
  decode_into _ old v := match v with VStr _ s => Some s | VNull => Some old | _ => None end }.
#[export] Instance bool_json : FromJSON bool := {
  go_zero := false;
  decode_into _ old v := match v with VBool b => Some b | VNull => Some old | _ => None end }.
(** [int] and [int64]. *)
#[export] Instance int_json : FromJSON Z := {
  go_zero := 0;
  decode_into _ old v := match v with VNum lit => parse_int64 lit | VNull => Some old | _ => None end }.

(** Pointers: the variable pointed to is reused. *)
Definition decode_pointer {A} `{FromJSON A} (strict : bool) (old : option A) (v : jval) : option (option A) :=
  match v with VNull => Some None | _ => Some <$> decode_into strict (default go_zero old) v end.
#[export] Instance option_json {A} `{FromJSON A} : FromJSON (option A) := {
  go_zero := None; decode_into := decode_pointer }.
(** Slices: the elements already there are reused, the others dropped. *)
Fixpoint decode_elements {A} `{FromJSON A} (strict : bool) (old : list A) (l : list jval) : option (list A) :=
  match l with
  | [] => Some []
  | v :: l =>
      x ← decode_into strict (default go_zero (head old)) v;
      xs ← decode_elements strict (tail old) l;
      Some (x :: xs)
  end.
Definition decode_slice {A} `{FromJSON A} (strict : bool) (old : list A) (v : jval) : option (list A) :=
  match v with VNull => Some [] | VArr l => decode_elements strict old l | _ => None end.
#[export] Instance list_json {A} `{FromJSON A} : FromJSON (list A) := {
  go_zero := []; decode_into := decode_slice }.
(** Maps with string keys: entries are added. *)
Definition decode_entry {A} `{FromJSON A} (strict : bool) (o : option (gmap string A)) (kv : string * jval)
    : option (gmap string A) :=
  m ← o; x ← decode_into strict go_zero kv.2; Some (<[kv.1 := x]> m).
Definition decode_map {A} `{FromJSON A} (strict : bool) (old : gmap string A) (v : jval) : option (gmap string A) :=
  match v with VNull => Some ∅ | VObj kvs => foldl (decode_entry strict) (Some old) kvs | _ => None end.
#[export] Instance map_json {A} `{FromJSON A} : FromJSON (gmap string A) := {
  go_zero := ∅; decode_into := decode_map }.

(** Structs. *)
Record field (A : Type) := mkField { f_name : string; f_set : bool → A → jval → option A }.
Arguments mkField {A}. Arguments f_name {A}. Arguments f_set {A}.
Definition fld {A B} `{FromJSON B} (name : string) (get : A → B) (put : B → A → A) : field A :=
  mkField name (λ strict a v, b ← decode_into strict (get a) v; Some (put b a)).
Definition find_field {A} (fields : list (field A)) (key : string) : option (field A) :=
  match find (λ f, str_eqb (f_name f) key) fields with
  | Some f => Some f
  | None => find (λ f, equal_fold (f_name f) key) fields
  end.
Definition decode_member {A} (fields : list (field A)) (strict : bool) (o : option A) (kv : string * jval) : option A :=
  a ← o;
  match find_field fields kv.1 with
  | Some f => f_set f strict a kv.2
  | None => if strict then None else Some a
  end.
Definition decode_struct {A} (fields : list (field A)) (strict : bool) (old : A) (v : jval) : option A :=
  match v with
  | VNull => Some old
  | VObj kvs => foldl (decode_member fields strict) (Some old) kvs
  | _ => None
  end.

(** *** [time.Time]

    [Time.UnmarshalJSON] parses the text between the quotes, escapes and all, as RFC 3339:
    a date, [T], a time of day, digits after a point (nine of them count), and [Z] or an
    offset. *)
Definition digits2 (a b : ascii) : option Z :=
  if is_digit a && is_digit b then Some (10 * (ch a - 48) + (ch b - 48)) else None.
Definition in_range (lo hi : Z) (x : option Z) : option Z :=
  z ← x; if (lo <=? z) && (z <=? hi) then Some z else None.
Definition days_in (y m : Z) : Z :=
  if m =? 2 then if (y mod 4 =? 0) && (negb (y mod 100 =? 0) || (y mod 400 =? 0)) then 29 else 28
  else if (m =? 4) || (m =? 6) || (m =? 9) || (m =? 11) then 30 else 31.
(** Days since the Unix epoch, the inverse of [Encode.civil]. *)
Definition days_of (y m d : Z) : Z :=
  let y := if m <=? 2 then y - 1 else y in
  let era := y / 400 in
  let yoe := y mod 400 in
  let doy := (153 * (if m <=? 2 then m + 9 else m - 3) + 2) / 5 + d - 1 in
  era * 146097 + yoe * 365 + yoe / 4 - yoe / 100 + doy - 719468.
(** The value of the first [k] digits of [s], as if [k] were given. *)
Fixpoint nanos (k : nat) (s : string) : Z :=
  match k, s with
  | O, _ => 0
  | S k', String c s' => (ch c - 48) * 10 ^ Z.of_nat k' + nanos k' s'
  | S _, EmptyString => 0
  end.
Definition fraction (s : string) : Z * string :=
  match s with
  | String c s' =>
      if ch c =? 46 then match span is_digit s' with (EmptyString, _) => (0, s) | (x, rest) => (nanos 9 x, rest) end
      else (0, s)
  | EmptyString => (0, s)
  end.
Definition zone (s : string) : option Z :=
  match s with
  | String c EmptyString => if ch c =? 90 then Some 0 else None
  | String c (String h1 (String h2 (String k (String m1 (String m2 EmptyString))))) =>
      if ((ch c =? 43) || (ch c =? 45)) && (ch k =? 58) then
        h ← in_range 0 23 (digits2 h1 h2); m ← in_range 0 59 (digits2 m1 m2);
        Some ((if ch c =? 45 then -1 else 1) * (h * 60 + m) * 60)
      else None
  | _ => None
  end.
Definition parse_rfc3339 (s : string) : option Z :=
  match s with
  | String y1 (String y2 (String y3 (String y4 (String p1 (String m1 (String m2 (String p2 (String d1 (String d2
      (String p3 (String h1 (String h2 (String p4 (String n1 (String n2 (String p5 (String s1 (String s2
      rest)))))))))))))))))) =>
      hi ← digits2 y1 y2; lo ← digits2 y3 y4;
      let year := 100 * hi + lo in
      month ← in_range 1 12 (digits2 m1 m2);
      day ← in_range 1 (days_in year month) (digits2 d1 d2);
      h ← in_range 0 23 (digits2 h1 h2); m ← in_range 0 59 (digits2 n1 n2); sec ← in_range 0 59 (digits2 s1 s2);
      if (ch p1 =? 45) && (ch p2 =? 45) && (ch p3 =? 84) && (ch p4 =? 58) && (ch p5 =? 58) then
        let '(frac, rest) := fraction rest in
        offset ← zone rest;
        Some ((days_of year month day * 86400 + (h * 60 + m) * 60 + sec - offset) * second + frac)
      else None
  | _ => None
  end.
Definition decode_time (old : Z) (v : jval) : option Z :=
  match v with VNull => Some old | VStr raw _ => parse_rfc3339 raw | _ => None end.
Example rfc3339_parsed :
  parse_rfc3339 (rfc3339_nano 1709210096123456000) = Some 1709210096123456000 ∧
  parse_rfc3339 "2024-02-29T14:04:56.123456+01:30" = Some 1709210096123456000 ∧
  parse_rfc3339 "2023-02-29T12:34:56Z" = None ∧ parse_rfc3339 "0001-01-01T00:00:00Z" = Some zero_time.
Proof. vm_compute. done. Qed.

(** *** Identifiers

    [uuid.UUID] reads a string with [uuid.Parse]. *)
Definition decode_uuid (uuid_parse : string → option uuid) (old : uuid) (v : jval) : option uuid :=
  match v with VNull => Some old | VStr _ s => uuid_parse s | _ => None end.

(** [json.Unmarshal] into a fresh variable. *)
Definition unmarshal {A} `{FromJSON A} (s : string) : option A := v ← parse s; decode_into false go_zero v.
(** What [http.MaxBytesReader] lets through. *)
Fixpoint str_take (n : Z) (s : string) : string :=
  match s with String c s' => if n <=? 0 then EmptyString else String c (str_take (n - 1) s') | EmptyString => s end.
(** [decodeJSONWithLimit] into a fresh struct: the first value of the body, at most
    [limit] bytes of which are read, with unknown fields refused.  The body is [None] when
    it cannot be read. *)
Definition decodeJSONWithLimit {A} (fields : list (field A)) (zero : A) (limit : Z) (body : option string) : option A :=
  b ← body;
  v ← parse_stream (str_take limit b);
  decode_struct fields true zero v.

(** ** Unknown members are refused *)

Lemma foldl_None {A B} (f : option A → B → option A) l : (∀ x, f None x = None) → foldl f None l = None.
Proof. intros Hf. induction l as [|x l IH]; [done|]. simpl. by rewrite Hf. Qed.
Lemma member_None {A} (fields : list (field A)) strict kvs : foldl (decode_member fields strict) None kvs = None.
Proof. by apply foldl_None. Qed.
(** Strict decoding accepts only members that name a field, up to case. *)
Lemma strict_members {A} (fields : list (field A)) kvs a b :
  foldl (decode_member fields true) (Some a) kvs = Some b →
  Forall (λ kv, ∃ f, f ∈ fields ∧ equal_fold (f_name f) kv.1 = true) kvs.
Proof.
  revert a. induction kvs as [|kv kvs IH]; intros a; [constructor|]. simpl. intros Hf.
  unfold find_field in Hf. destruct (find (λ f, str_eqb (f_name f) kv.1) fields) as [f|] eqn:E1.
  - apply find_some in E1 as [Hin E%str_eqb_eq]. destruct (f_set f true a kv.2) as [a'|]; [|by rewrite member_None in Hf].
    constructor; [|by eapply IH]. exists f. split; [by apply list_elem_of_In|]. rewrite E. apply equal_fold_refl.
  - destruct (find (λ f, equal_fold (f_name f) kv.1) fields) as [f|] eqn:E2; [|by rewrite member_None in Hf].
    apply find_some in E2 as [Hin E]. destruct (f_set f true a kv.2) as [a'|]; [|by rewrite member_None in Hf].
    constructor; [|by eapply IH]. exists f. split; [by apply list_elem_of_In|done].
Qed.

(** ** What a JSON column returns *)

(** The same value, with the members of objects (whose names are distinct) in another
    order and strings written differently. *)
#[warnings="-register-all"]
Inductive jeq : jval → jval → Prop :=
  | jeq_null : jeq VNull VNull
  | jeq_bool b : jeq (VBool b) (VBool b)
  | jeq_num l : jeq (VNum l) (VNum l)
  | jeq_str r r' s : jeq (VStr r s) (VStr r' s)
  | jeq_arr l l' : Forall2 jeq l l' → jeq (VArr l) (VArr l')
  | jeq_obj kvs kvs1 kvs' : NoDup kvs.*1 → Forall2 (λ x y, x.1 = y.1 ∧ jeq x.2 y.2) kvs kvs1 → kvs1 ≡ₚ kvs' →
      jeq (VObj kvs) (VObj kvs').

(** Text a database column takes: UTF-8 without NUL. *)
Fixpoint no_nul (s : string) : bool := match s with EmptyString => true | String c s => negb (ch c =? 0) && no_nul s end.
Definition storable (s : string) : Prop := utf8_text 0 s = true ∧ no_nul s = true.
Fixpoint json_storable (j : json) : Prop :=
  match j with
  | JString s => storable s
  | JArray l => foldr (λ x P, json_storable x ∧ P) True l
  | JObject kvs => foldr (λ kv P, storable kv.1 ∧ json_storable kv.2 ∧ P) True kvs
  | _ => True
  end.

(** PostgreSQL's JSONB, outside the repository: the text the driver reads back for a
    text that was written, [None] when it is refused.  Documented: a JSON value whose
    names are distinct and whose strings are UTF-8 without NUL is kept, up to the order
    of members. *)
Class Jsonb := { jsonb : string → option string }.
Class JsonbLaws (J : Jsonb) := {
  jsonb_keeps j : jeq (of_json j) (of_json j) → json_storable j → jdepth j <= maxNestingDepth →
    ∃ s v, jsonb (marshal j) = Some s ∧ parse s = Some v ∧ jeq (of_json j) v }.

(** What is promised of the type of a column. *)
Class Stored (A : Type) `{FromJSON A} := {
  to_json : A → json;
  fits : A → Prop;
  stored_reads strict a v : fits a → jeq (of_json (to_json a)) v → decode_into strict go_zero v = Some a;
  stored_tidy a : fits a → jeq (of_json (to_json a)) (of_json (to_json a));
  stored_text a : fits a → json_storable (to_json a);
  stored_not_null a : to_json a ≠ JNull;
  json_levels : Z;
  levels_nonneg : 0 <= json_levels;
  stored_depth a : jdepth (to_json a) <= json_levels }.

Lemma storable_scrub s : storable s → scrub 0 s = s.
Proof. intros [H _]. by apply scrub_utf8. Qed.

(** *** Scalars *)

#[export] Instance string_stored : Stored string.
Proof.
  refine {| to_json := JString; fits := storable; json_levels := 0 |}; [|by constructor|done..].
  intros strict a v Ha Hv. inversion Hv; subst. simpl. by rewrite storable_scrub.
Defined.
#[export] Instance int_stored : Stored Z.
Proof.
  refine {| to_json := JInt; fits := int64_range; json_levels := 0 |}; [|by constructor|done..].
  intros strict a v Ha Hv. inversion Hv; subst. by apply parse_int64_sprint.
Defined.
#[export] Instance bool_stored : Stored bool.
Proof.
  refine {| to_json := JBool; fits _ := True; json_levels := 0 |}; [|by constructor|done..].
  intros strict a v _ Hv. by inversion Hv.
Defined.

(** *** Slices *)

Section Slices.
Context {A : Type} `{Stored A}.

Lemma elements_read strict l vs :
  Forall fits l → Forall2 jeq (of_json <$> (to_json <$> l)) vs → decode_elements strict [] vs = Some l.
Proof using.
  intros Hl. revert vs. induction Hl as [|a l Ha _ IH]; intros vs Hv; inversion Hv as [|? v ? vs' Hj Hv']; subst; [done|].
  simpl. rewrite (stored_reads strict a v Ha Hj). simpl. by rewrite (IH vs' Hv').
Qed.
Lemma elements_tidy l : Forall fits l → Forall2 jeq (of_json <$> (to_json <$> l)) (of_json <$> (to_json <$> l)).
Proof using. induction 1 as [|a l Ha _ IH]; constructor; [by apply stored_tidy|done]. Qed.
Lemma elements_text l : Forall fits l → json_storable (JArray (to_json <$> l)).
Proof using. induction 1 as [|a l Ha _ IH]; simpl; [done|]. split; [by apply stored_text|exact IH]. Qed.
Lemma deepest {B} (f : B → Z) l : (∀ b, f b <= json_levels) → foldr Z.max 0 (f <$> l) <= json_levels.
Proof using.
  intros Hf. pose proof levels_nonneg. induction l as [|b l IH]; [done|]. rewrite fmap_cons. cbn [foldr]. specialize (Hf b). lia.
Qed.
End Slices.
#[export] Instance list_stored {A} `{Stored A} : Stored (list A).
Proof.
  refine {| to_json l := JArray (to_json <$> l); fits := Forall fits; json_levels := 1 + json_levels |}.
  - intros strict a v Ha Hv. inversion Hv; subst. by apply elements_read.
  - intros a Ha. constructor. by apply elements_tidy.
  - intros a. apply elements_text.
  - done.
  - pose proof levels_nonneg. lia.
  - intros a. cbn [jdepth]. rewrite <-list_fmap_compose.
    pose proof (deepest (jdepth ∘ to_json) a stored_depth). lia.
Defined.

(** *** Maps *)

Section Maps.
Context {A : Type} `{Stored A}.
Definition map_fits (m : gmap string A) : Prop := ∀ k x, m !! k = Some x → storable k ∧ fits x.
Definition map_members (m : gmap string A) : list (string * json) :=
  sort_stable (λ x y, str_ltb x.1 y.1) (map_to_list (to_json <$> m)).
(** The members of the text, as entries of the map. *)
Definition is_entry (kv : string * json) (kx : string * A) : Prop := kv.1 = kx.1 ∧ kv.2 = to_json kx.2.

Lemma members_entries m : ∃ l, l ≡ₚ map_to_list m ∧ Forall2 is_entry (map_members m) l.
Proof using.
  assert (∀ l l', l ≡ₚ ((λ kx : string * A, (kx.1, to_json kx.2)) <$> l') → ∃ l'', l'' ≡ₚ l' ∧ Forall2 is_entry l l'') as Hl.
  { intros l l' Hp. apply Permutation_map_inv in Hp as (l'' & -> & Hp).
    exists l''. split; [by symmetry|]. clear Hp. induction l'' as [|kx l'' IH]; simpl; constructor; [done|exact IH]. }
  apply Hl. unfold map_members. rewrite sort_stable_perm, map_to_list_fmap. apply reflexive_eq, list_fmap_ext.
  by intros i [k x] _.
Qed.
(** Reading entries in any order rebuilds the map. *)
Lemma entries_read strict (l : list (string * A)) kvs m :
  Forall2 (λ kx kv, kv.1 = kx.1 ∧ decode_into strict go_zero kv.2 = Some kx.2) l kvs →
  foldl (decode_entry strict) (Some m) kvs = Some (foldl (λ m kx, <[kx.1 := kx.2]> m) m l).
Proof using.
  intros Hl. revert m. induction Hl as [|[k x] [k' v] l kvs [Hk Hd] _ IH]; intros m; [done|]. simpl in *. subst k'.
  rewrite Hd. simpl. apply IH.
Qed.
Lemma foldl_inserts (l : list (string * A)) (m : gmap string A) : NoDup l.*1 →
  foldl (λ m kx, <[kx.1 := kx.2]> m) m l = list_to_map l ∪ m.
Proof using.
  revert m. induction l as [|[k x] l IH]; intros m Hd; simpl in *; [by rewrite (left_id_L ∅ (∪))|].
  apply NoDup_cons in Hd as [Hk Hd]. rewrite IH by done.
  rewrite <-insert_union_l. symmetry. apply insert_union_r. by apply not_elem_of_list_to_map.
Qed.
Lemma map_read strict m v : map_fits m → jeq (of_json (JObject (map_members m))) v → decode_map strict ∅ v = Some m.
Proof using.
  intros Hm Hv. inversion Hv as [| | | | |kvs kvs1 kvs' Hnd Hf Hp]; subst. simpl. destruct (members_entries m) as (l & Hl & He).
  assert (Forall2 (λ kx kv, kv.1 = kx.1 ∧ decode_into strict go_zero kv.2 = Some kx.2) l kvs1) as Hl1.
  { assert (∀ kx, kx ∈ l → storable kx.1 ∧ fits kx.2) as Hfit.
    { intros [k x] Hin. rewrite Hl in Hin. apply elem_of_map_to_list in Hin. by apply Hm. }
    clear -He Hf Hfit. revert kvs1 Hf. induction He as [|[k j] [k' x] ms l [Hk Hj] _ IH]; intros kvs1 Hf;
      inversion Hf as [|? [k1 v1] ? kvs2 [Hk1 Hj1] Hf']; subst; [done|]. simpl in *. subst k' j.
    destruct (Hfit (k, x) ltac:(by left)) as [Hs Hx]. constructor.
    - simpl. rewrite <-Hk1, storable_scrub by done. split; [done|]. by apply stored_reads.
    - apply IH; [|done]. intros kx Hin. apply Hfit. by right. }
  apply Forall2_flip in Hl1. destruct (Permutation_Forall2 Hp Hl1) as (l' & Hp' & Hl'). apply Forall2_flip in Hl'.
  rewrite (entries_read strict l' kvs' ∅ Hl').
  assert (NoDup l'.*1) as Hnd' by (rewrite <-Hp', Hl; apply NoDup_fst_map_to_list).
  rewrite foldl_inserts, (right_id_L ∅ (∪)) by done. f_equal. symmetry. apply list_to_map_flip. by rewrite <-Hp'.
Qed.
Lemma members_keys m : (map_members m).*1 ≡ₚ (map_to_list m).*1.
Proof using. unfold map_members. rewrite sort_stable_perm, map_to_list_fmap, <-list_fmap_compose. by apply reflexive_eq, list_fmap_ext. Qed.
Lemma map_tidy m : map_fits m → jeq (of_json (JObject (map_members m))) (of_json (JObject (map_members m))).
Proof using.
  intros Hm. destruct (members_entries m) as (l & Hl & He).
  assert (∀ kv, kv ∈ map_members m → storable kv.1 ∧ jeq (of_json kv.2) (of_json kv.2)) as Hk.
  { intros kv Hin. apply list_elem_of_lookup in Hin as [i Hi].
    destruct (Forall2_lookup_l _ _ _ _ _ He Hi) as ([k x] & Hin'%list_elem_of_lookup_2 & Hk & Hj). rewrite Hl in Hin'. apply elem_of_map_to_list in Hin'. destruct (Hm k x Hin') as [Hs Hx]. rewrite Hk, Hj. split; [done|].
    by apply stored_tidy. }
  cbn [of_json]. eapply jeq_obj; [| |done].
  - rewrite <-list_fmap_compose. assert (fst ∘ (λ kv, (scrub 0 kv.1, of_json kv.2)) <$> map_members m = (map_members m).*1) as ->.
    { apply list_fmap_ext. intros i kv Hi. simpl. apply storable_scrub, Hk. by eapply list_elem_of_lookup_2. }
    rewrite members_keys. apply NoDup_fst_map_to_list.
  - apply Forall2_same_length_lookup_2; [done|]. intros i x y Hx Hy. rewrite Hx in Hy. injection Hy as <-. split; [done|].
    apply list_lookup_fmap_Some in Hx as (kv & -> & Hi). apply Hk. by eapply list_elem_of_lookup_2.
Qed.
Lemma map_text m : map_fits m → json_storable (JObject (map_members m)).
Proof using.
  intros Hm. destruct (members_entries m) as (l & Hl & He). assert (∀ kx, kx ∈ l → storable kx.1 ∧ fits kx.2) as Hf.
  { intros [k x] Hin. rewrite Hl in Hin. apply elem_of_map_to_list in Hin. by apply Hm. }
  clear Hl. induction He as [|[k j] [k' x] ms l [Hk Hj] _ IH]; [done|]. simpl in *. subst k' j.
  destruct (Hf (k, x)) as [Hs Hx]; [by left|]. split_and!; [done|by apply stored_text|].
  apply IH. intros kx Hin. apply Hf. by right.
Qed.
Lemma map_depth m : jdepth (JObject (map_members m)) <= 1 + json_levels.
Proof using.
  cbn [jdepth]. destruct (members_entries m) as (l & _ & He). pose proof levels_nonneg.
  assert (foldr Z.max 0 ((λ kv : string * json, jdepth kv.2) <$> map_members m) <= json_levels); [|lia].
  induction He as [|kv kx ms l [_ Hj] _ IH]; [done|]. rewrite fmap_cons. cbn [foldr]. rewrite Hj.
  pose proof (stored_depth kx.2). lia.
Qed.
End Maps.
#[export] Instance map_stored {A} `{Stored A} : Stored (gmap string A).
Proof.
  refine {| to_json m := JObject (map_members m); fits := map_fits; json_levels := 1 + json_levels |}.
  - intros strict a v Ha Hv. by apply map_read.
  - apply map_tidy.
  - apply map_text.
  - done.
  - pose proof levels_nonneg. lia.
  - apply map_depth.
Defined.

(** *** Structs *)

(** A member of a struct that is omitted when [e] is [None]. *)
Definition member (name : string) (e : option json) : list (string * json) := match e with Some j => [(name, j)] | None => [] end.
(** [omitempty]: of a string, a boolean, a pointer, a slice or a map. *)
Definition nonempty {A} `{Stored A} (empty : A → bool) (a : A) : option json := if empty a then None else Some (to_json a).

(** Fields that are kept in different components of a struct. *)
Lemma fld_commute {A B D} `{FromJSON B, FromJSON D} n n' (get : A → B) put (get' : A → D) put' strict a v w :
  (∀ a x, get' (put x a) = get' a) → (∀ a y, get (put' y a) = get a) → (∀ a x y, put' y (put x a) = put x (put' y a)) →
  (b ← f_set (fld n get put) strict a v; f_set (fld n' get' put') strict b w) =
  (b ← f_set (fld n' get' put') strict a w; f_set (fld n get put) strict b v).
Proof.
  intros H1 H2 H3. unfold fld, f_set.
  destruct (decode_into strict (get a) v) as [x|] eqn:E1, (decode_into strict (get' a) w) as [y|] eqn:E2; simpl;
    rewrite ?H1, ?H2, ?E1, ?E2; simpl; rewrite ?H3; done.
Qed.

Section Structs.
Context {A : Type} (fields : list (field A)).

(** Two members with different names can be stored in either order. *)
Definition independent : Prop := ∀ f g strict a v w, f ∈ fields → g ∈ fields → f_name f ≠ f_name g →
  (b ← f_set f strict a v; f_set g strict b w) = (b ← f_set g strict a w; f_set f strict b v).
Lemma find_exact f : f ∈ fields → NoDup (f_name <$> fields) → find_field fields (f_name f) = Some f.
Proof using.
  intros Hf Hn. unfold find_field. assert (find (λ g, str_eqb (f_name g) (f_name f)) fields = Some f) as ->; [|done].
  induction fields as [|g l IH]; [by apply elem_of_nil in Hf|]. rewrite fmap_cons in Hn. apply NoDup_cons in Hn as [Hg Hn].
  simpl. destruct (str_eqb (f_name g) (f_name f)) eqn:E.
  - apply str_eqb_eq in E. apply elem_of_cons in Hf as [->|Hf]; [done|]. destruct Hg. rewrite E. by apply list_elem_of_fmap_2.
  - apply elem_of_cons in Hf as [->|Hf]; [by rewrite str_eqb_refl in E|]. by apply IH.
Qed.
(** The order of members does not matter when their names are fields. *)
Lemma members_order strict (o : option A) kvs kvs' :
  independent → NoDup (f_name <$> fields) → NoDup kvs.*1 → (∀ kv, kv ∈ kvs → kv.1 ∈ f_name <$> fields) → kvs ≡ₚ kvs' →
  foldl (decode_member fields strict) o kvs = foldl (decode_member fields strict) o kvs'.
Proof using.
  intros Hi Hn Hd Hk Hp. revert o. induction Hp as [|kv l l' Hp IH|kv kv' l|l1 l2 l3 Hp1 IH1 Hp2 IH2]; intros o; [done|..].
  - simpl. apply IH; [by apply NoDup_cons in Hd as [_ ?]|]. intros x Hx. apply Hk. by right.
  - cbn [foldl]. f_equal. destruct o as [a|]; [|done]. unfold decode_member. cbn [mbind option_bind].
    destruct (list_elem_of_fmap_1 _ _ _ (Hk kv ltac:(by right; left))) as (f & Ef & Hf).
    destruct (list_elem_of_fmap_1 _ _ _ (Hk kv' ltac:(by left))) as (g & Eg & Hg).
    rewrite Ef, Eg, (find_exact f), (find_exact g) by done. symmetry. apply Hi; [done..|]. rewrite <-Ef, <-Eg.
    rewrite !fmap_cons in Hd. apply NoDup_cons in Hd as [Hd _]. intros E. destruct Hd. rewrite E. by left.
  - rewrite IH1, IH2; [done|..]; [by rewrite <-Hp1|intros x Hx; apply Hk; by rewrite Hp1|done|done].
Qed.
(** A member of the text and one read back. *)
Definition like (x : string * json) (y : string * jval) : Prop := y.1 = x.1 ∧ jeq (of_json x.2) y.2.
Definition named (ms : list (string * json)) : Prop := ∀ kv, kv ∈ ms → kv.1 ∈ f_name <$> fields.
Definition plain_names : Prop := NoDup (f_name <$> fields) ∧ Forall (λ f, storable (f_name f)) fields.

Lemma plain_name ms kv : plain_names → named ms → kv ∈ ms → scrub 0 kv.1 = kv.1.
Proof using.
  intros [_ Hs] Hn Hin. destruct (list_elem_of_fmap_1 _ _ _ (Hn kv Hin)) as (f & -> & Hf).
  apply storable_scrub. exact (proj1 (Forall_forall _ _) Hs f Hf).
Qed.
Lemma struct_reads strict ms z a v :
  independent → plain_names → named ms →
  (∀ kvs, Forall2 like ms kvs → foldl (decode_member fields strict) (Some z) kvs = Some a) →
  jeq (of_json (JObject ms)) v → decode_struct fields strict z v = Some a.
Proof using.
  intros Hi Hp Hn Hread Hv. inversion Hv as [| | | | |kvs kvs1 kvs' Hd Hf Hperm]; subst. simpl.
  assert (Forall2 like ms kvs1) as Hl.
  { apply Forall2_fmap_l in Hf. eapply Forall2_same_length_lookup in Hf as [Hlen Hf]. apply Forall2_same_length_lookup.
    split; [done|]. intros i x y Hx Hy. destruct (Hf i x y Hx Hy) as [H1 H2]. split; [|done]. rewrite <-H1. simpl.
    apply (plain_name ms); [done..|]. by eapply list_elem_of_lookup_2. }
  assert (kvs1.*1 = ms.*1) as Hkeys.
  { clear -Hl. induction Hl as [|x y ms kvs [Hk _] _ IH]; [done|]. rewrite !fmap_cons. by f_equal. }
  rewrite <-(members_order strict (Some z) kvs1 kvs'); [by apply Hread|done|apply Hp| | |done].
  - rewrite Hkeys. rewrite <-list_fmap_compose in Hd. erewrite list_fmap_ext; [exact Hd|]. intros i x Hx. simpl. symmetry.
    apply (plain_name ms); [done..|]. by eapply list_elem_of_lookup_2.
  - intros kv Hin. apply (list_elem_of_fmap_2 fst) in Hin. rewrite Hkeys in Hin.
    apply list_elem_of_fmap_1 in Hin as (x & -> & Hx). by apply Hn.
Qed.
Lemma struct_tidy ms :
  plain_names → named ms → NoDup ms.*1 → Forall (λ kv, jeq (of_json kv.2) (of_json kv.2)) ms →
  jeq (of_json (JObject ms)) (of_json (JObject ms)).
Proof using.
  intros Hp Hn Hd Hf. cbn [of_json]. eapply jeq_obj; [| |done].
  - rewrite <-list_fmap_compose. erewrite list_fmap_ext; [exact Hd|]. intros i x Hx. simpl.
    apply (plain_name ms); [done..|]. by eapply list_elem_of_lookup_2.
  - apply Forall2_fmap_l, Forall2_fmap_r. apply Forall2_same_length_lookup_2; [done|]. intros i x y Hx Hy.
    rewrite Hx in Hy. injection Hy as <-. split; [done|]. exact (Forall_lookup_1 _ _ _ _ Hf Hx).
Qed.

(** Reading one member, present or omitted. *)
Lemma member_read strict name e b b' ms kvs f :
  find_field fields name = Some f → (e = None → b' = b) →
  (∀ j v, e = Some j → jeq (of_json j) v → f_set f strict b v = Some b') →
  Forall2 like (member name e ++ ms) kvs →
  ∃ kvs', Forall2 like ms kvs' ∧
    foldl (decode_member fields strict) (Some b) kvs = foldl (decode_member fields strict) (Some b') kvs'.
Proof using.
  intros Hf Hno Hyes Hl. destruct e as [j|]; simpl in Hl.
  - inversion Hl as [|? [k v] ? kvs' [Hk Hj] Hl']; subst. simpl in Hk, Hj. subst k. exists kvs'. split; [done|].
    cbn [foldl]. unfold decode_member at 2. cbn [mbind option_bind fst snd]. by rewrite Hf, (Hyes j v).
  - exists kvs. split; [done|]. by rewrite Hno.
Qed.
Lemma value_read {B} `{Stored B} strict name (get : A → B) put empty x b ms kvs :
  find_field fields name = Some (fld name get put) → get b = go_zero → fits x → (empty x = true → put x b = b) →
  Forall2 like (member name (nonempty empty x) ++ ms) kvs →
  ∃ kvs', Forall2 like ms kvs' ∧
    foldl (decode_member fields strict) (Some b) kvs = foldl (decode_member fields strict) (Some (put x b)) kvs'.
Proof using.
  intros Hf Hg Hx He. apply (member_read strict _ _ _ _ _ _ _ Hf); unfold nonempty; destruct (empty x); try done; [auto|].
  intros j v [= <-] Hj. simpl. by rewrite Hg, (stored_reads strict x v Hx Hj).
Qed.
Lemma pointer_read {B} `{Stored B} strict name (get : A → option B) put x b ms kvs :
  find_field fields name = Some (fld name get put) → get b = None → (∀ y, x = Some y → fits y) → (x = None → put x b = b) →
  Forall2 like (member name (to_json <$> x) ++ ms) kvs →
  ∃ kvs', Forall2 like ms kvs' ∧
    foldl (decode_member fields strict) (Some b) kvs = foldl (decode_member fields strict) (Some (put x b)) kvs'.
Proof using.
  intros Hf Hg Hx He. apply (member_read strict _ _ _ _ _ _ _ Hf); destruct x as [y|]; try done; [auto|].
  intros j v [= <-] Hj. simpl. rewrite Hg. unfold decode_pointer. pose proof (stored_not_null y) as Hnn.
  pose proof (stored_reads strict y v (Hx y eq_refl) Hj) as Hr. simpl. destruct v; rewrite ?Hr; try done.
  by destruct (to_json y); inversion Hj.
Qed.

(** The text of a struct: its fields in order, each present or omitted. *)
Definition members_of (slots : list (string * option json)) : list (string * json) := slots ≫= λ s, member s.1 s.2.
Definition struct_json (slots : list (string * option json)) : json := JObject (members_of slots).
(** What holds of each member that is present. *)
Definition each (P : json → Prop) (slots : list (string * option json)) : Prop :=
  Forall (λ s, match s.2 with Some j => P j | None => True end) slots.

Lemma members_sublist slots : (members_of slots).*1 `sublist_of` slots.*1.
Proof using.
  induction slots as [|[n [j|]] slots IH]; [done|..].
  - apply (sublist_skip n), IH.
  - apply (sublist_cons n), IH.
Qed.
Lemma each_member P slots : each P slots → Forall (λ kv, P kv.2) (members_of slots).
Proof using.
  induction 1 as [|[n [j|]] slots Hs _ IH]; [constructor|..]; unfold members_of in *; rewrite bind_cons; simpl; [by constructor|done].
Qed.
Context (slots : list (string * option json)) (Hplain : plain_names) (Hslots : slots.*1 = f_name <$> fields).
Lemma slots_named : named (members_of slots).
Proof using Hslots.
  intros kv Hin. rewrite <-Hslots. apply singleton_sublist_l.
  etrans; [apply singleton_sublist_l|apply members_sublist]. by apply list_elem_of_fmap_2.
Qed.
Lemma slots_tidy : each (λ j, jeq (of_json j) (of_json j)) slots → jeq (of_json (struct_json slots)) (of_json (struct_json slots)).
Proof using Hplain Hslots.
  intros He. apply struct_tidy; [done|apply slots_named| |by apply (each_member (λ j, jeq (of_json j) (of_json j)))].
  eapply sublist_NoDup; [|apply members_sublist]. rewrite Hslots. apply Hplain.
Qed.
Lemma slots_text : each json_storable slots → json_storable (struct_json slots).
Proof using Hplain Hslots.
  intros He%each_member. pose proof slots_named as Hn. unfold struct_json, named in *.
  induction He as [|[k j] ms Hj _ IH]; [done|]. simpl. split_and!; [|done|apply IH; intros kv Hin; apply Hn; by right].
  destruct (list_elem_of_fmap_1 _ _ _ (Hn (k, j) ltac:(by left))) as (f & E & Hf). simpl in E. rewrite E.
  exact (proj1 (Forall_forall _ _) (proj2 Hplain) f Hf).
Qed.
Lemma slots_depth n : 0 <= n → each (λ j, jdepth j <= n) slots → jdepth (struct_json slots) <= 1 + n.
Proof using.
  intros Hp He%each_member. unfold struct_json. cbn [jdepth].
  assert (foldr Z.max 0 ((λ kv : string * json, jdepth kv.2) <$> members_of slots) <= n); [|lia].
  induction He as [|kv ms Hj _ IH]; [done|]. rewrite fmap_cons. cbn [foldr]. lia.
Qed.
End Structs.
Lemma each_value {A} `{Stored A} (P : json → Prop) (empty : A → bool) x :
  P (to_json x) → match nonempty empty x with Some j => P j | None => True end.
Proof. unfold nonempty. by destruct (empty x). Qed.

(** What is written to a JSON column is what is read back. *)
Lemma column_roundtrip {J : Jsonb} {L : JsonbLaws J} {A : Type} {D : FromJSON A} {S : Stored A} (a : A) :
  fits a → json_levels <= maxNestingDepth → ∃ s, jsonb (marshal (to_json a)) = Some s ∧ unmarshal s = Some a.
Proof.
  intros Ha Hl. destruct (jsonb_keeps (to_json a)) as (s & v & Hs & Hp & Hj).
  - by apply stored_tidy.
  - by apply stored_text.
  - pose proof (stored_depth a). lia.
  - exists s. split; [done|]. unfold unmarshal. rewrite Hp. simpl. by apply stored_reads.
Qed.
