(* ===== verification/Float64.v ===== *)
(** * Bounds for [float64] arithmetic

    The risk engine scores in [float64].  This file shows, from the IEEE-754
    specification of the operations, that an upper bound [M * 2^k] of the
    operands carries over to the correctly rounded product, sum and difference
    whenever the bound is itself representable, and so to the truncated
    integer; and the same for lower bounds of products and sums.  The first is what makes
    the point caps of the engine hold exactly, both together what makes more points never
    round to less. *)

From S2P Require Import Prelude GoStd.
Open Scope Z_scope.

(** Powers of two scaled to integers: exponents of this file lie above
    [-3000]. *)
Definition pw (e : Z) : Z := 2 ^ (e + 3000).
Lemma pw_pos e : -3000 <= e → 0 < pw e.
Proof. intros. unfold pw. apply Z.pow_pos_nonneg; lia. Qed.
Lemma pw_add e n : -3000 <= e → 0 <= n → pw (e + n) = pw e * 2 ^ n.
Proof. intros. unfold pw. rewrite <-Z.pow_add_r by lia. f_equal. lia. Qed.
Lemma pw_split e k : -3000 <= e <= k → pw k = pw e * 2 ^ (k - e).
Proof. intros. rewrite <-pw_add by lia. f_equal. lia. Qed.
Lemma pw_lt_inv a b : -3000 <= a → -3000 <= b → pw a < pw b → a < b.
Proof. unfold pw. intros Ha Hb H. apply Z.pow_lt_mono_r_iff in H; lia. Qed.

(** [f <= M * 2^k], for any value but +Inf; NaN counts as no value. *)
Definition fub (f : f64) (M k : Z) : Prop :=
  match f with
  | S754_finite false m e => -1400 <= e ∧ Zpos m * pw e <= M * pw k
  | S754_finite true _ e => -1400 <= e
  | S754_infinity false => False
  | _ => True
  end.
(** [f] is not negative (or is NaN). *)
Definition fnn (f : f64) : Prop :=
  match f with S754_finite true _ _ | S754_infinity true => False | _ => True end.
(** [f] has at most 53 significant bits and an exponent in range: true of every
    [float64] and of every result of an operation. *)
Definition fpr (f : f64) : Prop :=
  match f with S754_finite _ m e => Zpos m < 2 ^ 53 ∧ -1400 <= e | _ => True end.

(** ** Digits *)

Lemma digits_bounds m :
  2 ^ (Zpos (digits2_pos m) - 1) <= Zpos m < 2 ^ Zpos (digits2_pos m).
Proof.
  induction m as [m IH|m IH|]; cbn [digits2_pos]; [..|lia];
    rewrite Pos2Z.inj_succ; unfold Z.succ;
    replace (Z.pos (digits2_pos m) + 1 - 1) with (Z.pos (digits2_pos m) - 1 + 1) by lia;
    rewrite !Z.pow_add_r by lia; lia.
Qed.

(** A bound [M < 2^53] at exponent [k] keeps the rounding exponent below [k]. *)
Lemma fexp_le m e M k :
  -3000 <= e → -1074 <= k → 0 < M < 2 ^ 53 →
  Zpos m * pw e <= M * pw k → fexp 53 1024 (Zpos (digits2_pos m) + e) <= k.
Proof.
  intros He Hk HM H. unfold fexp, emin.
  destruct (digits_bounds m) as [Hd _].
  assert (pw (Z.pos (digits2_pos m) - 1 + e) < pw (k + 53)) as Hlt.
  { rewrite (Z.add_comm _ e), !pw_add by lia.
    pose proof (pw_pos e He). pose proof (pw_pos k ltac:(lia)). nia. }
  apply pw_lt_inv in Hlt; lia.
Qed.

(** ** Right shifts *)

Lemma shr_1_exact z : shr_1 (Build_shr_record (2 * z) false false) = Build_shr_record z false false.
Proof. by destruct z. Qed.

Lemma shr_iter_exact p c :
  iter_pos shr_1 p (Build_shr_record (2 ^ Zpos p * c) false false)
  = Build_shr_record c false false.
Proof.
  revert c. induction p as [p IH|p IH|]; intros c; cbn [iter_pos].
  - replace (2 ^ Z.pos p~1 * c) with (2 * (2 ^ Z.pos p * (2 ^ Z.pos p * c))).
    { by rewrite shr_1_exact, !IH. }
    rewrite Pos2Z.inj_xI, Z.pow_add_r by lia.
    replace (2 * Z.pos p) with (Z.pos p + Z.pos p) by lia.
    rewrite Z.pow_add_r by lia. lia.
  - replace (2 ^ Z.pos p~0 * c) with (2 ^ Z.pos p * (2 ^ Z.pos p * c)).
    { by rewrite !IH. }
    rewrite Z.mul_assoc, <-Z.pow_add_r by lia. do 2 f_equal. lia.
  - apply (shr_1_exact c).
Qed.

Lemma shr_1_m mrs : 0 <= shr_m mrs → shr_m (shr_1 mrs) = shr_m mrs / 2.
Proof.
  destruct mrs as [[|[q|q|]|q] r s]; cbn -[Z.div]; intros; try done; try lia.
  - apply Z.div_unique with 1; lia.
  - apply Z.div_unique with 0; lia.
Qed.

Lemma shr_iter_m p mrs :
  0 <= shr_m mrs → shr_m (iter_pos shr_1 p mrs) = shr_m mrs / 2 ^ Zpos p.
Proof.
  assert (Hp : ∀ q x, 0 <= x → 0 <= x / 2 ^ Zpos q)
    by (intros; apply Z.div_pos; [done|apply Z.pow_pos_nonneg; lia]).
  revert mrs. induction p as [p IH|p IH|]; intros mrs H; cbn [iter_pos].
  - assert (0 <= shr_m (shr_1 mrs)) by (rewrite shr_1_m by done; apply Z.div_pos; lia).
    rewrite !IH, shr_1_m by (rewrite ?IH; auto).
    pose proof (Z.pow_pos_nonneg 2 (Zpos p)). rewrite !Z.div_div by lia. f_equal.
    rewrite Pos2Z.inj_xI, Z.pow_add_r by lia.
    replace (2 * Z.pos p) with (Z.pos p + Z.pos p) by lia.
    rewrite Z.pow_add_r by lia. lia.
  - rewrite !IH by (rewrite ?IH; auto). 
    pose proof (Z.pow_pos_nonneg 2 (Zpos p)). rewrite Z.div_div by lia. f_equal. rewrite <-Z.pow_add_r by lia. f_equal. lia.
  - by apply shr_1_m.
Qed.

(** [shr_fexp] on an exact significand: the shift, and whether it was exact. *)
Lemma shr_fexp_spec m e mrs e' :
  0 <= m → shr_fexp 53 1024 m e loc_Exact = (mrs, e') →
  ∃ n, 0 <= n ∧ e' = e + n ∧ shr_m mrs = m / 2 ^ n ∧
    (n = 0 ∨ e' = fexp 53 1024 (Zdigits2 m + e)) ∧
    fexp 53 1024 (Zdigits2 m + e) <= e' ∧
    (m = 2 ^ n * (m / 2 ^ n) → mrs = Build_shr_record (m / 2 ^ n) false false).
Proof.
  unfold shr_fexp, shr. intros Hm H.
  destruct (fexp 53 1024 (Zdigits2 m + e) - e) as [|p|p] eqn:Ed; cbn [shr_record_of_loc] in H;
    injection H as <- <-.
  - exists 0. rewrite Z.pow_0_r, Z.div_1_r. repeat split; try done; lia.
  - exists (Zpos p). rewrite shr_iter_m by done. repeat split; try lia; try done.
    intros Hx. rewrite Hx at 1. apply shr_iter_exact.
  - exists 0. rewrite Z.pow_0_r, Z.div_1_r. repeat split; try done; lia.
Qed.

(** Rounding up happens only when the shift dropped a non-zero remainder. *)
Lemma round_up_bound mrs m n :
  0 <= m → 0 <= n → shr_m mrs = m / 2 ^ n →
  (m = 2 ^ n * (m / 2 ^ n) → mrs = Build_shr_record (m / 2 ^ n) false false) →
  let r := round_nearest_even (shr_m mrs) (loc_of_shr_record mrs) in
  m / 2 ^ n <= r ∧ (r <= m / 2 ^ n ∨ (r = m / 2 ^ n + 1 ∧ 2 ^ n * (m / 2 ^ n) < m)).
Proof.
  intros Hm Hn Hq Hx. cbv zeta.
  assert (2 ^ n * (m / 2 ^ n) <= m) as Hle
    by (apply Z.mul_div_le, Z.pow_pos_nonneg; lia).
  destruct (decide (m = 2 ^ n * (m / 2 ^ n))) as [Heq|Hne].
  - rewrite (Hx Heq). simpl. lia.
  - rewrite Hq. unfold round_nearest_even.
    destruct (loc_of_shr_record mrs) as [|[]]; try (destruct (Z.even _)); lia.
Qed.

(** The first rounding step respects a representable bound. *)
Lemma round_step_bound m e M k n r :
  -3000 <= e → -1074 <= k → 0 <= m → 0 < M → 0 <= n → e + n <= k ∨ n = 0 →
  m * pw e <= M * pw k →
  (r <= m / 2 ^ n ∨ (r = m / 2 ^ n + 1 ∧ 2 ^ n * (m / 2 ^ n) < m)) →
  r * pw (e + n) <= M * pw k.
Proof.
  intros He Hk Hm HM Hn Hgrid Hb Hr.
  pose proof (pw_pos e He) as Hpe. pose proof (Z.pow_pos_nonneg 2 n ltac:(lia) Hn) as Hpn.
  assert (2 ^ n * (m / 2 ^ n) <= m) as Hle by (apply Z.mul_div_le; lia).
  rewrite pw_add by lia.
  destruct Hr as [Hr|[-> Hlt]].
  - enough (r * 2 ^ n <= m) by nia. nia.
  - destruct Hgrid as [Hg| ->]; [|rewrite Z.pow_0_r, Z.div_1_r in Hlt; lia].
    assert (pw k = pw e * 2 ^ n * 2 ^ (k - (e + n))) as Hk2
      by (rewrite <-(pw_add e n) by lia; apply pw_split; lia).
    rewrite Hk2 in Hb |- *.
    assert (0 < 2 ^ (k - (e + n))) by (apply Z.pow_pos_nonneg; lia).
    set (C := M * 2 ^ (k - (e + n))).
    assert (m <= C * 2 ^ n) as HC by (unfold C; nia).
    assert (m / 2 ^ n < C) by (apply (Z.mul_lt_mono_pos_l (2 ^ n)); lia).
    enough ((m / 2 ^ n + 1) * 2 ^ n <= C * 2 ^ n) by (unfold C in *; nia). nia.
Qed.

Lemma round_aux_pos m e M k :
  -3000 <= e → -1074 <= k <= 800 → 0 < M < 2 ^ 53 → Zpos m * pw e <= M * pw k →
  fub (binary_round_aux 53 1024 false (Zpos m) e loc_Exact) M k.
Proof.
  intros He Hk HM Hb. unfold binary_round_aux.
  destruct (shr_fexp _ _ _ _ _) as [mrs1 e1] eqn:E1.
  apply shr_fexp_spec in E1 as (n1 & Hn1 & -> & Hq1 & Hg1 & Hge1 & Hx1); [|lia].
  cbn [Zdigits2] in Hg1, Hge1.
  assert (-1074 <= k) as Hk0 by lia.
  pose proof (fexp_le m e M k He Hk0 HM Hb) as Hf1.
  pose proof (round_up_bound mrs1 (Zpos m) n1 ltac:(lia) Hn1 Hq1 Hx1) as [Hr0 Hr].
  set (r := round_nearest_even _ _) in *.
  assert (r * pw (e + n1) <= M * pw k) as Hrb
    by (apply (round_step_bound (Zpos m)); [done|done|lia|lia|done| |done|exact Hr];
        destruct Hg1; [by right|left; lia]).
  assert (0 <= r) as Hrpos.
  { etrans; [|exact Hr0]. apply Z.div_pos; [lia|apply Z.pow_pos_nonneg; lia]. }
  destruct (shr_fexp _ _ r _ _) as [mrs2 e2] eqn:E2.
  apply shr_fexp_spec in E2 as (n2 & Hn2 & -> & Hq2 & Hg2 & Hge2 & _); [|lia].
  pose proof (Z.pow_pos_nonneg 2 n2 ltac:(lia) Hn2).
  assert (2 ^ n2 * (r / 2 ^ n2) <= r) by (apply Z.mul_div_le; lia).
  pose proof (pw_pos (e + n1) ltac:(lia)).
  destruct (shr_m mrs2) as [|q|q] eqn:Eq; [done| |].
  - assert (0 < r) by nia. destruct r as [|rp|rp]; try lia.
    pose proof (fexp_le rp (e + n1) M k ltac:(lia) Hk0 HM Hrb) as Hf2.
    cbn [Zdigits2] in Hg2, Hge2.
    assert (e + n1 <= 853).
    { assert (pw (e + n1) < pw (k + 53)); [|apply pw_lt_inv in H3; lia].
      rewrite (pw_add k) by lia. pose proof (pw_pos k). nia. }
    replace (e + n1 + n2 <=? 1024 - 53) with true by (symmetry; apply Z.leb_le; lia).
    split; [unfold fexp, emin in *; lia|].
    rewrite pw_add by lia. rewrite Hq2. nia.
  - exfalso. assert (0 <= r / 2 ^ n2) by (apply Z.div_pos; lia). lia.
Qed.

Lemma round_aux_neg m e M k :
  -3000 <= e → fub (binary_round_aux 53 1024 true (Zpos m) e loc_Exact) M k.
Proof.
  intros He. unfold binary_round_aux.
  destruct (shr_fexp _ _ _ _ _) as [mrs1 e1] eqn:E1.
  destruct (shr_fexp _ _ (round_nearest_even _ _) _ _) as [mrs2 e2] eqn:E2.
  destruct (shr_m mrs2); [done| |done].
  destruct (_ <=? _); [|done]. cbn. unfold shr_fexp, shr in E2.
  destruct (fexp _ _ _ - e1) eqn:Ef; injection E2 as _ <-; unfold fexp, emin in Ef; lia.
Qed.

Lemma iter_xO_spec p m : Zpos (Pos.iter xO m p) = Zpos m * 2 ^ Zpos p.
Proof.
  induction p as [|p IH] using Pos.peano_ind; [simpl; lia|].
  rewrite Pos.iter_succ, Pos2Z.inj_xO, IH, Pos2Z.inj_succ, Z.pow_succ_r by lia. lia.
Qed.

Lemma shl_align_spec m e e' m' e'' :
  -3000 <= e' → -3000 <= e → shl_align m e e' = (m', e'') →
  Zpos m' * pw e'' = Zpos m * pw e ∧ -3000 <= e'' ∧ e'' = Z.min e e'.
Proof.
  unfold shl_align. intros He' He H. destruct (e' - e) as [|p|p] eqn:E; injection H as <- <-.
  1,2: split; [done|lia].
  split; [|lia]. replace e with (e' + Zpos p) by lia.
  rewrite iter_xO_spec, (pw_add e') by lia. lia.
Qed.

(** ** The rounded operations *)

Lemma round_bound s m e M k :
  -1500 <= e → -1074 <= k <= 800 → 0 < M < 2 ^ 53 →
  (s = false → Zpos m * pw e <= M * pw k) → fub (binary_round 53 1024 s m e) M k.
Proof.
  intros He Hk HM Hb. unfold binary_round.
  destruct (shl_align _ _ _) as [m' e'] eqn:E.
  apply shl_align_spec in E as (Hv & He' & _); [|unfold fexp, emin; lia..].
  destruct s; [by apply round_aux_neg|].
  apply round_aux_pos; try done. rewrite Hv. auto.
Qed.

Lemma normalize_bound z e s M k :
  -1500 <= e → -1074 <= k <= 800 → 0 < M < 2 ^ 53 →
  z * pw e <= M * pw k → fub (binary_normalize 53 1024 z e s) M k.
Proof.
  intros He Hk HM Hb. destruct z as [|p|p]; [done| |]; apply round_bound; done.
Qed.

Lemma fub_mul x y M k N l :
  -1074 <= k → -1074 <= l → -1074 <= k + l <= 800 → 0 < M → 0 < N → M * N < 2 ^ 53 →
  fub x M k → fnn y → fub y N l → fub (f64_mul x y) (M * N) (k + l).
Proof.
  intros Hk Hl Hkl HM HN HMN Hx Hnn Hy.
  destruct x as [|[]| |[] mx ex], y as [|[]| |[] my ey]; try done; cbn in Hx, Hy;
    [apply round_aux_neg; lia|].
  destruct Hx as [? Hx], Hy as [? Hy]. apply round_aux_pos; try lia.
  assert (∀ a b, -1500 <= a → -1500 <= b → pw (a + b) * 2 ^ 3000 = pw a * pw b) as Hpp.
  { intros. unfold pw. rewrite <-!Z.pow_add_r by lia. f_equal. lia. }
  pose proof (pw_pos ex ltac:(lia)). pose proof (pw_pos ey ltac:(lia)).
  apply (Z.mul_le_mono_pos_r _ _ (2 ^ 3000)); [by apply Z.pow_pos_nonneg|].
  rewrite <-!(Z.mul_assoc _ _ (2 ^ 3000)), !Hpp, Pos2Z.inj_mul by lia.
  transitivity ((Z.pos mx * pw ex) * (Z.pos my * pw ey)); [lia|].
  transitivity ((M * pw k) * (N * pw l)); [|lia].
  apply Z.mul_le_mono_nonneg; lia.
Qed.

(** The exact value of a finite operand at the common exponent of [SFadd]. *)
Lemma align_val s m e e' ez :
  ez = Z.min e e' → -1400 <= e → -1400 <= e' →
  cond_Zopp s (Zpos (fst (shl_align m e ez))) * pw ez = cond_Zopp s (Zpos m) * pw e.
Proof.
  intros -> He He'. destruct (shl_align m e _) as [m' e''] eqn:E.
  apply shl_align_spec in E as (Hv & _ & ->); [|lia..].
  replace (Z.min e (Z.min e e')) with (Z.min e e') in Hv by lia.
  destruct s; simpl; [rewrite !Z.mul_opp_l|]; lia.
Qed.

Lemma fub_val s m e M k : -1074 <= k → 0 < M →
  fub (S754_finite s m e) M k → -1400 <= e ∧ cond_Zopp s (Zpos m) * pw e <= M * pw k.
Proof.
  intros Hk HM. pose proof (pw_pos k ltac:(lia)).
  destruct s; simpl; [|done]. intros He. pose proof (pw_pos e ltac:(lia)).
  split; [done|]. pose proof (Z.mul_pos_pos M (pw k)). lia.
Qed.

Lemma fub_weaken f M M' k : -1074 <= k → M <= M' → fub f M k → fub f M' k.
Proof.
  intros Hk HM. pose proof (pw_pos k ltac:(lia)). destruct f as [|[]| |[]]; simpl; try done.
  intros [? ?]. split; [done|]. nia.
Qed.

Lemma fub_add x y M N k :
  -1074 <= k <= 800 → 0 < M → 0 < N → M + N < 2 ^ 53 →
  fub x M k → fub y N k → fub (f64_add x y) (M + N) k.
Proof.
  intros Hk HM HN HMN Hx Hy.
  destruct x as [[]|[]| |sx mx ex], y as [[]|[]| |sy my ey]; try done;
    try (eapply fub_weaken; [| |exact Hx || exact Hy]; lia).
  apply fub_val in Hx as [Hex Hx], Hy as [Hey Hy]; try lia.
  apply normalize_bound; try lia.
  rewrite Z.mul_add_distr_r, (align_val _ _ ex ey), (align_val _ _ ey ex) by lia. lia.
Qed.

(** Subtracting a positive constant of at least [N * 2^k]. *)
Lemma fub_sub_pos x my ey M N k :
  -1074 <= k <= 800 → 0 <= N < M → M < 2 ^ 53 → -1400 <= ey →
  N * pw k <= Zpos my * pw ey → fub x M k →
  fub (f64_sub x (S754_finite false my ey)) (M - N) k.
Proof.
  intros Hk HN HM Hey Hy Hx. destruct x as [[]|[]| |sx mx ex]; try done.
  apply fub_val in Hx as [Hex Hx]; try lia.
  apply normalize_bound; try lia.
  rewrite Z.mul_sub_distr_r, (align_val _ _ ex ey), (align_val false _ ey ex) by lia.
  cbn [cond_Zopp]. lia.
Qed.

(** ** Precision of the results *)

Lemma fpr_round_aux s m e : 0 <= m → fpr (binary_round_aux 53 1024 s m e loc_Exact).
Proof.
  intros Hm. unfold binary_round_aux.
  destruct (shr_fexp _ _ _ _ _) as [mrs1 e1] eqn:E1.
  apply shr_fexp_spec in E1 as (n1 & Hn1 & -> & Hq1 & _ & _ & Hx1); [|done].
  pose proof (round_up_bound mrs1 m n1 Hm Hn1 Hq1 Hx1) as [Hr0 _].
  set (r := round_nearest_even _ _) in *.
  assert (0 <= r).
  { etrans; [|exact Hr0]. apply Z.div_pos; [lia|apply Z.pow_pos_nonneg; lia]. }
  destruct (shr_fexp _ _ r _ _) as [mrs2 e2] eqn:E2.
  apply shr_fexp_spec in E2 as (n2 & Hn2 & -> & Hq2 & _ & Hge & _); [|done].
  destruct (shr_m mrs2) as [|q|q] eqn:Eq; [done| |done].
  destruct (_ <=? _); [|done]. simpl. rewrite Hq2.
  destruct r as [|rp|rp]; [by rewrite Z.div_0_l in Hq2 by (apply Z.pow_nonzero; lia)| |lia].
  cbn [Zdigits2] in Hge. destruct (digits_bounds rp) as [_ Hd]. unfold fexp, emin in Hge.
  split; [|lia]. apply Z.div_lt_upper_bound; [apply Z.pow_pos_nonneg; lia|].
  rewrite <-Z.pow_add_r by lia. eapply Z.lt_le_trans; [exact Hd|].
  apply Z.pow_le_mono_r; lia.
Qed.

Lemma fpr_normalize z e s : fpr (binary_normalize 53 1024 z e s).
Proof.
  destruct z; [done| |]; simpl; unfold binary_round; destruct (shl_align _ _ _);
    by apply fpr_round_aux.
Qed.
Lemma fpr_of_int z : fpr (f64_of_int z).
Proof. apply fpr_normalize. Qed.
Lemma fpr_mul x y : fpr (f64_mul x y).
Proof. destruct x, y; try done. by apply fpr_round_aux. Qed.
Lemma fpr_add x y : fpr x → fpr y → fpr (f64_add x y).
Proof. destruct x as [[]|[]| |], y as [[]|[]| |]; try done. intros. apply fpr_normalize. Qed.
Lemma fpr_sub x y : fpr x → fpr y → fpr (f64_sub x y).
Proof. destruct x as [[]|[]| |], y as [[]|[]| |]; try done. intros. apply fpr_normalize. Qed.
#[export] Hint Resolve fpr_of_int fpr_mul fpr_add fpr_sub : netra.

(** Every [float64] value is at its precision. *)
Lemma valid_fpr f : valid_binary 53 1024 f = true → fpr f.
Proof.
  destruct f as [| | |s m e]; try done. simpl. unfold bounded, canonical_mantissa.
  intros [H%Z.eqb_eq _]%andb_true_iff. destruct (digits_bounds m) as [_ Hd].
  unfold fexp, emin in H. split; [|lia]. eapply Z.lt_le_trans; [exact Hd|].
  apply Z.pow_le_mono_r; lia.
Qed.

(** ** Comparison and truncation *)

(** Failing [c < f] bounds [f] by a normal constant [c = mc * 2^ec]. *)
Lemma fub_not_ltb mc ec f M k :
  -1400 <= ec → 2 ^ 52 <= Zpos mc → Zpos mc * pw ec <= M * pw k →
  fpr f → f64_ltb (S754_finite false mc ec) f = false → fub f M k.
Proof.
  intros Hec Hmc HM Hp. unfold f64_ltb, SFltb.
  destruct f as [|[]| |[] m e]; try done; simpl in *; try (intros; lia).
  destruct Hp as [Hm He]. destruct (Z.compare_spec ec e) as [<-|Hlt|Hgt]; [|done|].
  - change (Pos.compare_cont Eq mc m) with (mc ?= m)%positive.
    destruct (Pos.compare_spec mc m); [..|done|]; intros _; (split; [done|]);
      pose proof (pw_pos ec ltac:(lia)); subst; nia.
  - intros _. split; [done|]. etrans; [|exact HM].
    replace ec with (e + (ec - e)) by lia. rewrite (pw_add e) by lia.
    pose proof (pw_pos e ltac:(lia)).
    assert (2 ^ 1 <= 2 ^ (ec - e)) by (apply Z.pow_le_mono_r; lia).
    assert (Z.pos m <= Z.pos mc * 2 ^ (ec - e)) by nia. nia.
Qed.

Lemma fnn_not_ltb f : f64_ltb f (S754_zero false) = false → fnn f.
Proof. by destruct f as [|[]| |[]]. Qed.

Lemma fub_trunc f M n : 0 <= n <= 1000 → 0 <= M → fub f M (- n) → f64_trunc f <= M / 2 ^ n.
Proof.
  intros Hn HM Hf. pose proof (Z.pow_pos_nonneg 2 n ltac:(lia) ltac:(lia)) as Hp.
  assert (0 <= M / 2 ^ n) by (apply Z.div_pos; lia).
  assert (minInt64 <= 0) by (unfold minInt64; lia).
  destruct f as [|[]| |[] m e]; simpl in *; try lia.
  - destruct (0 <=? e) eqn:E; zbool; [lia|]. assert (0 <= Z.pos m / 2 ^ (- e)); [|lia].
    apply Z.div_pos; [lia|]. apply Z.pow_pos_nonneg; lia.
  - destruct Hf as [He Hf]. apply Z.div_le_lower_bound; [done|].
    destruct (0 <=? e) eqn:E; zbool.
    + rewrite (pw_split (- n) e) in Hf by lia.
      replace (e - - n) with (e + n) in Hf by lia. rewrite Z.pow_add_r in Hf by lia.
      apply (Z.mul_le_mono_pos_r _ _ (pw (- n))); [apply pw_pos; lia|lia].
    + set (d := Z.pos m / 2 ^ (- e)).
      assert (2 ^ (- e) * d <= Z.pos m) by (apply Z.mul_div_le, Z.pow_pos_nonneg; lia).
      pose proof (pw_pos e ltac:(lia)). pose proof (pw_pos (- n) ltac:(lia)).
      assert (2 ^ (- e) * pw e = 2 ^ 3000).
      { unfold pw. rewrite <-Z.pow_add_r by lia. f_equal. lia. }
      assert (2 ^ n * pw (- n) = 2 ^ 3000).
      { unfold pw. rewrite <-Z.pow_add_r by lia. f_equal. lia. }
      apply (Z.mul_le_mono_pos_r _ _ (pw (- n))); [done|].
      transitivity (d * 2 ^ 3000); [nia|]. nia.
Qed.

Lemma fub_to_int f M n : 0 <= n <= 1000 → 0 <= M → fub f M (- n) → f64_to_int f <= M / 2 ^ n.
Proof.
  intros Hn HM Hf. pose proof (fub_trunc f M n Hn HM Hf).
  assert (0 <= M / 2 ^ n) by (apply Z.div_pos; [lia|apply Z.pow_pos_nonneg; lia]).
  unfold f64_to_int. destruct (_ && _); [done|]. unfold minInt64. lia.
Qed.

(** ** Lower bounds, through negation *)

Lemma opp_round_aux s m e l :
  SFopp (binary_round_aux 53 1024 s m e l) = binary_round_aux 53 1024 (negb s) m e l.
Proof. unfold binary_round_aux. repeat case_match; done. Qed.
Lemma opp_normalize z e s M k :
  fub (binary_normalize 53 1024 (- z) e s) M k → fub (SFopp (binary_normalize 53 1024 z e s)) M k.
Proof.
  destruct z; [done| |]; simpl; unfold binary_round; destruct (shl_align _ _ _);
    by rewrite opp_round_aux.
Qed.
Lemma opp_mul x y : fub (f64_mul (SFopp x) y) = fub (SFopp (f64_mul x y)).
Proof.
  destruct x as [[]|[]| |[]], y as [[]|[]| |[]]; try done;
    unfold f64_mul; simpl SFopp; unfold SFmul; by rewrite opp_round_aux.
Qed.

Lemma fub_opp_sub x y N k :
  -1074 <= k <= 800 → 0 < N < 2 ^ 53 → fnn x → fpr x → fub y N k →
  fub (SFopp (f64_sub x y)) N k.
Proof.
  intros Hk HN Hn Hp Hy. destruct x as [[]|[]| |[] mx ex], y as [[]|[]| |[] my ey]; try done;
    destruct Hp as [_ Hex]; try done; apply fub_val in Hy as [Hey Hy]; try lia.
  all: apply opp_normalize, normalize_bound; try lia.
  all: rewrite Z.mul_opp_l, Z.mul_sub_distr_r, (align_val _ _ ex ey), (align_val _ _ ey ex) by lia.
  all: pose proof (pw_pos ex ltac:(lia)); simpl in *; nia.
Qed.

Lemma fub_sub_nn x y M k :
  -1074 <= k <= 800 → 0 < M < 2 ^ 53 → fnn y → fpr y → fub x M k → fub (f64_sub x y) M k.
Proof.
  intros Hk HM Hn Hp Hx. destruct x as [[]|[]| |[] mx ex], y as [[]|[]| |[] my ey]; try done;
    destruct Hp as [_ Hey]; try done; apply fub_val in Hx as [Hex Hx]; try lia.
  all: apply normalize_bound; try lia.
  all: rewrite Z.mul_sub_distr_r, (align_val _ _ ex ey), (align_val _ _ ey ex) by lia.
  all: pose proof (pw_pos ey ltac:(lia)); simpl in *; nia.
Qed.

Lemma fnn_of_int z : 0 <= z → fnn (f64_of_int z).
Proof.
  intros Hz. destruct z as [|p|p]; [done| |lia].
  unfold f64_of_int, binary_normalize, binary_round. destruct (shl_align _ _ _).
  unfold binary_round_aux. repeat case_match; done.
Qed.

(** Truncating a bounded non-negative value. *)
Lemma f64_to_int_bounds f M :
  0 <= M <= maxInt64 → (∃ m e, f = S754_finite false m e) → fub f M 0 → 0 <= f64_to_int f <= M.
Proof.
  intros HM (m & e & ->) Hf.
  pose proof (fub_trunc _ M 0 ltac:(lia) ltac:(lia) Hf) as Hu. rewrite Z.pow_0_r, Z.div_1_r in Hu.
  assert (0 <= f64_trunc (S754_finite false m e)).
  { simpl. destruct (0 <=? e) eqn:He; zbool; [pose proof (Z.pow_nonneg 2 e); lia|].
    apply Z.div_pos; [lia|apply Z.pow_pos_nonneg; lia]. }
  unfold f64_to_int. cbv zeta.
  replace (_ && _) with true; [lia|]. symmetry. apply andb_true_iff.
  unfold minInt64. split; apply Z.leb_le; lia.
Qed.

Lemma fub_opp_to_int f M n :
  0 <= n <= 1000 → 0 <= M → fub (SFopp f) M (- n) →
  - (M / 2 ^ n) <= f64_to_int f ∨ f64_to_int f = minInt64.
Proof.
  intros Hn HM Hf. unfold f64_to_int. cbv zeta.
  destruct (_ && _) eqn:E; [|by right].
  assert (f64_trunc (SFopp f) = - f64_trunc f ∨ f64_trunc f = minInt64) as [H|H]; [| |by right].
  { destruct f as [| | |[]]; simpl; auto; lia. }
  apply (fub_to_int _ _ n) in Hf; [|done..]. unfold f64_to_int in Hf. cbv zeta in Hf.
  rewrite H in Hf. zbool. destruct (_ && _) eqn:E2; [left; lia|right].
  apply andb_false_iff in E2 as [E2|E2]; zbool; unfold minInt64, maxInt64 in *; lia.
Qed.

(** ** Lower bounds *)

(** [M * 2^k <= f], for positive [f]. *)
Definition flb (f : f64) (M k : Z) : Prop :=
  match f with
  | S754_finite false m e => -1400 <= e ∧ M * pw k <= Zpos m * pw e
  | S754_infinity false => True
  | _ => False
  end.

(** Dropping the bits below the rounding exponent keeps a representable lower bound. *)
Lemma shift_low m e n M k :
  -3000 <= e → -1074 <= k → 0 < M < 2 ^ 53 → 0 <= n → 0 < m →
  (n = 0 ∨ e + n = fexp 53 1024 (Zdigits2 m + e)) →
  M * pw k <= m * pw e → M * pw k <= m / 2 ^ n * pw (e + n).
Proof.
  intros He Hk HM Hn Hm Hx Hb. destruct (decide (n = 0)) as [->|Hn0].
  { by rewrite Z.pow_0_r, Z.div_1_r, Z.add_0_r. }
  destruct Hx as [?|Hx]; [done|]. pose proof (pw_pos e He) as Hpe. pose proof (Z.pow_pos_nonneg 2 n ltac:(lia) Hn) as Hpn.
  destruct m as [|p|p]; [lia| |lia]. cbn [Zdigits2] in Hx. destruct (digits_bounds p) as [Hd _].
  destruct (decide (e + n <= k)) as [Hle|Hgt].
  - assert (pw k = pw e * 2 ^ n * 2 ^ (k - (e + n))) as Hk2
      by (rewrite <-(pw_add e n) by lia; apply pw_split; lia).
    rewrite pw_add by lia. rewrite Hk2 in Hb |- *. set (c := 2 ^ (k - (e + n))) in *.
    assert (M * c <= Zpos p / 2 ^ n); [|nia]. apply Z.div_le_lower_bound; nia.
  - unfold fexp, emin in Hx. assert (e + n = Zpos (digits2_pos p) + e - 53) as Hx' by lia.
    assert (2 ^ 52 <= Zpos p / 2 ^ n) as Hq.
    { apply Z.div_le_lower_bound; [done|]. rewrite <-Z.pow_add_r by lia.
      replace (n + 52) with (Zpos (digits2_pos p) - 1) by lia. done. }
    assert (2 * pw k <= pw (e + n)) as H2.
    { rewrite (pw_split k (e + n)) by lia. pose proof (pw_pos k ltac:(lia)).
      pose proof (Z.pow_le_mono_r 2 1 (e + n - k) ltac:(lia) ltac:(lia)). nia. }
    pose proof (pw_pos k ltac:(lia)). nia.
Qed.
Lemma round_aux_low m e M k :
  -3000 <= e → -1074 <= k → 0 < M < 2 ^ 53 → M * pw k <= Zpos m * pw e →
  flb (binary_round_aux 53 1024 false (Zpos m) e loc_Exact) M k.
Proof.
  intros He Hk HM Hb. unfold binary_round_aux. pose proof (pw_pos k ltac:(lia)) as Hpk.
  destruct (shr_fexp _ _ _ _ _) as [mrs1 e1] eqn:E1.
  apply shr_fexp_spec in E1 as (n1 & Hn1 & -> & Hq1 & Hg1 & Hge1 & Hx1); [|lia].
  pose proof (shift_low (Zpos m) e n1 M k He Hk HM Hn1 ltac:(lia) Hg1 Hb) as Hb1.
  pose proof (round_up_bound mrs1 (Zpos m) n1 ltac:(lia) Hn1 Hq1 Hx1) as [Hr0 _].
  set (r := round_nearest_even _ _) in *. pose proof (pw_pos (e + n1) ltac:(lia)).
  assert (0 < r) as Hr by nia. assert (M * pw k <= r * pw (e + n1)) as Hb2 by nia.
  destruct (shr_fexp _ _ r _ _) as [mrs2 e2] eqn:E2.
  apply shr_fexp_spec in E2 as (n2 & Hn2 & -> & Hq2 & Hg2 & Hge2 & _); [|lia].
  pose proof (shift_low r (e + n1) n2 M k ltac:(lia) Hk HM Hn2 Hr Hg2 Hb2) as Hb3.
  pose proof (pw_pos (e + n1 + n2) ltac:(lia)). rewrite <-Hq2 in Hb3.
  destruct (shr_m mrs2) as [|q|q]; [nia| |nia].
  destruct (_ <=? _); [|done]. split; [|done]. unfold fexp, emin in Hge2. lia.
Qed.
Lemma normalize_low z e s M k :
  -1500 <= e → -1074 <= k → 0 < M < 2 ^ 53 → M * pw k <= z * pw e → flb (binary_normalize 53 1024 z e s) M k.
Proof.
  intros He Hk HM Hb. pose proof (pw_pos k ltac:(lia)). pose proof (pw_pos e ltac:(lia)).
  destruct z as [|p|p]; [nia| |nia]. unfold binary_normalize, binary_round.
  destruct (shl_align _ _ _) as [m' e'] eqn:E. apply shl_align_spec in E as (Hv & He' & _); [|unfold fexp, emin; lia..].
  apply round_aux_low; try done. by rewrite Hv.
Qed.
Lemma flb_add x y M N k :
  -1074 <= k → 0 < M → 0 < N → M + N < 2 ^ 53 → flb x M k → flb y N k → flb (f64_add x y) (M + N) k.
Proof.
  intros Hk HM HN HMN Hx Hy. destruct x as [|[]| |[] mx ex], y as [|[]| |[] my ey]; try done.
  destruct Hx as [Hex Hx], Hy as [Hey Hy]. apply normalize_low; try lia.
  rewrite (Z.mul_add_distr_r _ _ (pw (Z.min ex ey))), (align_val false mx ex ey), (align_val false my ey ex) by lia. simpl. lia.
Qed.
Lemma flb_trunc f K : flb f K 0 → 0 <= K → f64_trunc f = minInt64 ∨ K <= f64_trunc f.
Proof.
  destruct f as [|[]| |[] m e]; simpl; try done; [by left|]. intros [He Hf] HK. right.
  destruct (0 <=? e) eqn:E; zbool.
  - rewrite (pw_split 0 e) in Hf by lia. pose proof (pw_pos 0 ltac:(lia)). rewrite Z.sub_0_r in Hf. nia.
  - apply Z.div_le_lower_bound; [apply Z.pow_pos_nonneg; lia|]. rewrite (pw_split e 0) in Hf by lia.
    pose proof (pw_pos e ltac:(lia)). replace (0 - e) with (- e) in Hf by lia. nia.
Qed.

(** ** Rounded products grow with the points *)

Lemma pw_mul a b : -1500 <= a → -1500 <= b → pw (a + b) * 2 ^ 3000 = pw a * pw b.
Proof. intros. unfold pw. rewrite <-!Z.pow_add_r by lia. f_equal. lia. Qed.
(** [q] exceeds [p] by a 64th part or more, both positive and at most [2^7]. *)
Definition ahead (p q : f64) : bool :=
  match p, q with
  | S754_finite false mp ep, S754_finite false mq eq =>
      (-100 <=? ep) && (-100 <=? eq) && (ep <=? 100) && (eq <=? 100) &&
      (65 * Zpos mp * 2 ^ (ep + 100) <=? 64 * Zpos mq * 2 ^ (eq + 100)) && (Zpos mq * 2 ^ (eq + 100) <=? 2 ^ 107)
  | _, _ => false
  end.
(** [v] times [p], rounded to the nearest integer as the risk engine does. *)
Definition rounded_times (p v : f64) : Z := f64_to_int (f64_add (f64_mul p v) (f64_const 5 1)).
Lemma half_bounds : fub (f64_const 5 1) (2 ^ 19) (- 20) ∧ flb (f64_const 5 1) 1 (- 1).
Proof. vm_compute. split_and!; congruence. Qed.
(** A product that rounds to [K] is more than [K - 1/2 - 2^-20]. *)
Lemma rounded_times_above p mv ev mp ep K :
  p = S754_finite false mp ep → -100 <= ep → -1400 <= ev → 1 <= K < 2 ^ 30 →
  rounded_times p (S754_finite false mv ev) = K →
  (2 ^ 20 * K - 2 ^ 19 - 1) * pw (- 20) < Zpos (mp * mv) * pw (ep + ev).
Proof.
  intros -> Hep Hev HK HR. apply Z.nle_gt. intros Hle.
  set (M := 2 ^ 20 * K - 2 ^ 19 - 1) in *. assert (0 < M < 2 ^ 52) as HM by (unfold M; lia).
  pose proof (round_aux_pos (mp * mv) (ep + ev) M (- 20) ltac:(lia) ltac:(lia) ltac:(lia) Hle) as Hm.
  pose proof (fub_add _ _ M (2 ^ 19) (- 20) ltac:(lia) ltac:(lia) ltac:(lia) ltac:(lia) Hm (proj1 half_bounds)) as Hs.
  apply (fub_to_int _ _ 20) in Hs; [|lia..].
  change (rounded_times (S754_finite false mp ep) (S754_finite false mv ev) <= (M + 2 ^ 19) / 2 ^ 20) in Hs.
  rewrite HR in Hs. apply Z.lt_irrefl with K. eapply Z.le_lt_trans; [exact Hs|].
  apply Z.div_lt_upper_bound; unfold M; lia.
Qed.
(** A product of at least [K - 1/2] rounds to at least [K]. *)
Lemma rounded_times_least q mv ev mq eq K :
  q = S754_finite false mq eq → -100 <= eq → -1400 <= ev → 1 <= K < 2 ^ 30 →
  (2 * K - 1) * pw (- 1) <= Zpos (mq * mv) * pw (eq + ev) →
  fub q (2 ^ 7) 0 → fub (S754_finite false mv ev) 5 0 → K <= rounded_times q (S754_finite false mv ev).
Proof.
  intros -> Heq Hev HK Hb Hq Hv.
  pose proof (round_aux_low (mq * mv) (eq + ev) (2 * K - 1) (- 1) ltac:(lia) ltac:(lia) ltac:(lia) Hb) as Hm.
  pose proof (flb_add _ _ (2 * K - 1) 1 (- 1) ltac:(lia) ltac:(lia) ltac:(lia) ltac:(lia) Hm (proj2 half_bounds)) as Hs.
  replace (2 * K - 1 + 1) with (2 * K) in Hs by lia.
  pose proof (fub_mul (S754_finite false mq eq) (S754_finite false mv ev) (2 ^ 7) 0 5 0 ltac:(lia) ltac:(lia) ltac:(lia) ltac:(lia) ltac:(lia) ltac:(lia) Hq I Hv) as Hu.
  assert (fub (f64_const 5 1) 1 0) as Hh by (vm_compute; split; congruence).
  pose proof (fub_add _ _ (2 ^ 7 * 5) 1 0 ltac:(lia) ltac:(lia) ltac:(lia) ltac:(lia) Hu Hh) as Hu2.
  unfold rounded_times. change (binary_round_aux 53 1024 false (Zpos (mq * mv)) (eq + ev) loc_Exact)
    with (f64_mul (S754_finite false mq eq) (S754_finite false mv ev)) in Hs.
  set (f := f64_add _ _) in *. clearbody f.
  assert (flb f K 0) as Hf.
  { destruct f as [|[]| |[]]; try done. destruct Hs as [? Hs]. split; [done|].
    change (pw 0) with (2 * pw (- 1)). lia. }
  destruct f as [|[]| |[] m e]; try done. pose proof (f64_to_int_bounds _ (2 ^ 7 * 5 + 1) ltac:(unfold maxInt64; lia) ltac:(eauto) Hu2) as [Hi0 _].
  unfold f64_to_int in Hi0 |- *. cbv zeta in Hi0 |- *. destruct (_ && _); [|unfold minInt64 in Hi0; lia].
  destruct (flb_trunc _ K Hf ltac:(lia)) as [E|]; [|done]. rewrite E in Hi0. unfold minInt64 in Hi0. lia.
Qed.
Lemma rounded_times_ahead p q v :
  ahead p q = true → fnn v → fub v 5 0 → rounded_times p v < 2 ^ 30 →
  Z.max 0 (rounded_times p v) <= Z.max 0 (rounded_times q v).
Proof.
  intros Ha Hn Hv HK. destruct (decide (rounded_times p v <= 0)) as [?|Hpos]; [lia|].
  destruct p as [| | |[] mp ep]; try done. destruct q as [| | |[] mq eq]; try done. unfold ahead in Ha. zbool.
  destruct v as [|[]| |[] mv ev]; try done. pose proof Hv as [Hev _].
  set (K := rounded_times (S754_finite false mp ep) _) in *.
  pose proof (rounded_times_above _ mv ev mp ep K eq_refl ltac:(lia) Hev ltac:(lia) eq_refl) as Hlow.
  enough (K <= rounded_times (S754_finite false mq eq) (S754_finite false mv ev)) by lia.
  assert (∀ x, -100 <= x → pw x = 2 ^ (x + 100) * 2 ^ 2900) as Hpw
    by (intros x Hx; unfold pw; rewrite <-Z.pow_add_r by lia; f_equal; lia).
  eapply rounded_times_least; [done|lia|done|lia| |split; [lia|]|done].
  - assert (65 * (Zpos mp * pw ep) <= 64 * (Zpos mq * pw eq)) as Hr by (rewrite !Hpw by lia; nia).
    pose proof (pw_mul ep ev ltac:(lia) ltac:(lia)) as E1. pose proof (pw_mul eq ev ltac:(lia) ltac:(lia)) as E2.
    pose proof (pw_pos ev ltac:(lia)) as Hpv. rewrite Pos2Z.inj_mul in Hlow |- *.
    assert (65 * (Zpos mp * Zpos mv * pw (ep + ev)) <= 64 * (Zpos mq * Zpos mv * pw (eq + ev))) as Hr2.
    { apply (Z.mul_le_mono_pos_r _ _ (2 ^ 3000)); [by apply Z.pow_pos_nonneg|].
      replace (65 * (Zpos mp * Zpos mv * pw (ep + ev)) * 2 ^ 3000) with (65 * (Zpos mp * pw ep) * (Zpos mv * pw ev))
        by (rewrite <-!Z.mul_assoc, E1; ring).
      replace (64 * (Zpos mq * Zpos mv * pw (eq + ev)) * 2 ^ 3000) with (64 * (Zpos mq * pw eq) * (Zpos mv * pw ev))
        by (rewrite <-!Z.mul_assoc, E2; ring).
      apply Z.mul_le_mono_nonneg_r; [|done]. pose proof (Z.mul_pos_pos (Zpos mv) (pw ev)). lia. }
    change (pw (- 1)) with (2 ^ 19 * pw (- 20)). pose proof (pw_pos (- 20) ltac:(lia)).
    set (P := Zpos mp * Zpos mv * pw (ep + ev)) in *. set (Q := Zpos mq * Zpos mv * pw (eq + ev)) in *. clearbody P Q.
    set (u := pw (- 20)) in *. clearbody u. nia.
  - rewrite Hpw by lia. change (pw 0) with (2 ^ 100 * 2 ^ 2900). nia.
Qed.
