(* ===== verification/Strconv.v ===== *)
(** * strconv and time: the parsers the configuration uses

    [strconv.ParseBool], [strconv.ParseFloat] (decimal, hexadecimal and the special
    values, correctly rounded) and [time.ParseDuration]; [strconv.Atoi] is
    [parse_int64]. *)

From S2P Require Import Prelude GoStd Float64.
From Stdlib Require Import Ascii.
Open Scope Z_scope.
Open Scope go_scope.

(** ** strconv.ParseBool *)

Definition ParseBool (s : string) : option bool :=
  if str_mem s ["1"; "t"; "T"; "TRUE"; "true"; "True"] then Some true
  else if str_mem s ["0"; "f"; "F"; "FALSE"; "false"; "False"] then Some false
  else None.

(** ** strconv.ParseFloat *)

Fixpoint lower_ascii (s : string) : string :=
  match s with EmptyString => "" | String c s' => String (lower1 c) (lower_ascii s') end.
Definition chr (c : ascii) (code : Z) : bool := ch c =? code.
(** A leading sign: [true] for minus. *)
Definition take_sign (s : string) : bool * string :=
  match s with
  | String c s' => if chr c 45 then (true, s') else if chr c 43 then (false, s') else (false, s)
  | EmptyString => (false, s)
  end.

(** Infinities and NaN, in any case; NaN takes no sign. *)
Definition special (s : string) : option f64 :=
  let '(neg, rest) := take_sign s in
  if str_mem (lower_ascii rest) ["inf"; "infinity"] then Some (S754_infinity neg)
  else if str_eqb (lower_ascii s) "nan" then Some S754_nan
  else None.

Definition is_hex_letter (c : ascii) : bool := (97 <=? ch (lower1 c)) && (ch (lower1 c) <=? 102).
Definition digit_value (c : ascii) : Z := if is_digit c then ch c - 48 else ch (lower1 c) - 87.

(** The mantissa of [readFloat]: the digits as an integer, how many follow the dot,
    whether there were digits and underscores, and what is left. *)
Fixpoint read_mantissa (base : Z) (s : string) (mant frac : Z) (dot digits under : bool)
    : Z * Z * bool * bool * string :=
  match s with
  | EmptyString => (mant, frac, digits, under, s)
  | String c s' =>
      if chr c 95 then read_mantissa base s' mant frac dot digits true
      else if chr c 46 then
        if dot then (mant, frac, digits, under, s) else read_mantissa base s' mant frac true digits under
      else if is_digit c || ((base =? 16) && is_hex_letter c) then
        read_mantissa base s' (mant * base + digit_value c) (if dot then frac + 1 else frac) dot true under
      else (mant, frac, digits, under, s)
  end.
(** The digits of the exponent, which stops growing at 10000. *)
Fixpoint read_exponent (s : string) (e : Z) (under : bool) : Z * bool * string :=
  match s with
  | EmptyString => (e, under, s)
  | String c s' =>
      if chr c 95 then read_exponent s' e true
      else if is_digit c then read_exponent s' (if e <? 10000 then e * 10 + (ch c - 48) else e) under
      else (e, under, s)
  end.
(** Underscores separate digits. *)
Inductive saw := SawStart | SawDigit | SawUnderscore | SawOther.
Fixpoint underscores_ok (hex : bool) (st : saw) (s : string) : bool :=
  match s with
  | EmptyString => match st with SawUnderscore => false | _ => true end
  | String c s' =>
      if is_digit c || (hex && is_hex_letter c) then underscores_ok hex SawDigit s'
      else if chr c 95 then
        match st with SawDigit => underscores_ok hex SawUnderscore s' | _ => false end
      else match st with SawUnderscore => false | _ => underscores_ok hex SawOther s' end
  end.
(** [0x] and at least one more character. *)
Definition hex_prefix (s : string) : option string :=
  match s with
  | String a (String b (String c r)) =>
      if chr a 48 && (ch (lower1 b) =? 120) then Some (String c r) else None
  | _ => None
  end.

(** The float nearest to [n/d] (ties to even): the quotient to at least 64 bits,
    with a sticky bit for the remainder. *)
Definition f64_ratio (neg : bool) (n d : Z) : f64 :=
  let s := 64 + Z.log2 d in
  let q := (n * 2 ^ s) / d in
  let sticky := if (n * 2 ^ s) mod d =? 0 then 0 else 1 in
  let m := 2 * q + sticky in
  binary_normalize 53 1024 (if neg then - m else m) (- s - 1) neg.
Definition f64_scaled (neg : bool) (mant base exp : Z) : f64 :=
  if 0 <=? exp then f64_ratio neg (mant * base ^ exp) 1 else f64_ratio neg mant (base ^ (- exp)).

Definition ParseFloat (s : string) : option f64 :=
  match special s with
  | Some f => Some f
  | None =>
      let '(neg, unsigned) := take_sign s in
      let '(base, body) := match hex_prefix unsigned with Some r => (16, r) | None => (10, unsigned) end in
      let '(mant, frac, digits, under, rest) := read_mantissa base body 0 0 false false false in
      if negb digits then None else
      let done exp under' rest' :=
        if negb (str_eqb rest' "") then None
        else if under' && negb (underscores_ok (base =? 16)
            (if base =? 16 then SawDigit else SawStart) body) then None
        else
          let f := if mant =? 0 then S754_zero neg
                   else if base =? 16 then f64_scaled neg mant 2 (exp - 4 * frac)
                   else f64_scaled neg mant 10 (exp - frac) in
          match f with S754_infinity _ => None | _ => Some f end in
      match rest with
      | String c r =>
          if ch (lower1 c) =? (if base =? 16 then 112 else 101) then
            let '(eneg, r') := take_sign r in
            match r' with
            | String d _ =>
                if negb (is_digit d) then None else
                let '(e, under', r'') := read_exponent r' 0 under in
                done (if eneg then - e else e) under' r''
            | EmptyString => None
            end
          else if base =? 16 then None else done 0 under rest
      | EmptyString => if base =? 16 then None else done 0 under rest
      end
  end.

(** ** time.ParseDuration *)

Definition two63 : Z := 2 ^ 63.
Fixpoint leadingInt (x : Z) (s : string) : option (Z * string) :=
  match s with
  | String c s' =>
      if is_digit c then
        if x >? two63 / 10 then None else
        let x := x * 10 + (ch c - 48) in
        if x >? two63 then None else leadingInt x s'
      else Some (x, s)
  | EmptyString => Some (x, s)
  end.
Fixpoint leadingFraction (x : Z) (scale : f64) (overflow : bool) (s : string) : Z * f64 * string :=
  match s with
  | String c s' =>
      if is_digit c then
        if overflow || (x >? (two63 - 1) / 10) then leadingFraction x scale true s' else
        let y := x * 10 + (ch c - 48) in
        if y >? two63 then leadingFraction x scale true s'
        else leadingFraction y (f64_mul scale (f64_of_int 10)) false s'
      else (x, scale, s)
  | EmptyString => (x, scale, s)
  end.
Fixpoint leading_unit (s : string) : string * string :=
  match s with
  | String c s' =>
      if chr c 46 || is_digit c then ("", s)
      else let '(u, r) := leading_unit s' in (String c u, r)
  | EmptyString => ("", "")
  end.
Definition unitMap (u : string) : option Z :=
  if str_eqb u "ns" then Some nanosecond
  else if str_mem u ["us"; "µs"; "μs"] then Some microsecond
  else if str_eqb u "ms" then Some millisecond
  else if str_eqb u "s" then Some second
  else if str_eqb u "m" then Some minute
  else if str_eqb u "h" then Some hour
  else None.

(** One [number unit] group: its value and the rest. *)
Definition duration_group (s : string) : option (Z * string) :=
  match s with
  | EmptyString => None
  | String c _ =>
      if negb (chr c 46 || is_digit c) then None else
      '(v, s1) ← leadingInt 0 s;
      let pre := negb (len s1 =? len s) in
      let '(f, scale, s2, post) := match s1 with
        | String d s1' =>
            if chr d 46 then
              let '(f, scale, r) := leadingFraction 0 (f64_of_int 1) false s1' in
              (f, scale, r, negb (len r =? len s1'))
            else (0, f64_of_int 1, s1, false)
        | EmptyString => (0, f64_of_int 1, s1, false)
        end in
      if negb pre && negb post then None else
      let '(u, s3) := leading_unit s2 in
      if str_eqb u "" then None else
      unit ← unitMap u;
      if v >? two63 / unit then None else
      let v := v * unit in
      let v := if f >? 0 then v + f64_trunc (f64_mul (f64_of_int f) (f64_div (f64_of_int unit) scale)) else v in
      if v >? two63 then None else Some (v, s3)
  end.
(** The loop; every group consumes at least one character. *)
Fixpoint duration_loop (fuel : nat) (d : Z) (s : string) : option Z :=
  match fuel with
  | O => None
  | S fuel =>
      if str_eqb s "" then Some d else
      '(v, s') ← duration_group s;
      let d := (d + v) mod 2 ^ 64 in
      if d >? two63 then None else duration_loop fuel d s'
  end.
Definition ParseDuration (s : string) : option Z :=
  let '(neg, rest) := take_sign s in
  if str_eqb rest "0" then Some 0
  else if str_eqb rest "" then None
  else
    d ← duration_loop (S (String.length rest)) 0 rest;
    if (neg : bool) then Some (- d) else if d >? two63 - 1 then None else Some d.

(** ** Facts *)

Lemma fpr_ratio neg n d : fpr (f64_ratio neg n d).
Proof. apply fpr_normalize. Qed.
(** Whatever it returns is a [float64]. *)
Lemma ParseFloat_fpr s f : ParseFloat s = Some f → fpr f.
Proof.
  unfold ParseFloat, special, f64_scaled. intros Hf. repeat (case_match; try discriminate); simplify_eq; try done;
    repeat match goal with H : _ = ?f |- fpr ?f => rewrite <-H end; apply fpr_ratio.
Qed.
