(* ===== verification/Risk.v ===== *)
(** * Package [risk]: the explainable risk score

    [model.go] and [engine.go]: thresholds, weights, the six groups of
    signals, the clamped sum and the explanation.  A Go [map[Dimension]int] is
    a [gmap]; a run-time panic (the fixed buffer of [itoa]) is [None]. *)

From S2P Require Import Prelude GoStd Float64.
Open Scope Z_scope.
Open Scope go_scope.

(** ** model.go *)

Abbreviation Dimension := string (only parsing).
Definition DimIdentity : Dimension := "IDENTITY".
Definition DimDevice : Dimension := "DEVICE".
Definition DimBehaviour : Dimension := "BEHAVIOUR".
Definition DimNetwork : Dimension := "NETWORK".
Definition DimResource : Dimension := "RESOURCE".
Definition DimHistory : Dimension := "HISTORY".

Abbreviation Level := string (only parsing).
Definition LevelLow : Level := "LOW".
Definition LevelMedium : Level := "MEDIUM".
Definition LevelElevated : Level := "ELEVATED".
Definition LevelHigh : Level := "HIGH".
Definition LevelCritical : Level := "CRITICAL".

Abbreviation Action := string (only parsing).
Definition ActionAllow : Action := "ALLOW".
Definition ActionAllowMonitor : Action := "ALLOW_MONITOR".
Definition ActionVerify : Action := "VERIFY".
Definition ActionStepUpMFA : Action := "STEP_UP_MFA".
Definition ActionRestrict : Action := "RESTRICT".
Definition ActionIsolate : Action := "ISOLATE".

(** Inclusive upper bounds of each band. *)
Record Thresholds := mkThresholds { Low : Z; Medium : Z; Elevated : Z; High : Z }.

Definition DefaultThresholds : Thresholds := mkThresholds 30 50 70 85.

Definition Thresholds_Validate (t : Thresholds) : result unit :=
  if (Low t <=? 0) || (Low t >=? Medium t) || (Medium t >=? Elevated t)
     || (Elevated t >=? High t) || (High t >=? 100)
  then inr ErrThresholds else inl ().

Definition Thresholds_Level (t : Thresholds) (score : Z) : Level :=
  if score <=? Low t then LevelLow
  else if score <=? Medium t then LevelMedium
  else if score <=? Elevated t then LevelElevated
  else if score <=? High t then LevelHigh
  else LevelCritical.

Definition RecommendedAction (l : Level) : Action :=
  if str_eqb l LevelLow then ActionAllow
  else if str_eqb l LevelMedium then ActionAllowMonitor
  else if str_eqb l LevelElevated then ActionVerify
  else if str_eqb l LevelHigh then ActionStepUpMFA
  else ActionIsolate.

Record Weights := mkWeights {
  Identity : f64; Device : f64; Behaviour : f64;
  Network : f64; Resource : f64; History : f64 }.

Definition one : f64 := f64_of_int 1.
Definition DefaultWeights : Weights := mkWeights one one one one one one.

(** The loop over the map of names to values; the code reports one of the
    offending names, in map order. *)
Definition weight_fields (w : Weights) : list (string * f64) :=
  [("identity", Identity w); ("device", Device w); ("behaviour", Behaviour w);
   ("network", Network w); ("resource", Resource w); ("history", History w)].
Definition weight_bad (v : f64) : bool :=
  f64_ltb v (f64_of_int 0) || f64_ltb (f64_of_int 5) v.
Definition Weights_Validate (w : Weights) : result unit :=
  match list_find (λ p, weight_bad (snd p)) (weight_fields w) with
  | Some (_, (name, _)) => inr (ErrWeights name)
  | None => inl ()
  end.

Definition forDimension (w : Weights) (d : Dimension) : f64 :=
  if str_eqb d DimIdentity then Identity w
  else if str_eqb d DimDevice then Device w
  else if str_eqb d DimBehaviour then Behaviour w
  else if str_eqb d DimNetwork then Network w
  else if str_eqb d DimResource then Resource w
  else if str_eqb d DimHistory then History w
  else one.

Record Factor := mkFactor {
  fac_Code : string; fac_Label : string; fac_Dimension : Dimension;
  fac_Contribution : Z; fac_Detail : string }.
#[export] Instance Factor_eq_dec : EqDecision Factor.
Proof. solve_decision. Defined.

Record Assessment := mkAssessment {
  SessionID : uuid; Score : Z; ALevel : Level; AAction : Action;
  Factors : list Factor; Dimensions : gmap string Z;
  ComputedAt : Z; AModelVersion : string; TriggerEvent : string }.

Definition Codes (a : Assessment) : list string := fac_Code <$> Factors a.

Definition Explain (a : Assessment) : string :=
  ("RISK: " +:+ sprint_int (Score a) +:+ "/100 (" +:+ ALevel a +:+ ")" +:+ nl
   +:+ foldr (λ f acc, "  +" +:+ sprint_int (fac_Contribution f) +:+ " "
                        +:+ fac_Label f +:+ nl +:+ acc) "" (Factors a)
   +:+ "  = " +:+ sprint_int (Score a))%stdpp.

(** The [less] of [sortFactors]. *)
Definition factor_less (a b : Factor) : bool :=
  if negb (fac_Contribution a =? fac_Contribution b)
  then fac_Contribution a >? fac_Contribution b
  else str_ltb (fac_Code a) (fac_Code b).
Definition sortFactors (l : list Factor) : list Factor := sort_stable factor_less l.

(** ** engine.go *)

Definition ModelVersion : string := "risk-v1".

Abbreviation Sensitivity := string (only parsing).
Definition SensitivityPublic : Sensitivity := "PUBLIC".
Definition SensitivityInternal : Sensitivity := "INTERNAL".
Definition SensitivitySensitive : Sensitivity := "SENSITIVE".
Definition SensitivityCritical : Sensitivity := "CRITICAL".

Record Inputs := mkInputs {
  in_SessionID : uuid; in_UserID : uuid; in_DeviceID : uuid; in_Now : Z;
  in_FirstEverSession : bool; in_SessionAttested : bool;
  in_DeviceTrustScore : option Z; in_DeviceKeyProtection : string;
  in_DeviceFirstSeenForUser : bool;
  in_DeviceEnrolledAt : option Z; in_AgentLastHeartbeat : option Z;
  in_LoginHourTypical : bool; in_BaselineEstablished : bool;
  in_AccessVolumeZScore : f64; in_UnfamiliarApplication : bool;
  in_AnomalyScore : f64;
  in_NetworkFamiliar : bool; in_NetworkKnown : bool;
  in_ResourceSensitivity : Sensitivity;
  in_RecentIncidents : Z; in_RecentDenials : Z }.

Record Engine := NewEngine { weights : Weights; thresholds : Thresholds }.

(** [itoa]: decimal digits into a 12-byte buffer from its end; running out of
    the buffer is an index-out-of-range panic. *)
Fixpoint itoa_loop (i : nat) (v : Z) (acc : string) : option (nat * string) :=
  if v >? 0 then
    match i with
    | O => None
    | S i' => itoa_loop i' (v ÷ 10) (String (Ascii.ascii_of_N (Z.to_N (48 + Z.rem v 10))) acc)
    end
  else Some (i, acc).
Definition itoa (v : Z) : option string :=
  if v =? 0 then Some "0" else
  let negative := v <? 0 in
  let v := if negative then -! v else v in
  match itoa_loop 12 v "" with
  | None => None
  | Some (i, digits) =>
      if negative then match i with O => None | S _ => Some ("-" +:+ digits)%stdpp end
      else Some digits
  end.

Definition ftoa (v : f64) : option string :=
  let whole := f64_to_int v in
  let frac := f64_to_int (f64_mul (f64_sub v (f64_of_int whole)) (f64_of_int 10)) in
  let frac := if frac <? 0 then -! frac else frac in
  w ← itoa whole; f ← itoa frac; Some (w +:+ "." +:+ f)%stdpp.

Definition formatTrust (trust : Z) : option string :=
  t ← itoa trust; Some ("device trust is " +:+ t +:+ "/100")%stdpp.
Definition formatZScore (z : f64) : option string :=
  t ← ftoa z;
  Some ("access volume is " +:+ t +:+ " standard deviations above this user's norm")%stdpp.

(** The closure [add] of [Evaluate]: weigh the points, round to nearest, drop
    what does not count. *)
Definition weighted (w : Weights) (dim : Dimension) (points : f64) : Z :=
  f64_to_int (f64_add (f64_mul points (forDimension w dim)) (f64_const 5 1)).
Abbreviation addFunc :=
  (Dimension → string → string → string → f64 → list Factor → list Factor) (only parsing).
Definition add (w : Weights) : addFunc := λ dim code label detail points factors,
  let c := weighted w dim points in
  if c <=? 0 then factors else factors ++ [mkFactor code label dim c detail].

Definition identitySignals (inp : Inputs) (add : addFunc) (fs : list Factor) : list Factor :=
  let fs := if in_FirstEverSession inp then
      add DimIdentity "FIRST_SESSION" "First session for this account"
        "no prior sessions to compare against" (f64_of_int 8) fs else fs in
  if negb (in_SessionAttested inp) then
    add DimIdentity "UNATTESTED_SESSION" "Session lacks device attestation"
      "established without cryptographic device proof" (f64_of_int 30) fs
  else fs.

(** [points] capped as the code does: [if points > cap { points = cap }]. *)
Definition cap_points (points : f64) (cap : Z) : f64 :=
  if f64_ltb (f64_of_int cap) points then f64_of_int cap else points.

Definition trust_points (trust : Z) : f64 :=
  cap_points (f64_mul (f64_of_int (70 -! trust)) (f64_const 4 1)) 20.

Definition deviceSignals (inp : Inputs) (add : addFunc) (fs : list Factor)
    : option (list Factor) :=
  let fs := if in_DeviceFirstSeenForUser inp then
      add DimDevice "NEW_DEVICE" "New device for this user"
        "this user has not worked from this device before" (f64_of_int 20) fs else fs in
  let fs := match in_DeviceEnrolledAt inp with
    | Some at_ => if time_sub (in_Now inp) at_ <? 24 * hour then
        add DimDevice "RECENTLY_ENROLLED" "Recently enrolled device"
          "enrolled within the last 24 hours" (f64_of_int 6) fs else fs
    | None => fs end in
  fs ← match in_DeviceTrustScore inp with
    | None => Some (add DimDevice "NO_POSTURE" "Device posture unknown"
        "the device has not reported its security posture" (f64_of_int 12) fs)
    | Some trust =>
        if trust <? 70 then
          detail ← formatTrust trust;
          Some (add DimDevice "LOW_DEVICE_TRUST" "Low device trust" detail
                  (trust_points trust) fs)
        else Some fs
    end;
  let fs := if str_eqb (in_DeviceKeyProtection inp) "software" then
      add DimDevice "SOFTWARE_KEY" "Software-protected device key"
        "the device key is not hardware-backed" (f64_of_int 3) fs else fs in
  let silent := match in_AgentLastHeartbeat inp with
    | None => true
    | Some hb => time_sub (in_Now inp) hb >? 15 * minute end in
  Some (if silent then
    add DimDevice "AGENT_SILENT" "Agent not reporting"
      "no heartbeat within the last 15 minutes" (f64_of_int 15) fs else fs).

Definition volume_points (z : f64) : f64 :=
  cap_points (f64_add (f64_of_int 12)
    (f64_mul (f64_sub z (f64_of_int 3)) (f64_of_int 4))) 22.

Definition behaviourSignals (inp : Inputs) (add : addFunc) (fs : list Factor)
    : option (list Factor) :=
  if negb (in_BaselineEstablished inp) then
    Some (add DimBehaviour "NO_BASELINE" "No behavioural baseline"
      "not enough history to judge this session against" (f64_of_int 5) fs)
  else
  let fs := if negb (in_LoginHourTypical inp) then
      add DimBehaviour "UNUSUAL_LOGIN_TIME" "Unusual sign-in time"
        "outside the hours this user normally works" (f64_of_int 15) fs else fs in
  fs ← (if f64_leb (f64_of_int 3) (in_AccessVolumeZScore inp) then
      detail ← formatZScore (in_AccessVolumeZScore inp);
      Some (add DimBehaviour "ABNORMAL_ACCESS_VOLUME" "Abnormal access volume" detail
        (volume_points (in_AccessVolumeZScore inp)) fs)
    else Some fs);
  let fs := if in_UnfamiliarApplication inp then
      add DimBehaviour "UNFAMILIAR_APPLICATION" "Unfamiliar application"
        "this user has not used this application before" (f64_of_int 6) fs else fs in
  Some (if f64_ltb (f64_const 5 1) (in_AnomalyScore inp) then
    add DimBehaviour "BEHAVIOUR_ANOMALY" "Behavioural anomaly"
      "the anomaly model flagged this session"
      (f64_mul (f64_sub (in_AnomalyScore inp) (f64_const 5 1)) (f64_of_int 20)) fs
  else fs).

Definition networkSignals (inp : Inputs) (add : addFunc) (fs : list Factor) : list Factor :=
  if negb (in_NetworkKnown inp) then
    add DimNetwork "UNKNOWN_NETWORK" "Network context unknown"
      "the session's network could not be determined" (f64_of_int 4) fs
  else if negb (in_NetworkFamiliar inp) then
    add DimNetwork "UNUSUAL_NETWORK" "Unusual network"
      "this user has not connected from this network before" (f64_of_int 12) fs
  else fs.

Definition resourceSignals (inp : Inputs) (add : addFunc) (fs : list Factor) : list Factor :=
  if str_eqb (in_ResourceSensitivity inp) SensitivityCritical then
    add DimResource "CRITICAL_RESOURCE" "Critical resource accessed"
      "the session reached a resource classified CRITICAL" (f64_of_int 25) fs
  else if str_eqb (in_ResourceSensitivity inp) SensitivitySensitive then
    add DimResource "SENSITIVE_RESOURCE" "Sensitive resource accessed"
      "the session reached a resource classified SENSITIVE" (f64_of_int 12) fs
  else fs.

Definition incident_points (n : Z) : f64 :=
  cap_points (f64_mul (f64_of_int n) (f64_of_int 6)) 15.

Definition historySignals (inp : Inputs) (add : addFunc) (fs : list Factor) : list Factor :=
  let fs := if in_RecentIncidents inp >? 0 then
      add DimHistory "RECENT_INCIDENT" "Recent incident for this user"
        "an incident was raised for this user in the last 7 days"
        (incident_points (in_RecentIncidents inp)) fs else fs in
  if in_RecentDenials inp >=? 3 then
    add DimHistory "REPEATED_DENIALS" "Repeated access denials"
      "several access attempts were refused recently" (f64_of_int 8) fs
  else fs.

(** The six calls of [Evaluate], in order. *)
Definition collect (e : Engine) (inp : Inputs) : option (list Factor) :=
  let add := add (weights e) in
  let fs := identitySignals inp add [] in
  fs ← deviceSignals inp add fs;
  fs ← behaviourSignals inp add fs;
  let fs := networkSignals inp add fs in
  let fs := resourceSignals inp add fs in
  Some (historySignals inp add fs).

(** [m[k] += v] on a Go map. *)
Definition map_add (k : string) (v : Z) (m : gmap string Z) : gmap string Z :=
  <[k := default 0 (m !! k) +! v]> m.
Definition tally (fs : list Factor) : gmap string Z :=
  foldl (λ m f, map_add (fac_Dimension f) (fac_Contribution f) m) ∅ fs.

(** The clamping block: when the sum exceeds 100, the largest factor absorbs
    the excess. *)
Definition clamp_block (fs : list Factor) (dims : gmap string Z) (score : Z)
    : option (list Factor * gmap string Z * Z) :=
  if score >? 100 then
    match sortFactors fs with
    | [] => None
    | f :: rest =>
        let excess := score -! 100 in
        Some (mkFactor (fac_Code f) (fac_Label f) (fac_Dimension f)
                (fac_Contribution f -! excess) (fac_Detail f) :: rest,
              map_add (fac_Dimension f) (-! excess) dims, 100)
    end
  else Some (fs, dims, score).

Definition Evaluate (e : Engine) (inp : Inputs) : option Assessment :=
  factors ← collect e inp;
  let score := sum_go (fac_Contribution <$> factors) in
  r ← clamp_block factors (tally factors) score;
  let '(factors, dimensions, score) := r in
  let score := if score <? 0 then 0 else score in
  let factors := sortFactors factors in
  let level := Thresholds_Level (thresholds e) score in
  Some (mkAssessment (in_SessionID inp) score level (RecommendedAction level)
    factors dimensions (in_Now inp) ModelVersion "").

(** ** The points of a run

    [pts] is what one call of [add] contributes; [signal_total] is the sum over
    all signals that fire, written without the accumulating list. *)

Definition total (fs : list Factor) : Z := zsum (fac_Contribution <$> fs).
Definition pts (e : Engine) (dim : Dimension) (points : f64) : Z :=
  Z.max 0 (weighted (weights e) dim points).
Definition ind (b : bool) (x : Z) : Z := if b then x else 0.

Definition device_total (e : Engine) (inp : Inputs) : Z :=
  ind (in_DeviceFirstSeenForUser inp) (pts e DimDevice (f64_of_int 20))
  + (match in_DeviceEnrolledAt inp with
     | Some at_ => ind (time_sub (in_Now inp) at_ <? 24 * hour) (pts e DimDevice (f64_of_int 6))
     | None => 0 end)
  + (match in_DeviceTrustScore inp with
     | None => pts e DimDevice (f64_of_int 12)
     | Some trust => ind (trust <? 70) (pts e DimDevice (trust_points trust)) end)
  + ind (str_eqb (in_DeviceKeyProtection inp) "software") (pts e DimDevice (f64_of_int 3))
  + ind (match in_AgentLastHeartbeat inp with
         | None => true | Some hb => time_sub (in_Now inp) hb >? 15 * minute end)
      (pts e DimDevice (f64_of_int 15)).
Definition behaviour_total (e : Engine) (inp : Inputs) : Z :=
  if negb (in_BaselineEstablished inp) then pts e DimBehaviour (f64_of_int 5)
  else ind (negb (in_LoginHourTypical inp)) (pts e DimBehaviour (f64_of_int 15))
  + ind (f64_leb (f64_of_int 3) (in_AccessVolumeZScore inp))
      (pts e DimBehaviour (volume_points (in_AccessVolumeZScore inp)))
  + ind (in_UnfamiliarApplication inp) (pts e DimBehaviour (f64_of_int 6))
  + ind (f64_ltb (f64_const 5 1) (in_AnomalyScore inp))
      (pts e DimBehaviour (f64_mul (f64_sub (in_AnomalyScore inp) (f64_const 5 1)) (f64_of_int 20))).
Definition signal_total (e : Engine) (inp : Inputs) : Z :=
  ind (in_FirstEverSession inp) (pts e DimIdentity (f64_of_int 8))
  + ind (negb (in_SessionAttested inp)) (pts e DimIdentity (f64_of_int 30))
  + device_total e inp + behaviour_total e inp
  + (if negb (in_NetworkKnown inp) then pts e DimNetwork (f64_of_int 4)
     else ind (negb (in_NetworkFamiliar inp)) (pts e DimNetwork (f64_of_int 12)))
  + (if str_eqb (in_ResourceSensitivity inp) SensitivityCritical
     then pts e DimResource (f64_of_int 25)
     else ind (str_eqb (in_ResourceSensitivity inp) SensitivitySensitive)
            (pts e DimResource (f64_of_int 12)))
  + ind (in_RecentIncidents inp >? 0) (pts e DimHistory (incident_points (in_RecentIncidents inp)))
  + ind (in_RecentDenials inp >=? 3) (pts e DimHistory (f64_of_int 8)).

Lemma pts_nonneg e d p : 0 <= pts e d p.
Proof. unfold pts. lia. Qed.

Lemma total_add e d c l dt p fs :
  total (add (weights e) d c l dt p fs) = total fs + pts e d p.
Proof.
  unfold add, pts, total. destruct (_ <=? _) eqn:E; zbool; [lia|].
  rewrite fmap_app, zsum_app. cbn [fmap list_fmap fac_Contribution].
  autorewrite with netra_eq. lia.
Qed.

Lemma total_if e (b : bool) d c l dt p fs :
  total (if b then add (weights e) d c l dt p fs else fs) = total fs + ind b (pts e d p).
Proof. destruct b; [apply total_add|]. simpl. lia. Qed.

(** Every factor is positive before clamping. *)
Definition positive (fs : list Factor) : Prop := Forall (λ f, 0 < fac_Contribution f) fs.
Lemma positive_add w d c l dt p fs : positive fs → positive (add w d c l dt p fs).
Proof.
  intros H. unfold add. destruct (_ <=? _) eqn:E; zbool; [done|].
  apply Forall_app. split; [done|]. by repeat constructor.
Qed.
Lemma positive_if (b : bool) fs fs' :
  positive fs → positive fs' → positive (if b then fs else fs').
Proof. by destruct b. Qed.
#[local] Hint Resolve positive_add positive_if : netra.
#[local] Hint Rewrite total_add total_if : netra_eq.

Lemma device_spec e inp fs fs' :
  deviceSignals inp (add (weights e)) fs = Some fs' →
  total fs' = total fs + device_total e inp ∧ (positive fs → positive fs').
Proof.
  unfold deviceSignals, device_total. cbv zeta. intros H.
  destruct (in_DeviceTrustScore inp) as [t|]; cbn [mbind option_bind] in H;
    [destruct (t <? 70); [destruct (formatTrust t); [|done]|]|];
    cbn [mbind option_bind] in H; injection H as <-;
    destruct (in_DeviceEnrolledAt inp);
    autorewrite with netra_eq; cbn [ind]; (split; [lia|auto 10 with netra]).
Qed.

Lemma behaviour_spec e inp fs fs' :
  behaviourSignals inp (add (weights e)) fs = Some fs' →
  total fs' = total fs + behaviour_total e inp ∧ (positive fs → positive fs').
Proof.
  unfold behaviourSignals, behaviour_total. cbv zeta. intros H.
  destruct (negb (in_BaselineEstablished inp)).
  { injection H as <-. rewrite total_add. auto with netra. }
  destruct (f64_leb _ _); cbn [mbind option_bind] in H;
    [destruct (formatZScore _); [|done]|]; cbn [mbind option_bind] in H; injection H as <-;
    autorewrite with netra_eq; cbn [ind]; (split; [lia|auto 10 with netra]).
Qed.

Lemma identity_spec e inp :
  total (identitySignals inp (add (weights e)) [])
  = ind (in_FirstEverSession inp) (pts e DimIdentity (f64_of_int 8))
    + ind (negb (in_SessionAttested inp)) (pts e DimIdentity (f64_of_int 30))
  ∧ positive (identitySignals inp (add (weights e)) []).
Proof.
  unfold identitySignals. cbv zeta. split.
  - autorewrite with netra_eq. done.
  - assert (positive []) by constructor. auto with netra.
Qed.

Lemma collect_spec e inp fs :
  collect e inp = Some fs → total fs = signal_total e inp ∧ positive fs.
Proof.
  unfold collect. intros H. destruct (identity_spec e inp) as [Ti Pi].
  destruct (deviceSignals _ _ _) as [fd|] eqn:Ed; [|done]. cbn [mbind option_bind] in H.
  destruct (behaviourSignals _ _ _) as [fb|] eqn:Eb; [|done]. cbn [mbind option_bind] in H.
  injection H as <-.
  apply device_spec in Ed as [Td Pd]. apply behaviour_spec in Eb as [Tb Pb].
  specialize (Pb (Pd Pi)).
  unfold historySignals, resourceSignals, networkSignals, signal_total. cbv zeta.
  split; [|auto 20 with netra].
  autorewrite with netra_eq.
  destruct (negb (in_NetworkKnown inp)), (str_eqb _ SensitivityCritical);
    autorewrite with netra_eq; lia.
Qed.

(** ** Bounds on the points *)

(** Weights the engine runs with: [float64] values [Validate] accepted. *)
Definition weights_ok (w : Weights) : Prop :=
  Weights_Validate w = inl () ∧
  Forall (λ p, fpr (snd p)) (weight_fields w).
(** The anomaly score as documented: a [float64] of at most 1. *)
Definition anomaly_ok (inp : Inputs) : Prop :=
  valid_binary 53 1024 (in_AnomalyScore inp) = true ∧
  f64_ltb one (in_AnomalyScore inp) = false.

Lemma weight_bound w d : weights_ok w → fnn (forDimension w d) ∧ fub (forDimension w d) 5 0.
Proof.
  intros [Hv Hp]. unfold Weights_Validate in Hv.
  destruct (list_find _ _) as [[? []]|] eqn:E; [done|]. apply list_find_None in E.
  assert (∀ v, weight_bad v = false → fpr v → fnn v ∧ fub v 5 0) as Hw.
  { intros v [H1 H2]%orb_false_iff Hvb. split; [by apply fnn_not_ltb|].
    eapply fub_not_ltb; [..|exact Hvb|exact H2]; vm_compute; done. }
  assert (∀ p, p ∈ weight_fields w → fnn (snd p) ∧ fub (snd p) 5 0) as Hall.
  { intros p Hin. rewrite Forall_forall in E, Hp. apply Hw; [|by apply Hp].
    specialize (E p Hin). by destruct (weight_bad _). }
  unfold weight_fields in Hall. unfold forDimension. repeat case_match;
    [apply (Hall ("identity", _))|apply (Hall ("device", _))|apply (Hall ("behaviour", _))
    |apply (Hall ("network", _))|apply (Hall ("resource", _))|apply (Hall ("history", _))
    |split; vm_compute; done]; rewrite !elem_of_cons; tauto.
Qed.

(** Weighted points, rounded to nearest, stay below the weighted cap. *)
Lemma weighted_bound w d p cap W :
  0 < cap < 2 ^ 40 → 0 < W < 2 ^ 10 →
  fnn (forDimension w d) → fub (forDimension w d) W 0 → fub p cap 0 →
  weighted w d p <= cap * W.
Proof.
  intros Hc HW Hn Hw Hp. unfold weighted.
  assert (0 < cap * W) by (apply Z.mul_pos_pos; lia).
  assert (cap * W <= 2 ^ 40 * 2 ^ 10) by (apply Z.mul_le_mono_nonneg; lia).
  pose proof (fub_mul p _ cap 0 W 0 ltac:(lia) ltac:(lia) ltac:(lia) ltac:(lia) ltac:(lia)
    ltac:(lia) Hp Hn Hw) as Hm.
  assert (fub (f64_mul p (forDimension w d)) (2 * (cap * W)) (- 1)) as Hm'.
  { destruct (f64_mul _ _) as [|[]| |[]]; try done. simpl in *.
    destruct Hm as [? Hm]. split; [done|]. etrans; [exact Hm|].
    change (pw (0 + 0)) with (2 * pw (- 1)). lia. }
  assert (fub (f64_const 5 1) 1 (- 1)) as Hh by (vm_compute; done).
  pose proof (fub_add _ _ (2 * (cap * W)) 1 (- 1) ltac:(lia) ltac:(lia) ltac:(lia) ltac:(lia) Hm' Hh) as Hs.
  apply (fub_to_int _ _ 1) in Hs; [|lia..]. etrans; [exact Hs|].
  apply Z.lt_succ_r, Z.div_lt_upper_bound; lia.
Qed.

Lemma cap_points_bound p c : fpr p → c ∈ [15; 20; 22] → fub (cap_points p c) c 0.
Proof.
  intros Hp Hc. unfold cap_points. destruct (f64_ltb _ p) eqn:E.
  - set_unfold. destruct Hc as [->|[->|[->|[]]]]; vm_compute; done.
  - set_unfold. destruct Hc as [->|[->|[->|[]]]];
      (eapply fub_not_ltb; [| | |exact Hp|exact E]); vm_compute; done.
Qed.

(** [volume_points] never sees the operands of the special cases of [+]. *)
Lemma volume_points_bound z : fub (volume_points z) 22 0.
Proof.
  apply cap_points_bound; [|set_solver]. auto with netra.
Qed.
Lemma incident_points_bound n : fub (incident_points n) 15 0.
Proof. apply cap_points_bound; [|set_solver]. auto with netra. Qed.
Lemma trust_points_bound t : fub (trust_points t) 20 0.
Proof. apply cap_points_bound; [|set_solver]. auto with netra. Qed.
Lemma anomaly_points_bound a :
  valid_binary 53 1024 a = true → f64_ltb one a = false →
  fub (f64_mul (f64_sub a (f64_const 5 1)) (f64_of_int 20)) 20 (- 1).
Proof.
  intros Hv Ha.
  assert (fub a 2 (- 1)) as H
    by (eapply fub_not_ltb; [..|by apply valid_fpr|exact Ha]; vm_compute; done).
  eassert (f64_const 5 1 = S754_finite false _ _) as -> by (vm_compute; reflexivity).
  change 20 with (1 * 20) at 2. change (- 1) with (- 1 + 0).
  apply fub_mul; try lia; [|vm_compute; done..].
  apply (fub_sub_pos a _ _ 2 1 (- 1)); try lia; [vm_compute; done|done].
Qed.

Definition weights_le (w : Weights) (W : Z) : Prop :=
  ∀ d, fnn (forDimension w d) ∧ fub (forDimension w d) W 0.

Lemma weights_ok_le w : weights_ok w → weights_le w 5.
Proof. intros H d. by apply weight_bound. Qed.
Lemma default_weights_le : weights_le DefaultWeights 1.
Proof.
  intros d. unfold forDimension, DefaultWeights. simpl.
  repeat case_match; split; vm_compute; done.
Qed.

Lemma pts_bound e W d p cap :
  0 < W < 2 ^ 10 → weights_le (weights e) W → 0 < cap < 2 ^ 40 → fub p cap 0 →
  0 <= pts e d p <= cap * W.
Proof.
  intros HW Hw Hc Hp. destruct (Hw d) as [Hn Hu]. unfold pts.
  pose proof (weighted_bound (weights e) d p cap W Hc HW Hn Hu Hp).
  pose proof (Z.mul_pos_pos cap W). lia.
Qed.

Lemma anomaly_points_bound0 inp : anomaly_ok inp →
  fub (f64_mul (f64_sub (in_AnomalyScore inp) (f64_const 5 1)) (f64_of_int 20)) 10 0.
Proof.
  intros [Hv Ha]. pose proof (anomaly_points_bound _ Hv Ha) as H.
  by destruct (f64_mul _ _) as [|[]| |[]].
Qed.

Lemma ind_bound b x y : 0 <= x <= y → 0 <= ind b x <= y.
Proof. destruct b; simpl; lia. Qed.

(** The points of the fixed signals. *)
Definition const_points : list Z := [3; 4; 5; 6; 8; 12; 15; 20; 25; 30].
Lemma const_bound n : bool_decide (n ∈ const_points) = true →
  0 < n < 2 ^ 40 ∧ fub (f64_of_int n) n 0.
Proof.
  intros H%bool_decide_eq_true. unfold const_points in H.
  rewrite !elem_of_cons, elem_of_nil in H.
  destruct_or! H; try done; subst; (split; [lia|vm_compute; done]).
Qed.

Section Bounds.
Context (e : Engine) (W : Z) (HW : 0 < W < 2 ^ 10) (Hw : weights_le (weights e) W).

Lemma pts_const d n :
  bool_decide (n ∈ const_points) = true → 0 <= pts e d (f64_of_int n) <= n * W.
Proof using HW Hw.
  intros [? ?]%const_bound. by apply pts_bound.
Qed.
Lemma pts_capped d n x : 0 < n <= 22 → fub x n 0 → 0 <= pts e d x <= n * W.
Proof using HW Hw. intros Hn Hf. apply pts_bound; try done. lia. Qed.

Lemma device_bound inp : 0 <= device_total e inp <= 64 * W.
Proof using HW Hw.
  unfold device_total.
  pose proof (pts_const DimDevice 12 eq_refl).
  assert (∀ t, 0 <= ind (t <? 70) (pts e DimDevice (trust_points t)) <= 20 * W) as Ht.
  { intros t. apply ind_bound, pts_capped; [lia|apply trust_points_bound]. }
  assert (∀ b, 0 <= ind b (pts e DimDevice (f64_of_int 6)) <= 6 * W) as H6.
  { intros. by apply ind_bound, pts_const. }
  pose proof (ind_bound (in_DeviceFirstSeenForUser inp) _ _ (pts_const DimDevice 20 eq_refl)).
  pose proof (ind_bound (str_eqb (in_DeviceKeyProtection inp) "software") _ _
    (pts_const DimDevice 3 eq_refl)).
  set (silent := match in_AgentLastHeartbeat inp with None => _ | _ => _ end).
  pose proof (ind_bound silent _ _ (pts_const DimDevice 15 eq_refl)).
  destruct (in_DeviceEnrolledAt inp) as [a|];
    [specialize (H6 (time_sub (in_Now inp) a <? 24 * hour))|];
    (destruct (in_DeviceTrustScore inp) as [t|]; [specialize (Ht t)|]); lia.
Qed.

Lemma behaviour_bound inp : anomaly_ok inp → 0 <= behaviour_total e inp <= 53 * W.
Proof using HW Hw.
  intros Ha. unfold behaviour_total.
  pose proof (pts_const DimBehaviour 5 eq_refl).
  pose proof (ind_bound (negb (in_LoginHourTypical inp)) _ _ (pts_const DimBehaviour 15 eq_refl)).
  pose proof (ind_bound (in_UnfamiliarApplication inp) _ _ (pts_const DimBehaviour 6 eq_refl)).
  pose proof (ind_bound (f64_leb (f64_of_int 3) (in_AccessVolumeZScore inp)) _ _
    (pts_capped DimBehaviour 22 _ ltac:(lia) (volume_points_bound (in_AccessVolumeZScore inp)))).
  pose proof (ind_bound (f64_ltb (f64_const 5 1) (in_AnomalyScore inp)) _ _
    (pts_capped DimBehaviour 10 _ ltac:(lia) (anomaly_points_bound0 inp Ha))).
  destruct (negb (in_BaselineEstablished inp)); lia.
Qed.

(** The most a run can collect: 215 points at weight 1. *)
Lemma signal_bound inp : anomaly_ok inp → 0 <= signal_total e inp <= 215 * W.
Proof using HW Hw.
  intros Ha. pose proof (device_bound inp). pose proof (behaviour_bound inp Ha).
  unfold signal_total.
  pose proof (ind_bound (in_FirstEverSession inp) _ _ (pts_const DimIdentity 8 eq_refl)).
  pose proof (ind_bound (negb (in_SessionAttested inp)) _ _ (pts_const DimIdentity 30 eq_refl)).
  pose proof (ind_bound (in_RecentDenials inp >=? 3) _ _ (pts_const DimHistory 8 eq_refl)).
  pose proof (ind_bound (in_RecentIncidents inp >? 0) _ _
    (pts_capped DimHistory 15 _ ltac:(lia) (incident_points_bound (in_RecentIncidents inp)))).
  pose proof (ind_bound (negb (in_NetworkFamiliar inp)) _ _ (pts_const DimNetwork 12 eq_refl)).
  pose proof (pts_const DimNetwork 4 eq_refl).
  pose proof (pts_const DimResource 25 eq_refl).
  pose proof (ind_bound (str_eqb (in_ResourceSensitivity inp) SensitivitySensitive) _ _
    (pts_const DimResource 12 eq_refl)).
  repeat case_match; lia.
Qed.
End Bounds.

(** ** The clamp and the reconciliation *)

Definition dim_total (d : Dimension) (fs : list Factor) : Z :=
  total (filter (λ f, fac_Dimension f = d) fs).
(** The explanation's books balance: by dimension and in total. *)
Definition reconciles (fs : list Factor) (dims : gmap string Z) (score : Z) : Prop :=
  total fs = score ∧ ∀ d, default 0 (dims !! d) = dim_total d fs.

Lemma total_cons f fs : total (f :: fs) = fac_Contribution f + total fs.
Proof. done. Qed.
Lemma dim_total_cons d f fs :
  dim_total d (f :: fs) =
  (if decide (fac_Dimension f = d) then fac_Contribution f else 0) + dim_total d fs.
Proof. unfold dim_total. rewrite filter_cons. by case_decide. Qed.
#[export] Instance total_perm : Proper ((≡ₚ) ==> eq) total.
Proof. intros l1 l2 H. unfold total. by rewrite H. Qed.
#[export] Instance dim_total_perm d : Proper ((≡ₚ) ==> eq) (dim_total d).
Proof. intros l1 l2 H. unfold dim_total. by rewrite H. Qed.

Lemma positive_dim_total d fs : positive fs → 0 <= dim_total d fs <= total fs.
Proof.
  induction 1 as [|f fs Hf _ IH]; [done|].
  rewrite dim_total_cons, total_cons. case_decide; lia.
Qed.

Lemma positive_total fs : positive fs → 0 <= total fs.
Proof. intros H. pose proof (positive_dim_total "" fs H). lia. Qed.

Lemma map_add_lookup k v m d :
  default 0 (map_add k v m !! d) = if decide (k = d) then default 0 (m !! d) +! v
                                   else default 0 (m !! d).
Proof.
  unfold map_add. case_decide as E; [subst; by rewrite lookup_insert_eq|].
  by rewrite lookup_insert_ne.
Qed.

Lemma tally_spec fs d :
  positive fs → total fs <= maxInt64 → default 0 (tally fs !! d) = dim_total d fs.
Proof.
  intros Hp Ht. unfold tally.
  assert (∀ m, 0 <= default 0 (m !! d) → default 0 (m !! d) + total fs <= maxInt64 →
    default 0 (foldl (λ m f, map_add (fac_Dimension f) (fac_Contribution f) m) m fs !! d)
    = default 0 (m !! d) + dim_total d fs) as H.
  { clear Ht. induction Hp as [|f fs Hf Hp IH]; intros m H0 Ht; cbn [foldl].
    { unfold dim_total, total. simpl. rewrite zsum_nil. lia. }
    rewrite total_cons in Ht. pose proof (positive_dim_total d fs Hp).
    rewrite IH; rewrite map_add_lookup, ?dim_total_cons; case_decide;
      rewrite ?wrap64_id by (unfold int64_range, minInt64; lia); lia. }
  rewrite H; by rewrite lookup_empty.
Qed.

Lemma clamp_spec fs :
  positive fs → total fs <= maxInt64 →
  ∃ fs' dims', clamp_block fs (tally fs) (total fs) = Some (fs', dims', Z.min 100 (total fs)) ∧
    reconciles fs' dims' (Z.min 100 (total fs)).
Proof.
  intros Hp Ht. unfold clamp_block. destruct (_ >? 100) eqn:E; zbool.
  2:{ exists fs, (tally fs). rewrite Z.min_r by lia. split; [done|]. split; [done|].
      intros d. by apply tally_spec. }
  pose proof (sort_stable_perm factor_less fs) as Hperm. fold (sortFactors fs) in Hperm.
  destruct (sortFactors fs) as [|f rest].
  { rewrite <-Hperm in E. done. }
  assert (positive (f :: rest)) as Hpf by (unfold positive; by rewrite Hperm).
  assert (total fs = fac_Contribution f + total rest) as Htot
    by (by rewrite <-Hperm, total_cons).
  assert (0 < fac_Contribution f ∧ 0 <= total rest) as [Hf Hr].
  { inversion Hpf as [|?? ? Hpr]; subst. split; [done|].
    by apply positive_total. }
  assert (maxInt64 < 2 ^ 63) by done.
  rewrite Z.min_l by lia. do 2 eexists. split; [done|].
  rewrite !wrap64_id by (unfold int64_range, minInt64, maxInt64 in *; rewrite ?wrap64_id;
    unfold int64_range, minInt64, maxInt64; lia).
  split; [rewrite total_cons; simpl; lia|]. intros d.
  assert (dim_total d fs = dim_total d (f :: rest)) as Hd by (by apply dim_total_perm).
  rewrite map_add_lookup, tally_spec, Hd, !dim_total_cons by done. simpl.
  case_decide; [|done].
  pose proof (positive_dim_total d rest ltac:(by inversion Hpf)).
  rewrite wrap64_id; [lia|]. unfold int64_range, minInt64, maxInt64 in *. lia.
Qed.

(** What [Evaluate] returns, given that collecting the factors did not panic. *)
Lemma evaluate_spec e inp fs :
  weights_ok (weights e) → anomaly_ok inp → collect e inp = Some fs →
  ∃ fs' dims, Evaluate e inp = Some (mkAssessment (in_SessionID inp)
      (Z.min 100 (signal_total e inp))
      (Thresholds_Level (thresholds e) (Z.min 100 (signal_total e inp)))
      (RecommendedAction (Thresholds_Level (thresholds e) (Z.min 100 (signal_total e inp))))
      (sortFactors fs') dims (in_Now inp) ModelVersion "")
    ∧ reconciles (sortFactors fs') dims (Z.min 100 (signal_total e inp))
    ∧ 0 <= signal_total e inp.
Proof.
  intros Hw Ha Hc. pose proof (collect_spec _ _ _ Hc) as [Ht Hp].
  destruct (signal_bound e 5 ltac:(lia) (weights_ok_le _ Hw) inp Ha) as [H0 H1].
  assert (maxInt64 = 2 ^ 63 - 1) by done.
  destruct (clamp_spec fs Hp ltac:(lia)) as (fs' & dims & Hcl & Hr1 & Hr2).
  exists fs', dims. unfold Evaluate. rewrite Hc. cbn [mbind option_bind].
  rewrite sum_go_wrap. fold (total fs). rewrite wrap64_id by (unfold int64_range, minInt64; lia).
  rewrite Hcl. cbn [mbind option_bind]. rewrite Ht in *.
  replace (Z.min 100 (signal_total e inp) <? 0) with false by (symmetry; apply Z.ltb_ge; lia).
  split; [done|]. split; [|done].
  pose proof (sort_stable_perm factor_less fs') as Hperm. fold (sortFactors fs') in Hperm.
  split; [by rewrite Hperm|]. intros d. by rewrite Hperm.
Qed.

Lemma evaluate_inv e inp a : Evaluate e inp = Some a → ∃ fs, collect e inp = Some fs.
Proof. unfold Evaluate. destruct (collect e inp) as [fs|]; [|done]. by exists fs. Qed.

(** The same, for an assessment that was returned. *)
Lemma evaluate_facts e inp a :
  weights_ok (weights e) → anomaly_ok inp → Evaluate e inp = Some a →
  Score a = Z.min 100 (signal_total e inp) ∧ 0 <= Score a <= 100 ∧
  reconciles (Factors a) (Dimensions a) (Score a) ∧
  (∃ fs, Factors a = sortFactors fs) ∧
  ALevel a = Thresholds_Level (thresholds e) (Score a) ∧
  AAction a = RecommendedAction (ALevel a).
Proof.
  intros Hw Ha He. destruct (evaluate_inv _ _ _ He) as [fs Hc].
  destruct (evaluate_spec e inp fs Hw Ha Hc) as (fs' & dims & He' & Hr & H0).
  rewrite He' in He. injection He as <-. simpl.
  split_and!; try done; try lia. by eexists.
Qed.


(** ** Which codes an assessment carries *)

Lemma add_extends w d c l dt p fs : ∃ k, add w d c l dt p fs = fs ++ k.
Proof. unfold add. destruct (_ <=? _); [exists []; by rewrite app_nil_r|by eexists]. Qed.
Definition extends (fs fs' : list Factor) : Prop := ∃ k, fs' = fs ++ k.
#[export] Instance extends_preorder : PreOrder extends.
Proof.
  split; [intros l; exists []; by rewrite app_nil_r|].
  intros l1 l2 l3 [k ->] [k' ->]. exists (k ++ k'). by rewrite app_assoc.
Qed.
Lemma extends_add w d c l dt p fs fs' : extends fs fs' → extends fs (add w d c l dt p fs').
Proof. intros H. etrans; [exact H|]. apply add_extends. Qed.
Lemma extends_if (b : bool) fs f1 f2 : extends fs f1 → extends fs f2 → extends fs (if b then f1 else f2).
Proof. by destruct b. Qed.
Ltac extending := repeat match goal with
  | |- extends _ (if _ then _ else _) => apply extends_if
  | |- extends _ (add _ _ _ _ _ _ _) => apply extends_add
  | |- extends ?f ?f => reflexivity
  end.

Lemma device_extends w inp fs fs' : deviceSignals inp (add w) fs = Some fs' → extends fs fs'.
Proof.
  unfold deviceSignals. cbv zeta. intros H.
  destruct (in_DeviceTrustScore inp) as [t|]; cbn [mbind option_bind] in H;
    [destruct (t <? 70); [destruct (formatTrust t); [|done]|]|];
    cbn [mbind option_bind] in H; injection H as <-;
    destruct (in_DeviceEnrolledAt inp); extending.
Qed.
Lemma behaviour_extends w inp fs fs' : behaviourSignals inp (add w) fs = Some fs' → extends fs fs'.
Proof.
  unfold behaviourSignals. cbv zeta. intros H.
  destruct (negb (in_BaselineEstablished inp)); [injection H as <-; extending|].
  destruct (f64_leb _ _); cbn [mbind option_bind] in H;
    [destruct (formatZScore _); [|done]|]; cbn [mbind option_bind] in H; injection H as <-; extending.
Qed.

Lemma collect_identity e inp fs : collect e inp = Some fs →
  extends (identitySignals inp (add (weights e)) []) fs.
Proof.
  unfold collect. intros H.
  destruct (deviceSignals _ _ _) as [fd|] eqn:Ed; [|done]. cbn [mbind option_bind] in H.
  destruct (behaviourSignals _ _ _) as [fb|] eqn:Eb; [|done]. cbn [mbind option_bind] in H.
  injection H as <-.
  etrans; [by eapply device_extends|]. etrans; [by eapply behaviour_extends|].
  unfold historySignals, resourceSignals, networkSignals. cbv zeta. extending.
Qed.

Lemma evaluate_codes e inp fs a :
  collect e inp = Some fs → Evaluate e inp = Some a → Codes a ≡ₚ fac_Code <$> fs.
Proof.
  intros Hc He. unfold Evaluate in He. rewrite Hc in He. cbn [mbind option_bind] in He.
  unfold clamp_block in He. destruct (_ >? 100).
  - pose proof (sort_stable_perm factor_less fs) as Hp. fold (sortFactors fs) in Hp.
    destruct (sortFactors fs) as [|f rest]; [done|]. cbn [mbind option_bind] in He.
    injection He as <-. unfold Codes, sortFactors. simpl.
    transitivity (fac_Code <$> f :: rest); [by rewrite sort_stable_perm|by rewrite Hp].
  - cbn [mbind option_bind] in He. injection He as <-. unfold Codes, sortFactors. simpl.
    by rewrite sort_stable_perm.
Qed.

(** An unattested session is always visible in the codes, as long as the
    identity weight leaves it a point. *)
Lemma unattested_code e inp a :
  0 < weighted (weights e) DimIdentity (f64_of_int 30) →
  in_SessionAttested inp = false → Evaluate e inp = Some a →
  "UNATTESTED_SESSION" ∈ Codes a.
Proof.
  intros Hw Ha He. destruct (evaluate_inv _ _ _ He) as [fs Hc].
  rewrite (evaluate_codes _ _ _ _ Hc He).
  destruct (collect_identity _ _ _ Hc) as [k ->]. rewrite fmap_app. apply elem_of_app. left.
  unfold identitySignals. rewrite Ha. cbv zeta. cbn [negb]. unfold add at 1.
  replace (_ <=? 0) with false by (symmetry; apply Z.leb_gt; lia).
  rewrite fmap_app. apply elem_of_app. right. left.
Qed.
