(* ===== verification/RiskProps.v ===== *)
(** * Package [risk]: what the engine guarantees

    The properties of [Risk.Evaluate] and of the threshold bands, each with a
    concrete run on which its hypotheses hold. *)

From S2P Require Import Prelude GoStd Float64 Risk.
Open Scope Z_scope.
Open Scope go_scope.

(** ** Totality: the digits buffer of [itoa] is large enough *)

Lemma itoa_loop_total i v acc : v < 10 ^ Z.of_nat i →
  ∃ j s, itoa_loop (S i) v acc = Some (S j, s).
Proof.
  revert v acc. induction i as [|i IH]; intros v acc Hv; cbn [itoa_loop].
  - simpl in Hv. destruct (v >? 0) eqn:E; zbool; [lia|]. by exists 0%nat, acc.
  - destruct (v >? 0) eqn:E; zbool; [|by exists (S i), acc].
    rewrite Z.quot_div_nonneg by lia. apply IH.
    rewrite Nat2Z.inj_succ, Z.pow_succ_r in Hv by lia. apply Z.div_lt_upper_bound; lia.
Qed.

Lemma itoa_total v : v < 10 ^ 11 → - 10 ^ 11 < v ∨ v = minInt64 → is_Some (itoa v).
Proof.
  intros Hv Hl. unfold itoa. destruct (v =? 0); [done|].
  assert ((if v <? 0 then wrap64 (- v) else v) < 10 ^ Z.of_nat 11) as Hb.
  { destruct (v <? 0) eqn:E; zbool; [|done]. destruct Hl as [Hl| ->]; [|done].
    rewrite wrap64_id by (unfold int64_range, minInt64, maxInt64; lia). lia. }
  destruct (itoa_loop_total 11 _ "" Hb) as (j & s & ->). destruct (v <? 0); done.
Qed.

(** Access volumes the code can format: at most [10^9] deviations. *)
Definition zscore_ok (z : f64) : Prop :=
  valid_binary 53 1024 z = true ∧ f64_ltb (f64_of_int (10 ^ 9)) z = false.

Lemma ftoa_total z : f64_leb (f64_of_int 3) z = true → zscore_ok z → is_Some (ftoa z).
Proof.
  intros H3 [Hv Hz]. pose proof (valid_fpr z Hv) as Hp.
  assert (fub z (10 ^ 9) 0) as Hu
    by (eapply fub_not_ltb; [..|exact Hp|exact Hz]; vm_compute; done).
  assert (fnn z) as Hn by (by destruct z as [|[]| |[]]).
  assert (∃ m e, z = S754_finite false m e) as Hfin.
  { destruct z as [|[]| |[]]; try done. eauto. }
  destruct (f64_to_int_bounds z (10 ^ 9)) as [Hw Hwu]; [unfold maxInt64; lia|done..|].
  unfold ftoa. cbv zeta. set (w := f64_to_int z) in *. set (d := f64_sub z (f64_of_int w)).
  assert (fub (f64_of_int w) (10 ^ 9) 0) as Hwf
    by (apply normalize_bound; [lia..|]; apply Z.mul_le_mono_nonneg_r; [by apply Z.lt_le_incl, pw_pos|done]).
  assert (fub (f64_mul d (f64_of_int 10)) (10 ^ 9 * 10) (0 + 0)) as Hd1.
  { apply fub_mul; try lia; [|vm_compute; done..].
    apply fub_sub_nn; try done; [by apply fnn_of_int|apply fpr_of_int]. }
  assert (fub (SFopp (f64_mul d (f64_of_int 10))) (10 ^ 9 * 10) (0 + 0)) as Hd2.
  { rewrite <-opp_mul. apply fub_mul; try lia; [|vm_compute; done..].
    by apply fub_opp_sub. }
  apply (fub_to_int _ _ 0) in Hd1; [|lia..]. apply (fub_opp_to_int _ _ 0) in Hd2; [|lia..].
  set (fr := f64_to_int (f64_mul d _)) in *. rewrite Z.pow_0_r, Z.div_1_r in Hd1, Hd2.
  destruct (itoa_total w) as [s1 ->]; [lia|left; lia|]. cbn [mbind option_bind].
  destruct (itoa_total (if fr <? 0 then wrap64 (- fr) else fr)) as [s2 ->]; [..|done].
  all: destruct (fr <? 0) eqn:E; zbool; [|lia].
  all: destruct Hd2 as [Hd2| ->]; [|vm_compute; auto; done].
  all: rewrite wrap64_id by (unfold int64_range, minInt64, maxInt64; lia); lia.
Qed.

(** ** The properties of the engine *)

(** Trust scores and volumes for which the detail strings can be built. *)
Definition formattable (inp : Inputs) : Prop :=
  (∀ t, in_DeviceTrustScore inp = Some t → 0 <= t <= 100) ∧
  (f64_leb (f64_of_int 3) (in_AccessVolumeZScore inp) = true → zscore_ok (in_AccessVolumeZScore inp)).

Lemma collect_total e inp : formattable inp → is_Some (collect e inp).
Proof.
  intros [Ht Hz].
  assert (∀ fs, is_Some (deviceSignals inp (add (weights e)) fs)) as Hd.
  { intros fs. unfold deviceSignals. cbv zeta.
    destruct (in_DeviceTrustScore inp) as [t|]; [|done].
    destruct (t <? 70); [|done]. unfold formatTrust. specialize (Ht t eq_refl).
    destruct (itoa_total t) as [s ->]; [lia|left; lia|done]. }
  assert (∀ fs, is_Some (behaviourSignals inp (add (weights e)) fs)) as Hb.
  { intros fs. unfold behaviourSignals. cbv zeta.
    destruct (negb _); [done|]. destruct (f64_leb _ _) eqn:E; [|done].
    unfold formatZScore. by destruct (ftoa_total _ E (Hz eq_refl)) as [s ->]. }
  unfold collect. edestruct Hd as [fd ->]. cbn [mbind option_bind].
  by edestruct Hb as [fb ->].
Qed.

(** C13: the explanation reconciles.  For validated weights and an anomaly score
    of at most 1, whenever [Evaluate] returns an assessment, its score lies
    between 0 and 100, the contributions of its factors sum to exactly the
    score (clamping included, no overflow), and for every dimension the
    dimension total equals the sum of the contributions of its factors. *)
Theorem evaluate_reconciles (e : Engine) (inp : Inputs) (a : Assessment) :
  weights_ok (weights e) → anomaly_ok inp → Evaluate e inp = Some a →
  0 <= Score a <= 100 ∧ total (Factors a) = Score a ∧
  ∀ d, default 0 (Dimensions a !! d) = dim_total d (Factors a).
Proof.
  intros Hw Ha He. by destruct (evaluate_facts e inp a Hw Ha He) as (_ & ? & [? ?] & _).
Qed.

(** C33: [Evaluate] does not panic on the inputs it is meant for: with validated
    finite weights, an anomaly score of at most 1, a device trust score that is a percentage and an access
    volume of at most [10^9] deviations, the 12-byte buffer of [itoa] suffices, the clamp
    never indexes an empty slice, and an assessment is returned. *)
Theorem evaluate_total (e : Engine) (inp : Inputs) :
  weights_ok (weights e) → anomaly_ok inp → formattable inp → is_Some (Evaluate e inp).
Proof.
  intros Hw Ha Hf. destruct (collect_total e inp Hf) as [fs Hc].
  by destruct (evaluate_spec e inp fs Hw Ha Hc) as (fs' & dims & -> & _).
Qed.

(** *** More risk, more points *)

(** The same points, or points that exceed them by a 64th part or more. *)
Definition same_points (p q : f64) : bool :=
  match p, q with S754_finite false mp ep, S754_finite false mq eq => (mp =? mq)%positive && (ep =? eq) | _, _ => false end.
Definition points_le (p q : f64) : bool := same_points p q || ahead p q.
Lemma pts_mono e d p q cap :
  weights_ok (weights e) → 0 < cap < 2 ^ 20 → fub p cap 0 → points_le p q = true → pts e d p <= pts e d q.
Proof.
  intros Hw Hc Hp [Hs|Ha]%orb_true_iff.
  - destruct p as [| | |[] mp ep], q as [| | |[] mq eq]; try done. apply andb_true_iff in Hs as [Hm%Pos.eqb_eq He%Z.eqb_eq]. by subst.
  - destruct (weight_bound (weights e) d Hw) as [Hn Hu]. pose proof (weighted_bound (weights e) d p cap 5) as Hb.
    apply rounded_times_ahead; [done..|]. change (weighted (weights e) d p < 2 ^ 30). specialize (Hb ltac:(lia) ltac:(lia) Hn Hu Hp). lia.
Qed.
(** All the points the device trust score can give are in order. *)
Lemma trust_points_order t t' : 0 <= t' <= t → t < 70 → points_le (trust_points t) (trust_points t') = true.
Proof.
  intros Ht Hlt. assert (forallb (λ x, forallb (λ y, negb (y <=? x)%nat ||
    points_le (trust_points (Z.of_nat x)) (trust_points (Z.of_nat y))) (seq 0 70)) (seq 0 70) = true) as Hall by (vm_compute; reflexivity).
  rewrite List.forallb_forall in Hall. specialize (Hall (Z.to_nat t) ltac:(apply List.in_seq; lia)). rewrite List.forallb_forall in Hall.
  specialize (Hall (Z.to_nat t') ltac:(apply List.in_seq; lia)). rewrite !Z2Nat.id in Hall by lia.
  apply orb_true_iff in Hall as [H%negb_true_iff|H]; [|done]. apply Nat.leb_gt in H. lia.
Qed.
(** Three incidents or more give the cap. *)
Lemma incident_points_many n : 3 <= n → incident_points n = f64_of_int 15.
Proof.
  intros Hn. unfold incident_points, cap_points. destruct (f64_ltb _ _) eqn:E; [done|]. exfalso.
  assert (fub (f64_mul (f64_of_int n) (f64_of_int 6)) 15 0) as Hu.
  { eapply fub_not_ltb; [| | |apply fpr_mul|exact E]; vm_compute; congruence. }
  assert (flb (f64_of_int n) 3 0) as Hl.
  { apply normalize_low; try lia. pose proof (pw_pos 0 ltac:(lia)). nia. }
  eassert (f64_of_int 6 = S754_finite false _ _) as E6 by (vm_compute; reflexivity). rewrite E6 in Hu.
  destruct (f64_of_int n) as [|[]| |[] m e]; try done. destruct Hl as [He Hl].
  assert (flb (f64_mul (S754_finite false m e) (S754_finite false 6755399441055744 (-50))) 18 0) as Hm.
  { apply round_aux_low; [lia..|]. rewrite Pos2Z.inj_mul.
    assert (pw 0 = pw (-50) * 2 ^ 50) as Ep by (vm_compute; reflexivity).
    pose proof (pw_mul e (-50) ltac:(lia) ltac:(lia)) as E2. pose proof (pw_pos (-50) ltac:(lia)).
    apply (Z.mul_le_mono_pos_r _ _ (2 ^ 3000)); [by apply Z.pow_pos_nonneg|].
    rewrite <-!Z.mul_assoc, E2. change (2 ^ 3000) with (pw 0) in *. set (u := pw (-50)) in *. set (x := pw e) in *. nia. }
  destruct (f64_mul _ _) as [|[]| |[]]; try done. destruct Hu as [_ Hu], Hm as [_ Hm]. pose proof (pw_pos 0 ltac:(lia)). lia.
Qed.
Lemma incident_points_order n n' : 0 < n <= n' → points_le (incident_points n) (incident_points n') = true.
Proof.
  intros Hn. destruct (decide (3 <= n')) as [H'|H'].
  - rewrite (incident_points_many n' H'). destruct (decide (3 <= n)) as [H|H]; [by rewrite incident_points_many|].
    assert (n = 1 ∨ n = 2) as [->| ->] by lia; vm_compute; reflexivity.
  - assert (n = 1 ∧ n' = 1 ∨ n = 1 ∧ n' = 2 ∨ n = 2 ∧ n' = 2) as [[-> ->]|[[-> ->]|[-> ->]]] by lia; vm_compute; reflexivity.
Qed.

(** The conditions under which [Evaluate] adds a signal. *)
Definition recent (inp : Inputs) : bool :=
  match in_DeviceEnrolledAt inp with Some at_ => time_sub (in_Now inp) at_ <? 24 * hour | None => false end.
Definition silent (inp : Inputs) : bool :=
  match in_AgentLastHeartbeat inp with None => true | Some hb => time_sub (in_Now inp) hb >? 15 * minute end.
(** How suspicious the network is: familiar, unknown, unfamiliar; and how sensitive the
    resource is: neither, SENSITIVE, CRITICAL. *)
Definition network_rank (inp : Inputs) : Z :=
  if negb (in_NetworkKnown inp) then 1 else if in_NetworkFamiliar inp then 0 else 2.
Definition resource_rank (inp : Inputs) : Z :=
  if str_eqb (in_ResourceSensitivity inp) SensitivityCritical then 2
  else if str_eqb (in_ResourceSensitivity inp) SensitivitySensitive then 1 else 0.
(** A device trust score no higher; a missing report is no better than a score of 70. *)
Definition trust_le (x y : option Z) : Prop :=
  x = y ∨ match x, y with
          | Some t, Some t' => 0 <= t' <= t
          | Some t, None => 70 <= t
          | None, _ => False
          end.

(** [j] is at least as risky as [i] in every respect.  Both have a behavioural baseline or
    neither has; the access volume and the anomaly score are the same, or in [i] too low to
    count. *)
Definition flags_le (b c : bool) : Prop := b = true → c = true.
Record riskier (i j : Inputs) : Prop := {
  rk_first : flags_le (in_FirstEverSession i) (in_FirstEverSession j);
  rk_att : flags_le (in_SessionAttested j) (in_SessionAttested i);
  rk_dev : flags_le (in_DeviceFirstSeenForUser i) (in_DeviceFirstSeenForUser j);
  rk_recent : flags_le (recent i) (recent j);
  rk_trust : trust_le (in_DeviceTrustScore i) (in_DeviceTrustScore j);
  rk_key : flags_le (str_eqb (in_DeviceKeyProtection i) "software") (str_eqb (in_DeviceKeyProtection j) "software");
  rk_silent : flags_le (silent i) (silent j);
  rk_baseline : in_BaselineEstablished j = in_BaselineEstablished i;
  rk_hour : flags_le (in_LoginHourTypical j) (in_LoginHourTypical i);
  rk_volume : in_AccessVolumeZScore j = in_AccessVolumeZScore i ∨ f64_leb (f64_of_int 3) (in_AccessVolumeZScore i) = false;
  rk_app : flags_le (in_UnfamiliarApplication i) (in_UnfamiliarApplication j);
  rk_anomaly : in_AnomalyScore j = in_AnomalyScore i ∨ f64_ltb (f64_const 5 1) (in_AnomalyScore i) = false;
  rk_network : network_rank i <= network_rank j;
  rk_resource : resource_rank i <= resource_rank j;
  rk_incidents : in_RecentIncidents i <= in_RecentIncidents j;
  rk_denials : in_RecentDenials i <= in_RecentDenials j }.

Lemma ind_mono b c x y : flags_le b c → 0 <= y → (b = true → x <= y) → ind b x <= ind c y.
Proof. unfold flags_le, ind. destruct b, c; intros; auto; [discriminate H; auto|lia]. Qed.
Lemma flags_le_negb b c : flags_le b c → flags_le (negb c) (negb b).
Proof. destruct b, c; unfold flags_le; simpl; auto. Qed.
Lemma ind_same b c x : flags_le b c → 0 <= x → ind b x <= ind c x.
Proof. intros. by apply ind_mono. Qed.
#[local] Hint Resolve ind_same flags_le_negb pts_nonneg : netra.

Section Monotone.
Context (e : Engine) (Hw : weights_ok (weights e)).

(** The fixed points of different signals of a dimension. *)
Lemma pts_const_mono d m n :
  bool_decide (m ∈ const_points) = true → points_le (f64_of_int m) (f64_of_int n) = true →
  pts e d (f64_of_int m) <= pts e d (f64_of_int n).
Proof using Hw.
  intros Hm Hle. apply (pts_mono e d _ _ 30); [done|lia| |done]. apply bool_decide_eq_true in Hm. unfold const_points in Hm.
  rewrite !elem_of_cons, elem_of_nil in Hm. destruct_or! Hm; subst; vm_compute; split; congruence.
Qed.
Lemma trust_mono x y : trust_le x y →
  match x with None => pts e DimDevice (f64_of_int 12) | Some t => ind (t <? 70) (pts e DimDevice (trust_points t)) end <=
  match y with None => pts e DimDevice (f64_of_int 12) | Some t => ind (t <? 70) (pts e DimDevice (trust_points t)) end.
Proof using Hw.
  intros [->|H]; [lia|]. destruct x as [t|], y as [t'|]; try done.
  - apply ind_mono; [|apply pts_nonneg|].
    + unfold flags_le. intros. apply Z.ltb_lt. zlia.
    + intros Hlt. apply (pts_mono e _ _ _ 20); [done|lia|apply trust_points_bound|]. apply trust_points_order; [done|zlia].
  - replace (t <? 70) with false by (symmetry; apply Z.ltb_ge; lia). apply pts_nonneg.
Qed.
Lemma device_mono i j : riskier i j → device_total e i <= device_total e j.
Proof using Hw.
  intros Hr. assert (∀ inp, device_total e inp =
    ind (in_DeviceFirstSeenForUser inp) (pts e DimDevice (f64_of_int 20)) + ind (recent inp) (pts e DimDevice (f64_of_int 6))
    + (match in_DeviceTrustScore inp with None => pts e DimDevice (f64_of_int 12)
       | Some t => ind (t <? 70) (pts e DimDevice (trust_points t)) end)
    + ind (str_eqb (in_DeviceKeyProtection inp) "software") (pts e DimDevice (f64_of_int 3))
    + ind (silent inp) (pts e DimDevice (f64_of_int 15))) as Hd.
  { intros inp. unfold device_total, recent, silent. by destruct (in_DeviceEnrolledAt inp). }
  rewrite !Hd. pose proof (trust_mono _ _ (rk_trust _ _ Hr)). destruct Hr.
  repeat apply Z.add_le_mono; auto with netra.
Qed.
Lemma behaviour_mono i j : riskier i j → behaviour_total e i <= behaviour_total e j.
Proof using Hw.
  intros Hr. destruct Hr as [_ _ _ _ _ _ _ Hb Hh Hv Ha Hn _ _ _ _]. unfold behaviour_total. rewrite Hb.
  destruct (negb (in_BaselineEstablished i)); [done|].
  repeat apply Z.add_le_mono; auto with netra.
  - destruct Hv as [->| ->]; [done|]. pose proof (ind_bound (f64_leb (f64_of_int 3) (in_AccessVolumeZScore j)) _ _
      (conj (pts_nonneg e DimBehaviour (volume_points (in_AccessVolumeZScore j))) (Z.le_refl _))). simpl. lia.
  - destruct Hn as [->| ->]; [done|]. simpl. unfold ind. destruct (f64_ltb _ _); [apply pts_nonneg|done].
Qed.
Lemma network_mono i j : network_rank i <= network_rank j →
  (if negb (in_NetworkKnown i) then pts e DimNetwork (f64_of_int 4) else ind (negb (in_NetworkFamiliar i)) (pts e DimNetwork (f64_of_int 12))) <=
  (if negb (in_NetworkKnown j) then pts e DimNetwork (f64_of_int 4) else ind (negb (in_NetworkFamiliar j)) (pts e DimNetwork (f64_of_int 12))).
Proof using Hw.
  unfold network_rank. pose proof (pts_nonneg e DimNetwork (f64_of_int 4)).
  pose proof (pts_const_mono DimNetwork 4 12 eq_refl ltac:(vm_compute; reflexivity)).
  destruct (in_NetworkKnown i), (in_NetworkKnown j), (in_NetworkFamiliar i), (in_NetworkFamiliar j); simpl; lia.
Qed.
Lemma resource_mono i j : resource_rank i <= resource_rank j →
  (if str_eqb (in_ResourceSensitivity i) SensitivityCritical then pts e DimResource (f64_of_int 25)
   else ind (str_eqb (in_ResourceSensitivity i) SensitivitySensitive) (pts e DimResource (f64_of_int 12))) <=
  (if str_eqb (in_ResourceSensitivity j) SensitivityCritical then pts e DimResource (f64_of_int 25)
   else ind (str_eqb (in_ResourceSensitivity j) SensitivitySensitive) (pts e DimResource (f64_of_int 12))).
Proof using Hw.
  unfold resource_rank. pose proof (pts_nonneg e DimResource (f64_of_int 12)).
  pose proof (pts_const_mono DimResource 12 25 eq_refl ltac:(vm_compute; reflexivity)).
  destruct (str_eqb (in_ResourceSensitivity i) SensitivityCritical), (str_eqb (in_ResourceSensitivity j) SensitivityCritical),
    (str_eqb (in_ResourceSensitivity i) SensitivitySensitive), (str_eqb (in_ResourceSensitivity j) SensitivitySensitive);
    simpl; lia.
Qed.
Lemma incident_mono n n' : n <= n' →
  ind (n >? 0) (pts e DimHistory (incident_points n)) <= ind (n' >? 0) (pts e DimHistory (incident_points n')).
Proof using Hw.
  intros Hn. apply ind_mono; [|apply pts_nonneg|].
  - unfold flags_le. rewrite !Z.gtb_ltb. intros. apply Z.ltb_lt. zlia.
  - intros Hp. apply (pts_mono e _ _ _ 15); [done|lia|apply incident_points_bound|]. apply incident_points_order. zlia.
Qed.
Lemma signal_total_mono i j : riskier i j → signal_total e i <= signal_total e j.
Proof using Hw.
  intros Hr. pose proof (device_mono i j Hr). pose proof (behaviour_mono i j Hr).
  destruct Hr as [Hf Ha _ _ _ _ _ _ _ _ _ _ Hn Hs Hi Hd].
  pose proof (network_mono i j Hn). pose proof (resource_mono i j Hs). pose proof (incident_mono _ _ Hi).
  assert (flags_le (in_RecentDenials i >=? 3) (in_RecentDenials j >=? 3)).
  { unfold flags_le. rewrite !Z.geb_leb. intros. zbool. apply Z.leb_le. lia. }
  unfold signal_total. repeat first [assumption | apply Z.add_le_mono]; auto with netra.
Qed.
End Monotone.

(** C24: more risk never scores lower.  Take two contexts, the second at least as risky as
    the first in every respect ([riskier]): it has each of the flags the first has (first
    session, missing attestation, device new to the user, enrolled within a day, software
    key, silent agent, unusual hour, unfamiliar application), a device trust score no higher
    (or no report against a score of 70 or more), a network no better (familiar, unknown,
    unfamiliar), a resource no less sensitive (SENSITIVE, CRITICAL), no fewer incidents and
    denials; and the same access volume and anomaly score, or in the first too low to count.
    Both have a behavioural baseline or neither has (losing it can lower a score).  Then for
    all validated finite weights the second score is at least the first. *)
Theorem evaluate_monotone (e : Engine) (i j : Inputs) (a b : Assessment) :
  weights_ok (weights e) → anomaly_ok i → anomaly_ok j → riskier i j →
  Evaluate e i = Some a → Evaluate e j = Some b → Score a <= Score b.
Proof.
  intros Hw Ha Ha' Hr Hi Hj.
  destruct (evaluate_facts e i a Hw Ha Hi) as (-> & _).
  destruct (evaluate_facts e j b Hw Ha' Hj) as (-> & _).
  pose proof (signal_total_mono e Hw i j Hr). lia.
Qed.

(** The factors of an assessment are listed largest contribution first. *)
Theorem evaluate_sorted (e : Engine) (inp : Inputs) (a : Assessment) :
  Evaluate e inp = Some a →
  Sorted (λ f g, fac_Contribution g <= fac_Contribution f) (Factors a).
Proof.
  unfold Evaluate. intros H.
  destruct (collect e inp) as [fs|]; [|done]. cbn [mbind option_bind] in H.
  destruct (clamp_block _ _ _) as [[[fs' dims] sc]|]; [|done]. cbn [mbind option_bind] in H.
  injection H as <-. simpl.
  assert (∀ x y, factor_less x y = true → factor_less y x = false) as Hasym.
  { intros x y. unfold factor_less. rewrite (Z.eqb_sym (fac_Contribution y)).
    destruct (_ =? _) eqn:E; simpl; [apply str_ltb_asym|]. rewrite !Z.gtb_ltb. intros.
    apply Z.ltb_ge. zlia. }
  pose proof (sort_stable_sorted factor_less Hasym fs') as Hs. fold (sortFactors fs') in Hs.
  revert Hs. apply Sorted_ind; [constructor|].
  intros x l Hs IH Hd. constructor; [done|].
  inversion Hd as [|y l' Hxy]; subst; constructor.
  unfold notless, factor_less in Hxy. destruct (negb _) eqn:E; zlia.
Qed.

(** The documented cap of each signal, in points at weight 1. *)
Definition code_cap (code : string) : Z :=
  default 0 (list_to_map (M := gmap string Z)
    [("FIRST_SESSION", 8); ("UNATTESTED_SESSION", 30); ("NEW_DEVICE", 20);
     ("RECENTLY_ENROLLED", 6); ("NO_POSTURE", 12); ("LOW_DEVICE_TRUST", 20);
     ("SOFTWARE_KEY", 3); ("AGENT_SILENT", 15); ("NO_BASELINE", 5);
     ("UNUSUAL_LOGIN_TIME", 15); ("ABNORMAL_ACCESS_VOLUME", 22);
     ("UNFAMILIAR_APPLICATION", 6); ("BEHAVIOUR_ANOMALY", 10); ("UNKNOWN_NETWORK", 4);
     ("UNUSUAL_NETWORK", 12); ("CRITICAL_RESOURCE", 25); ("SENSITIVE_RESOURCE", 12);
     ("RECENT_INCIDENT", 15); ("REPEATED_DENIALS", 8)] !! code).
Definition capped (W : Z) (fs : list Factor) : Prop :=
  Forall (λ f, fac_Contribution f <= code_cap (fac_Code f) * W) fs.

Section Caps.
Context (e : Engine) (W : Z) (HW : 0 < W < 2 ^ 10) (Hw : weights_le (weights e) W).

Lemma capped_add d c l dt p cap fs :
  code_cap c = cap → 0 < cap < 2 ^ 40 → fub p cap 0 →
  capped W fs → capped W (add (weights e) d c l dt p fs).
Proof using HW Hw.
  intros Hc Hpos Hp Hfs. unfold add. destruct (_ <=? 0); [done|].
  apply Forall_app. split; [done|]. constructor; [|constructor]. simpl. rewrite Hc.
  destruct (Hw d). by apply weighted_bound.
Qed.
Lemma capped_const d c l dt n fs :
  code_cap c = n → bool_decide (n ∈ const_points) = true →
  capped W fs → capped W (add (weights e) d c l dt (f64_of_int n) fs).
Proof using HW Hw.
  intros Hc [? ?]%const_bound. by apply (capped_add _ _ _ _ _ n).
Qed.
Lemma capped_if (b : bool) fs fs' : capped W fs → capped W fs' → capped W (if b then fs else fs').
Proof using. by destruct b. Qed.

Ltac caps := repeat match goal with
  | H : capped _ ?fs |- capped _ ?fs => exact H
  | |- capped _ (if _ then _ else _) => apply capped_if
  | |- capped _ (add _ _ _ _ _ (f64_of_int _) _) =>
      apply capped_const; [vm_compute; reflexivity|vm_compute; reflexivity|]
  | |- capped _ (add _ _ _ _ _ (trust_points _) _) =>
      apply (capped_add _ _ _ _ _ 20); [vm_compute; reflexivity|lia|apply trust_points_bound|]
  | |- capped _ (add _ _ _ _ _ (volume_points _) _) =>
      apply (capped_add _ _ _ _ _ 22); [vm_compute; reflexivity|lia|apply volume_points_bound|]
  | |- capped _ (add _ _ _ _ _ (incident_points _) _) =>
      apply (capped_add _ _ _ _ _ 15); [vm_compute; reflexivity|lia|apply incident_points_bound|]
  | |- capped _ (add _ _ _ _ _ (f64_mul _ _) _) =>
      apply (capped_add _ _ _ _ _ 10);
        [vm_compute; reflexivity|lia|apply anomaly_points_bound0; assumption|]
  end.

Lemma capped_collect inp fs : anomaly_ok inp → collect e inp = Some fs → capped W fs.
Proof using HW Hw.
  intros Ha H. unfold collect in H.
  destruct (deviceSignals _ _ _) as [fd|] eqn:Ed; [|done]. cbn [mbind option_bind] in H.
  destruct (behaviourSignals _ _ _) as [fb|] eqn:Eb; [|done]. cbn [mbind option_bind] in H.
  injection H as <-. assert (capped W []) by constructor.
  assert (capped W (identitySignals inp (add (weights e)) [])) as Hi
    by (unfold identitySignals; cbv zeta; caps).
  assert (capped W fd) as Hd.
  { unfold deviceSignals in Ed. cbv zeta in Ed.
    destruct (in_DeviceTrustScore inp) as [t|]; cbn [mbind option_bind] in Ed;
      [destruct (t <? 70); [destruct (formatTrust t); [|done]|]|];
      cbn [mbind option_bind] in Ed; injection Ed as <-;
      destruct (in_DeviceEnrolledAt inp); caps. }
  assert (capped W fb).
  { unfold behaviourSignals in Eb. cbv zeta in Eb.
    destruct (negb (in_BaselineEstablished inp)); [injection Eb as <-; caps|].
    destruct (f64_leb _ _); cbn [mbind option_bind] in Eb;
      [destruct (formatZScore _); [|done]|]; cbn [mbind option_bind] in Eb; injection Eb as <-;
      caps. }
  unfold historySignals, resourceSignals, networkSignals. cbv zeta. caps.
Qed.

(** Clamping only lowers a contribution, so the caps survive it. *)
Lemma capped_evaluate inp fs a :
  weights_ok (weights e) → anomaly_ok inp → collect e inp = Some fs →
  Evaluate e inp = Some a → capped W (Factors a).
Proof using HW Hw.
  intros Hok Ha Hc He. pose proof (capped_collect inp fs Ha Hc) as Hcap.
  pose proof (collect_spec _ _ _ Hc) as [Ht Hp].
  destruct (signal_bound e 5 ltac:(lia) (weights_ok_le _ Hok) inp Ha) as [H0 H1].
  assert (maxInt64 = 2 ^ 63 - 1 ∧ minInt64 = - 2 ^ 63) as [? ?] by done.
  unfold Evaluate in He. rewrite Hc in He. cbn [mbind option_bind] in He.
  rewrite sum_go_wrap in He. fold (total fs) in He.
  rewrite wrap64_id in He by (unfold int64_range; lia).
  unfold clamp_block in He. destruct (_ >? 100) eqn:E; zbool.
  - pose proof (sort_stable_perm factor_less fs) as Hperm. fold (sortFactors fs) in Hperm.
    destruct (sortFactors fs) as [|f rest]; [done|]. cbn [mbind option_bind] in He.
    injection He as <-. simpl. unfold capped, sortFactors.
    rewrite sort_stable_perm. unfold capped in Hcap. rewrite <-Hperm in Hcap.
    unfold positive in Hp. rewrite <-Hperm in Hp.
    assert (total fs = fac_Contribution f + total rest) as Htot by (by rewrite <-Hperm).
    inversion Hcap; inversion Hp as [|??? Hpr]; subst. apply positive_total in Hpr.
    constructor; [|done]. simpl.
    rewrite !wrap64_id by (unfold int64_range; rewrite ?wrap64_id; unfold int64_range; lia).
    lia.
  - cbn [mbind option_bind] in He. injection He as <-. simpl. unfold capped, sortFactors.
    by rewrite sort_stable_perm.
Qed.
End Caps.

(** No signal exceeds its documented cap.  With validated weights every
    factor contributes at most five times the cap of its code; with the default
    weights at most the cap itself (30 for a missing attestation, 20 for low
    device trust, 22 for access volume, 15 for incidents and so on). *)
Theorem evaluate_caps (e : Engine) (inp : Inputs) (a : Assessment) :
  weights_ok (weights e) → anomaly_ok inp → Evaluate e inp = Some a →
  capped 5 (Factors a) ∧ (weights e = DefaultWeights → capped 1 (Factors a)).
Proof.
  intros Hw Ha He. destruct (evaluate_inv _ _ _ He) as [fs Hc].
  split; [|intros Hd]; eapply capped_evaluate; eauto using weights_ok_le; try lia.
  rewrite Hd. apply default_weights_le.
Qed.

(** The points of the low-trust signal at weight 1 are exactly
    [0.4 * (70 - trust)], rounded half up and capped at 20, for every trust
    score below 70; [float64] rounding never shifts them. *)
Theorem low_trust_points (t : Z) :
  0 <= t < 70 → weighted DefaultWeights DimDevice (trust_points t)
                = Z.min 20 ((4 * (70 - t) + 5) / 10).
Proof.
  intros Ht.
  assert (forallb (λ t, weighted DefaultWeights DimDevice (trust_points t)
    =? Z.min 20 ((4 * (70 - t) + 5) / 10)) (Z.of_nat <$> seq 0 70) = true) as H
    by (vm_compute; reflexivity).
  rewrite forallb_elem in H. apply Z.eqb_eq, H, list_elem_of_fmap.
  exists (Z.to_nat t). split; [lia|]. apply elem_of_seq. lia.
Qed.
Lemma low_trust_points_witness :
  0 <= 35 < 70 ∧ weighted DefaultWeights DimDevice (trust_points 35) = 14.
Proof. split; [lia|]. rewrite (low_trust_points 35) by lia. reflexivity. Defined.

(** The severity order of bands and actions. *)
Definition level_rank (l : Level) : Z :=
  if str_eqb l LevelLow then 0 else if str_eqb l LevelMedium then 1
  else if str_eqb l LevelElevated then 2 else if str_eqb l LevelHigh then 3 else 4.
Definition action_rank (a : Action) : Z :=
  if str_eqb a ActionAllow then 0 else if str_eqb a ActionAllowMonitor then 1
  else if str_eqb a ActionVerify then 2 else if str_eqb a ActionStepUpMFA then 3
  else if str_eqb a ActionRestrict then 4 else 5.

(** Validated thresholds cut 0..100 into five non-empty bands, LOW at 0 and
    CRITICAL at 100, and a higher score never has a milder band nor a milder
    recommended action. *)
Theorem thresholds_bands (t : Thresholds) :
  Thresholds_Validate t = inl () →
  Thresholds_Level t 0 = LevelLow ∧ Thresholds_Level t 100 = LevelCritical ∧
  (∀ l, l ∈ [LevelLow; LevelMedium; LevelElevated; LevelHigh; LevelCritical] →
     ∃ s, 0 <= s <= 100 ∧ Thresholds_Level t s = l) ∧
  (∀ s s', s <= s' → level_rank (Thresholds_Level t s) <= level_rank (Thresholds_Level t s')
     ∧ action_rank (RecommendedAction (Thresholds_Level t s))
       <= action_rank (RecommendedAction (Thresholds_Level t s'))).
Proof.
  unfold Thresholds_Validate. destruct (_ || _) eqn:E; [done|]. intros _. zbool.
  assert (∀ s, (s <= Low t ∧ Thresholds_Level t s = LevelLow)
    ∨ (Low t < s <= Medium t ∧ Thresholds_Level t s = LevelMedium)
    ∨ (Medium t < s <= Elevated t ∧ Thresholds_Level t s = LevelElevated)
    ∨ (Elevated t < s <= High t ∧ Thresholds_Level t s = LevelHigh)
    ∨ (High t < s ∧ Thresholds_Level t s = LevelCritical)) as Hl.
  { intros s. unfold Thresholds_Level. repeat case_match; zbool; auto 10 with lia. }
  split_and!.
  - destruct (Hl 0) as [[? ?]|H']; [done|]. lia.
  - destruct (Hl 100) as [?|[?|[?|[?|[? ?]]]]]; try done; lia.
  - intros l Hin. rewrite !elem_of_cons, elem_of_nil in Hin. destruct_or! Hin; try done; subst.
    + exists 0. split; [lia|]. destruct (Hl 0) as [[? ?]|H']; [done|]. lia.
    + exists (Medium t). split; [lia|]. destruct (Hl (Medium t)) as [?|[[? ?]|H']]; try done; lia.
    + exists (Elevated t). split; [lia|]. destruct (Hl (Elevated t)) as [?|[?|[[? ?]|H']]]; try done; lia.
    + exists (High t). split; [lia|]. destruct (Hl (High t)) as [?|[?|[?|[[? ?]|H']]]]; try done; lia.
    + exists 100. split; [lia|]. destruct (Hl 100) as [?|[?|[?|[?|[? ?]]]]]; try done; lia.
  - intros s s' Hs. destruct (Hl s) as [[? ->]|[[? ->]|[[? ->]|[[? ->]|[? ->]]]]],
      (Hl s') as [[? ->]|[[? ->]|[[? ->]|[[? ->]|[? ->]]]]]; try lia; vm_compute; split; done.
Qed.
Lemma thresholds_bands_witness : Thresholds_Level DefaultThresholds 100 = LevelCritical.
Proof. apply (thresholds_bands DefaultThresholds). reflexivity. Defined.

(** A run in which most signals fire. *)
Definition default_engine : Engine := NewEngine DefaultWeights DefaultThresholds.
Definition sample_inputs (attested : bool) : Inputs :=
  mkInputs 1 2 3 (1000 * hour) true attested (Some 35) "software" true
    (Some (990 * hour)) None false true (f64_of_int 4) true (f64_of_int 1) false true
    SensitivityCritical 3 5.

Lemma default_weights_ok : weights_ok DefaultWeights.
Proof. split; [vm_compute; reflexivity|]. repeat (constructor; [apply fpr_of_int|]). constructor. Qed.
Lemma sample_anomaly_ok b : anomaly_ok (sample_inputs b).
Proof. split; reflexivity. Qed.

Definition sample_assessment (attested : bool) : Assessment :=
  default (mkAssessment 0 0 "" "" [] ∅ 0 "" "") (Evaluate default_engine (sample_inputs attested)).
Lemma sample_evaluates b :
  Evaluate default_engine (sample_inputs b) = Some (sample_assessment b).
Proof. destruct b; vm_compute; reflexivity. Qed.

Lemma evaluate_reconciles_witness :
  Score (sample_assessment false) = 100 ∧ total (Factors (sample_assessment false)) = 100.
Proof.
  pose proof (evaluate_reconciles default_engine (sample_inputs false) _ default_weights_ok
    (sample_anomaly_ok false) (sample_evaluates false)) as (_ & H & _).
  rewrite H. vm_compute. split; reflexivity.
Defined.
Lemma evaluate_total_witness : is_Some (Evaluate default_engine (sample_inputs true)).
Proof.
  apply (evaluate_total default_engine (sample_inputs true) default_weights_ok
    (sample_anomaly_ok true)).
  split; [intros t H; injection H as <-; lia|]. intros _. split; vm_compute; reflexivity.
Defined.
(** A device with trust 60 on a sensitive resource, then one with trust 40 on a critical
    resource from an unknown network with one incident more. *)
Definition daily_inputs (trust incidents : Z) (known : bool) (sensitivity : string) : Inputs :=
  mkInputs 1 2 3 (1000 * hour) false true (Some trust) "tpm" false (Some (10 * hour)) (Some (1000 * hour)) true true
    (f64_of_int 0) false (f64_of_int 0) true known sensitivity incidents 0.
Lemma evaluate_monotone_witness :
  ∃ a b, Evaluate default_engine (daily_inputs 60 1 true SensitivitySensitive) = Some a ∧
    Evaluate default_engine (daily_inputs 40 2 false SensitivityCritical) = Some b ∧
    Score a = 22 ∧ Score b = 53 ∧ Score a <= Score b.
Proof.
  eexists _, _. split; [vm_compute; reflexivity|]. split; [vm_compute; reflexivity|].
  split; [reflexivity|]. split; [reflexivity|].
  apply (evaluate_monotone default_engine (daily_inputs 60 1 true SensitivitySensitive)
    (daily_inputs 40 2 false SensitivityCritical) _ _ default_weights_ok).
  - split; reflexivity.
  - split; reflexivity.
  - constructor; try (vm_compute; by auto); try (vm_compute; discriminate). right. simpl. lia.
  - vm_compute. reflexivity.
  - vm_compute. reflexivity.
Defined.
Lemma evaluate_sorted_witness :
  Sorted (λ f g, fac_Contribution g <= fac_Contribution f) (Factors (sample_assessment false)).
Proof. apply (evaluate_sorted default_engine (sample_inputs false)), sample_evaluates. Defined.
Lemma evaluate_caps_witness : capped 1 (Factors (sample_assessment false)).
Proof.
  apply (evaluate_caps default_engine (sample_inputs false) _ default_weights_ok
    (sample_anomaly_ok false) (sample_evaluates false)). reflexivity.
Defined.

(** The clamp takes the whole excess from the largest factor, which can turn it
    negative although every signal is a positive contribution. *)
Lemma clamp_negative_factor :
  ∃ f, f ∈ Factors (sample_assessment false) ∧ fac_Contribution f < 0.
Proof.
  assert (existsb (λ f, fac_Contribution f <? 0) (Factors (sample_assessment false)) = true) as H
    by (vm_compute; reflexivity).
  apply existsb_elem in H as (f & Hf & Hlt). exists f. split; [done|zlia].
Qed.
