(* ===== verification/Posture.v ===== *)
(** * Package [posture]: the device trust score

    [signals.go] and [score.go]: what the agent reports (a missing report is
    [None]), what the backend knows, the eight factors and their sum. *)

From S2P Require Import Prelude GoStd.
From stdpp Require Import pretty.
Open Scope Z_scope.
Open Scope go_scope.

(** ** signals.go *)

Record Signals := mkSignals {
  DiskEncryption : option bool; SecureBoot : option bool; Firewall : option bool;
  ScreenLock : option bool; AntiMalware : option bool;
  OSName : string; OSVersion : string;
  CollectionErrors : gmap string string }.

Definition Signals_Validate (s : Signals) : result unit :=
  if (len (OSName s) >? 64) || (len (OSVersion s) >? 64) then
    inr (ErrPosture "os_name and os_version must be at most 64 characters")
  else if Z.of_nat (size (CollectionErrors s)) >? 32 then
    inr (ErrPosture "collection_errors must contain at most 32 entries")
  else if existsb (λ kv, (len kv.1 >? 64) || (len kv.2 >? 256))
            (map_to_list (CollectionErrors s)) then
    inr (ErrPosture "collection_errors entries must be short")
  else inl ().

Record DeviceContext := mkDeviceContext {
  Active : bool; KeyProtection : string; AgentVersion : string; ExpectedAgent : string;
  LastHeartbeatAt : option Z; Now : Z }.

Abbreviation Source := string (only parsing).
Definition SourceVerified : Source := "verified".
Definition SourceReported : Source := "reported".

Record Factor := mkFactor {
  Code : string; Label : string; Contribution : Z; Maximum : Z;
  FSource : Source; Detail : string }.
#[export] Instance Factor_eq_dec : EqDecision Factor.
Proof. solve_decision. Defined.

Definition Satisfied (f : Factor) : bool :=
  (Contribution f =? Maximum f) && (Maximum f >? 0).

Record Assessment := mkAssessment {
  Score : Z; Factors : list Factor; AModelVersion : string; Verified : bool }.

Definition shortfall (f : Factor) : Z := Maximum f -! Contribution f.

(** The inner loop of [Weakest]: [x] moves left past the elements that lost
    fewer points.  The sorted prefix is held nearest element first. *)
Fixpoint sift (x : Factor) (rev_prefix : list Factor) : list Factor :=
  match rev_prefix with
  | y :: r => if shortfall x >? shortfall y then y :: sift x r else x :: y :: r
  | [] => [x]
  end.
Definition rank (l : list Factor) : list Factor :=
  reverse (foldl (λ rp x, sift x rp) [] l).
Definition Weakest (a : Assessment) (limit : Z) : list Factor :=
  let ranked := rank (filter (λ f, shortfall f > 0) (Factors a)) in
  if (limit >? 0) && (Z.of_nat (length ranked) >? limit)
  then take (Z.to_nat limit) ranked else ranked.

Definition tristate (value : option bool) (whenTrue whenFalse : string) : bool * string :=
  match value with
  | None => (false, "not reported by the agent")
  | Some true => (true, whenTrue)
  | Some false => (false, whenFalse)
  end.

Definition normalize (s : string) : string := to_lower (trim_space s).

(** ** score.go *)

Definition ModelVersion : string := "posture-v1".
Definition AgentStaleAfter : Z := 15 * minute.

Record Weights := mkWeights {
  w_DeviceIdentity : Z; w_AgentHealth : Z; w_DiskEncryption : Z; w_SecureBoot : Z;
  w_OSSupported : Z; w_Firewall : Z; w_ScreenLock : Z; w_AntiMalware : Z }.
Definition DefaultWeights : Weights := mkWeights 20 15 20 15 10 10 5 5.

Definition Total (w : Weights) : Z :=
  w_DeviceIdentity w +! w_AgentHealth w +! w_DiskEncryption w +! w_SecureBoot w
  +! w_OSSupported w +! w_Firewall w +! w_ScreenLock w +! w_AntiMalware w.

(** The loop ranges over a map and reports one of the negative weights. *)
Definition weight_fields (w : Weights) : list (string * Z) :=
  [("device identity", w_DeviceIdentity w); ("agent health", w_AgentHealth w);
   ("disk encryption", w_DiskEncryption w); ("secure boot", w_SecureBoot w);
   ("os supported", w_OSSupported w); ("firewall", w_Firewall w);
   ("screen lock", w_ScreenLock w); ("anti-malware", w_AntiMalware w)].
Definition Weights_Validate (w : Weights) : result unit :=
  match list_find (λ p, p.2 <? 0) (weight_fields w) with
  | Some (_, (name, _)) =>
      inr (ErrPosture ("posture weight for " +:+ name +:+ " must not be negative")%stdpp)
  | None =>
      if negb (Total w =? 100) then
        inr (ErrPosture ("posture weights must sum to 100, got " +:+ sprint_int (Total w))%stdpp)
      else inl ()
  end.

Definition MinimumOSVersions : list (string * string) := [("windows", "10"); ("macos", "14")].
Definition lookup_os (name : string) : option string :=
  snd <$> (snd <$> list_find (λ p, p.1 = name) MinimumOSVersions).

(** [splitVersion]: state [(parts, current, digits)]; only [0]-[9] and [.] act,
    and both are single bytes, so the loop over runes is a loop over bytes. *)
Definition split_step (st : list Z * Z * bool) (c : Ascii.ascii) : list Z * Z * bool :=
  let '(parts, current, digits) := st in
  if (48 <=? ch c) && (ch c <=? 57) then (parts, (current *! 10) +! (ch c - 48), true)
  else if ch c =? 46 then (parts ++ [current], 0, false)
  else st.
Definition splitVersion (v : string) : list Z :=
  let '(parts, current, digits) := foldl split_step ([], 0, false) (String.list_ascii_of_string v) in
  match digits, parts with
  | false, _ :: _ => parts
  | _, _ => parts ++ [current]
  end.

(** The loop of [compareVersions]: a missing component reads as 0. *)
Fixpoint cmp_parts (left right : list Z) : Z :=
  match left, right with
  | [], [] => 0
  | x :: l, [] => if negb (x =? 0) then (if x <? 0 then -1 else 1) else cmp_parts l []
  | [], y :: r =>
      (fix go (r : list Z) : Z := match r with
         | [] => 0
         | y :: r => if negb (0 =? y) then (if 0 <? y then -1 else 1) else go r
         end) (y :: r)
  | x :: l, y :: r => if negb (x =? y) then (if x <? y then -1 else 1) else cmp_parts l r
  end.
Definition compareVersions (a b : string) : Z := cmp_parts (splitVersion a) (splitVersion b).

Definition deviceIdentityFactor (context : DeviceContext) (maximum : Z) : Factor :=
  let factor := mkFactor "DEVICE_IDENTITY" "Device identity" in
  if negb (Active context) then factor 0 maximum SourceVerified "the device is not active"
  else
    let k := normalize (KeyProtection context) in
    if str_eqb k "tpm" || str_eqb k "windows-cert-store"
    then factor maximum maximum SourceVerified "hardware-backed key"
    else if str_eqb k "software"
    then factor ((maximum *! 3) ÷ 5) maximum SourceVerified
           "software-protected key; hardware-backed protection is stronger"
    else factor 0 maximum SourceVerified "unrecognised key protection".

Definition agentHealthFactor (context : DeviceContext) (maximum : Z) : Factor :=
  let factor := mkFactor "AGENT_HEALTH" "Agent health" in
  match LastHeartbeatAt context with
  | None => factor 0 maximum SourceVerified "the agent has never reported"
  | Some hb =>
      let since := time_sub (Now context) hb in
      if since >? AgentStaleAfter then
        factor 0 maximum SourceVerified
          ("the agent last reported " +:+ duration_string (duration_round since minute) +:+ " ago")%stdpp
      else if negb (str_eqb (ExpectedAgent context) "")
              && negb (str_eqb (AgentVersion context) (ExpectedAgent context)) then
        factor (maximum ÷ 2) maximum SourceVerified
          ("agent " +:+ AgentVersion context +:+ " is behind the expected " +:+ ExpectedAgent context)%stdpp
      else factor maximum maximum SourceVerified "the agent is reporting and current"
  end.

Definition osSupportedFactor (signals : Signals) (maximum : Z) : Factor :=
  let factor := mkFactor "OS_SUPPORTED" "Operating system currency" in
  match lookup_os (normalize (OSName signals)) with
  | None => factor 0 maximum SourceReported "operating system version could not be assessed"
  | Some minimum =>
      if str_eqb (OSVersion signals) "" then
        factor 0 maximum SourceReported "operating system version could not be assessed"
      else if compareVersions (OSVersion signals) minimum <? 0 then
        factor 0 maximum SourceReported
          (OSName signals +:+ " " +:+ OSVersion signals +:+ " is below the supported minimum of "
           +:+ minimum)%stdpp
      else factor maximum maximum SourceReported
          (OSName signals +:+ " " +:+ OSVersion signals +:+ " is supported")%stdpp
  end.

Definition reportedFactor (code label : string) (value : option bool) (maximum : Z)
    (whenTrue whenFalse : string) : Factor :=
  let '(satisfied, detail) := tristate value whenTrue whenFalse in
  mkFactor code label (if satisfied then maximum else 0) maximum SourceReported detail.

(** The eight calls of [Evaluate], in order. *)
Definition factors (signals : Signals) (context : DeviceContext) (weights : Weights) : list Factor :=
  [ deviceIdentityFactor context (w_DeviceIdentity weights);
    agentHealthFactor context (w_AgentHealth weights);
    reportedFactor "DISK_ENCRYPTION" "Disk encryption"
      (DiskEncryption signals) (w_DiskEncryption weights)
      "volume encryption is enabled" "volume encryption is disabled";
    reportedFactor "SECURE_BOOT" "Boot and system integrity"
      (SecureBoot signals) (w_SecureBoot weights)
      "platform integrity protection is enabled" "platform integrity protection is disabled";
    osSupportedFactor signals (w_OSSupported weights);
    reportedFactor "FIREWALL" "Host firewall" (Firewall signals) (w_Firewall weights)
      "host firewall is enabled" "host firewall is disabled";
    reportedFactor "SCREEN_LOCK" "Screen lock" (ScreenLock signals) (w_ScreenLock weights)
      "a password is required after sleep" "no password is required after sleep";
    reportedFactor "ANTI_MALWARE" "Malware protection" (AntiMalware signals) (w_AntiMalware weights)
      "real-time protection is active" "real-time protection is not active" ].

Definition Evaluate (signals : Signals) (context : DeviceContext) (weights : Weights) : Assessment :=
  let factors := factors signals context weights in
  let score := sum_go (Contribution <$> factors) in
  let allVerified := forallb (λ f, str_eqb (FSource f) SourceVerified) factors in
  let score := if score <? 0 then 0 else score in
  let score := if score >? 100 then 100 else score in
  mkAssessment score factors ModelVersion allVerified.

(** ** The score *)

(** Weights [Validate] accepts whose sum did not wrap: each at most 100. *)
Definition weights_ok (w : Weights) : Prop :=
  Weights_Validate w = inl () ∧ Forall (λ p, p.2 <= 100) (weight_fields w).

Lemma weights_ok_facts w : weights_ok w →
  Forall (λ p, 0 <= p.2 <= 100) (weight_fields w) ∧ zsum (snd <$> weight_fields w) = 100.
Proof.
  intros [Hv Hle]. unfold Weights_Validate in Hv.
  destruct (list_find _ _) as [[? []]|] eqn:E; [done|]. apply list_find_None in E.
  assert (Forall (λ p, 0 <= p.2 <= 100) (weight_fields w)) as Hb.
  { apply Forall_forall. intros p Hp. rewrite Forall_forall in E, Hle.
    specialize (E p Hp). specialize (Hle p Hp). cbn beta in E.
    destruct (p.2 <? 0) eqn:El; [done|]. zlia. }
  split; [done|]. destruct (negb _) eqn:Et; [done|]. zbool.
  rewrite <-Et. clear Et Hv E Hle. unfold Total, weight_fields in *.
  repeat (apply Forall_cons in Hb as [? Hb]). cbn [snd fmap list_fmap] in *.
  unwrap. autorewrite with netra_eq. lia.
Qed.

(** A factor never earns less than nothing nor more than its maximum. *)
Definition factor_ok (f : Factor) : Prop := 0 <= Contribution f <= Maximum f.

Lemma reported_ok c l v m t f : 0 <= m → factor_ok (reportedFactor c l v m t f).
Proof. intros. unfold reportedFactor, factor_ok. destruct v as [[]|]; simpl; lia. Qed.
Lemma identity_ok ctx m : 0 <= m <= 100 → factor_ok (deviceIdentityFactor ctx m).
Proof.
  intros. unfold deviceIdentityFactor, factor_ok. repeat case_match; simpl; try lia.
  rewrite wrap64_id by (unfold int64_range, minInt64, maxInt64; lia).
  rewrite Z.quot_div_nonneg by lia.
  split; [apply Z.div_pos; lia|apply Z.div_le_upper_bound; lia].
Qed.
Lemma health_ok ctx m : 0 <= m → factor_ok (agentHealthFactor ctx m).
Proof.
  intros. unfold agentHealthFactor, factor_ok. repeat case_match; simpl; try lia.
  rewrite Z.quot_div_nonneg by lia.
  split; [apply Z.div_pos; lia|apply Z.div_le_upper_bound; lia].
Qed.
Lemma os_ok s m : 0 <= m → factor_ok (osSupportedFactor s m).
Proof. intros. unfold osSupportedFactor, factor_ok. repeat case_match; simpl; lia. Qed.
#[local] Hint Resolve reported_ok identity_ok health_ok os_ok : netra.

Lemma factors_ok s ctx w :
  Forall (λ p, 0 <= p.2 <= 100) (weight_fields w) →
  Forall factor_ok (factors s ctx w).
Proof.
  intros Hb. unfold weight_fields in Hb. repeat (apply Forall_cons in Hb as [? Hb]). cbn [snd] in *.
  unfold factors. repeat constructor; first [apply reported_ok|apply identity_ok|apply health_ok|apply os_ok]; lia.
Qed.

Lemma factors_maxima s ctx w : Maximum <$> factors s ctx w = snd <$> weight_fields w.
Proof.
  assert (∀ c l v m t f, Maximum (reportedFactor c l v m t f) = m) as Hr
    by (intros; unfold reportedFactor; by destruct (tristate _ _ _)).
  assert (∀ m, Maximum (deviceIdentityFactor ctx m) = m) as Hi
    by (intros; unfold deviceIdentityFactor; repeat case_match; done).
  assert (∀ m, Maximum (agentHealthFactor ctx m) = m) as Hh
    by (intros; unfold agentHealthFactor; repeat case_match; done).
  assert (∀ m, Maximum (osSupportedFactor s m) = m) as Ho
    by (intros; unfold osSupportedFactor; repeat case_match; done).
  unfold factors, weight_fields. cbn [fmap list_fmap]. by rewrite !Hr, Hi, Hh, Ho.
Qed.

Definition earned (fs : list Factor) : Z := zsum (Contribution <$> fs).

Lemma earned_bounds fs : Forall factor_ok fs → 0 <= earned fs <= zsum (Maximum <$> fs).
Proof.
  intros H. unfold earned. induction H as [|f fs [? ?] _ IH]; [done|].
  rewrite !fmap_cons, !zsum_cons. lia.
Qed.

Lemma evaluate_earned s ctx w : weights_ok w →
  Score (Evaluate s ctx w) = earned (factors s ctx w) ∧ 0 <= earned (factors s ctx w) <= 100.
Proof.
  intros Hw. destruct (weights_ok_facts w Hw) as [Hb Hs].
  pose proof (earned_bounds _ (factors_ok s ctx w Hb)) as He.
  rewrite factors_maxima, Hs in He. unfold Evaluate. cbn [Score].
  rewrite sum_go_wrap. fold (earned (factors s ctx w)).
  rewrite wrap64_id by (unfold int64_range, minInt64, maxInt64; lia).
  replace (earned (factors s ctx w) <? 0) with false by (symmetry; apply Z.ltb_ge; lia).
  replace (earned (factors s ctx w) >? 100) with false
    by (rewrite Z.gtb_ltb; symmetry; apply Z.ltb_ge; lia). done.
Qed.

(** The trust score is the exact sum of its factors.  With validated weights
    every factor earns between 0 and its maximum, the maxima sum to 100, the
    score is the sum of the contributions and lies in 0..100, so the clamps of
    [Evaluate] never fire and the explanation reconciles. *)
Theorem posture_reconciles (s : Signals) (ctx : DeviceContext) (w : Weights) :
  weights_ok w →
  let a := Evaluate s ctx w in
  Score a = zsum (Contribution <$> Factors a) ∧ 0 <= Score a <= 100 ∧
  Forall factor_ok (Factors a) ∧ zsum (Maximum <$> Factors a) = 100.
Proof.
  intros Hw a. destruct (weights_ok_facts w Hw) as [Hb Hs].
  destruct (evaluate_earned s ctx w Hw) as [He Hr]. subst a. rewrite He.
  split_and!; [done|lia|lia|by apply factors_ok|].
  change (Factors _) with (factors s ctx w). by rewrite factors_maxima.
Qed.
Definition sample_signals : Signals :=
  mkSignals (Some true) None (Some true) (Some false) None " Windows" "11-preview" ∅.
Definition sample_context : DeviceContext :=
  mkDeviceContext true "software" "1.2" "1.3" (Some (100 * minute)) (110 * minute).
Lemma posture_weights_ok : weights_ok DefaultWeights.
Proof. split; [reflexivity|]. repeat constructor; simpl; lia. Qed.
Lemma posture_reconciles_witness : Score (Evaluate sample_signals sample_context DefaultWeights) = 59.
Proof.
  destruct (posture_reconciles sample_signals sample_context DefaultWeights posture_weights_ok)
    as [-> _]. vm_compute. reflexivity.
Defined.

(** ** Unknown is not satisfied *)

(** [s'] reports at least what [s] reports: a signal that is not reported, or
    reported off, may become reported on, never the reverse. *)
Definition signal_le (a b : option bool) : Prop := a = Some true → b = Some true.
Record reports_more (s s' : Signals) : Prop := {
  rm_disk : signal_le (DiskEncryption s) (DiskEncryption s');
  rm_boot : signal_le (SecureBoot s) (SecureBoot s');
  rm_fw : signal_le (Firewall s) (Firewall s');
  rm_lock : signal_le (ScreenLock s) (ScreenLock s');
  rm_am : signal_le (AntiMalware s) (AntiMalware s');
  rm_os : OSName s' = OSName s ∧ OSVersion s' = OSVersion s }.

Lemma reported_mono c l v v' m t f : 0 <= m → signal_le v v' →
  Contribution (reportedFactor c l v m t f) <= Contribution (reportedFactor c l v' m t f).
Proof.
  intros Hm H. unfold reportedFactor. destruct v as [[]|]; [rewrite H by done; done|..];
    destruct v' as [[]|]; simpl; lia.
Qed.
Lemma os_same s s' m : OSName s' = OSName s ∧ OSVersion s' = OSVersion s →
  osSupportedFactor s' m = osSupportedFactor s m.
Proof. intros [E1 E2]. unfold osSupportedFactor. by rewrite E1, E2. Qed.

(** Unknown never counts as satisfied, and reporting a control as on never
    lowers the trust score.  A control that is not reported earns nothing, and
    if [s'] reports on every control [s] reports on, the score of [s'] is at
    least the score of [s]. *)
Theorem posture_unknown_unsatisfied (s s' : Signals) (ctx : DeviceContext) (w : Weights) :
  weights_ok w →
  (∀ c l m t f, Contribution (reportedFactor c l None m t f) = 0) ∧
  (OSVersion s = "" → Contribution (osSupportedFactor s (w_OSSupported w)) = 0) ∧
  (reports_more s s' → Score (Evaluate s ctx w) <= Score (Evaluate s' ctx w)).
Proof.
  intros Hw. split_and!; [done| |].
  - intros E. unfold osSupportedFactor. rewrite E. by case_match.
  - intros [H1 H2 H3 H4 H5 H6]. destruct (weights_ok_facts w Hw) as [Hb _].
    destruct (evaluate_earned s ctx w Hw) as [-> _], (evaluate_earned s' ctx w Hw) as [-> _].
    unfold weight_fields in Hb. repeat (apply Forall_cons in Hb as [? Hb]). cbn [snd] in *.
    unfold earned, factors. cbn [fmap list_fmap]. rewrite (os_same s s') by done.
    autorewrite with netra_eq.
    repeat apply Z.add_le_mono; try lia; apply reported_mono; auto; lia.
Qed.
Lemma posture_unknown_witness :
  Score (Evaluate (mkSignals None None None None None "" "" ∅) sample_context DefaultWeights)
  <= Score (Evaluate (mkSignals (Some true) (Some false) None None None "" "" ∅)
       sample_context DefaultWeights).
Proof.
  apply (posture_unknown_unsatisfied _ _ sample_context DefaultWeights posture_weights_ok).
  by constructor.
Defined.

(** [Verified] asks every factor to be verified, and six are reported. *)
Lemma posture_never_verified s ctx w : Verified (Evaluate s ctx w) = false.
Proof.
  unfold Evaluate, factors. cbn [Verified forallb].
  assert (∀ c l v m t f, str_eqb (FSource (reportedFactor c l v m t f)) SourceVerified = false)
    as Hr by (intros; unfold reportedFactor; by destruct (tristate _ _ _)).
  rewrite !Hr. simpl. by rewrite !andb_false_r.
Qed.

(** ** Weakest *)

Definition worse (x y : Factor) : bool := shortfall x >? shortfall y.
Lemma worse_asym x y : worse x y = true → worse y x = false.
Proof. unfold worse. rewrite !Z.gtb_ltb. intros. apply Z.ltb_ge. zlia. Qed.

Lemma sift_perm x rp : sift x rp ≡ₚ x :: rp.
Proof.
  induction rp as [|y r IH]; simpl; [done|]. destruct (_ >? _); [|done].
  rewrite IH. constructor.
Qed.

(** The sorted prefix, nearest first, has non-decreasing shortfall. *)
Definition rank_le (x y : Factor) : Prop := shortfall x <= shortfall y.
Lemma sift_sorted x rp : Sorted rank_le rp → Sorted rank_le (sift x rp).
Proof.
  induction 1 as [|y r Hs IH Hd]; simpl; [by repeat constructor|].
  destruct (_ >? _) eqn:E; zbool.
  - constructor; [done|]. destruct r as [|z r]; simpl; [constructor; unfold rank_le; lia|].
    apply HdRel_inv in Hd. destruct (_ >? _); constructor; unfold rank_le in *; lia.
  - constructor; [by constructor|]. constructor. unfold rank_le. lia.
Qed.

Lemma rank_spec l : rank l ≡ₚ l ∧ StronglySorted (flip rank_le) (rank l).
Proof.
  unfold rank.
  assert (∀ acc, Sorted rank_le acc → foldl (λ rp x, sift x rp) acc l ≡ₚ l ++ acc ∧
    Sorted rank_le (foldl (λ rp x, sift x rp) acc l)) as H.
  { induction l as [|x l IH]; intros acc Ha; simpl; [done|].
    destruct (IH (sift x acc) (sift_sorted x acc Ha)) as [Hp Hs]. split; [|done].
    rewrite Hp, sift_perm. by rewrite Permutation_middle. }
  destruct (H [] ltac:(constructor)) as [Hp Hs]. rewrite app_nil_r in Hp.
  split; [by rewrite reverse_Permutation|].
  apply StronglySorted_reverse, Sorted_StronglySorted; [|done].
  intros a b c ??. unfold rank_le in *. lia.
Qed.

(** [Weakest] names what to fix first.  It lists factors that lost points,
    largest loss first; what it leaves out (nothing without a limit, and with a
    limit only once the limit is reached) lost no more than anything listed. *)
Theorem weakest_worst_first (a : Assessment) (limit : Z) :
  let w := Weakest a limit in
  StronglySorted (λ x y, shortfall y <= shortfall x) w ∧
  ∃ rest, w ++ rest ≡ₚ filter (λ f, shortfall f > 0) (Factors a) ∧
    (∀ x y, x ∈ w → y ∈ rest → shortfall y <= shortfall x) ∧
    (rest ≠ [] → 0 < limit ∧ Z.of_nat (length w) = limit) ∧
    (0 < limit → Z.of_nat (length w) <= limit).
Proof.
  cbv zeta. unfold Weakest. destruct (rank_spec (filter (λ f, shortfall f > 0) (Factors a))) as [Hp Hs].
  set (r := rank _) in *. change (flip rank_le) with (λ x y, shortfall y <= shortfall x) in Hs.
  destruct (_ && _) eqn:E; zbool.
  - split; [by apply StronglySorted_take|]. exists (drop (Z.to_nat limit) r).
    rewrite take_drop. split; [done|]. rewrite length_take. split; [|lia].
    intros x y Hx Hy. rewrite <-(take_drop (Z.to_nat limit) r) in Hs.
    by apply (StronglySorted_app_1_elem_of _ _ _ _ _ Hs).
  - split; [done|]. exists []. rewrite app_nil_r. split; [done|].
    split; [by intros ?? _ ?%elem_of_nil|]. split; [done|].
    apply andb_false_iff in E as [E|E]; zlia.
Qed.

(** ** Version comparison *)

Lemma cmp_parts_step l r :
  cmp_parts l r = let x := hd 0 l in let y := hd 0 r in
    if x =? y then cmp_parts (tl l) (tl r) else if x <? y then -1 else 1.
Proof.
  destruct l as [|x l], r as [|y r]; cbn -[Z.eqb Z.ltb]; try done;
    destruct (_ =? _); try done. by destruct r.
Qed.

Lemma cmp_parts_opp l r : cmp_parts r l = - cmp_parts l r.
Proof.
  remember (length l + length r)%nat as n eqn:Hn.
  revert l r Hn. induction n as [n IH] using lt_wf_ind. intros l r ->.
  destruct (decide (l = [] ∧ r = [])) as [[-> ->]|Hne]; [done|].
  rewrite (cmp_parts_step r l), (cmp_parts_step l r). cbv zeta. rewrite (Z.eqb_sym (hd 0 r)).
  destruct (_ =? _) eqn:E; zbool.
  - eapply IH; [|done]. destruct l, r; simpl; try lia. tauto.
  - destruct (hd 0 r <? hd 0 l) eqn:E1, (hd 0 l <? hd 0 r) eqn:E2; zbool; lia.
Qed.

Lemma cmp_parts_trans l m r :
  cmp_parts l m <= 0 → cmp_parts m r <= 0 → cmp_parts l r <= 0.
Proof.
  remember (length l + length m + length r)%nat as n eqn:Hn.
  revert l m r Hn. induction n as [n IH] using lt_wf_ind. intros l m r ->.
  destruct (decide (l = [] ∧ m = [] ∧ r = [])) as [(-> & -> & ->)|Hne]; [done|].
  rewrite (cmp_parts_step l m), (cmp_parts_step m r), (cmp_parts_step l r). cbv zeta.
  destruct (hd 0 l =? hd 0 m) eqn:E1, (hd 0 m =? hd 0 r) eqn:E2, (hd 0 l =? hd 0 r) eqn:E3,
    (hd 0 l <? hd 0 m) eqn:E4, (hd 0 m <? hd 0 r) eqn:E5, (hd 0 l <? hd 0 r) eqn:E6;
    zbool; try lia.
  all: intros; eapply IH; [|done|eassumption|eassumption].
  all: destruct l, m, r; simpl; try lia; tauto.
Qed.

(** The parts read back from a printed version. *)
Definition print_version (parts : list Z) : string := str_join "." (sprint_int <$> parts).

Lemma fold_app_digits (f : list Z * Z * bool → Ascii.ascii → list Z * Z * bool) s t st :
  foldl f st (String.list_ascii_of_string (s +:+ t)%stdpp)
  = foldl f (foldl f st (String.list_ascii_of_string s)) (String.list_ascii_of_string t).
Proof. revert st. induction s as [|c s IH]; intros st; [done|]. simpl. apply IH. Qed.

(** One printed component, read after a separator, is the component. *)
Lemma parse_go parts x s : (0 < x)%N → Z.of_N x < 2 ^ 63 →
  foldl split_step (parts, 0, false) (String.list_ascii_of_string (pretty_N_go x s))
  = foldl split_step (parts, Z.of_N x, true) (String.list_ascii_of_string s).
Proof.
  revert s. induction x as [x IH] using (well_founded_induction N.lt_wf_0). intros s Hx Hb.
  rewrite pretty_N_go_step by done.
  assert (∀ b cur, cur * 10 + Z.of_N (x mod 10) = Z.of_N x → 
    split_step (parts, cur, b) (pretty_N_char (x mod 10)) = (parts, Z.of_N x, true)) as Hstep.
  { intros b cur Hc. unfold split_step. 
    assert (ch (pretty_N_char (x mod 10)) = 48 + Z.of_N (x mod 10)) as ->.
    { assert (x mod 10 < 10)%N by (by apply N.mod_lt). revert H.
      generalize (x mod 10)%N. intros d Hd.
      assert (d ∈ [0;1;2;3;4;5;6;7;8;9]%N) as Hin by (rewrite !elem_of_cons; lia).
      rewrite !elem_of_cons, elem_of_nil in Hin. destruct_or! Hin; try done; by subst. }
    assert (0 <= Z.of_N (x mod 10) < 10) by (rewrite N2Z.inj_mod; by apply Z.mod_pos_bound).
    replace ((48 <=? _) && _) with true
      by (symmetry; apply andb_true_iff; split; apply Z.leb_le; lia).
    unwrap. do 2 f_equal. lia. }
  pose proof (N.div_mod x 10 ltac:(done)) as Hdm. pose proof (N.mod_lt x 10 ltac:(done)) as Hml.
  pose proof (N.div_lt x 10 ltac:(done) ltac:(done)) as Hlt.
  set (q := (x / 10)%N) in *. set (d := (x mod 10)%N) in *. clearbody q d.
  destruct (decide (q = 0)%N) as [->|E].
  - rewrite pretty_N_go_0. cbn [String.list_ascii_of_string foldl].
    rewrite Hstep by lia. done.
  - rewrite IH by lia. cbn [String.list_ascii_of_string foldl]. rewrite Hstep by lia. done.
Qed.
Lemma parse_int parts x s : 0 <= x < 2 ^ 63 →
  foldl split_step (parts, 0, false) (String.list_ascii_of_string (sprint_int x +:+ s)%stdpp)
  = foldl split_step (parts, x, true) (String.list_ascii_of_string s).
Proof.
  intros Hx. rewrite fold_app_digits. f_equal. destruct x as [|p|p]; [done| |lia].
  change (sprint_int (Zpos p)) with (pretty_N_go (Npos p) EmptyString).
  by rewrite parse_go by lia.
Qed.

Lemma split_print parts0 parts :
  parts ≠ [] → Forall (λ x, 0 <= x < 2 ^ 63) parts →
  foldl split_step (parts0, 0, false) (String.list_ascii_of_string (print_version parts))
  = (parts0 ++ take (length parts - 1) parts, default 0 (last parts), true).
Proof.
  unfold print_version. intros Hne Hf. revert parts0. induction Hf as [|x l Hx Hf IH]; [done|].
  intros parts0. destruct l as [|y l].
  - cbn [fmap list_fmap str_join]. rewrite <-(str_app_nil_r (sprint_int x)), parse_int by done.
    simpl. by rewrite app_nil_r.
  - change (str_join "." (sprint_int <$> x :: y :: l))
      with (sprint_int x +:+ ("." +:+ str_join "." (sprint_int <$> y :: l)))%stdpp.
    rewrite parse_int by done.
    change (foldl split_step (parts0, x, true)
      (String.list_ascii_of_string ("." +:+ str_join "." (sprint_int <$> y :: l))%stdpp))
      with (foldl split_step (parts0 ++ [x], 0, false)
              (String.list_ascii_of_string (str_join "." (sprint_int <$> y :: l)))).
    rewrite IH by done. rewrite <-app_assoc. simpl. by rewrite Nat.sub_0_r.
Qed.

(** Version strings compare numerically, component by component.  A printed
    dotted version reads back as its components (each below 2^63), and
    [compareVersions] is a total preorder: reflexive, antisymmetric in sign and
    transitive, with missing components read as 0. *)
Theorem compare_versions_order (parts : list Z) (a b c : string) :
  parts ≠ [] → Forall (λ x, 0 <= x < 2 ^ 63) parts →
  splitVersion (print_version parts) = parts ∧
  compareVersions a a = 0 ∧ compareVersions b a = - compareVersions a b ∧
  (compareVersions a b <= 0 → compareVersions b c <= 0 → compareVersions a c <= 0).
Proof.
  intros Hne Hf. split_and!.
  - unfold splitVersion. rewrite split_print by done. rewrite app_nil_l.
    destruct parts as [|x l] using rev_ind; [done|]. clear IHl.
    rewrite last_snoc, length_app. simpl. rewrite Nat.add_sub, take_app_length.
    by destruct (l).
  - unfold compareVersions. pose proof (cmp_parts_opp (splitVersion a) (splitVersion a)). lia.
  - apply cmp_parts_opp.
  - apply cmp_parts_trans.
Qed.
Lemma compare_versions_witness :
  splitVersion (print_version [10; 0; 19045]) = [10; 0; 19045] ∧ compareVersions "9.9" "10" = -1.
Proof.
  split; [|vm_compute; reflexivity].
  apply (compare_versions_order [10; 0; 19045] "" "" ""); [done|]. repeat constructor; lia.
Defined.

(** The comment says that anything else ends the numeric run; it is skipped, and
    the digits after it extend the same component. *)
Lemma split_version_skips : splitVersion "11-preview2" = [112].
Proof. vm_compute. reflexivity. Qed.

(** [Validate] checks a wrapped sum: weights far above 100 pass. *)
Lemma weights_validate_wraps :
  Weights_Validate (mkWeights (2 ^ 62) (2 ^ 62) (2 ^ 62) (2 ^ 62) 100 0 0 0) = inl ().
Proof. vm_compute. reflexivity. Qed.
