(* ===== verification/Policy.v ===== *)
(** * Package [policy]: from a risk assessment to an access decision

    [policy.go] and [defaults.go]: conditions, actions, validation, the engine
    with its deterministic order, degraded mode and the shipped policies.  The
    clock the code reads is an argument. *)

From S2P Require Import Prelude GoStd Risk.
Open Scope Z_scope.
Open Scope go_scope.

Abbreviation Decision := string (only parsing).
Definition DecisionAllow : Decision := "ALLOW".
Definition DecisionAllowMonitor : Decision := "ALLOW_MONITOR".
Definition DecisionVerify : Decision := "VERIFY".
Definition DecisionStepUpMFA : Decision := "STEP_UP_MFA".
Definition DecisionRestrict : Decision := "RESTRICT".
Definition DecisionIsolate : Decision := "ISOLATE".
Definition DecisionDeny : Decision := "DENY".

Definition all_decisions : list Decision :=
  [DecisionAllow; DecisionAllowMonitor; DecisionVerify; DecisionStepUpMFA;
   DecisionRestrict; DecisionIsolate; DecisionDeny].
Definition knownDecisions (d : Decision) : bool := str_mem d all_decisions.

(** A missing key of the map reads as 0. *)
Definition severity (d : Decision) : Z :=
  if str_eqb d DecisionAllow then 0 else if str_eqb d DecisionAllowMonitor then 1
  else if str_eqb d DecisionVerify then 2 else if str_eqb d DecisionStepUpMFA then 3
  else if str_eqb d DecisionRestrict then 4 else if str_eqb d DecisionIsolate then 5
  else if str_eqb d DecisionDeny then 6 else 0.

Abbreviation FailMode := string (only parsing).
Definition FailOpen : FailMode := "fail-open".
Definition FailClosed : FailMode := "fail-closed".
Definition FailSafe : FailMode := "fail-safe".

Record Conditions := mkConditions {
  MinRisk : option Z; MaxRisk : option Z; Levels : list string;
  ResourceSensitivity : list string; RequireFactors : list string }.
Record Actions := mkActions {
  ADecision : Decision; ACreateIncident : bool; AAlertSOC : bool; AMessage : string }.
Record Policy := mkPolicy {
  ID : uuid; PolicyID : string; Version : Z; Name : string; Description : string;
  Priority : Z; Enabled : bool; PConditions : Conditions; PActions : Actions;
  PFailMode : FailMode; CreatedBy : option uuid; CreatedAt : Z }.

Definition bad_risk (r : option Z) : bool :=
  match r with Some v => (v <? 0) || (v >? 100) | None => false end.
Definition Validate (p : Policy) : result unit :=
  let c := PConditions p in
  reject! str_eqb (trim_space (PolicyID p)) "" || (len (PolicyID p) >? 64)
    with ErrInvalidPolicy "policy_id must be 1..64 characters";
  reject! str_eqb (trim_space (Name p)) "" || (len (Name p) >? 128)
    with ErrInvalidPolicy "name must be 1..128 characters";
  reject! negb (knownDecisions (ADecision (PActions p)))
    with ErrInvalidPolicy "unknown decision";
  reject! negb (str_mem (PFailMode p) [FailOpen; FailClosed; FailSafe])
    with ErrInvalidPolicy "fail_mode must be fail-open, fail-closed or fail-safe";
  reject! bad_risk (MinRisk c) with ErrInvalidPolicy "min_risk must be 0..100";
  reject! bad_risk (MaxRisk c) with ErrInvalidPolicy "max_risk must be 0..100";
  reject! match MinRisk c, MaxRisk c with Some a, Some b => a >? b | _, _ => false end
    with ErrInvalidPolicy "min_risk must not exceed max_risk";
  reject! match MinRisk c, MaxRisk c with None, None => true | _, _ => false end
      && is_nil (Levels c) && is_nil (ResourceSensitivity c) && is_nil (RequireFactors c)
    with ErrInvalidPolicy "a policy must constrain something";
  inl ().

Record Request := mkRequest {
  RAssessment : Risk.Assessment; RResourceSensitivity : string;
  ResourceID : option uuid; Degraded : bool }.

(** [Result]; its [Latency] is the time the call took, which is not modelled. *)
Record Result := mkResult {
  RDecision : Decision; Reason : string; RPolicyID : string; PolicyVersion : Z;
  CreateIncident : bool; AlertSOC : bool; Message : string;
  Matched : list string; EvaluatedAt : Z }.

Definition containsFold (haystack : list string) (needle : string) : bool :=
  existsb (λ candidate, equal_fold candidate needle) haystack.
Definition isSensitive (sensitivity : string) : bool :=
  equal_fold sensitivity "SENSITIVE" || equal_fold sensitivity "CRITICAL".

Definition matches (c : Conditions) (request : Request) : bool :=
  let score := Risk.Score (RAssessment request) in
  if match MinRisk c with Some m => score <? m | None => false end then false
  else if match MaxRisk c with Some m => score >? m | None => false end then false
  else if negb (is_nil (Levels c))
          && negb (containsFold (Levels c) (Risk.ALevel (RAssessment request))) then false
  else if negb (is_nil (ResourceSensitivity c))
          && negb (containsFold (ResourceSensitivity c) (RResourceSensitivity request)) then false
  else forallb (λ required, str_mem (to_upper required) (Risk.Codes (RAssessment request)))
         (RequireFactors c).

Record Engine := mkEngine { policies : list Policy }.

(** The [less] of [NewEngine]. *)
Definition policy_less (a b : Policy) : bool :=
  if negb (Priority a =? Priority b) then Priority a <? Priority b
  else str_ltb (PolicyID a) (PolicyID b).
Definition NewEngine (policies : list Policy) : Engine :=
  mkEngine (sort_stable policy_less (filter (λ p, Enabled p = true) policies)).

Definition cite (p : Policy) : string := (PolicyID p +:+ "@v" +:+ sprint_int (Version p))%stdpp.

(** The body of the loop of [Evaluate] for a candidate that matches. *)
Definition apply_policy (result : Result) (candidate : Policy) : Result :=
  let matched := Matched result ++ [cite candidate] in
  let wins := severity (ADecision (PActions candidate)) >=? severity (RDecision result) in
  mkResult
    (if wins then ADecision (PActions candidate) else RDecision result)
    (if wins then Name candidate else Reason result)
    (if wins then PolicyID candidate else RPolicyID result)
    (if wins then Version candidate else PolicyVersion result)
    (CreateIncident result || ACreateIncident (PActions candidate))
    (AlertSOC result || AAlertSOC (PActions candidate))
    (if wins then AMessage (PActions candidate) else Message result)
    matched (EvaluatedAt result).

Definition degraded (e : Engine) (request : Request) (started : Z) : Result :=
  let closed := existsb (λ c, matches (PConditions c) request && str_eqb (PFailMode c) FailClosed)
                  (policies e) in
  let mode := if closed then FailClosed else FailSafe in
  let result decision reason := mkResult decision reason "" 0 false false "" [] started in
  if str_eqb mode FailClosed then
    result DecisionDeny "control plane unavailable; policy is fail-closed"
  else if str_eqb mode FailOpen then
    result DecisionAllow "control plane unavailable; policy is fail-open"
  else if isSensitive (RResourceSensitivity request) then
    result DecisionRestrict "control plane unavailable; sensitive access restricted"
  else result DecisionAllowMonitor "control plane unavailable; continuing on cached policy".

Definition Evaluate (e : Engine) (request : Request) (started : Z) : Result :=
  if Degraded request then degraded e request started else
  foldl (λ result candidate,
           if negb (matches (PConditions candidate) request) then result
           else apply_policy result candidate)
    (mkResult DecisionAllow "no policy matched; default allow" "" 0 false false "" [] started)
    (policies e).

(** ** defaults.go *)

Definition no_conditions : Conditions := mkConditions None None [] [] [].
Definition with_levels (ls : list string) : Conditions := mkConditions None None ls [] [].
Definition default_policy (id : string) (priority : Z) (name description : string)
    (c : Conditions) (a : Actions) (fm : FailMode) : Policy :=
  mkPolicy uuid_nil id 1 name description priority true c a fm None zero_time.

Definition DefaultPolicies : list Policy := [
  default_policy "baseline-low" 100 "Allow low-risk sessions"
    "Routine access from a trusted user on a trusted device."
    (with_levels ["LOW"]) (mkActions DecisionAllow false false "") FailOpen;
  default_policy "baseline-medium" 90 "Monitor medium-risk sessions"
    "Access continues, but the session is recorded for review."
    (with_levels ["MEDIUM"]) (mkActions DecisionAllowMonitor false false "") FailOpen;
  default_policy "baseline-elevated" 80 "Verify elevated-risk sessions"
    "Additional verification before sensitive operations."
    (with_levels ["ELEVATED"])
    (mkActions DecisionVerify false false "Additional verification is required to continue.")
    FailSafe;
  default_policy "baseline-high" 70 "Step up authentication at high risk"
    "The user must re-authenticate before continuing."
    (with_levels ["HIGH"])
    (mkActions DecisionStepUpMFA false true "Please confirm your identity to continue.") FailSafe;
  default_policy "baseline-critical" 10 "Isolate critical-risk sessions"
    "The session is isolated and an incident is opened for the SOC."
    (with_levels ["CRITICAL"])
    (mkActions DecisionIsolate true true
      "Access has been suspended. Your security team has been notified.") FailClosed;
  default_policy "critical-resource-guard" 20 "Restrict critical resources above elevated risk"
    "The same behaviour is treated differently when a CRITICAL resource is involved."
    (mkConditions (Some 51) None [] ["CRITICAL"] [])
    (mkActions DecisionRestrict true true
      "Access to this resource is restricted at your current risk level.") FailClosed;
  default_policy "new-device-sensitive" 30 "Step up on a new device reaching sensitive data"
    "A device this user has never worked from, reaching classified material."
    (mkConditions None None [] ["SENSITIVE"; "CRITICAL"] ["NEW_DEVICE"])
    (mkActions DecisionStepUpMFA false true
      "Confirm your identity to use this device for sensitive resources.") FailClosed;
  default_policy "unattested-session" 5 "Deny sessions without device attestation"
    "A session should not exist without cryptographic device proof."
    (mkConditions None None [] [] ["UNATTESTED_SESSION"])
    (mkActions DecisionDeny true true "This session could not be verified.") FailClosed ].

(** ** The most restrictive match wins *)

Definition matching (e : Engine) (r : Request) : list Policy :=
  filter (λ p, matches (PConditions p) r = true) (policies e).
Definition zmax (l : list Z) : Z := foldr Z.max 0 l.

Lemma zmax_cons x l : zmax (x :: l) = Z.max x (zmax l).
Proof. done. Qed.
Arguments zmax : simpl never.

Lemma severity_range d : 0 <= severity d <= 6.
Proof. unfold severity. repeat case_match; lia. Qed.
Lemma severity_inj d d' : d ∈ all_decisions → d' ∈ all_decisions → severity d = severity d' → d = d'.
Proof.
  unfold all_decisions. rewrite !elem_of_cons, !elem_of_nil.
  intros H H'. destruct_or! H; try done; destruct_or! H'; try done; subst; vm_compute; done.
Qed.

(** The loop, on the policies that match. *)
Lemma evaluate_fold e r t : Degraded r = false →
  Evaluate e r t = foldl apply_policy
    (mkResult DecisionAllow "no policy matched; default allow" "" 0 false false "" [] t)
    (matching e r).
Proof.
  intros Hd. unfold Evaluate, matching. rewrite Hd. generalize (mkResult DecisionAllow
    "no policy matched; default allow" "" 0 false false "" [] t).
  induction (policies e) as [|p ps IH]; intros res; [done|]. simpl.
  rewrite filter_cons. destruct (matches (PConditions p) r); simpl; apply IH.
Qed.

(** What the loop accumulates from a starting result. *)
Lemma fold_accumulates ps res :
  let out := foldl apply_policy res ps in
  severity (RDecision out) = Z.max (severity (RDecision res))
    (zmax ((λ p, severity (ADecision (PActions p))) <$> ps)) ∧
  CreateIncident out = CreateIncident res || existsb (λ p, ACreateIncident (PActions p)) ps ∧
  AlertSOC out = AlertSOC res || existsb (λ p, AAlertSOC (PActions p)) ps ∧
  Matched out = Matched res ++ (cite <$> ps) ∧
  EvaluatedAt out = EvaluatedAt res.
Proof.
  revert res. induction ps as [|p ps IH]; intros res; cbv zeta.
  { simpl. rewrite !orb_false_r, app_nil_r. pose proof (severity_range (RDecision res)).
    split_and!; try done. change (zmax []) with 0. lia. }
  destruct (IH (apply_policy res p)) as (H1 & H2 & H3 & H4 & H5). simpl foldl.
  rewrite H1, H2, H3, H4, H5, fmap_cons, zmax_cons. unfold apply_policy. simpl.
  rewrite <-!orb_assoc, <-app_assoc. split_and!; try done.
  pose proof (severity_range (ADecision (PActions p))).
  pose proof (severity_range (RDecision res)).
  destruct (_ >=? _) eqn:E; zlia.
Qed.

(** The decision comes with the policy that is cited for it. *)
Definition justified (t : Z) (ps : list Policy) (out : Result) : Prop :=
  out = mkResult DecisionAllow "no policy matched; default allow" "" 0 false false "" [] t ∨
  ∃ p, p ∈ ps ∧ RDecision out = ADecision (PActions p) ∧ RPolicyID out = PolicyID p ∧
    PolicyVersion out = Version p ∧ Reason out = Name p ∧ Message out = AMessage (PActions p).
Lemma fold_justified t ps0 ps res :
  (∀ p, p ∈ ps → p ∈ ps0) →
  (res = mkResult DecisionAllow "no policy matched; default allow" "" 0 false false "" [] t ∨
   ∃ p, p ∈ ps0 ∧ RDecision res = ADecision (PActions p) ∧ RPolicyID res = PolicyID p ∧
    PolicyVersion res = Version p ∧ Reason res = Name p ∧ Message res = AMessage (PActions p)) →
  justified t ps0 (foldl apply_policy res ps).
Proof.
  revert res. induction ps as [|p ps IH]; intros res Hin Hres; [done|]. simpl.
  apply IH; [intros q Hq; apply Hin; by right|]. right. unfold apply_policy. simpl.
  destruct (_ >=? _) eqn:E.
  - exists p. split; [apply Hin; left|done].
  - destruct Hres as [->|(q & Hq & Hr)].
    + simpl in E. pose proof (severity_range (ADecision (PActions p))).
      change (severity DecisionAllow) with 0 in E. zlia.
    + by exists q.
Qed.

Lemma zmax_ge l x : x ∈ l → x <= zmax l.
Proof. induction 1; rewrite zmax_cons; lia. Qed.

(** C23: the most restrictive matching policy wins.  Outside degraded mode the
    decision is at least as severe as the decision of every matching enabled
    policy and is the decision of a matching policy (ALLOW only when none
    matches or only ALLOW policies do), the policy cited is that policy, an
    incident (an alert) is requested iff some matching policy requests one, and
    all matching policies are listed in order. *)
Theorem most_restrictive_wins (e : Engine) (r : Request) (t : Z) :
  Degraded r = false →
  let out := Evaluate e r t in
  (∀ p, p ∈ matching e r → severity (ADecision (PActions p)) <= severity (RDecision out)) ∧
  (matching e r = [] → RDecision out = DecisionAllow ∧ RPolicyID out = "") ∧
  (matching e r ≠ [] → ∃ p, p ∈ matching e r ∧ RDecision out = ADecision (PActions p)
     ∧ RPolicyID out = PolicyID p ∧ PolicyVersion out = Version p) ∧
  (CreateIncident out = true ↔ ∃ p, p ∈ matching e r ∧ ACreateIncident (PActions p) = true) ∧
  (AlertSOC out = true ↔ ∃ p, p ∈ matching e r ∧ AAlertSOC (PActions p) = true) ∧
  Matched out = cite <$> matching e r.
Proof.
  intros Hd. rewrite evaluate_fold by done. cbv zeta.
  set (res := mkResult DecisionAllow _ _ _ _ _ _ _ t).
  destruct (fold_accumulates (matching e r) res) as (Hs & Hi & Ha & Hm & _).
  pose proof (fold_justified t (matching e r) (matching e r) res (λ _ H, H)
    (or_introl eq_refl)) as Hj.
  split_and!.
  - intros p Hp. rewrite Hs. etrans; [|apply Z.le_max_r].
    apply zmax_ge, list_elem_of_fmap. by exists p.
  - by intros ->.
  - intros Hne. destruct Hj as [Hj|(p & Hp & ? & ? & ? & _)]; [|by exists p].
    rewrite Hj in Hm. by destruct (matching e r).
  - rewrite Hi. apply existsb_elem.
  - rewrite Ha. apply existsb_elem.
  - done.
Qed.

(** ** Order independence *)

Lemma policy_less_asym a b : policy_less a b = true → policy_less b a = false.
Proof.
  unfold policy_less. rewrite (Z.eqb_sym (Priority b)).
  destruct (_ =? _) eqn:E; simpl; [apply str_ltb_asym|]. intros. apply Z.ltb_ge. zlia.
Qed.
Lemma policy_less_trans : Transitive (notless policy_less).
Proof.
  intros a b c. unfold notless, policy_less.
  rewrite (Z.eqb_sym (Priority b)), (Z.eqb_sym (Priority c)), (Z.eqb_sym (Priority c)).
  destruct (Priority a =? Priority b) eqn:E1, (Priority b =? Priority c) eqn:E2,
    (Priority a =? Priority c) eqn:E3; simpl; intros H1 H2; zbool; try lia;
    try (apply Z.ltb_ge; lia).
  by eapply str_leb_trans.
Qed.

(** The order of the rows does not matter.  If no two enabled policies share
    a policy id, engines built from any two orders of the same policies are the
    same engine, so every decision, its citation and the list of matches are
    the same. *)
Theorem engine_order_independent (ps ps' : list Policy) :
  NoDup (PolicyID <$> filter (λ p, Enabled p = true) ps) → ps ≡ₚ ps' →
  NewEngine ps = NewEngine ps'.
Proof.
  intros Hnd Hp. unfold NewEngine. f_equal.
  apply sort_stable_unique; [apply policy_less_asym|apply policy_less_trans| |by rewrite Hp].
  set (l := filter _ ps) in *. clearbody l. intros x y Hx Hy H1 H2.
  assert (PolicyID x = PolicyID y) as Heq.
  { unfold policy_less in *. rewrite (Z.eqb_sym (Priority y)) in H2.
    destruct (_ =? _) eqn:E; simpl in *; [by apply str_ltb_total|]. zlia. }
  clear H1 H2. induction l as [|z l IH]; [by apply elem_of_nil in Hx|].
  rewrite fmap_cons, NoDup_cons in Hnd. destruct Hnd as [Hn Hnd].
  apply elem_of_cons in Hx as [->|Hx], Hy as [->|Hy]; [done| | |by apply IH];
    exfalso; apply Hn, list_elem_of_fmap; eauto.
Qed.
Lemma engine_order_witness : NewEngine DefaultPolicies = NewEngine (reverse DefaultPolicies).
Proof.
  apply (engine_order_independent DefaultPolicies (reverse DefaultPolicies)).
  - apply (bool_decide_unpack _). vm_compute. exact I.
  - symmetry. apply reverse_Permutation.
Defined.

(** ** Degraded mode *)

(** An outage never unlocks anything.  In degraded mode the decision is DENY
    when a matching policy is fail-closed; otherwise access to a SENSITIVE or
    CRITICAL resource (any letter case) is restricted and other access continues
    under monitoring.  It never is a plain ALLOW, so a fail-open policy gets the
    fail-safe treatment. *)
Theorem degraded_never_unlocks (e : Engine) (r : Request) (t : Z) :
  Degraded r = true →
  let out := Evaluate e r t in
  ((∃ p, p ∈ policies e ∧ matches (PConditions p) r = true ∧ PFailMode p = FailClosed) →
     RDecision out = DecisionDeny) ∧
  ((∀ p, p ∈ policies e → matches (PConditions p) r = true → PFailMode p ≠ FailClosed) →
     RDecision out = if isSensitive (RResourceSensitivity r) then DecisionRestrict
                     else DecisionAllowMonitor) ∧
  (isSensitive (RResourceSensitivity r) = true → 4 <= severity (RDecision out)) ∧
  RDecision out ≠ DecisionAllow.
Proof.
  intros Hd. unfold Evaluate. rewrite Hd. cbv zeta. unfold degraded.
  destruct (existsb _ _) eqn:E; cbv zeta.
  - change (str_eqb FailClosed FailClosed) with true. simpl. split_and!; try done.
    intros H. exfalso. apply existsb_elem in E as (p & Hp & [Hm Hf%str_eqb_eq]%andb_true_iff).
    by apply (H p).
  - change (str_eqb FailSafe FailClosed) with false. change (str_eqb FailSafe FailOpen) with false.
    simpl. split_and!.
    + intros (p & Hp & Hm & Hf). enough (false = true) by done. rewrite <-E.
      apply existsb_elem. exists p. rewrite Hm, Hf. done.
    + by destruct (isSensitive _).
    + by intros ->.
    + by destruct (isSensitive _).
Qed.
Definition outage (sensitivity : string) : Request :=
  mkRequest (Risk.mkAssessment 1 90 LevelCritical ActionIsolate [] ∅ 0 ModelVersion "")
    sensitivity None true.
Lemma degraded_witness :
  RDecision (Evaluate (NewEngine DefaultPolicies) (outage "INTERNAL") 0) = DecisionDeny.
Proof.
  apply (degraded_never_unlocks (NewEngine DefaultPolicies) (outage "INTERNAL") 0); [reflexivity|].
  exists (default_policy "baseline-critical" 10 "Isolate critical-risk sessions"
    "The session is isolated and an incident is opened for the SOC."
    (with_levels ["CRITICAL"])
    (mkActions DecisionIsolate true true
      "Access has been suspended. Your security team has been notified.") FailClosed).
  split; [|split; reflexivity].
  apply sort_stable_in, list_elem_of_filter. split; [done|].
  do 4 (right). left.
Defined.

(** ** Validation *)

Lemma equal_fold_sym s t : equal_fold s t = equal_fold t s.
Proof. unfold equal_fold, str_eqb. apply bool_decide_ext. done. Qed.

(** A policy that validates can take effect: its decision is a known one and
    some request with a score in 0..100 matches its conditions, so it is not
    silently dead. *)
Theorem validated_policy_satisfiable (p : Policy) :
  Validate p = inl () →
  ADecision (PActions p) ∈ all_decisions ∧
  ∃ r, 0 <= Risk.Score (RAssessment r) <= 100 ∧ matches (PConditions p) r = true.
Proof.
  unfold Validate, reject. repeat (case_match; [done|]). intros _.
  split; [apply str_mem_elem, negb_false_iff; assumption|].
  set (c := PConditions p) in *.
  set (score := default (default 0 (MaxRisk c)) (MinRisk c)).
  set (fs := (λ q, mkFactor (to_upper q) "" "" 1 "") <$> RequireFactors c).
  exists (mkRequest (Risk.mkAssessment 0 score (hd "" (Levels c)) "" fs ∅ 0 "" "")
            (hd "" (ResourceSensitivity c)) None false). simpl.
  unfold matches, bad_risk, score in *. simpl.
  assert (∀ l, negb (is_nil l) && negb (containsFold l (hd "" l)) = false) as Hfold.
  { intros [|x l]; [done|]. simpl. by rewrite equal_fold_refl. }
  rewrite !Hfold.
  assert (forallb (λ q, str_mem (to_upper q) (Risk.Codes
    (Risk.mkAssessment 0 score (hd "" (Levels c)) "" fs ∅ 0 "" ""))) (RequireFactors c) = true) as Hreq.
  { apply forallb_elem. intros q Hq. apply str_mem_elem. unfold Risk.Codes. simpl. unfold fs.
    rewrite <-list_fmap_compose. apply list_elem_of_fmap. by exists q. }
  destruct (MinRisk c) as [a|], (MaxRisk c) as [b|]; simpl in *; zbool;
    repeat case_match; zbool; try lia; split; try lia; exact Hreq.
Qed.
Lemma validated_policy_witness : DecisionDeny ∈ all_decisions.
Proof.
  apply (validated_policy_satisfiable
    (default_policy "unattested-session" 5 "Deny sessions without device attestation" ""
      (mkConditions None None [] [] ["UNATTESTED_SESSION"])
      (mkActions DecisionDeny true true "This session could not be verified.") FailClosed)).
  vm_compute. reflexivity.
Defined.

(** ** The shipped policies *)

Definition all_levels : list string := [LevelLow; LevelMedium; LevelElevated; LevelHigh; LevelCritical].
Definition all_sensitivities : list string :=
  [""; SensitivityPublic; SensitivityInternal; SensitivitySensitive; SensitivityCritical].

(** What the shipped policies decide, as a table. *)
Definition default_decision (level sensitivity : string) (score : Z) (codes : list string) : Decision :=
  if str_mem "UNATTESTED_SESSION" codes then DecisionDeny
  else if str_eqb level LevelCritical then DecisionIsolate
  else if (51 <=? score) && str_eqb sensitivity SensitivityCritical then DecisionRestrict
  else if str_eqb level LevelHigh
       || (str_mem "NEW_DEVICE" codes
           && (str_eqb sensitivity SensitivitySensitive || str_eqb sensitivity SensitivityCritical))
  then DecisionStepUpMFA
  else if str_eqb level LevelElevated then DecisionVerify
  else if str_eqb level LevelMedium then DecisionAllowMonitor
  else DecisionAllow.

Definition default_engine : Engine := NewEngine DefaultPolicies.
Definition default_order : list Policy := Eval vm_compute in policies default_engine.

(** Which shipped policies match, in engine order. *)
Lemma default_matches r :
  let a := RAssessment r in
  let lv l := containsFold [l] (Risk.ALevel a) in
  let sens l := containsFold l (RResourceSensitivity r) in
  (λ p, matches (PConditions p) r) <$> policies default_engine =
  [str_mem "UNATTESTED_SESSION" (Risk.Codes a); lv "CRITICAL";
   negb (Risk.Score a <? 51) && sens ["CRITICAL"];
   str_mem "NEW_DEVICE" (Risk.Codes a) && sens ["SENSITIVE"; "CRITICAL"];
   lv "HIGH"; lv "ELEVATED"; lv "MEDIUM"; lv "LOW"].
Proof.
  change (policies default_engine) with default_order. unfold default_order.
  cbn [fmap list_fmap PConditions]. unfold matches.
  cbn [MinRisk MaxRisk Levels ResourceSensitivity RequireFactors is_nil negb andb forallb].
  change (to_upper "NEW_DEVICE") with "NEW_DEVICE".
  change (to_upper "UNATTESTED_SESSION") with "UNATTESTED_SESSION".
  rewrite !andb_true_r.
  repeat (apply (f_equal2 cons); [by repeat match goal with
    |- context [containsFold ?l ?x] => destruct (containsFold l x)
    | |- context [?x <? ?y] => destruct (x <? y)
    | |- context [str_mem ?x ?y] => destruct (str_mem x y) end|]).
  done.
Qed.

(** The loop of [Evaluate] depends on a request only through which policies
    match. *)
Fixpoint eval_masked (ps : list Policy) (mask : list bool) (res : Result) : Result :=
  match ps, mask with
  | p :: ps, b :: mask => eval_masked ps mask (if b then apply_policy res p else res)
  | _, _ => res
  end.
Lemma evaluate_masked e r t : Degraded r = false →
  Evaluate e r t = eval_masked (policies e) ((λ p, matches (PConditions p) r) <$> policies e)
    (mkResult DecisionAllow "no policy matched; default allow" "" 0 false false "" [] t).
Proof.
  intros Hd. unfold Evaluate. rewrite Hd. generalize (mkResult DecisionAllow
    "no policy matched; default allow" "" 0 false false "" [] t).
  induction (policies e) as [|p ps IH]; intros res; [done|]. simpl.
  rewrite IH. by destruct (matches _ _).
Qed.

(** What an evaluation reads of a policy: everything but its row identifier,
    author and creation time. *)
Definition core (p : Policy) := (PolicyID p, Version p, Name p, PConditions p, PActions p).
Lemma evaluate_core e e' r t :
  Degraded r = false → core <$> policies e = core <$> policies e' → Evaluate e r t = Evaluate e' r t.
Proof.
  intros Hd. rewrite !evaluate_masked by done.
  generalize (mkResult DecisionAllow "no policy matched; default allow" "" 0 false false "" [] t).
  generalize (policies e'). induction (policies e) as [|p ps IH]; intros [|q qs] res; try done.
  rewrite !fmap_cons. intros [= H1 H2 H3 H4 H5 H]. cbn [eval_masked]. rewrite H4.
  assert (apply_policy res p = apply_policy res q) as ->.
  { unfold apply_policy, cite. by rewrite H1, H2, H3, H5. }
  by apply IH.
Qed.

Lemma default_table (r : Request) (t : Z) :
  Degraded r = false → Risk.ALevel (RAssessment r) ∈ all_levels →
  RResourceSensitivity r ∈ all_sensitivities →
  let out := Evaluate (NewEngine DefaultPolicies) r t in
  let d := default_decision (Risk.ALevel (RAssessment r)) (RResourceSensitivity r)
             (Risk.Score (RAssessment r)) (Risk.Codes (RAssessment r)) in
  RDecision out = d ∧ (CreateIncident out = true ↔ 4 <= severity d) ∧
  (AlertSOC out = true ↔ 3 <= severity d).
Proof.
  intros Hd Hl Hs. cbv zeta. fold default_engine. rewrite evaluate_masked by done.
  rewrite default_matches. cbv zeta. change (policies default_engine) with default_order.
  unfold default_decision. rewrite (Z.leb_antisym _ 51).
  generalize (str_mem "UNATTESTED_SESSION" (Risk.Codes (RAssessment r))) as u.
  generalize (str_mem "NEW_DEVICE" (Risk.Codes (RAssessment r))) as n.
  generalize (negb (Risk.Score (RAssessment r) <? 51)) as s.
  unfold all_levels in Hl. unfold all_sensitivities in Hs.
  rewrite !elem_of_cons, elem_of_nil in Hl, Hs.
  destruct_or! Hl; try done; destruct_or! Hs; try done; rewrite Hl, Hs;
    intros [] [] []; vm_compute; (split; [done|split; split; done]).
Qed.

(** The shipped policies implement the response table: no attestation is
    DENY; CRITICAL risk is ISOLATE; a CRITICAL resource at 51 or above is
    RESTRICT; HIGH risk, or a new device on a SENSITIVE or CRITICAL resource, is
    STEP_UP_MFA; ELEVATED is VERIFY, MEDIUM is ALLOW_MONITOR and LOW is ALLOW.
    An incident is requested exactly for the first three, an alert exactly for
    the first four rows of the table or when one of their policies matches. *)
Theorem default_policies_table (r : Request) (t : Z) :
  Degraded r = false → Risk.ALevel (RAssessment r) ∈ all_levels →
  RResourceSensitivity r ∈ all_sensitivities →
  let out := Evaluate (NewEngine DefaultPolicies) r t in
  let d := default_decision (Risk.ALevel (RAssessment r)) (RResourceSensitivity r)
             (Risk.Score (RAssessment r)) (Risk.Codes (RAssessment r)) in
  RDecision out = d ∧ (CreateIncident out = true ↔ 4 <= severity d) ∧
  (AlertSOC out = true ↔ 3 <= severity d).
Proof. apply default_table. Qed.
Definition critical_request : Request :=
  mkRequest (Risk.mkAssessment 1 90 LevelCritical ActionIsolate [] ∅ 0 ModelVersion "")
    SensitivityInternal None false.
Lemma default_policies_witness :
  RDecision (Evaluate (NewEngine DefaultPolicies) critical_request 0) = DecisionIsolate.
Proof.
  apply (default_policies_table critical_request 0); [reflexivity| |];
    apply str_mem_elem; reflexivity.
Defined.
