(* ===== verification/Columns.v ===== *)
(** * The JSON columns

    The Go types that the stores keep in JSONB columns, as [encoding/json] sees them:
    their fields and tags, and that each is [Stored].  policy/store.go keeps the
    conditions and actions of a policy, posture/store.go the signals and factors of a
    report, telemetry/store.go the metadata of an event, risk/store.go the dimensions of
    a score, behaviour/store.go the lists of a profile, audit/store.go the detail of an
    entry. *)

From S2P Require Import Prelude GoStd Encode Json Decode Posture Policy.
Open Scope Z_scope.
Open Scope go_scope.

(** Fields of a struct one by one, from the record in pieces. *)
Ltac names := split; [repeat constructor; rewrite ?elem_of_cons, ?elem_of_nil; naive_solver|repeat constructor].
(** Fields whose setters touch different components commute. *)
Ltac pick H := rewrite ?elem_of_cons, ?elem_of_nil in H; destruct_or! H; subst; try done.
Ltac commute fields := intros f g strict a v w Hf Hg Hne; unfold fields in Hf, Hg; pick Hf; pick Hg;
  apply fld_commute; done.

(** ** Policies *)

Definition condition_fields : list (field Conditions) := [
  fld "min_risk" MinRisk (λ x c, mkConditions x (MaxRisk c) (Levels c) (ResourceSensitivity c) (RequireFactors c));
  fld "max_risk" MaxRisk (λ x c, mkConditions (MinRisk c) x (Levels c) (ResourceSensitivity c) (RequireFactors c));
  fld "levels" Levels (λ x c, mkConditions (MinRisk c) (MaxRisk c) x (ResourceSensitivity c) (RequireFactors c));
  fld "resource_sensitivity" ResourceSensitivity
    (λ x c, mkConditions (MinRisk c) (MaxRisk c) (Levels c) x (RequireFactors c));
  fld "require_factors" RequireFactors
    (λ x c, mkConditions (MinRisk c) (MaxRisk c) (Levels c) (ResourceSensitivity c) x)].
#[export] Instance Conditions_json : FromJSON Conditions := {
  go_zero := mkConditions None None [] [] [];
  decode_into := decode_struct condition_fields }.
Definition condition_slots (c : Conditions) : list (string * option json) := [
  ("min_risk", to_json <$> MinRisk c); ("max_risk", to_json <$> MaxRisk c);
  ("levels", nonempty is_nil (Levels c));
  ("resource_sensitivity", nonempty is_nil (ResourceSensitivity c));
  ("require_factors", nonempty is_nil (RequireFactors c))].
Definition opt_fits {A} `{Stored A} (x : option A) : Prop := match x with Some y => fits y | None => True end.
Definition conditions_fit (c : Conditions) : Prop :=
  opt_fits (MinRisk c) ∧ opt_fits (MaxRisk c) ∧ fits (Levels c) ∧ fits (ResourceSensitivity c) ∧ fits (RequireFactors c).

Lemma condition_names : plain_names condition_fields.
Proof. names. Qed.
Lemma condition_independent : independent condition_fields.
Proof. commute condition_fields. Qed.

Lemma opt_fits_Some {A} `{Stored A} (x : option A) y : opt_fits x → x = Some y → fits y.
Proof. by intros Hx ->. Qed.
Lemma shallow {A} `{Stored A} (a : A) n : json_levels <= n → jdepth (to_json a) <= n.
Proof. pose proof (stored_depth a). lia. Qed.
Lemma opt_each {A} `{Stored A} (P : json → Prop) (x : option A) :
  (∀ y, x = Some y → P (to_json y)) → match (to_json <$> x) with Some j => P j | None => True end.
Proof. destruct x as [y|]; simpl; auto. Qed.
Lemma is_nil_zero {A} (l : list A) : is_nil l = true → l = [].
Proof. by destruct l. Qed.

(** Reading the members in order: a pointer, or a value that is omitted when [empty]. *)
Ltac tidy_goal := match goal with |- foldl _ (Some ?b) _ = _ => let b' := eval simpl in b in change b with b' end.
Ltac pointer_next x H Hk := eapply (pointer_read _ _ _ _ _ x) in Hk as (? & Hk & ->);
  [|reflexivity|reflexivity|intros ?; exact (opt_fits_Some _ _ H)|by intros ->]; tidy_goal.
Ltac value_next x H Hk empty := eapply (value_read _ _ _ _ _ _ x) in Hk as (? & Hk & ->);
  [|reflexivity|reflexivity|exact H|empty]; tidy_goal.
Ltac open_slots Hk slots := unfold members_of, slots in Hk; rewrite !bind_cons in Hk; cbn [fst snd] in Hk.
Ltac read_end Hk := apply Forall2_nil_inv_l in Hk; subst.
(** What holds of every member, from what holds of every component. *)
Ltac members_have lem := repeat first
  [apply Forall_nil_2
  |apply Forall_cons_2; [first [apply opt_each; intros ? ?; apply lem|apply each_value; apply lem]|]];
  try match goal with E : ?x = Some ?y, F : opt_fits ?x |- fits ?y => exact (opt_fits_Some x y F E) end; try assumption.

Lemma conditions_read strict c kvs :
  conditions_fit c → Forall2 like (members_of (condition_slots c)) kvs →
  foldl (decode_member condition_fields strict) (Some go_zero) kvs = Some c.
Proof.
  intros (H1 & H2 & H3 & H4 & H5) Hk. open_slots Hk condition_slots. pointer_next (MinRisk c) H1 Hk. pointer_next (MaxRisk c) H2 Hk.
  value_next (Levels c) H3 Hk ltac:(by intros ->%is_nil_zero). value_next (ResourceSensitivity c) H4 Hk ltac:(by intros ->%is_nil_zero).
  value_next (RequireFactors c) H5 Hk ltac:(by intros ->%is_nil_zero). read_end Hk. by destruct c.
Qed.
#[export] Instance Conditions_stored : Stored Conditions.
Proof.
  refine {| to_json c := struct_json (condition_slots c); fits := conditions_fit; json_levels := 2 |}; [..|done|done|].
  - intros strict c v Hc Hv. eapply (struct_reads condition_fields); [apply condition_independent|apply condition_names| |
      intros kvs; by apply conditions_read|exact Hv]. by apply slots_named.
  - intros c (H1 & H2 & H3 & H4 & H5). apply (slots_tidy condition_fields); [apply condition_names|done|].
    members_have @stored_tidy.
  - intros c (H1 & H2 & H3 & H4 & H5). apply (slots_text condition_fields); [apply condition_names|done|].
    members_have @stored_text.
  - intros c. apply (slots_depth _ 1); [done|]. members_have @shallow; done.
Defined.

(** A member without [omitempty]. *)
Definition always {A} (_ : A) : bool := false.
Definition is_empty_string (s : string) : bool := str_eqb s "".
Lemma empty_string s : is_empty_string s = true → s = "".
Proof. apply str_eqb_eq. Qed.
Lemma negb_zero b : negb b = true → b = false.
Proof. by destruct b. Qed.

Definition action_fields : list (field Actions) := [
  fld "decision" ADecision (λ x a, mkActions x (ACreateIncident a) (AAlertSOC a) (AMessage a));
  fld "create_incident" ACreateIncident (λ x a, mkActions (ADecision a) x (AAlertSOC a) (AMessage a));
  fld "alert_soc" AAlertSOC (λ x a, mkActions (ADecision a) (ACreateIncident a) x (AMessage a));
  fld "message" AMessage (λ x a, mkActions (ADecision a) (ACreateIncident a) (AAlertSOC a) x)].
#[export] Instance Actions_json : FromJSON Actions := {
  go_zero := mkActions "" false false "";
  decode_into := decode_struct action_fields }.
Definition action_slots (a : Actions) : list (string * option json) := [
  ("decision", nonempty always (ADecision a)); ("create_incident", nonempty negb (ACreateIncident a));
  ("alert_soc", nonempty negb (AAlertSOC a)); ("message", nonempty is_empty_string (AMessage a))].
Definition actions_fit (a : Actions) : Prop := fits (ADecision a) ∧ fits (AMessage a).

Lemma action_names : plain_names action_fields.
Proof. names. Qed.
Lemma action_independent : independent action_fields.
Proof. commute action_fields. Qed.
Lemma actions_read strict a kvs :
  actions_fit a → Forall2 like (members_of (action_slots a)) kvs →
  foldl (decode_member action_fields strict) (Some go_zero) kvs = Some a.
Proof.
  intros (H1 & H2) Hk. open_slots Hk action_slots. value_next (ADecision a) H1 Hk done. value_next (ACreateIncident a) I Hk ltac:(by intros ->%negb_zero).
  value_next (AAlertSOC a) I Hk ltac:(by intros ->%negb_zero). value_next (AMessage a) H2 Hk ltac:(by intros ->%empty_string). read_end Hk. by destruct a.
Qed.
#[export] Instance Actions_stored : Stored Actions.
Proof.
  refine {| to_json a := struct_json (action_slots a); fits := actions_fit; json_levels := 1 |}; [..|done|done|].
  - intros strict a v Ha Hv. eapply (struct_reads action_fields); [apply action_independent|apply action_names| |
      intros kvs; by apply actions_read|exact Hv]. by apply slots_named.
  - intros a (H1 & H2). apply (slots_tidy action_fields); [apply action_names|done|]. members_have @stored_tidy; exact I.
  - intros a (H1 & H2). apply (slots_text action_fields); [apply action_names|done|]. members_have @stored_text; exact I.
  - intros a. apply (slots_depth _ 0); [done|]. members_have @shallow; done.
Defined.

(** ** Posture reports *)

Definition signal_fields : list (field Signals) := [
  fld "disk_encryption" DiskEncryption (λ x s, mkSignals x (SecureBoot s) (Firewall s) (ScreenLock s) (AntiMalware s)
    (OSName s) (OSVersion s) (CollectionErrors s));
  fld "secure_boot" SecureBoot (λ x s, mkSignals (DiskEncryption s) x (Firewall s) (ScreenLock s) (AntiMalware s)
    (OSName s) (OSVersion s) (CollectionErrors s));
  fld "firewall" Firewall (λ x s, mkSignals (DiskEncryption s) (SecureBoot s) x (ScreenLock s) (AntiMalware s)
    (OSName s) (OSVersion s) (CollectionErrors s));
  fld "screen_lock" ScreenLock (λ x s, mkSignals (DiskEncryption s) (SecureBoot s) (Firewall s) x (AntiMalware s)
    (OSName s) (OSVersion s) (CollectionErrors s));
  fld "anti_malware" AntiMalware (λ x s, mkSignals (DiskEncryption s) (SecureBoot s) (Firewall s) (ScreenLock s) x
    (OSName s) (OSVersion s) (CollectionErrors s));
  fld "os_name" OSName (λ x s, mkSignals (DiskEncryption s) (SecureBoot s) (Firewall s) (ScreenLock s) (AntiMalware s)
    x (OSVersion s) (CollectionErrors s));
  fld "os_version" OSVersion (λ x s, mkSignals (DiskEncryption s) (SecureBoot s) (Firewall s) (ScreenLock s)
    (AntiMalware s) (OSName s) x (CollectionErrors s));
  fld "collection_errors" CollectionErrors (λ x s, mkSignals (DiskEncryption s) (SecureBoot s) (Firewall s)
    (ScreenLock s) (AntiMalware s) (OSName s) (OSVersion s) x)].
#[export] Instance Signals_json : FromJSON Signals := {
  go_zero := mkSignals None None None None None "" "" ∅;
  decode_into := decode_struct signal_fields }.
Definition is_empty_map {A} (m : gmap string A) : bool := (size m =? 0)%nat.
Lemma empty_map {A} (m : gmap string A) : is_empty_map m = true → m = ∅.
Proof. intros H%Nat.eqb_eq. by apply map_size_empty_iff. Qed.
Definition signal_slots (s : Signals) : list (string * option json) := [
  ("disk_encryption", to_json <$> DiskEncryption s); ("secure_boot", to_json <$> SecureBoot s);
  ("firewall", to_json <$> Firewall s); ("screen_lock", to_json <$> ScreenLock s);
  ("anti_malware", to_json <$> AntiMalware s); ("os_name", nonempty is_empty_string (OSName s));
  ("os_version", nonempty is_empty_string (OSVersion s));
  ("collection_errors", nonempty is_empty_map (CollectionErrors s))].
Definition signals_fit (s : Signals) : Prop := fits (OSName s) ∧ fits (OSVersion s) ∧ fits (CollectionErrors s).

Lemma signal_names : plain_names signal_fields.
Proof. names. Qed.
Lemma signal_independent : independent signal_fields.
Proof. commute signal_fields. Qed.
Lemma flag_fits (x : option bool) : opt_fits x.
Proof. by destruct x. Qed.
Lemma signals_read strict s kvs :
  signals_fit s → Forall2 like (members_of (signal_slots s)) kvs →
  foldl (decode_member signal_fields strict) (Some go_zero) kvs = Some s.
Proof.
  intros (H1 & H2 & H3) Hk. open_slots Hk signal_slots. pointer_next (DiskEncryption s) (flag_fits (DiskEncryption s)) Hk.
  pointer_next (SecureBoot s) (flag_fits (SecureBoot s)) Hk. pointer_next (Firewall s) (flag_fits (Firewall s)) Hk.
  pointer_next (ScreenLock s) (flag_fits (ScreenLock s)) Hk. pointer_next (AntiMalware s) (flag_fits (AntiMalware s)) Hk.
  value_next (OSName s) H1 Hk ltac:(by intros ->%empty_string). value_next (OSVersion s) H2 Hk ltac:(by intros ->%empty_string).
  value_next (CollectionErrors s) H3 Hk ltac:(by intros ->%empty_map). read_end Hk. by destruct s.
Qed.
#[export] Instance Signals_stored : Stored Signals.
Proof.
  refine {| to_json s := struct_json (signal_slots s); fits := signals_fit; json_levels := 2 |}; [..|done|done|].
  - intros strict s v Hs Hv. eapply (struct_reads signal_fields); [apply signal_independent|apply signal_names| |
      intros kvs; by apply signals_read|exact Hv]. by apply slots_named.
  - intros s (H1 & H2 & H3). apply (slots_tidy signal_fields); [apply signal_names|done|]. members_have @stored_tidy; exact I.
  - intros s (H1 & H2 & H3). apply (slots_text signal_fields); [apply signal_names|done|]. members_have @stored_text; exact I.
  - intros s. apply (slots_depth _ 1); [done|]. members_have @shallow; done.
Defined.

Definition factor_fields : list (field Factor) := [
  fld "code" Code (λ x f, mkFactor x (Label f) (Contribution f) (Maximum f) (FSource f) (Detail f));
  fld "label" Label (λ x f, mkFactor (Code f) x (Contribution f) (Maximum f) (FSource f) (Detail f));
  fld "contribution" Contribution (λ x f, mkFactor (Code f) (Label f) x (Maximum f) (FSource f) (Detail f));
  fld "maximum" Maximum (λ x f, mkFactor (Code f) (Label f) (Contribution f) x (FSource f) (Detail f));
  fld "source" FSource (λ x f, mkFactor (Code f) (Label f) (Contribution f) (Maximum f) x (Detail f));
  fld "detail" Detail (λ x f, mkFactor (Code f) (Label f) (Contribution f) (Maximum f) (FSource f) x)].
#[export] Instance Factor_json : FromJSON Factor := {
  go_zero := mkFactor "" "" 0 0 "" "";
  decode_into := decode_struct factor_fields }.
Definition factor_slots (f : Factor) : list (string * option json) := [
  ("code", nonempty always (Code f)); ("label", nonempty always (Label f));
  ("contribution", nonempty always (Contribution f)); ("maximum", nonempty always (Maximum f));
  ("source", nonempty always (FSource f)); ("detail", nonempty is_empty_string (Detail f))].
Definition factor_fit (f : Factor) : Prop :=
  fits (Code f) ∧ fits (Label f) ∧ fits (Contribution f) ∧ fits (Maximum f) ∧ fits (FSource f) ∧ fits (Detail f).

Lemma factor_names : plain_names factor_fields.
Proof. names. Qed.
Lemma factor_independent : independent factor_fields.
Proof. commute factor_fields. Qed.
Lemma factor_read strict f kvs :
  factor_fit f → Forall2 like (members_of (factor_slots f)) kvs →
  foldl (decode_member factor_fields strict) (Some go_zero) kvs = Some f.
Proof.
  intros (H1 & H2 & H3 & H4 & H5 & H6) Hk. open_slots Hk factor_slots. value_next (Code f) H1 Hk done. value_next (Label f) H2 Hk done.
  value_next (Contribution f) H3 Hk done. value_next (Maximum f) H4 Hk done. value_next (FSource f) H5 Hk done.
  value_next (Detail f) H6 Hk ltac:(by intros ->%empty_string). read_end Hk. by destruct f.
Qed.
#[export] Instance Factor_stored : Stored Factor.
Proof.
  refine {| to_json f := struct_json (factor_slots f); fits := factor_fit; json_levels := 1 |}; [..|done|done|].
  - intros strict f v Hf Hv. eapply (struct_reads factor_fields); [apply factor_independent|apply factor_names| |
      intros kvs; by apply factor_read|exact Hv]. by apply slots_named.
  - intros f (H1 & H2 & H3 & H4 & H5 & H6). apply (slots_tidy factor_fields); [apply factor_names|done|].
    members_have @stored_tidy.
  - intros f (H1 & H2 & H3 & H4 & H5 & H6). apply (slots_text factor_fields); [apply factor_names|done|].
    members_have @stored_text.
  - intros f. apply (slots_depth _ 0); [done|]. members_have @shallow; done.
Defined.

(** ** Audit details

    The values of a detail, as the code writes them into a [map[string]any] and as
    [json.Unmarshal] makes them: a number becomes the nearest [float64] ([shown]).  Numbers with
    a fraction, [null] and objects are not among them. *)
Inductive any_value := AnyString (s : string) | AnyInt (z : Z) | AnyBool (b : bool) | AnyStrings (l : list string).
#[export] Instance any_json : FromJSON any_value := {
  go_zero := AnyString "";
  decode_into _ _ v := match v with
    | VStr _ s => Some (AnyString s)
    | VNum lit => AnyInt ∘ shown <$> parse_int64 lit
    | VBool b => Some (AnyBool b)
    | VArr l => AnyStrings <$> decode_elements false [] l
    | VNull | VObj _ => None
    end }.
Definition any_to_json (a : any_value) : json :=
  match a with
  | AnyString s => JString s | AnyInt z => JInt z | AnyBool b => JBool b
  | AnyStrings l => JArray (JString <$> l)
  end.
(** What comes back as it was: UTF-8 without NUL, integers of at most 53 bits. *)
Definition any_fits (a : any_value) : Prop :=
  match a with
  | AnyString s => storable s
  | AnyInt z => Z.abs z <= 2 ^ 53
  | AnyBool _ => True
  | AnyStrings l => Forall storable l
  end.
#[export] Instance any_stored : Stored any_value.
Proof.
  refine {| to_json := any_to_json; fits := any_fits; json_levels := 1 |}; [| | | |done|].
  - intros strict a v Ha Hv. destruct a as [s|z|b|l]; inversion Hv; subst; simpl.
    + by rewrite storable_scrub.
    + rewrite parse_int64_sprint by (unfold any_fits in Ha; unfold int64_range, minInt64, maxInt64; lia). simpl.
      by rewrite shown_exact.
    + done.
    + by rewrite (elements_read false l).
  - intros [s|z|b|l] Ha; simpl; constructor. exact (elements_tidy l Ha).
  - intros [s|z|b|l] Ha; try done. exact (elements_text l Ha).
  - by intros [].
  - intros [s|z|b|l]; try (vm_compute; discriminate). exact (stored_depth l).
Defined.

(** ** The columns *)

(** What a column holds after [a] is written to it. *)
Definition kept {J : Jsonb} {A : Type} `{Stored A} (a : A) : option string := jsonb (marshal (to_json a)).

(** A column read into a fresh variable; an empty one leaves it as it is ([decode] of
    behaviour/store.go, and the same test before every other [json.Unmarshal] but those
    of [scanPolicy]). *)
Definition decode_column {A} `{FromJSON A} (raw : string) : option A := if str_eqb raw "" then Some go_zero else unmarshal raw.
(** [scanPolicy]: the two columns of a policy. *)
Definition policy_columns (conditions actions : string) : option (Conditions * Actions) :=
  c ← unmarshal conditions; a ← unmarshal actions; Some (c, a).
Definition decodeRecord (rawSignals rawFactors : string) : option (Signals * list Factor) :=
  signals ← decode_column rawSignals; factors ← decode_column rawFactors; Some (signals, factors).
(** [scanEvent] and [scanAssessment]. *)
Definition event_metadata (rawMetadata : string) : option (gmap string string) := decode_column rawMetadata.
Definition score_dimensions (dimensions : string) : option (gmap string Z) := decode_column dimensions.
(** [List] of audit/store.go. *)
Definition audit_detail (detail : string) : option (gmap string any_value) := decode_column detail.
(** The 24 buckets of a profile, from however many the column holds. *)
Definition pad_hours (hourList : list Z) : list Z := take 24 hourList ++ replicate (24 - length hourList) 0.
(** [Load]: the four columns of a profile. *)
Definition profile_columns (hours devices apps networks : string) : option (list Z * list string * list string * list string) :=
  hourList ← decode_column hours;
  knownDevices ← decode_column devices;
  knownApplications ← decode_column apps;
  knownNetworks ← decode_column networks;
  Some (pad_hours hourList, knownDevices, knownApplications, knownNetworks).

Lemma decode_kept {J : Jsonb} {L : JsonbLaws J} {A : Type} {D : FromJSON A} {S : Stored A} (a : A) :
  fits a → json_levels <= maxNestingDepth → ∃ s, kept a = Some s ∧ unmarshal s = Some a ∧ decode_column s = Some a.
Proof.
  intros Ha Hl. destruct (column_roundtrip a Ha Hl) as (s & Hs & Hu). exists s. split_and!; [done..|]. unfold decode_column.
  destruct (str_eqb s "") eqn:E; [|done]. apply str_eqb_eq in E as ->. by vm_compute in Hu.
Qed.
Lemma full_day hours : length hours = 24%nat → pad_hours hours = hours.
Proof. intros Hl. unfold pad_hours. rewrite Hl. simpl. rewrite app_nil_r. apply take_ge. lia. Qed.

(** C22: what is written to the JSON columns is what is read back: the conditions and
    actions of a policy, the signals and factors of a posture report, the metadata of an
    event, the dimensions of a risk score, the hours and the names of a behaviour profile,
    the detail of an audit entry.  Values whose strings are UTF-8 without NUL and whose
    integers have at most 64 bits, in the detail of an audit entry at most 53, are accepted by
    the database, and the store that reads the columns, in whatever order the database lists
    the members of objects, gives those values. *)
Theorem columns_roundtrip {J : Jsonb} {L : JsonbLaws J} :
  (∀ (c : Conditions) (a : Actions), fits c → fits a →
     ∃ s s', kept c = Some s ∧ kept a = Some s' ∧ policy_columns s s' = Some (c, a)) ∧
  (∀ (signals : Signals) (factors : list Factor), fits signals → fits factors →
     ∃ s s', kept signals = Some s ∧ kept factors = Some s' ∧ decodeRecord s s' = Some (signals, factors)) ∧
  (∀ metadata : gmap string string, fits metadata →
     ∃ s, kept metadata = Some s ∧ event_metadata s = Some metadata) ∧
  (∀ dimensions : gmap string Z, fits dimensions →
     ∃ s, kept dimensions = Some s ∧ score_dimensions s = Some dimensions) ∧
  (∀ detail : gmap string any_value, fits detail →
     ∃ s, kept detail = Some s ∧ audit_detail s = Some detail) ∧
  (∀ (hours : list Z) (devices apps networks : list string),
     length hours = 24%nat → fits hours → fits devices → fits apps → fits networks →
     ∃ s1 s2 s3 s4, kept hours = Some s1 ∧ kept devices = Some s2 ∧ kept apps = Some s3 ∧ kept networks = Some s4 ∧
       profile_columns s1 s2 s3 s4 = Some (hours, devices, apps, networks)).
Proof.
  split_and!.
  - intros c a (s & Hs & Hu & _)%decode_kept (s' & Hs' & Hu' & _)%decode_kept; [|done..]. exists s, s'.
    unfold policy_columns. by rewrite Hu, Hu'.
  - intros signals factors (s & Hs & _ & Hd)%decode_kept (s' & Hs' & _ & Hd')%decode_kept; [|done..]. exists s, s'.
    unfold decodeRecord. by rewrite Hd, Hd'.
  - intros m (s & Hs & _ & Hd)%decode_kept; [|done]. by exists s.
  - intros m (s & Hs & _ & Hd)%decode_kept; [|done]. by exists s.
  - intros m (s & Hs & _ & Hd)%decode_kept; [|done]. by exists s.
  - intros hours devices apps networks Hl (s1 & H1 & _ & D1)%decode_kept (s2 & H2 & _ & D2)%decode_kept
      (s3 & H3 & _ & D3)%decode_kept (s4 & H4 & _ & D4)%decode_kept; [|done..]. exists s1, s2, s3, s4.
    unfold profile_columns. rewrite D1, D2, D3, D4. simpl. by rewrite full_day.
Qed.
