(* ===== verification/Behaviour.v ===== *)
(** * Package [behaviour]: per-user baselines

    [baseline.go]: the profile built from a user's recent sessions and the
    questions the evaluator asks of it.  A [map[string]bool] used as a set is a
    [gset]; the 24-element array is a list of length 24. *)

From S2P Require Import Prelude GoStd Float64.
Open Scope Z_scope.
Open Scope go_scope.

Definition MinimumObservations : Z := 5.
Definition DefaultWindowDays : Z := 30.

Record Profile := mkProfile {
  UserID : uuid; UpdatedAt : Z; WindowDays : Z; ObservationCount : Z;
  LoginHours : list Z; KnownDevices : list string; KnownApplications : list string;
  KnownNetworks : list string; AccessRateMean : f64; AccessRateStdDev : f64;
  Established : bool }.

Record Observation := mkObservation {
  StartedAt : Z; DeviceID : uuid; Applications : list string;
  ONetwork : string; EventCount : Z }.

(** Map iteration order is arbitrary; sorting the distinct keys removes it. *)
Definition sortedKeys (set : gset string) : list string := sort_stable str_ltb (elements set).

Definition f64_sum (l : list f64) : f64 := foldl f64_add (f64_of_int 0) l.
Definition meanAndStdDev (values : list f64) : f64 * f64 :=
  match values with
  | [] => (f64_of_int 0, f64_of_int 0)
  | _ =>
      let n := f64_of_int (Z.of_nat (length values)) in
      let mean := f64_div (f64_sum values) n in
      match values with
      | [_] => (mean, f64_of_int 0)
      | _ =>
          let squares := (λ v, let delta := f64_sub v mean in f64_mul delta delta) <$> values in
          (mean, f64_sqrt (f64_div (f64_sum squares) n))
      end
  end.

(** The state of the loop of [Build]. *)
Record Tally := mkTally {
  t_count : Z; t_hours : list Z; t_devices : gset string;
  t_applications : gset string; t_networks : gset string; t_counts : list f64 }.
Definition empty_tally : Tally := mkTally 0 (replicate 24 0) ∅ ∅ ∅ [].
Definition observe (t : Tally) (o : Observation) : Tally :=
  mkTally (t_count t +! 1)
    (alter (λ n, n +! 1) (Z.to_nat (time_hour (StartedAt o))) (t_hours t))
    ({[ uuid_string (DeviceID o) ]} ∪ t_devices t)
    (foldl (λ s a, if str_eqb a "" then s else {[ a ]} ∪ s) (t_applications t) (Applications o))
    (if str_eqb (ONetwork o) "" then t_networks t else {[ ONetwork o ]} ∪ t_networks t)
    (t_counts t ++ [f64_of_int (EventCount o)]).

Definition Build (userID : uuid) (windowDays : Z) (observations : list Observation) (now : Z) : Profile :=
  let windowDays := if windowDays <=? 0 then DefaultWindowDays else windowDays in
  let t := foldl observe empty_tally observations in
  let '(mean, stddev) := meanAndStdDev (t_counts t) in
  mkProfile userID now windowDays (t_count t) (t_hours t) (sortedKeys (t_devices t))
    (sortedKeys (t_applications t)) (sortedKeys (t_networks t)) mean stddev
    (t_count t >=? MinimumObservations).

Definition IsTypicalHour (p : Profile) (t : Z) : bool :=
  if negb (Established p) then true
  else
    let hour := time_hour t in
    existsb (λ offset,
      default 0 (LoginHours p !! Z.to_nat (Z.rem (Z.rem (hour + offset) 24 + 24) 24)) >? 0) [-1; 0; 1].

Definition IsKnownDevice (p : Profile) (deviceID : uuid) : bool :=
  str_mem (uuid_string deviceID) (KnownDevices p).
Definition IsKnownApplication (p : Profile) (application : string) : bool :=
  str_mem application (KnownApplications p).
Definition IsKnownNetwork (p : Profile) (network : string) : bool :=
  str_mem network (KnownNetworks p).

Definition AccessVolumeZScore (p : Profile) (eventCount : Z) : f64 :=
  if negb (Established p) || f64_leb (AccessRateStdDev p) (f64_of_int 0) then f64_of_int 0
  else
    let z := f64_div (f64_sub (f64_of_int eventCount) (AccessRateMean p)) (AccessRateStdDev p) in
    if f64_ltb z (f64_of_int 0) then f64_of_int 0 else z.

(** ** What a profile remembers *)

Lemma sortedKeys_elem x s : x ∈ sortedKeys s ↔ x ∈ s.
Proof. unfold sortedKeys. by rewrite sort_stable_in, elem_of_elements. Qed.

(** Strictly increasing: sorted and without duplicates. *)
Lemma sortedKeys_sorted s : Sorted (λ x y, str_ltb x y = true) (sortedKeys s).
Proof.
  pose proof (sort_stable_sorted str_ltb str_ltb_asym (elements s)) as Hs.
  assert (NoDup (sortedKeys s)) as Hn
    by (unfold sortedKeys; rewrite sort_stable_perm; apply NoDup_elements).
  fold (sortedKeys s) in Hs. induction Hs as [|x l Hs IH Hd]; [constructor|].
  apply NoDup_cons in Hn as [Hx Hn]. constructor; [by apply IH|].
  destruct Hd as [|y l Hxy]; constructor. unfold notless in Hxy.
  destruct (str_ltb x y) eqn:E; [done|]. exfalso. apply Hx.
  rewrite (str_ltb_total x y) by done. left.
Qed.

Lemma applications_fold (l : list string) (s : gset string) x :
  x ∈ foldl (λ s a, if str_eqb a "" then s else {[ a ]} ∪ s) s l ↔ x ∈ s ∨ (x ≠ "" ∧ x ∈ l).
Proof.
  revert s. induction l as [|a l IH]; intros s; simpl; [set_solver|].
  rewrite IH, elem_of_cons. destruct (str_eqb a "") eqn:E.
  - apply str_eqb_eq in E as ->. naive_solver.
  - assert (a ≠ "") by (by intros ->). set_solver.
Qed.

Lemma observe_sets obs t x :
  let t' := foldl observe t obs in
  (x ∈ t_devices t' ↔ x ∈ t_devices t ∨ ∃ o, o ∈ obs ∧ uuid_string (DeviceID o) = x) ∧
  (x ∈ t_networks t' ↔ x ∈ t_networks t ∨ (x ≠ "" ∧ ∃ o, o ∈ obs ∧ ONetwork o = x)) ∧
  (x ∈ t_applications t' ↔ x ∈ t_applications t ∨ (x ≠ "" ∧ ∃ o, o ∈ obs ∧ x ∈ Applications o)).
Proof.
  revert t. induction obs as [|o obs IH]; intros t; cbv zeta; simpl; [set_solver|].
  destruct (IH (observe t o)) as (H1 & H2 & H3). rewrite H1, H2, H3. simpl.
  setoid_rewrite elem_of_cons. rewrite applications_fold. split_and!.
  - set_solver.
  - destruct (str_eqb (ONetwork o) "") eqn:E; [apply str_eqb_eq in E; naive_solver|].
    assert (ONetwork o ≠ "") by (intros E'; by rewrite E' in E). set_solver.
  - naive_solver.
Qed.

(** Counters per hour, and the total. *)
Definition hour_count (h : nat) (obs : list Observation) : nat :=
  length (filter (λ o, Z.to_nat (time_hour (StartedAt o)) = h) obs).

Lemma time_hour_range t : 0 <= time_hour t < 24.
Proof. unfold time_hour. apply Z.mod_pos_bound. lia. Qed.

Lemma observe_counts obs :
  Z.of_nat (length obs) < 2 ^ 62 →
  t_count (foldl observe empty_tally obs) = Z.of_nat (length obs) ∧
  length (t_hours (foldl observe empty_tally obs)) = 24%nat ∧
  ∀ h, (h < 24)%nat →
    t_hours (foldl observe empty_tally obs) !! h = Some (Z.of_nat (hour_count h obs)).
Proof.
  induction obs as [|o obs IH] using rev_ind; intros Hlen.
  - split_and!; [done|done|]. intros h Hh. cbn [foldl empty_tally t_hours]. by apply lookup_replicate_2.
  - rewrite length_app in *. simpl in *. destruct IH as (Hc & Hl & Hh); [lia|].
    rewrite foldl_snoc. cbn [observe t_count t_hours]. rewrite Hc. split_and!.
    + unwrap. lia.
    + by rewrite length_alter.
    + intros h Hlt. unfold hour_count. rewrite filter_app, length_app. fold (hour_count h obs).
      assert (hour_count h obs <= length obs)%nat by apply length_filter.
      rewrite filter_cons. case_decide as E.
      * rewrite E. rewrite list_lookup_alter_eq, Hh by done. simpl.
        f_equal. unwrap. lia.
      * rewrite list_lookup_alter_ne, Hh by done. f_equal. simpl. lia.
Qed.

(** Membership questions are answered from the user's own sessions.  A
    profile built from [obs] knows a device (with a valid 128-bit id), a named
    application or a named network iff some session of [obs] used it; the lists
    it stores are strictly sorted, so they hold no duplicate. *)
Theorem profile_membership (u : uuid) (w now : Z) (obs : list Observation) :
  Forall (λ o, uuid_valid (DeviceID o)) obs →
  let p := Build u w obs now in
  (∀ d, uuid_valid d → (IsKnownDevice p d = true ↔ ∃ o, o ∈ obs ∧ DeviceID o = d)) ∧
  (∀ x, x ≠ "" → (IsKnownApplication p x = true ↔ ∃ o, o ∈ obs ∧ x ∈ Applications o)) ∧
  (∀ x, x ≠ "" → (IsKnownNetwork p x = true ↔ ∃ o, o ∈ obs ∧ ONetwork o = x)) ∧
  Sorted (λ x y, str_ltb x y = true) (KnownDevices p).
Proof.
  intros Hv. cbv zeta. unfold Build, IsKnownDevice, IsKnownApplication, IsKnownNetwork.
  destruct (meanAndStdDev _) as [mean sd]. simpl.
  split_and!; [| | |apply sortedKeys_sorted].
  - intros d Hd. rewrite str_mem_elem, sortedKeys_elem.
    destruct (observe_sets obs empty_tally (uuid_string d)) as (-> & _).
    rewrite Forall_forall in Hv. split.
    + intros [H|(o & Ho & E)]; [by apply elem_of_empty in H|]. exists o. split; [done|].
      by apply uuid_string_inj; [apply Hv| |].
    + intros (o & Ho & <-). right. by exists o.
  - intros x Hx. rewrite str_mem_elem, sortedKeys_elem.
    destruct (observe_sets obs empty_tally x) as (_ & _ & ->). set_solver.
  - intros x Hx. rewrite str_mem_elem, sortedKeys_elem.
    destruct (observe_sets obs empty_tally x) as (_ & -> & _). set_solver.
Qed.
Definition sample_observations : list Observation :=
  [mkObservation (9 * hour) 7 ["mail"] "10.0.0.1" 12; mkObservation (33 * hour) 7 [""] "" 9;
   mkObservation (58 * hour) 8 ["vpn"; "mail"] "10.0.0.2" 15; mkObservation (80 * hour) 7 [] "" 11;
   mkObservation (105 * hour) 7 ["mail"] "10.0.0.1" 13].
Lemma profile_membership_witness : IsKnownDevice (Build 1 0 sample_observations 0) 8 = true.
Proof.
  apply (profile_membership 1 0 0 sample_observations).
  - repeat constructor.
  - reflexivity.
  - eexists. split; [right; right; left|reflexivity].
Defined.

(** An hour is typical iff it is near one the user has worked.  With at least
    five sessions the hour of [t] is typical iff some session started in the
    same hour of the day or in a neighbouring one, across midnight too; with
    fewer sessions every hour is typical. *)
Theorem typical_hour_spec (u : uuid) (w now t : Z) (obs : list Observation) :
  Z.of_nat (length obs) < 2 ^ 62 →
  (IsTypicalHour (Build u w obs now) t = true ↔
   Z.of_nat (length obs) < 5 ∨
   ∃ o, o ∈ obs ∧ (time_hour (StartedAt o) - time_hour t + 1) mod 24 <= 2).
Proof.
  intros Hlen. destruct (observe_counts obs Hlen) as (Hc & _ & Hh).
  unfold IsTypicalHour, Build. destruct (meanAndStdDev _) as [mean sd].
  cbn [Established LoginHours]. rewrite Hc. unfold MinimumObservations.
  destruct (Z.of_nat (length obs) >=? 5) eqn:E; cbn [negb]; zbool; [|by split; [left|]].
  rewrite existsb_elem. pose proof (time_hour_range t) as Ht.
  assert (∀ off, off ∈ [-1; 0; 1] → ∃ h, (h < 24)%nat ∧
    Z.to_nat (Z.rem (Z.rem (time_hour t + off) 24 + 24) 24) = h ∧
    Z.of_nat h = (time_hour t + off) mod 24) as Hidx.
  { intros off Hoff. eexists. split; [|split; [done|]].
    all: rewrite !elem_of_cons, elem_of_nil in Hoff; Z.to_euclidean_division_equations; lia. }
  split.
  - intros (off & Hoff & Hpos). right. destruct (Hidx off Hoff) as (h & Hlt & Eh & Emod).
    rewrite Eh, Hh in Hpos by done. simpl in Hpos. unfold hour_count in Hpos.
    destruct (filter _ obs) as [|o l] eqn:Ef; [done|].
    assert (o ∈ filter (λ o, Z.to_nat (time_hour (StartedAt o)) = h) obs) as Hin
      by (rewrite Ef; left).
    apply list_elem_of_filter in Hin as [Eo Ho]. exists o. split; [done|].
    pose proof (time_hour_range (StartedAt o)). rewrite !elem_of_cons, elem_of_nil in Hoff.
    Z.to_euclidean_division_equations; lia.
  - intros [|(o & Ho & Hd)]; [lia|]. pose proof (time_hour_range (StartedAt o)).
    assert (∃ off, off ∈ [-1; 0; 1] ∧ (time_hour t + off) mod 24 = time_hour (StartedAt o))
      as (off & Hoff & Emod).
    { setoid_rewrite elem_of_cons. setoid_rewrite elem_of_cons. setoid_rewrite elem_of_cons.
      assert ((time_hour (StartedAt o) - time_hour t + 1) mod 24 = 0
        ∨ (time_hour (StartedAt o) - time_hour t + 1) mod 24 = 1
        ∨ (time_hour (StartedAt o) - time_hour t + 1) mod 24 = 2) as [Hm|[Hm|Hm]]
        by (Z.to_euclidean_division_equations; lia).
      - exists (-1). split; [auto|]. Z.to_euclidean_division_equations; lia.
      - exists 0. split; [auto|]. Z.to_euclidean_division_equations; lia.
      - exists 1. split; [auto|]. Z.to_euclidean_division_equations; lia. }
    exists off. split; [done|]. destruct (Hidx off Hoff) as (h & Hlt & Eh & Em).
    rewrite Eh, Hh by done. simpl. apply Z.gtb_lt.
    assert (o ∈ filter (λ o, Z.to_nat (time_hour (StartedAt o)) = h) obs) as Hin.
    { apply list_elem_of_filter. split; [lia|done]. }
    unfold hour_count. destruct (filter _ obs); [by apply elem_of_nil in Hin|simpl; lia].
Qed.
Lemma typical_hour_witness :
  IsTypicalHour (Build 1 0 sample_observations 0) (200 * hour) = true ∧
  IsTypicalHour (Build 1 0 sample_observations 0) (210 * hour) = false.
Proof.
  split; [|vm_compute; reflexivity].
  apply (typical_hour_spec 1 0 0 (200 * hour) sample_observations); [simpl; lia|].
  right. eexists. split; [left|]. vm_compute. discriminate.
Defined.

(** The access-volume z-score never alarms by itself: it is never negative,
    and it is 0 for a user without an established baseline or with a zero (or
    negative) deviation. *)
Theorem zscore_nonnegative (p : Profile) (n : Z) :
  fnn (AccessVolumeZScore p n) ∧
  (Established p = false ∨ f64_leb (AccessRateStdDev p) (f64_of_int 0) = true →
   AccessVolumeZScore p n = f64_of_int 0).
Proof.
  unfold AccessVolumeZScore. split.
  - destruct (_ || _); [done|]. cbv zeta. destruct (f64_ltb _ _) eqn:E; [done|].
    by apply fnn_not_ltb.
  - intros [-> | ->]; [done|]. by rewrite orb_true_r.
Qed.

(** The order in which the sessions are read does not matter: the known
    devices, applications and networks, the login hours, the count and whether
    the baseline is established depend only on which sessions there are. *)
Theorem build_order_independent (u : uuid) (w now : Z) (obs obs' : list Observation) :
  Z.of_nat (length obs) < 2 ^ 62 → obs ≡ₚ obs' →
  let p := Build u w obs now in let q := Build u w obs' now in
  KnownDevices p = KnownDevices q ∧ KnownApplications p = KnownApplications q ∧
  KnownNetworks p = KnownNetworks q ∧ LoginHours p = LoginHours q ∧
  ObservationCount p = ObservationCount q ∧ Established p = Established q.
Proof.
  intros Hlen Hp. cbv zeta.
  assert (length obs = length obs') as Hl by (by rewrite Hp).
  destruct (observe_counts obs Hlen) as (Hc & Hn & Hh).
  destruct (observe_counts obs' ltac:(by rewrite <-Hl)) as (Hc' & Hn' & Hh').
  assert (∀ (s s' : gset string), (∀ x, x ∈ s ↔ x ∈ s') → sortedKeys s = sortedKeys s') as Hk
    by (intros s s' Hs; f_equal; by apply set_eq).
  unfold Build. destruct (meanAndStdDev _) as [m1 s1], (meanAndStdDev _) as [m2 s2]. simpl.
  rewrite Hc, Hc', Hl. split_and!; try done.
  1-3: apply Hk; intros x; destruct (observe_sets obs empty_tally x) as (E1 & E2 & E3),
    (observe_sets obs' empty_tally x) as (E1' & E2' & E3');
    rewrite ?E1, ?E1', ?E2, ?E2', ?E3, ?E3'; by setoid_rewrite Hp.
  apply list_eq. intros h. destruct (decide (h < 24)%nat) as [Hlt|Hge].
  - rewrite Hh, Hh' by done. unfold hour_count. by rewrite Hp.
  - rewrite !lookup_ge_None_2 by lia. done.
Qed.
Lemma build_order_witness :
  KnownDevices (Build 1 0 sample_observations 0)
  = KnownDevices (Build 1 0 (reverse sample_observations) 0).
Proof.
  apply (build_order_independent 1 0 0 sample_observations (reverse sample_observations));
    [simpl; lia|]. symmetry. apply reverse_Permutation.
Defined.
