(* ===== verification/RateLimit.v ===== *)
(** * The rate limiter (internal/httpapi/ratelimit.go)

    A fixed-window counter per caller.  The limiter is shared by every request of
    a route group and by the housekeeping goroutine, and a mutex makes each call
    atomic, so its history is a sequence of calls.  The theorems: the shared map
    with its pruning behaves, for every caller, as a counter of that caller alone
    (a refinement), and no caller gets through more than twice the limit in any
    interval of one window. *)

From S2P Require Import Prelude GoStd.
Open Scope Z_scope.
Open Scope go_scope.

Record RateLimit := mkRateLimit { Requests : Z; Window : Z }.
Record bucket := mkBucket { b_count : Z; b_resetAt : Z }.
Record limiter := mkLimiter { buckets : gmap string bucket; l_limit : RateLimit }.

Definition newLimiter (limit : RateLimit) : limiter := mkLimiter ∅ limit.

(** [entry] after the expiry test and [entry.count++]. *)
Definition advance (limit : RateLimit) (entry : option bucket) (now : Z) : bucket :=
  let fresh := mkBucket 0 (time_add now (Window limit)) in
  let entry := match entry with
    | None => fresh
    | Some e => if time_after now (b_resetAt e) then fresh else e
    end in
  mkBucket (b_count entry +! 1) (b_resetAt entry).
Definition within (limit : RateLimit) (e : bucket) : bool := b_count e <=? Requests limit.

Definition allow (l : limiter) (key : string) (now : Z) : bool * Z * limiter :=
  let entry := advance (l_limit l) (buckets l !! key) now in
  (within (l_limit l) entry, b_resetAt entry,
   mkLimiter (<[key := entry]> (buckets l)) (l_limit l)).

Definition prune (l : limiter) (now : Z) : limiter :=
  mkLimiter (filter (λ kv : string * bucket, time_after now (b_resetAt kv.2) = false) (buckets l)) (l_limit l).

(** ** Histories *)

Inductive call := CallAllow (key : string) (now : Z) | CallPrune (now : Z).
Definition call_time (c : call) : Z := match c with CallAllow _ t | CallPrune t => t end.

(** The answers, each with its caller and time. *)
Fixpoint serve_calls (l : limiter) (cs : list call) : list (string * Z * bool) :=
  match cs with
  | [] => []
  | CallPrune now :: cs => serve_calls (prune l now) cs
  | CallAllow key now :: cs =>
      let '(ok, _, l') := allow l key now in (key, now, ok) :: serve_calls l' cs
  end.

(** The calls in the order in which they got the mutex.  A caller reads the clock before it
    asks for the mutex, so requests come in any order of their times; only a pruning is not
    overtaken: a request that gets the mutex after it has read the clock after it.  Times are in
    the range where adding a window is exact. *)
Definition asks_after (x : Z) (c : call) : Prop := match c with CallAllow _ t => x <= t | CallPrune _ => True end.
Fixpoint history (cs : list call) : Prop :=
  match cs with
  | [] => True
  | c :: cs =>
      sane_time (call_time c) ∧
      match c with CallPrune t => Forall (asks_after t) cs | CallAllow _ _ => True end ∧ history cs
  end.

(** The reference: one caller's own counter, without sharing and without pruning. *)
Fixpoint counter (limit : RateLimit) (st : option bucket) (times : list Z) : list (Z * bool) :=
  match times with
  | [] => []
  | now :: times =>
      let e := advance limit st now in (now, within limit e) :: counter limit (Some e) times
  end.

Definition answers_of (key : string) (out : list (string * Z * bool)) : list (Z * bool) :=
  (λ '(_, t, ok), (t, ok)) <$> List.filter (λ o, str_eqb o.1.1 key) out.
Definition times_of (key : string) (cs : list call) : list Z :=
  omap (λ c, match c with
             | CallAllow k t => if str_eqb k key then Some t else None
             | CallPrune _ => None end) cs.

(** Before the calls [cs], the map agrees with the caller's own counter: same bucket,
    or none where the counter's has expired for all of them. *)
Definition agrees (cs : list call) (shared own : option bucket) : Prop :=
  shared = own ∨ ∃ e, shared = None ∧ own = Some e ∧ Forall (asks_after (b_resetAt e + 1)) cs.

Lemma advance_agrees limit key now cs shared own :
  agrees (CallAllow key now :: cs) shared own → advance limit shared now = advance limit own now.
Proof.
  intros [->|(e & -> & -> & [He _]%Forall_cons)]; [done|]. simpl in He. unfold advance, time_after. simpl.
  by rewrite (proj2 (Z.ltb_lt (b_resetAt e) now)) by lia.
Qed.
Lemma agrees_later c cs shared own : agrees (c :: cs) shared own → agrees cs shared own.
Proof. intros [->|(e & -> & -> & [_ He]%Forall_cons)]; [by left|]. right. by exists e. Qed.
Lemma agrees_prune now l key cs own :
  agrees (CallPrune now :: cs) (buckets l !! key) own → Forall (asks_after now) cs →
  agrees cs (buckets (prune l now) !! key) own.
Proof.
  intros Ha%agrees_later Hcs. unfold prune. simpl.
  destruct (buckets l !! key) as [e|] eqn:E.
  - destruct Ha as [<-|(? & [=] & _)].
    destruct (time_after now (b_resetAt e)) eqn:T.
    + right. exists e. split_and!; [|done|].
      * apply map_lookup_filter_None. right. intros e' He'. simpl. congruence.
      * apply Z.ltb_lt in T. eapply Forall_impl; [exact Hcs|]. intros [k t|t]; simpl; [lia|done].
    + left. by apply map_lookup_filter_Some.
  - by rewrite (map_lookup_filter_None_2 _ _ _ (or_introl E)).
Qed.

Lemma serve_refines limit key cs l own :
  history cs → l_limit l = limit → agrees cs (buckets l !! key) own →
  answers_of key (serve_calls l cs) = counter limit own (times_of key cs).
Proof.
  revert l own. induction cs as [|c cs IH]; intros l own Hh Hl Ha; [done|]. destruct Hh as (_ & Hc & Hh).
  destruct c as [k now|now]; simpl in *.
  - unfold answers_of. simpl.
    destruct (str_eqb k key) eqn:Ek.
    + apply str_eqb_eq in Ek as ->. rewrite fmap_cons. simpl.
      rewrite Hl, (advance_agrees _ key now cs _ own) by done. f_equal.
      apply IH; [done..|]. left. simpl. by rewrite lookup_insert_eq.
    + apply IH; [done..|]. simpl.
      rewrite lookup_insert_ne by (intros ->; by rewrite str_eqb_refl in Ek).
      by eapply agrees_later.
  - apply IH; [done..|]. by apply agrees_prune.
Qed.

(** C36: callers do not affect each other and housekeeping is invisible.  Along any
    history of calls, in whatever order of their times they get the mutex, and of prunings
    that are not overtaken by requests of an earlier time, the answers a caller gets from
    the shared limiter are those of a counter of that caller's requests alone, never
    pruned. *)
Theorem limiter_refines_counter (limit : RateLimit) (cs : list call) (key : string) :
  history cs →
  answers_of key (serve_calls (newLimiter limit) cs) = counter limit None (times_of key cs).
Proof. intros Hh. apply (serve_refines limit key cs); [done..|]. by left. Qed.

(** ** The burst bound *)

Definition passed (a b : Z) (out : list (Z * bool)) : Z :=
  Z.of_nat (length (List.filter (λ o, (a <=? o.1) && (o.1 <=? b) && o.2) out)).
Lemma passed_cons a b t ok out :
  passed a b ((t, ok) :: out) = (if (a <=? t) && (t <=? b) && ok then 1 else 0) + passed a b out.
Proof. unfold passed. simpl. destruct (_ && _); simpl; lia. Qed.
Lemma passed_step a b t ok out : passed a b ((t, ok) :: out) <= Z.b2z ok + passed a b out.
Proof. rewrite passed_cons. destruct ok; rewrite ?andb_false_r; [destruct (_ && _)|]; simpl; lia. Qed.
Lemma passed_late a b limit st t0 times :
  StronglySorted Z.le (t0 :: times) → b < t0 → passed a b (counter limit st times) = 0.
Proof.
  revert t0 st. induction times as [|t times IH]; intros t0 st Hs Hb; [done|].
  apply StronglySorted_inv in Hs as [Hs Hf]. apply Forall_cons in Hf as [Ht _]. simpl.
  rewrite passed_cons, (IH t) by (done || lia). by rewrite (proj2 (Z.leb_gt t b)), andb_false_r by lia.
Qed.

Section Burst.
Context (limit : RateLimit) (HR : 0 <= Requests limit) (HW : 0 <= Window limit < 2 ^ 63).
Context (a : Z).
Abbreviation b := (a + Window limit).

Lemma advance_same e now :
  now <= b_resetAt e → 0 <= b_count e < 2 ^ 63 - 1 →
  advance limit (Some e) now = mkBucket (b_count e + 1) (b_resetAt e).
Proof using.
  intros Hn Hc. unfold advance, time_after. simpl.
  rewrite (proj2 (Z.ltb_ge (b_resetAt e) now)) by lia. by unwrap.
Qed.
Lemma advance_fresh st now :
  sane_time now → match st with None => True | Some e => b_resetAt e < now end →
  advance limit st now = mkBucket 1 (now + Window limit).
Proof using HW.
  intros Hs Hst. unfold advance, time_after.
  rewrite time_add_sane by (done || (unfold int64_range, minInt64, maxInt64; lia)).
  destruct st as [e|]; simpl; [|by unwrap].
  rewrite (proj2 (Z.ltb_lt (b_resetAt e) now)) by done. by unwrap.
Qed.
Lemma advance_cases st now :
  sane_time now → match st with None => True | Some e => 0 <= b_count e < 2 ^ 63 - 1 end →
  advance limit st now = mkBucket 1 (now + Window limit) ∨
  ∃ e, st = Some e ∧ now <= b_resetAt e ∧ advance limit st now = mkBucket (b_count e + 1) (b_resetAt e).
Proof using HW.
  intros Hn Hc. destruct st as [e|]; [|left; by apply advance_fresh].
  destruct (decide (now <= b_resetAt e)).
  - right. exists e. split_and!; [done..|]. by apply advance_same.
  - left. apply advance_fresh; [done|lia].
Qed.

(** A bucket that outlasts the interval lets its remaining allowance through. *)
Lemma passed_one_bucket times e :
  StronglySorted Z.le times → Forall sane_time times → b <= b_resetAt e → 0 <= b_count e →
  b_count e + Z.of_nat (length times) < 2 ^ 63 - 1 →
  passed a b (counter limit (Some e) times) <= Z.max 0 (Requests limit - b_count e).
Proof using.
  revert e. induction times as [|t times IH]; intros e Hs Hf Hb Hc Hn; [unfold passed; simpl; lia|].
  simpl in Hn. assert (StronglySorted Z.le times) as Hs' by by apply StronglySorted_inv in Hs as [? _].
  apply Forall_cons in Hf as [Ht Hf]. cbn [counter].
  destruct (decide (t <= b)) as [Htb|Htb].
  - etransitivity; [apply passed_step|]. rewrite advance_same by lia. unfold within. simpl.
    specialize (IH (mkBucket (b_count e + 1) (b_resetAt e)) Hs' Hf). simpl in IH.
    specialize (IH ltac:(lia) ltac:(lia) ltac:(lia)).
    destruct (b_count e + 1 <=? Requests limit) eqn:E; zbool; simpl; lia.
  - rewrite passed_cons, (passed_late a b limit _ t) by (done || lia).
    rewrite (proj2 (Z.leb_gt t b)), andb_false_r by lia. simpl. lia.
Qed.

(** Inside the interval: the current bucket and one more. *)
Lemma passed_two_buckets times st c :
  StronglySorted Z.le times → Forall sane_time times → Forall (λ t, a <= t) times →
  match st with None => c = 0 | Some e => c = b_count e end → 0 <= c →
  c + Z.of_nat (length times) < 2 ^ 63 - 1 →
  passed a b (counter limit st times) <= Z.max 0 (Requests limit - c) + Requests limit.
Proof using HR HW.
  revert st c. induction times as [|t times IH]; intros st c Hs Hf Ha Hst Hc Hn; [unfold passed; simpl; lia|].
  simpl in Hn. assert (StronglySorted Z.le times) as Hs' by by apply StronglySorted_inv in Hs as [? _].
  apply Forall_cons in Hf as [Ht Hf]. apply Forall_cons in Ha as [Hta Ha]. cbn [counter].
  etransitivity; [apply passed_step|].
  destruct (advance_cases st t Ht) as [->|(e & -> & Hr & ->)]; [destruct st; [lia|done]|..].
  - pose proof (passed_one_bucket times (mkBucket 1 (t + Window limit)) Hs' Hf ltac:(simpl; lia)
      ltac:(simpl; lia) ltac:(simpl; lia)) as Hp. simpl in Hp. unfold within. simpl.
    destruct (1 <=? Requests limit) eqn:E; zbool; simpl; lia.
  - specialize (IH (Some (mkBucket (b_count e + 1) (b_resetAt e))) (c + 1) Hs' Hf Ha). simpl in IH.
    specialize (IH ltac:(lia) ltac:(lia) ltac:(lia)). unfold within. simpl.
    destruct (b_count e + 1 <=? Requests limit) eqn:E; zbool; simpl; lia.
Qed.

Lemma passed_burst times st :
  StronglySorted Z.le times → Forall sane_time times →
  match st with None => True | Some e => 0 <= b_count e ∧ b_count e + Z.of_nat (length times) < 2 ^ 63 - 1 end →
  Z.of_nat (length times) < 2 ^ 63 - 1 →
  passed a b (counter limit st times) <= 2 * Requests limit.
Proof using HR HW.
  revert st. induction times as [|t times IH]; intros st Hs Hf Hst Hn; [unfold passed; simpl; lia|].
  destruct (decide (a <= t)) as [Hta|Hta].
  - pose proof (passed_two_buckets (t :: times) st (match st with None => 0 | Some e => b_count e end)) as Hp.
    apply StronglySorted_inv in Hs as Hs'. destruct Hs' as [_ Hge].
    specialize (Hp Hs Hf ltac:(constructor; [done|]; eapply Forall_impl; [exact Hge|simpl; lia])).
    destruct st as [e|]; specialize (Hp eq_refl ltac:(lia) ltac:(lia)); lia.
  - simpl in Hn. assert (StronglySorted Z.le times) as Hs' by by apply StronglySorted_inv in Hs as [? _].
    apply Forall_cons in Hf as [Ht Hf]. cbn [counter].
    rewrite passed_cons, (proj2 (Z.leb_gt a t)) by lia. simpl.
    destruct (advance_cases st t Ht) as [->|(e & -> & Hr & ->)].
    + destruct st; [simpl in Hst; lia|done].
    + apply (IH (Some _)); simpl; [done..| |lia]. lia.
    + apply (IH (Some _)); simpl; [done..| |lia]. simpl in Hst. lia.
Qed.
End Burst.

Lemma times_of_facts key cs :
  history cs → Forall sane_time (times_of key cs) ∧ (length (times_of key cs) <= length cs)%nat.
Proof.
  induction cs as [|c cs IH]; [repeat constructor|]. intros (Hc & _ & Hh). destruct (IH Hh) as [I1 I2].
  destruct c as [k now|now]; simpl in *; [destruct (str_eqb k key)|]; split; simpl; first [lia | by auto using Forall_cons_2].
Qed.

(** C37: the burst bound.  Whatever the history, a caller whose requests get the mutex in
    the order of their times passes the limiter at most [2 * Requests] times in any interval
    as long as the window (the burst the comment in the code accepts), for a limit of at
    least 0 and fewer calls than the counter can count.  The requests of others may come in
    any order. *)
Theorem limiter_burst_bound (limit : RateLimit) (cs : list call) (key : string) (a : Z) :
  history cs → StronglySorted Z.le (times_of key cs) → 0 <= Requests limit → 0 <= Window limit < 2 ^ 63 →
  Z.of_nat (length cs) < 2 ^ 63 - 1 →
  passed a (a + Window limit) (answers_of key (serve_calls (newLimiter limit) cs)) <= 2 * Requests limit.
Proof.
  intros Hh Hs HR HW Hn.
  rewrite (serve_refines limit key cs (newLimiter limit) None Hh eq_refl (or_introl eq_refl)).
  destruct (times_of_facts key cs Hh) as (H2 & H4).
  apply passed_burst; [done..|lia].
Qed.

(** ** A concrete history *)

(** The request of "b" gets the mutex late, after one that read the clock after it. *)
Definition two_per_minute : RateLimit := mkRateLimit 2 minute.
Definition sample_calls : list call :=
  [CallAllow "a" 0; CallAllow "a" (30 * second); CallAllow "b" second; CallAllow "a" minute;
   CallAllow "a" (minute + 1); CallPrune (2 * minute); CallAllow "a" (2 * minute + second)].
Lemma sample_history : history sample_calls.
Proof. vm_compute. split_and!; try done. repeat constructor; discriminate. Qed.
Lemma limiter_refines_witness :
  answers_of "a" (serve_calls (newLimiter two_per_minute) sample_calls)
  = [(0, true); (30 * second, true); (minute, false); (minute + 1, true); (2 * minute + second, true)].
Proof.
  rewrite (limiter_refines_counter two_per_minute sample_calls "a" sample_history). reflexivity.
Defined.
Lemma limiter_burst_witness :
  passed 0 minute (answers_of "a" (serve_calls (newLimiter two_per_minute) sample_calls)) <= 4.
Proof.
  apply (limiter_burst_bound two_per_minute sample_calls "a" 0 sample_history);
    vm_compute; repeat split; try discriminate. repeat constructor; discriminate.
Defined.
