(* ===== verification/Identity.v ===== *)
(** * Identity assertions (internal/identity)

    Roles and claims, the two verifiers, and the local development tokens.  The
    JWT and OpenID Connect libraries are parameters: [Jwt] signs and checks the
    development tokens, and [oidc_check] is the provider's verdict on a token. *)

From S2P Require Import Prelude GoStd Encode.
Open Scope Z_scope.
Open Scope go_scope.

(** ** claims.go *)

Abbreviation Role := string (only parsing).
Definition RoleUser : Role := "USER".
Definition RoleAnalyst : Role := "SECURITY_ANALYST".
Definition RoleAdmin : Role := "ADMIN".
Definition RoleAuditor : Role := "AUDITOR".
Definition knownRoles : list Role := [RoleUser; RoleAnalyst; RoleAdmin; RoleAuditor].

Definition ParseRole (raw : string) : option Role :=
  let key := to_upper (trim_space raw) in
  if str_mem key knownRoles then Some key else None.

(** One iteration of [ParseRoles]: the roles seen and the output. *)
Definition parse_step (st : gset string * list Role) (value : string) : gset string * list Role :=
  match ParseRole value with
  | None => st
  | Some role => if bool_decide (role ∈ st.1) then st else ({[role]} ∪ st.1, st.2 ++ [role])
  end.
Definition ParseRoles (raw : list string) : list Role :=
  (foldl parse_step ({[RoleUser]}, [RoleUser]) raw).2.

Record Claims := mkClaims {
  c_Subject : string; c_Email : string; c_DisplayName : string; c_Department : string;
  c_Roles : list Role; c_IssuedAt : Z; c_ExpiresAt : Z }.

Definition Claims_Validate (c : Claims) : result unit :=
  reject! str_eqb (trim_space (c_Subject c)) "" with ErrInvalidToken;
  reject! is_nil (c_Roles c) with ErrInvalidToken;
  inl ().

Definition HasRole (roles : list Role) (role : Role) : bool := str_mem role roles.
Definition HighestRole (c : Claims) : Role :=
  default RoleUser (head (List.filter (HasRole (c_Roles c)) [RoleAdmin; RoleAnalyst; RoleAuditor; RoleUser])).

Definition unixOrZero (sec : Z) : Z := if sec =? 0 then zero_time else time_unix sec.

(** ** verifier.go *)

(** What a component that authenticates needs: the verdict on a token at a time. *)
Class Verifier := { Verify : Z → string → result Claims }.

Record oidcPayload := mkPayload {
  o_Subject : string; o_Email : string; o_Name : string; o_PreferredUsername : string;
  o_Department : string; o_Roles : list string; o_RealmRoles : list string;
  o_IssuedAt : Z; o_ExpiresAt : Z }.

Definition toClaims (p : oidcPayload) : Claims :=
  let displayName := o_Name p in
  let displayName := if str_eqb (trim_space displayName) "" then o_PreferredUsername p else displayName in
  let displayName := if str_eqb (trim_space displayName) "" then o_Subject p else displayName in
  mkClaims (o_Subject p) (o_Email p) displayName (o_Department p)
    (ParseRoles (o_Roles p ++ o_RealmRoles p)) (unixOrZero (o_IssuedAt p)) (unixOrZero (o_ExpiresAt p)).

(** The verifier with its cached provider metadata. *)
Record OIDCVerifier := mkOIDC { v_issuer : string; v_audience : string; v_resolved : bool }.

Definition NewOIDCVerifier (issuer audience : string) : result OIDCVerifier :=
  if str_eqb (trim_space issuer) "" then inr ErrClaims
  else if str_eqb (trim_space audience) "" then inr ErrClaims
  else inl (mkOIDC issuer audience false).

(** [resolve]; [reachable] is whether discovery would succeed now. *)
Definition resolve (v : OIDCVerifier) (reachable : bool) : result unit * OIDCVerifier :=
  if v_resolved v then (inl (), v)
  else if reachable then (inl (), mkOIDC (v_issuer v) (v_audience v) true)
  else (inr (ErrDB "discover identity provider"), v).

(** [oidc_check issuer audience now raw]: the library checks signature, issuer,
    audience and expiry, and decodes the payload. *)
Definition OIDC_Verify (oidc_check : string → string → Z → string → option oidcPayload)
    (v : OIDCVerifier) (reachable : bool) (now : Z) (raw : string) : result Claims * OIDCVerifier :=
  let '(r, v') := resolve v reachable in
  (match r with
   | inr e => inr e
   | inl _ => match oidc_check (v_issuer v) (v_audience v) now raw with
              | None => inr ErrInvalidToken
              | Some payload => inl (toClaims payload)
              end
   end, v').
Definition oidc_verifier (oidc_check : string → string → Z → string → option oidcPayload)
    (v : OIDCVerifier) (reachable : bool) : Verifier :=
  {| Verify now raw := (OIDC_Verify oidc_check v reachable now raw).1 |}.

(** ** dev.go *)

Definition DevIssuer : string := "netra-dev-local".
Record DevVerifier := mkDevVerifier { dv_secret : string; dv_ttl : Z }.

(** [secret] is the 32 random bytes. *)
Definition NewDevVerifier (environment : string) (ttl : Z) (secret : string) : result DevVerifier :=
  if negb (str_eqb environment "development") then inr ErrClaims
  else inl (mkDevVerifier secret (if ttl <=? 0 then hour else ttl)).

(** golang-jwt with HS256: signing, and parsing with the issuer and expiry
    options the code passes. *)
Class Jwt := {
  jwt_sign : string → gmap string json → string;
  jwt_parse : string → string → Z → string → option (gmap string json); (* secret, issuer, now, token *)
}.

Fixpoint is_ascii (s : string) : bool :=
  match s with EmptyString => true | String c s => (ch c <? 128) && is_ascii s end.
Fixpoint json_ascii (v : json) : bool :=
  match v with
  | JString s => is_ascii s
  | JArray l => forallb json_ascii l
  | JObject kvs => forallb (λ kv, is_ascii kv.1 && json_ascii kv.2) kvs
  | _ => true
  end.
(** The documented behaviour the code relies on: a signed token is accepted under
    the same secret while its issuer matches and its expiry is ahead (ASCII text
    goes through JSON unchanged), and nothing else about issuer or expiry passes. *)
Class JwtLaws (J : Jwt) : Prop := {
  jwt_complete : ∀ secret now m exp, map_Forall (λ _ v, json_ascii v = true) m →
    m !! "exp" = Some (JInt exp) → now < exp * second → m !! "iss" = Some (JString DevIssuer) →
    jwt_parse secret DevIssuer now (jwt_sign secret m) = Some m;
  jwt_sound : ∀ secret issuer now raw m, jwt_parse secret issuer now raw = Some m →
    m !! "iss" = Some (JString issuer) ∧ ∃ exp, m !! "exp" = Some (JInt exp) ∧ now < exp * second;
}.

Definition stringClaim (claims : gmap string json) (key : string) : string :=
  match claims !! key with Some (JString s) => s | _ => "" end.
(** A decoded JSON number is a [float64]. *)
Definition int64Claim (claims : gmap string json) (key : string) : Z :=
  match claims !! key with Some (JInt z) => f64_to_int (f64_of_int z) | _ => 0 end.
Definition stringSliceClaim (claims : gmap string json) (key : string) : list string :=
  match claims !! key with
  | Some (JArray l) => omap (λ v, match v with JString s => Some s | _ => None end) l
  | _ => []
  end.

Section Dev.
Context {J : Jwt} (d : DevVerifier).

Definition mint_claims (now : Z) (subject email displayName department : string) (roles : list Role)
    : gmap string json :=
  list_to_map [("iss", JString DevIssuer); ("sub", JString subject); ("email", JString email);
    ("name", JString displayName); ("department", JString department);
    ("roles", JArray (JString <$> ParseRoles roles));
    ("iat", JInt (time_toUnix now)); ("exp", JInt (time_toUnix (time_add now (dv_ttl d))))].
Definition Mint (now : Z) (subject email displayName department : string) (roles : list Role)
    : result string :=
  if str_eqb subject "" then inr ErrClaims
  else inl (jwt_sign (dv_secret d) (mint_claims now subject email displayName department roles)).

Definition Dev_Verify (now : Z) (rawToken : string) : result Claims :=
  match jwt_parse (dv_secret d) DevIssuer now rawToken with
  | None => inr ErrInvalidToken
  | Some m =>
      let subject := stringClaim m "sub" in
      let name := stringClaim m "name" in
      let claims := mkClaims subject (stringClaim m "email")
        (if str_eqb name "" then subject else name) (stringClaim m "department")
        (ParseRoles (stringSliceClaim m "roles"))
        (unixOrZero (int64Claim m "iat")) (unixOrZero (int64Claim m "exp")) in
      let! _ := Claims_Validate claims in
      inl claims
  end.
End Dev.
Definition dev_verifier {J : Jwt} (d : DevVerifier) : Verifier := {| Verify := Dev_Verify d |}.

(** ** Roles *)

Lemma parse_step_inv raw st :
  (∀ r, r ∈ st.1 ↔ r ∈ st.2) → NoDup st.2 →
  let st' := foldl parse_step st raw in
  (∀ r, r ∈ st'.1 ↔ r ∈ st'.2) ∧ NoDup st'.2 ∧
  (∀ r, r ∈ st'.2 ↔ r ∈ st.2 ∨ ∃ v, v ∈ raw ∧ ParseRole v = Some r) ∧
  ∃ l, st'.2 = st.2 ++ l.
Proof.
  revert st. induction raw as [|v raw IH]; intros st Hm Hn; simpl.
  - split_and!; [done|done| |by exists []; rewrite app_nil_r].
    intros r. split; [by left|]. intros [?|(? & []%elem_of_nil & _)]. done.
  - assert (let s := parse_step st v in (∀ r, r ∈ s.1 ↔ r ∈ s.2) ∧ NoDup s.2 ∧
        (∀ r, r ∈ s.2 ↔ r ∈ st.2 ∨ ParseRole v = Some r) ∧ ∃ l, s.2 = st.2 ++ l) as (H1 & H2 & H3 & l & H4).
    { unfold parse_step. destruct (ParseRole v) as [role|]; simpl.
      - case_bool_decide as Hr; simpl.
        + split_and!; [done|done| |by exists []; rewrite app_nil_r].
          intros r. split; [by left|]. intros [?|[= <-]]; [done|by apply Hm].
        + split_and!; [set_solver| |set_solver|by eexists].
          apply NoDup_app. split_and!; [done| |apply NoDup_singleton].
          intros x Hx ->%list_elem_of_singleton. apply Hr. by apply Hm.
      - split_and!; [done|done| |by exists []; rewrite app_nil_r]. intros r. split; [by left|].
        intros [?|[=]]. done. }
    destruct (IH (parse_step st v) H1 H2) as (I1 & I2 & I3 & l' & I4).
    split_and!; [done|done| |exists (l ++ l'); by rewrite I4, H4, app_assoc].
    intros r. rewrite I3, H3. set_solver.
Qed.
Lemma ParseRole_known v r : ParseRole v = Some r → r ∈ knownRoles.
Proof.
  unfold ParseRole. destruct (str_mem _ _) eqn:E; [|done]. intros [= <-]. by apply str_mem_elem.
Qed.
Lemma ParseRole_id r : r ∈ knownRoles → ParseRole r = Some r.
Proof.
  intros H. unfold knownRoles in H.
  repeat (apply elem_of_cons in H as [->|H]; [reflexivity|]). by apply elem_of_nil in H.
Qed.

Lemma parse_step_known rest st :
  NoDup rest → (∀ r, r ∈ rest → r ∈ knownRoles ∧ r ∉ st.1) → (foldl parse_step st rest).2 = st.2 ++ rest.
Proof.
  revert st. induction rest as [|r rest IH]; intros st Hn Hr; simpl; [by rewrite app_nil_r|].
  apply NoDup_cons in Hn as [Hnr Hn]. destruct (Hr r) as [Hk Hs]; [by left|].
  assert (parse_step st r = ({[r]} ∪ st.1, st.2 ++ [r])) as ->.
  { unfold parse_step. by rewrite ParseRole_id, bool_decide_eq_false_2 by done. }
  rewrite IH; simpl; [by rewrite <-app_assoc|done|].
  intros x Hx. destruct (Hr x) as [? ?]; [by right|]. split; [done|]. set_solver.
Qed.
Lemma ParseRoles_facts raw :
  (∀ r, r ∈ ParseRoles raw ↔ r = RoleUser ∨ ∃ v, v ∈ raw ∧ ParseRole v = Some r) ∧
  NoDup (ParseRoles raw) ∧ ∃ l, ParseRoles raw = RoleUser :: l.
Proof.
  destruct (parse_step_inv raw ({[RoleUser]}, [RoleUser])) as (_ & H2 & H3 & l & H4);
    [set_solver|apply NoDup_singleton|].
  split_and!; [|done|by exists l]. intros r. unfold ParseRoles. rewrite H3. simpl. by rewrite list_elem_of_singleton.
Qed.

Lemma ParseRoles_known raw r : r ∈ ParseRoles raw → r ∈ knownRoles.
Proof.
  destruct (ParseRoles_facts raw) as (Hin & _). intros [->|(v & _ & Hv%ParseRole_known)]%Hin; [left|done].
Qed.
Lemma ParseRoles_idem raw : ParseRoles (ParseRoles raw) = ParseRoles raw.
Proof.
  destruct (ParseRoles_facts raw) as (_ & Hn & l & Hl). pose proof (ParseRoles_known raw) as Hk.
  rewrite Hl in Hk, Hn |- *. apply NoDup_cons in Hn as [Hu Hn].
  unfold ParseRoles at 1. simpl. change (parse_step _ RoleUser) with (({[RoleUser]} : gset string), [RoleUser]).
  rewrite parse_step_known; [done|done|]. intros r Hr. split; [apply Hk; by right|]. set_solver.
Qed.

(** An identity provider cannot invent authority.  The roles of a token are
    exactly USER and the known roles its claims name (up to case and surrounding
    space): every one is in the allowlist, none is listed twice, and parsing them
    again changes nothing. *)
Theorem parse_roles_allowlist (raw : list string) :
  (∀ r, r ∈ ParseRoles raw ↔ r = RoleUser ∨ ∃ v, v ∈ raw ∧ ParseRole v = Some r) ∧
  (∀ r, r ∈ ParseRoles raw → r ∈ knownRoles) ∧ NoDup (ParseRoles raw) ∧
  ParseRoles (ParseRoles raw) = ParseRoles raw.
Proof.
  destruct (ParseRoles_facts raw) as (Hin & Hn & _).
  split_and!; [done|apply ParseRoles_known|done|apply ParseRoles_idem].
Qed.

(** The role shown for a person is the most privileged one held, in the order
    ADMIN, SECURITY_ANALYST, AUDITOR, USER, and is always a known role. *)
Theorem highest_role_spec (c : Claims) :
  HighestRole c ∈ knownRoles ∧
  (RoleAdmin ∈ c_Roles c → HighestRole c = RoleAdmin) ∧
  (RoleAdmin ∉ c_Roles c → RoleAnalyst ∈ c_Roles c → HighestRole c = RoleAnalyst) ∧
  (RoleAdmin ∉ c_Roles c → RoleAnalyst ∉ c_Roles c → RoleAuditor ∈ c_Roles c → HighestRole c = RoleAuditor) ∧
  (RoleAdmin ∉ c_Roles c → RoleAnalyst ∉ c_Roles c → RoleAuditor ∉ c_Roles c → HighestRole c = RoleUser).
Proof.
  unfold HighestRole. simpl. unfold HasRole. rewrite <-!str_mem_elem.
  destruct (str_mem RoleAdmin _), (str_mem RoleAnalyst _), (str_mem RoleAuditor _), (str_mem RoleUser _);
    simpl; split_and!; try (by intros; done); unfold knownRoles; set_solver.
Qed.

(** ** Development tokens *)

Lemma ascii_roles l : (∀ r, r ∈ l → r ∈ knownRoles) → forallb json_ascii (JString <$> l) = true.
Proof.
  intros H. apply forallb_elem. intros v (r & -> & Hr)%list_elem_of_fmap. apply H in Hr.
  unfold knownRoles in Hr. repeat (apply elem_of_cons in Hr as [->|Hr]; [reflexivity|]). by apply elem_of_nil in Hr.
Qed.
Lemma omap_strings (l : list string) :
  omap (λ v, match v with JString s => Some s | _ => None end) (JString <$> l) = l.
Proof. induction l as [|s l IH]; [done|]. rewrite fmap_cons. cbn. f_equal. exact IH. Qed.

(** Development tokens round-trip.  A token minted for ASCII identity fields and
    verified under the same key before it expires gives back the subject, the
    email, the department, the display name (the subject when it was empty) and
    exactly the known roles asked for. *)
Theorem dev_token_roundtrip {J : Jwt} {L : JwtLaws J} (d : DevVerifier) (now now' : Z)
    (subject email displayName department token : string) (roles : list Role) :
  trim_space subject ≠ "" → forallb is_ascii [subject; email; displayName; department] = true →
  Mint d now subject email displayName department roles = inl token →
  now' < time_toUnix (time_add now (dv_ttl d)) * second →
  ∃ claims, Dev_Verify d now' token = inl claims ∧ c_Subject claims = subject ∧ c_Email claims = email ∧
    c_DisplayName claims = (if str_eqb displayName "" then subject else displayName) ∧
    c_Department claims = department ∧ c_Roles claims = ParseRoles roles.
Proof.
  intros Hs Ha Hm Hn. simpl in Ha. repeat rewrite andb_true_iff in Ha. destruct Ha as (A1 & A2 & A3 & A4 & _).
  unfold Mint in Hm. destruct (str_eqb subject ""); [done|]. injection Hm as <-.
  unfold Dev_Verify. erewrite jwt_complete; [|..|exact Hn|reflexivity]; [|..|reflexivity].
  2:{ unfold mint_claims. simpl.
      repeat (apply map_Forall_insert_2; [first [done|apply ascii_roles, ParseRoles_known]|]). done. }
  assert (stringSliceClaim (mint_claims d now subject email displayName department roles) "roles"
          = ParseRoles roles) as Hr by apply omap_strings.
  rewrite Hr, ParseRoles_idem.
  change (stringClaim _ "sub") with subject. change (stringClaim _ "email") with email.
  change (stringClaim _ "name") with displayName. change (stringClaim _ "department") with department.
  unfold Claims_Validate. simpl. destruct (ParseRoles_facts roles) as (_ & _ & l & ->).
  assert (str_eqb (trim_space subject) "" = false) as -> by (apply not_true_iff_false; by rewrite str_eqb_eq).
  simpl. by eexists.
Qed.

(** ** A signature scheme with these laws

    Tokens that carry their claims in the clear; they show that the laws can hold
    together (they do not authenticate anything). *)

Fixpoint json_tree (v : json) : gen_tree (bool + Z + string) :=
  match v with
  | JNull => GenNode 0 []
  | JBool b => GenLeaf (inl (inl b))
  | JInt z => GenLeaf (inl (inr z))
  | JString s => GenLeaf (inr s)
  | JArray l => GenNode 1 (List.map json_tree l)
  | JObject kvs => GenNode 2 (List.map (λ kv, GenNode 3 [GenLeaf (inr kv.1); json_tree kv.2]) kvs)
  end.
Fixpoint tree_json (t : gen_tree (bool + Z + string)) : json :=
  match t with
  | GenLeaf (inl (inl b)) => JBool b
  | GenLeaf (inl (inr z)) => JInt z
  | GenLeaf (inr s) => JString s
  | GenNode 1 l => JArray (List.map tree_json l)
  | GenNode 2 l => JObject (List.map (λ t, match t with
      | GenNode _ [GenLeaf (inr k); v] => (k, tree_json v) | _ => ("", JNull) end) l)
  | GenNode _ _ => JNull
  end.
Lemma tree_json_tree : ∀ v, tree_json (json_tree v) = v.
Proof.
  fix IH 1. intros [|b|z|s|l|kvs]; simpl; try reflexivity; f_equal; rewrite List.map_map.
  - induction l as [|x l IHl]; simpl; [reflexivity|]. f_equal; [apply IH|exact IHl].
  - induction kvs as [|[k x] kvs IHl]; simpl; [reflexivity|]. f_equal; [f_equal; apply IH|exact IHl].
Qed.
#[export] Instance json_eq_dec : EqDecision json.
Proof. intros v w. destruct (decide (json_tree v = json_tree w)) as [H|H]; [left|right; congruence].
  by rewrite <-(tree_json_tree v), H, tree_json_tree. Defined.
#[export] Instance json_countable : Countable json := inj_countable' json_tree tree_json tree_json_tree.

Fixpoint pos_string (p : positive) : string :=
  match p with xH => "" | xO p => String (Ascii.ascii_of_N 48) (pos_string p) | xI p => String (Ascii.ascii_of_N 49) (pos_string p) end.
Fixpoint string_pos (s : string) : positive :=
  match s with
  | EmptyString => xH
  | String c s => if ch c =? 48 then xO (string_pos s) else xI (string_pos s)
  end.
Lemma string_pos_string p : string_pos (pos_string p) = p.
Proof. induction p as [p IH|p IH|]; simpl; [by rewrite IH|by rewrite IH|done]. Qed.

Definition toy_jwt : Jwt := {|
  jwt_sign _ m := pos_string (encode (map_to_list m));
  jwt_parse _ issuer now raw :=
    l ← decode (A := list (string * json)) (string_pos raw);
    let m : gmap string json := list_to_map l in
    match m !! "exp" with
    | Some (JInt exp) =>
        if (now <? exp * second) && bool_decide (m !! "iss" = Some (JString issuer)) then Some m else None
    | _ => None
    end |}.
Lemma toy_jwt_laws : JwtLaws toy_jwt.
Proof.
  split; simpl.
  - intros secret now m exp _ He Hn Hi. rewrite string_pos_string, decode_encode. simpl.
    rewrite list_to_map_to_list, He, Hi, (proj2 (Z.ltb_lt _ _) Hn), bool_decide_eq_true_2 by done. done.
  - intros secret issuer now raw m. destruct (decode _) as [l|]; simpl; [|done].
    destruct (list_to_map l !! "exp") as [[]|] eqn:E; try done.
    destruct (now <? _) eqn:Hn; [|done]. case_bool_decide as Hi; [|done]. simpl. intros [= <-].
    split; [done|]. exists z. split; [done|]. by apply Z.ltb_lt.
Qed.
Lemma dev_token_witness :
  ∃ c, Dev_Verify (J := toy_jwt) (mkDevVerifier "k" hour) (30 * minute)
         (default "" (match Mint (J := toy_jwt) (mkDevVerifier "k" hour) 0 "alice" "a@x" "" "" ["admin"] with
                      inl s => Some s | inr _ => None end)) = inl c ∧
       c_Roles c = ParseRoles ["admin"].
Proof.
  destruct (@dev_token_roundtrip toy_jwt toy_jwt_laws (mkDevVerifier "k" hour) 0 (30 * minute)
    "alice" "a@x" "" "" (@jwt_sign toy_jwt "k" (mint_claims (mkDevVerifier "k" hour) 0 "alice" "a@x" "" "" ["admin"]))
    ["admin"]) as (c & Hc & _ & _ & _ & _ & Hr); [discriminate|reflexivity|reflexivity|reflexivity|].
  exists c. split; [exact Hc|exact Hr].
Defined.
