(* ===== verification/Config.v ===== *)
(** * Configuration (internal/config)

    [Load] reads the process environment, collects every problem and returns a
    configuration only when there is none. *)

From S2P Require Import Prelude GoStd Float64 Strconv Risk Posture.
From Stdlib Require Import Ascii.
Open Scope Z_scope.
Open Scope go_scope.

Definition Environment := string.
Definition EnvDevelopment : Environment := "development".
Definition EnvStaging : Environment := "staging".
Definition EnvProduction : Environment := "production".

Record LogConfig := mkLogConfig { LogLevel : string; Format : string }.
Record HTTPConfig := mkHTTPConfig {
  Addr : string; ReadTimeout : Z; WriteTimeout : Z; ShutdownTimeout : Z; AllowedOrigins : list string }.
Record DatabaseConfig := mkDatabaseConfig { URL : string; MaxConns : Z; MinConns : Z; AutoMigrate : bool }.
Record OIDCConfig := mkOIDCConfig {
  Issuer : string; ClientID : string; Audience : string; DevAuthEnabled : bool; DevAuthTTL : Z }.
Record RiskThresholds := mkRiskThresholds { TLow : Z; TMedium : Z; TElevated : Z; THigh : Z }.
Record RiskConfig := mkRiskConfig { RThresholds : RiskThresholds; RWeights : Risk.Weights }.
Record PostureConfig := mkPostureConfig { PWeights : Posture.Weights; ExpectedAgentVersion : string }.
Record Config := mkConfig {
  Env : Environment; CLog : LogConfig; HTTP : HTTPConfig; Database : DatabaseConfig; OIDC : OIDCConfig;
  CRisk : RiskConfig; CPosture : PostureConfig }.

Definition Thresholds (r : RiskConfig) : Risk.Thresholds :=
  let t := RThresholds r in Risk.mkThresholds (TLow t) (TMedium t) (TElevated t) (THigh t).
Definition RiskThresholds_Validate (r : RiskThresholds) : result unit :=
  if (TLow r <=? 0) || (TLow r >=? TMedium r) || (TMedium r >=? TElevated r)
     || (TElevated r >=? THigh r) || (THigh r >=? 100)
  then inr ErrThresholds else inl ().
Definition IsDevelopment (c : Config) : bool := str_eqb (Env c) EnvDevelopment.

(** ** Reading variables *)

(** The process environment. *)
Definition environ := gmap string string.

(** A value with the problems met on the way: [collect]. *)
Definition collected A := (A * list string)%type.
Definition cbind {A B} (m : collected A) (k : A → collected B) : collected B :=
  let '(a, errs) := m in let '(b, errs') := k a in (b, errs ++ errs').
Definition pure {A} (a : A) : collected A := (a, []).
Definition complain (c : bool) (msg : string) : collected unit := ((), if c then [msg] else []).
Definition collect {A} (r : result A) (msg : string) : collected unit := complain (negb (is_ok r)) msg.
Notation "x <~ m ; k" := (cbind m (λ x, k)) (at level 100, m at next level, right associativity, only parsing) : go_scope.

Definition LookupEnv (e : environ) (key : string) : option string :=
  v ← e !! key; if str_eqb v "" then None else Some v.
Definition stringVar (e : environ) (key fallback : string) : string := default fallback (LookupEnv e key).

Fixpoint split_commas (s : string) : list string :=
  match s with
  | EmptyString => [""]
  | String c s' =>
      if ch c =? 44 then "" :: split_commas s'
      else match split_commas s' with [] => [String c ""] | x :: l => String c x :: l end
  end.
Definition listVar (e : environ) (key : string) : list string :=
  let raw := stringVar e key "" in
  if str_eqb raw "" then [] else
  List.filter (λ p, negb (str_eqb p "")) (trim_space <$> split_commas raw).

(** The typed variables: the fallback when unset, the zero value and a complaint
    when malformed. *)
Definition parsed {A} (zero : A) (parse : string → option A) (msg : string) (e : environ) (key : string)
    (fallback : A) : collected A :=
  match LookupEnv e key with
  | None => pure fallback
  | Some raw => match parse raw with None => (zero, [(key +:+ msg)%stdpp]) | Some v => pure v end
  end.
Definition intVar := parsed 0 parse_int64 " must be an integer".
Definition boolVar := parsed false ParseBool " must be a boolean".
Definition floatVar := parsed (S754_zero false) ParseFloat " must be a number".
Definition durationVar (e : environ) (key : string) (fallback : Z) : collected Z :=
  match LookupEnv e key with
  | None => pure fallback
  | Some raw =>
      match ParseDuration raw with
      | None => (0, [(key +:+ " must be a duration such as 30s")%stdpp])
      | Some v => if v <=? 0 then (0, [(key +:+ " must be positive")%stdpp]) else pure v
      end
  end.

(** ** Load *)

(** [int32(n)]. *)
Definition wrap32 (z : Z) : Z := (z + 2 ^ 31) mod 2 ^ 32 - 2 ^ 31.

Definition load_risk_weights (e : environ) : collected Risk.Weights :=
  let d := Risk.DefaultWeights in
  a <~ floatVar e "NETRA_RISK_WEIGHT_IDENTITY" (Risk.Identity d);
  b <~ floatVar e "NETRA_RISK_WEIGHT_DEVICE" (Risk.Device d);
  c <~ floatVar e "NETRA_RISK_WEIGHT_BEHAVIOUR" (Risk.Behaviour d);
  n <~ floatVar e "NETRA_RISK_WEIGHT_NETWORK" (Risk.Network d);
  r <~ floatVar e "NETRA_RISK_WEIGHT_RESOURCE" (Risk.Resource d);
  h <~ floatVar e "NETRA_RISK_WEIGHT_HISTORY" (Risk.History d);
  pure (Risk.mkWeights a b c n r h).
Definition load_posture_weights (e : environ) : collected Posture.Weights :=
  let d := Posture.DefaultWeights in
  a <~ intVar e "NETRA_POSTURE_WEIGHT_DEVICE_IDENTITY" (w_DeviceIdentity d);
  b <~ intVar e "NETRA_POSTURE_WEIGHT_AGENT_HEALTH" (w_AgentHealth d);
  c <~ intVar e "NETRA_POSTURE_WEIGHT_DISK_ENCRYPTION" (w_DiskEncryption d);
  s <~ intVar e "NETRA_POSTURE_WEIGHT_SECURE_BOOT" (w_SecureBoot d);
  o <~ intVar e "NETRA_POSTURE_WEIGHT_OS_SUPPORTED" (w_OSSupported d);
  f <~ intVar e "NETRA_POSTURE_WEIGHT_FIREWALL" (w_Firewall d);
  l <~ intVar e "NETRA_POSTURE_WEIGHT_SCREEN_LOCK" (w_ScreenLock d);
  m <~ intVar e "NETRA_POSTURE_WEIGHT_ANTI_MALWARE" (w_AntiMalware d);
  pure (Posture.mkWeights a b c s o f l m).

(** The configuration and everything wrong with it. *)
Definition load_all (e : environ) : collected Config :=
  let env := to_lower (stringVar e "NETRA_ENV" EnvDevelopment) in
  _ <~ complain (negb (str_mem env [EnvDevelopment; EnvStaging; EnvProduction]))
         "NETRA_ENV must be development, staging or production";
  httpRead <~ durationVar e "NETRA_HTTP_READ_TIMEOUT" (15 * second);
  httpWrite <~ durationVar e "NETRA_HTTP_WRITE_TIMEOUT" (30 * second);
  httpShutdown <~ durationVar e "NETRA_HTTP_SHUTDOWN_TIMEOUT" (15 * second);
  maxConns <~ intVar e "NETRA_DB_MAX_CONNS" 10;
  minConns <~ intVar e "NETRA_DB_MIN_CONNS" 1;
  autoMigrate <~ boolVar e "NETRA_DB_AUTO_MIGRATE" true;
  let dbURL := stringVar e "NETRA_DATABASE_URL" "" in
  _ <~ complain (str_eqb dbURL "") "NETRA_DATABASE_URL is required";
  low <~ intVar e "NETRA_RISK_THRESHOLD_LOW" 30;
  medium <~ intVar e "NETRA_RISK_THRESHOLD_MEDIUM" 50;
  elevated <~ intVar e "NETRA_RISK_THRESHOLD_ELEVATED" 70;
  high <~ intVar e "NETRA_RISK_THRESHOLD_HIGH" 85;
  devAuth <~ boolVar e "NETRA_DEV_AUTH_ENABLED" false;
  devAuthTTL <~ durationVar e "NETRA_DEV_AUTH_TTL" hour;
  let issuer := stringVar e "NETRA_OIDC_ISSUER" "" in
  let audience := stringVar e "NETRA_OIDC_AUDIENCE" "" in
  _ <~ complain (devAuth && negb (str_eqb env EnvDevelopment))
         "NETRA_DEV_AUTH_ENABLED is only permitted when NETRA_ENV=development";
  _ <~ complain (negb devAuth && (str_eqb issuer "" || str_eqb audience ""))
         "NETRA_OIDC_ISSUER and NETRA_OIDC_AUDIENCE are required unless NETRA_DEV_AUTH_ENABLED is set";
  riskWeights <~ load_risk_weights e;
  _ <~ collect (Risk.Weights_Validate riskWeights) "risk weight must be between 0 and 5";
  weights <~ load_posture_weights e;
  _ <~ collect (Posture.Weights_Validate weights) "posture weights";
  let logLevel := to_lower (stringVar e "NETRA_LOG_LEVEL" "info") in
  _ <~ complain (negb (str_mem logLevel ["debug"; "info"; "warn"; "error"]))
         "NETRA_LOG_LEVEL must be debug, info, warn or error";
  let logFormat := to_lower (stringVar e "NETRA_LOG_FORMAT" "json") in
  _ <~ complain (negb (str_eqb logFormat "json") && negb (str_eqb logFormat "text"))
         "NETRA_LOG_FORMAT must be json or text";
  _ <~ complain (minConns >? maxConns) "NETRA_DB_MIN_CONNS must not exceed NETRA_DB_MAX_CONNS";
  let cfg := mkConfig env (mkLogConfig logLevel logFormat)
    (mkHTTPConfig (stringVar e "NETRA_HTTP_ADDR" ":8080") httpRead httpWrite httpShutdown
       (listVar e "NETRA_CORS_ALLOWED_ORIGINS"))
    (mkDatabaseConfig dbURL (wrap32 maxConns) (wrap32 minConns) autoMigrate)
    (mkOIDCConfig issuer (stringVar e "NETRA_OIDC_CLIENT_ID" "") audience devAuth devAuthTTL)
    (mkRiskConfig (mkRiskThresholds low medium elevated high) riskWeights)
    (mkPostureConfig weights (stringVar e "NETRA_EXPECTED_AGENT_VERSION" "")) in
  _ <~ collect (RiskThresholds_Validate (RThresholds (CRisk cfg))) "risk thresholds must be strictly increasing";
  pure cfg.
Definition Load (e : environ) : result Config :=
  match load_all e with
  | (cfg, []) => inl cfg
  | (_, errs) => inr (ErrConfig errs)
  end.

(** ** Reading a successful load *)

Lemma cbind_nil {A B} (m : collected A) (k : A → collected B) b :
  cbind m k = (b, []) → ∃ a, m = (a, []) ∧ k a = (b, []).
Proof.
  unfold cbind. destruct m as [a es]. destruct (k a) as [b' es'] eqn:Ek. intros [= <- Hes].
  apply app_nil in Hes as [-> ->]. by exists a.
Qed.
Lemma complain_nil c msg u : complain c msg = (u, []) → c = false.
Proof. by destruct c; intros [=]. Qed.
Lemma collect_nil {A} (r : result A) msg u : collect r msg = (u, []) → is_ok r = true.
Proof. unfold collect. intros H%complain_nil. by destruct (is_ok r). Qed.
Lemma durationVar_pos e key fallback v : 0 < fallback → durationVar e key fallback = (v, []) → 0 < v.
Proof.
  unfold durationVar. intros Hf. destruct (LookupEnv e key); [|by intros [= <-]].
  destruct (ParseDuration _) as [d|]; [|done]. destruct (d <=? 0) eqn:E; [done|]. intros [= <-]. zlia.
Qed.
Lemma floatVar_fpr e key fallback v : fpr fallback → floatVar e key fallback = (v, []) → fpr v.
Proof.
  unfold floatVar, parsed. intros Hf. destruct (LookupEnv e key); [|by intros [= <-]].
  destruct (ParseFloat _) eqn:E; [|done]. intros [= <-]. by eapply ParseFloat_fpr.
Qed.
Lemma load_risk_weights_fpr e w :
  load_risk_weights e = (w, []) → Forall (λ p, fpr (snd p)) (Risk.weight_fields w).
Proof.
  unfold load_risk_weights. cbv zeta. intros Hw.
  do 6 (apply cbind_nil in Hw as (? & ?%floatVar_fpr & Hw); [|apply fpr_of_int]).
  injection Hw as <-. by repeat constructor.
Qed.
(** One step of a successful load. *)
Ltac load_step H := lazymatch type of H with
  | cbind (complain _ _) _ = _ =>
      let u := fresh "u" in let E := fresh "E" in apply cbind_nil in H as (u & E%complain_nil & H)
  | cbind (collect _ _) _ = _ =>
      let u := fresh "u" in let E := fresh "E" in apply cbind_nil in H as (u & E%collect_nil & H)
  | cbind _ _ = _ =>
      let u := fresh "v" in let E := fresh "E" in apply cbind_nil in H as (u & E & H)
  end; cbv beta zeta in H.

(** A configuration that is safe to serve with. *)
Definition config_safe (c : Config) : Prop :=
  Env c ∈ [EnvDevelopment; EnvStaging; EnvProduction] ∧
  (DevAuthEnabled (OIDC c) = true → Env c = EnvDevelopment) ∧
  (DevAuthEnabled (OIDC c) = false → Issuer (OIDC c) ≠ "" ∧ Audience (OIDC c) ≠ "") ∧
  URL (Database c) ≠ "" ∧
  0 < ReadTimeout (HTTP c) ∧ 0 < WriteTimeout (HTTP c) ∧ 0 < ShutdownTimeout (HTTP c) ∧
  0 < DevAuthTTL (OIDC c) ∧
  Risk.Thresholds_Validate (Thresholds (CRisk c)) = inl () ∧
  Risk.weights_ok (RWeights (CRisk c)) ∧ Posture.Weights_Validate (PWeights (CPosture c)) = inl () ∧
  "" ∉ AllowedOrigins (HTTP c).
Lemma is_ok_unit (r : result unit) : is_ok r = true → r = inl ().
Proof. by destruct r as [[]|]. Qed.
Lemma listVar_nonempty e key : "" ∉ listVar e key.
Proof.
  unfold listVar. destruct (str_eqb _ _); [set_solver|]. intros [Hin Hf]%elem_of_lfilter. done.
Qed.
Lemma load_config_safe e c : load_all e = (c, []) → config_safe c.
Proof.
  intros H. unfold load_all in H. cbv zeta in H. repeat load_step H. injection H as <-.
  unfold config_safe. simpl.
  repeat match goal with
  | H : negb _ = false |- _ => apply negb_false_iff in H
  | H : durationVar _ _ _ = _ |- _ => apply durationVar_pos in H; [|reflexivity]
  | H : is_ok _ = true |- _ => apply is_ok_unit in H
  end.
  match goal with H : load_risk_weights _ = _ |- _ => apply load_risk_weights_fpr in H end.
  split_and!; try done.
  - by apply str_mem_elem.
  - intros Hd. match goal with H : _ && negb (str_eqb _ EnvDevelopment) = false |- _ =>
      rewrite Hd in H; apply negb_false_iff in H; by apply str_eqb_eq in H end.
  - intros Hd. match goal with H : negb _ && _ = false |- _ =>
      rewrite Hd in H; apply orb_false_iff in H as [H1 H2] end.
    split; intros Hx; [by rewrite Hx in H1|by rewrite Hx in H2].
  - intros Hx. match goal with H : str_eqb (stringVar _ "NETRA_DATABASE_URL" _) _ = false |- _ => by rewrite Hx in H end.
  - apply listVar_nonempty.
Qed.

(** Only a safe configuration is served.  If [Load] succeeds, development
    authentication is on only in the development environment, otherwise issuer and
    audience are set; the database is named, the timeouts are positive, the risk
    bands and both sets of weights pass their validation (so that the theorems on
    the engines apply), and no empty origin is allowed.  Otherwise [Load] fails
    and names at least one problem. *)
Theorem load_safe (e : environ) :
  match Load e with
  | inl c => config_safe c
  | inr err => ∃ msg msgs, err = ErrConfig (msg :: msgs)
  end.
Proof.
  unfold Load. destruct (load_all e) as [c [|msg msgs]] eqn:E; [by eapply load_config_safe|eauto].
Qed.

(** ** What validation lets through *)

Definition sample_env (extra : list (string * string)) : environ :=
  list_to_map (extra ++ [("NETRA_DATABASE_URL", "postgres://db"); ("NETRA_DEV_AUTH_ENABLED", "true")]).
(** A weight of NaN passes [Validate], and the pool size is truncated to 32 bits. *)
Lemma nan_weight_accepted :
  match Load (sample_env [("NETRA_RISK_WEIGHT_DEVICE", "nan")]) with
  | inl c => Risk.Device (RWeights (CRisk c)) = S754_nan
  | inr _ => False
  end.
Proof. vm_compute. reflexivity. Qed.
Lemma max_conns_truncated :
  match Load (sample_env [("NETRA_DB_MAX_CONNS", "4294967296")]) with
  | inl c => MaxConns (Database c) = 0
  | inr _ => False
  end.
Proof. vm_compute. reflexivity. Qed.
