(* ===== verification/Db.v ===== *)
(** * The database the stores share

    The tables of [migrations/*.sql] that the stores read and write, with the
    constraints the code relies on (primary keys, unique indexes, foreign keys,
    range checks), and the monad the stores run in.

    One operation sees one reading of the clock ([now], an argument of the
    operation); a timestamp is stored at microsecond precision.  JSON columns
    hold the values they encode.  Generated UUIDs are arguments, and a collision
    with an existing key is the unique violation PostgreSQL reports.

    Every round trip to the server can fail: [World] carries a list of faults,
    one per round trip.  A lost statement ([FBefore]) has no effect; a statement
    whose reply is lost ([FAfter]) has had its effect although the caller sees an
    error.  Rejections by the server that the schema does not spell out (text with
    a zero byte, resource limits) are faults of the first kind. *)

From S2P Require Import Prelude GoStd Encode Risk Posture Policy Behaviour.
Open Scope Z_scope.
Open Scope go_scope.

(** ** Enumerations of the schema *)

Inductive user_role := USER | SECURITY_ANALYST | ADMIN | AUDITOR.
Inductive device_state := PENDING | DEV_ACTIVE | REVOKED.
Inductive session_status := ACTIVE | RESTRICTED | ISOLATED | ENDED.
#[export] Instance user_role_eq : EqDecision user_role.
Proof. solve_decision. Defined.
#[export] Instance device_state_eq : EqDecision device_state.
Proof. solve_decision. Defined.
#[export] Instance session_status_eq : EqDecision session_status.
Proof. solve_decision. Defined.

Definition status_text (s : session_status) : string :=
  match s with ACTIVE => "ACTIVE" | RESTRICTED => "RESTRICTED"
             | ISOLATED => "ISOLATED" | ENDED => "ENDED" end.

(** ** Rows *)

Record user_row := mkUser {
  u_id : uuid; u_subject : string; u_email : string; u_display_name : string;
  u_department : option string; u_role : user_role;
  u_created_at : Z; u_updated_at : Z; u_disabled_at : option Z }.

Record device_row := mkDevice {
  d_id : uuid; d_uid : string; d_hostname : string; d_os_name : string; d_os_version : string;
  d_agent_version : string; d_public_key : string; d_key_algorithm : string;
  d_key_protection : string; d_state : device_state; d_enrolled_at : option Z;
  d_last_heartbeat_at : option Z; d_revoked_at : option Z; d_revoked_reason : option string;
  d_created_at : Z; d_updated_at : Z }.

Record token_row := mkToken {
  t_id : uuid; t_hash : string; t_label : option string; t_created_by : option uuid;
  t_created_at : Z; t_expires_at : Z; t_used_at : option Z; t_device_id : option uuid }.

Record replay_row := mkReplay { rn_nonce : string; rn_device : uuid; rn_seen_at : Z }.

Record nonce_row := mkNonce {
  n_nonce : string; n_user : uuid; n_issued_at : Z; n_expires_at : Z;
  n_used_at : option Z; n_session : option uuid }.

Record session_row := mkSession {
  s_id : uuid; s_user : uuid; s_device : uuid; s_status : session_status;
  s_auth_method : string; s_source_ip : option string; s_attestation : string;
  s_current_risk : option Z; s_current_level : option string;
  s_started_at : Z; s_last_seen_at : Z; s_ended_at : option Z }.

Record event_row := mkEvent {
  e_id : uuid; e_occurred_at : Z; e_received_at : Z; e_device : option uuid;
  e_user : option uuid; e_session : option uuid; e_type : string; e_resource : option uuid;
  e_severity : string; e_source : string; e_metadata : gmap string string;
  e_agent_event_id : option string; e_batch : option uuid }.

(** [r_application] is the key of the application the row refers to. *)
Record resource_row := mkResource {
  r_id : uuid; r_application : string; r_key : string; r_sensitivity : string }.

Record risk_row := mkRiskScore {
  rs_id : uuid; rs_session : uuid; rs_user : uuid; rs_device : uuid; rs_computed_at : Z;
  rs_score : Z; rs_level : string; rs_action : string; rs_dimensions : gmap string Z;
  rs_model : string; rs_trigger : option string }.
Record factor_row := mkFactorRow {
  rf_score : uuid; rf_code : string; rf_label : string; rf_dimension : string;
  rf_contribution : Z; rf_detail : option string }.

Record decision_row := mkDecision {
  pd_id : uuid; pd_session : uuid; pd_user : uuid; pd_device : uuid;
  pd_risk_score : option uuid; pd_resource : option uuid; pd_policy : option string;
  pd_version : option Z; pd_decision : string; pd_reason : string; pd_evaluated_at : Z;
  pd_incident : option uuid }.

Record incident_row := mkIncident {
  i_id : uuid; i_key : string; i_title : string; i_summary : option string;
  i_severity : string; i_status : string; i_user : option uuid; i_device : option uuid;
  i_session : option uuid; i_peak_risk : Z; i_opened_at : Z; i_updated_at : Z;
  i_closed_at : option Z }.
Record incident_event_row := mkIncidentEvent { ie_incident : uuid; ie_event : uuid; ie_ordinal : Z }.
Record note_row := mkNote {
  nt_id : uuid; nt_incident : uuid; nt_author : option uuid; nt_body : string; nt_created_at : Z }.

Record posture_row := mkPosture {
  p_id : uuid; p_device : uuid; p_collected_at : Z; p_trust_score : Z;
  p_signals : Posture.Signals; p_factors : list Posture.Factor; p_verified : bool;
  p_model : string }.

(** An audit row: the entry's fields with [NULL] for the empty string, and the
    chain hashes. *)
Record audit_row := mkAudit {
  a_seq : Z; a_at : Z; a_actor_type : string; a_actor_id : option string; a_action : string;
  a_target_type : option string; a_target_id : option string; a_result : string;
  a_request_id : option string; a_source_ip : option string; a_detail : gmap string json;
  a_prev_hash : string; a_hash : string }.

(** Each table is the list of its rows, in insertion order. *)
Record Tables := mkTables {
  users : list user_row; devices : list device_row; tokens : list token_row;
  replay_nonces : list replay_row; session_nonces : list nonce_row;
  sessions : list session_row; events : list event_row; resources : list resource_row;
  risk_scores : list risk_row; risk_factors : list factor_row;
  profiles : list Behaviour.Profile; policies : list Policy.Policy;
  decisions : list decision_row; incidents : list incident_row;
  incident_events : list incident_event_row; notes : list note_row;
  postures : list posture_row; audit_logs : list audit_row }.
Definition empty_tables : Tables :=
  mkTables [] [] [] [] [] [] [] [] [] [] [] [] [] [] [] [] [] [].

Definition set_users l t := mkTables l (devices t) (tokens t) (replay_nonces t) (session_nonces t) (sessions t) (events t) (resources t) (risk_scores t) (risk_factors t) (profiles t) (policies t) (decisions t) (incidents t) (incident_events t) (notes t) (postures t) (audit_logs t).
Definition set_devices l t := mkTables (users t) l (tokens t) (replay_nonces t) (session_nonces t) (sessions t) (events t) (resources t) (risk_scores t) (risk_factors t) (profiles t) (policies t) (decisions t) (incidents t) (incident_events t) (notes t) (postures t) (audit_logs t).
Definition set_tokens l t := mkTables (users t) (devices t) l (replay_nonces t) (session_nonces t) (sessions t) (events t) (resources t) (risk_scores t) (risk_factors t) (profiles t) (policies t) (decisions t) (incidents t) (incident_events t) (notes t) (postures t) (audit_logs t).
Definition set_replay_nonces l t := mkTables (users t) (devices t) (tokens t) l (session_nonces t) (sessions t) (events t) (resources t) (risk_scores t) (risk_factors t) (profiles t) (policies t) (decisions t) (incidents t) (incident_events t) (notes t) (postures t) (audit_logs t).
Definition set_session_nonces l t := mkTables (users t) (devices t) (tokens t) (replay_nonces t) l (sessions t) (events t) (resources t) (risk_scores t) (risk_factors t) (profiles t) (policies t) (decisions t) (incidents t) (incident_events t) (notes t) (postures t) (audit_logs t).
Definition set_sessions l t := mkTables (users t) (devices t) (tokens t) (replay_nonces t) (session_nonces t) l (events t) (resources t) (risk_scores t) (risk_factors t) (profiles t) (policies t) (decisions t) (incidents t) (incident_events t) (notes t) (postures t) (audit_logs t).
Definition set_events l t := mkTables (users t) (devices t) (tokens t) (replay_nonces t) (session_nonces t) (sessions t) l (resources t) (risk_scores t) (risk_factors t) (profiles t) (policies t) (decisions t) (incidents t) (incident_events t) (notes t) (postures t) (audit_logs t).
Definition set_risk_scores l t := mkTables (users t) (devices t) (tokens t) (replay_nonces t) (session_nonces t) (sessions t) (events t) (resources t) l (risk_factors t) (profiles t) (policies t) (decisions t) (incidents t) (incident_events t) (notes t) (postures t) (audit_logs t).
Definition set_risk_factors l t := mkTables (users t) (devices t) (tokens t) (replay_nonces t) (session_nonces t) (sessions t) (events t) (resources t) (risk_scores t) l (profiles t) (policies t) (decisions t) (incidents t) (incident_events t) (notes t) (postures t) (audit_logs t).
Definition set_profiles l t := mkTables (users t) (devices t) (tokens t) (replay_nonces t) (session_nonces t) (sessions t) (events t) (resources t) (risk_scores t) (risk_factors t) l (policies t) (decisions t) (incidents t) (incident_events t) (notes t) (postures t) (audit_logs t).
Definition set_policies l t := mkTables (users t) (devices t) (tokens t) (replay_nonces t) (session_nonces t) (sessions t) (events t) (resources t) (risk_scores t) (risk_factors t) (profiles t) l (decisions t) (incidents t) (incident_events t) (notes t) (postures t) (audit_logs t).
Definition set_decisions l t := mkTables (users t) (devices t) (tokens t) (replay_nonces t) (session_nonces t) (sessions t) (events t) (resources t) (risk_scores t) (risk_factors t) (profiles t) (policies t) l (incidents t) (incident_events t) (notes t) (postures t) (audit_logs t).
Definition set_incidents l t := mkTables (users t) (devices t) (tokens t) (replay_nonces t) (session_nonces t) (sessions t) (events t) (resources t) (risk_scores t) (risk_factors t) (profiles t) (policies t) (decisions t) l (incident_events t) (notes t) (postures t) (audit_logs t).
Definition set_incident_events l t := mkTables (users t) (devices t) (tokens t) (replay_nonces t) (session_nonces t) (sessions t) (events t) (resources t) (risk_scores t) (risk_factors t) (profiles t) (policies t) (decisions t) (incidents t) l (notes t) (postures t) (audit_logs t).
Definition set_notes l t := mkTables (users t) (devices t) (tokens t) (replay_nonces t) (session_nonces t) (sessions t) (events t) (resources t) (risk_scores t) (risk_factors t) (profiles t) (policies t) (decisions t) (incidents t) (incident_events t) l (postures t) (audit_logs t).
Definition set_postures l t := mkTables (users t) (devices t) (tokens t) (replay_nonces t) (session_nonces t) (sessions t) (events t) (resources t) (risk_scores t) (risk_factors t) (profiles t) (policies t) (decisions t) (incidents t) (incident_events t) (notes t) l (audit_logs t).
Definition set_audit_logs l t := mkTables (users t) (devices t) (tokens t) (replay_nonces t) (session_nonces t) (sessions t) (events t) (resources t) (risk_scores t) (risk_factors t) (profiles t) (policies t) (decisions t) (incidents t) (incident_events t) (notes t) (postures t) l.

(** ** Queries *)

(** A timestamp as PostgreSQL keeps it. *)
Definition pg_time (t : Z) : Z := t / microsecond * microsecond.
(** [NULLIF(s, '')] and [COALESCE(s, '')]. *)
Definition nullif (s : string) : option string := if str_eqb s "" then None else Some s.
Definition coalesce (s : option string) : string := default "" s.

(** [WHERE]-lookup of the row with a key (keys are unique). *)
Definition find {A} (p : A → bool) (l : list A) : option A := List.find p l.
(** [UPDATE ... WHERE p] and its [RowsAffected]. *)
Definition update {A} (p : A → bool) (f : A → A) (l : list A) : list A :=
  (λ r, if p r then f r else r) <$> l.
Definition count {A} (p : A → bool) (l : list A) : Z := Z.of_nat (length (List.filter p l)).
(** [ORDER BY key DESC LIMIT 1]. *)
Definition latest {A} (key : A → Z) (l : list A) : option A :=
  hd_error (sort_stable (λ x y, key x >? key y) l).
Definition order_desc {A} (key : A → Z) (l : list A) : list A :=
  sort_stable (λ x y, key x >? key y) l.
Definition order_asc {A} (key : A → Z) (l : list A) : list A :=
  sort_stable (λ x y, key x <? key y) l.
Definition limit {A} (n : Z) (l : list A) : list A := take (Z.to_nat n) l.
(** [if limit <= 0 || limit > cap { limit = dflt }]. *)
Definition clamp_limit (n cap dflt : Z) : Z := if (n <=? 0) || (n >? cap) then dflt else n.

Definition has_user (t : Tables) (u : uuid) : bool := existsb (λ r, (u_id r =? u)%N) (users t).
Definition has_device (t : Tables) (d : uuid) : bool := existsb (λ r, (d_id r =? d)%N) (devices t).
Definition has_session (t : Tables) (s : uuid) : bool := existsb (λ r, (s_id r =? s)%N) (sessions t).
Definition has_incident (t : Tables) (i : uuid) : bool := existsb (λ r, (i_id r =? i)%N) (incidents t).
Definition has_event (t : Tables) (e : uuid) : bool := existsb (λ r, (e_id r =? e)%N) (events t).
Definition has_score (t : Tables) (i : uuid) : bool := existsb (λ r, (rs_id r =? i)%N) (risk_scores t).
(** A nullable foreign key. *)
Definition fk_opt {A} (has : A → bool) (v : option A) : bool :=
  match v with None => true | Some x => has x end.
(** [SMALLINT] and [INTEGER] columns. *)
Definition int2 (z : Z) : bool := (-32768 <=? z) && (z <=? 32767).
Definition int4 (z : Z) : bool := (- 2 ^ 31 <=? z) && (z <? 2 ^ 31).

(** ** The monad *)

Inductive fault := FNone | FBefore | FAfter.
Record World := mkWorld { db : Tables; faults : list fault }.
Definition M (A : Type) : Type := World → (A + error) * World.

Definition ret {A} (a : A) : M A := λ w, (inl a, w).
Definition fail {A} (e : error) : M A := λ w, (inr e, w).
Definition bind {A B} (m : M A) (k : A → M B) : M B := λ w,
  match m w with (inl a, w') => k a w' | (inr e, w') => (inr e, w') end.
Notation "x <-- m ;; k" := (bind m (λ x, k))
  (at level 100, m at next level, right associativity, only parsing) : go_scope.
Notation "m ;;; k" := (bind m (λ _, k))
  (at level 100, right associativity, only parsing) : go_scope.
(** [if err != nil] handled by the caller. *)
Definition try {A} (m : M A) : M (A + error) := λ w,
  match m w with (r, w') => (inl r, w') end.
Definition lift {A} (r : A + error) : M A := λ w, (r, w).

(** The fate of the next round trip. *)
Definition next_fault (w : World) : fault * World :=
  match faults w with [] => (FNone, w) | f :: fs => (f, mkWorld (db w) fs) end.

(** A statement: its result and effect, or the constraint it violates. *)
Definition stmt {A} (f : Tables → (A * Tables) + error) : M A := λ w,
  let '(x, w) := next_fault w in
  match x, f (db w) with
  | FBefore, _ => (inr (ErrDB "connection"), w)
  | FNone, inl (a, t') => (inl a, mkWorld t' (faults w))
  | FNone, inr e => (inr e, w)
  | FAfter, inl (_, t') => (inr (ErrDB "connection"), mkWorld t' (faults w))
  | FAfter, inr e => (inr (ErrDB "connection"), w)
  end.
(** A query: reads only. *)
Definition query {A} (f : Tables → A) : M A := stmt (λ t, inl (f t, t)).
(** [QueryRow().Scan()]: [ErrNoRows] when there is no row. *)
Definition query_row {A} (f : Tables → option A) : M A :=
  stmt (λ t, match f t with Some a => inl (a, t) | None => inr ErrNoRows end).
(** [Exec] of an [INSERT] guarded by its constraints. *)
Definition insert_if (ok : Tables → option error) (f : Tables → Tables) : M unit :=
  stmt (λ t, match ok t with Some e => inr e | None => inl ((), f t) end).
(** [Exec] of an [UPDATE] or [DELETE]: returns [RowsAffected]. *)
Definition exec {A} (f : Tables → A * Tables) : M A := stmt (λ t, inl (f t)).

(** [Begin], the body, [Commit], with the deferred [Rollback]. *)
Definition tx {A} (body : M A) : M A := λ w,
  let '(x, w) := next_fault w in
  match x with
  | FBefore | FAfter => (inr (ErrDB "begin"), w)
  | FNone =>
      match body w with
      | (inr e, w') => (inr e, mkWorld (db w) (faults w'))
      | (inl a, w') =>
          let '(y, w'') := next_fault w' in
          match y with
          | FNone => (inl a, w'')
          | FBefore => (inr (ErrDB "commit"), mkWorld (db w) (faults w''))
          | FAfter => (inr (ErrDB "commit"), w'')
          end
      end
  end.

(** ** Reasoning about effects

    [keeps P m]: whatever the faults, [m] preserves [P] of the tables.  This is
    the rule by which invariants go through the stores: every statement of an
    operation preserves the invariant, hence the operation does. *)
Definition keeps {A} (P : Tables → Prop) (m : M A) : Prop :=
  ∀ w r w', P (db w) → m w = (r, w') → P (db w').
(** [m] leaves the tables as they are. *)
Definition pure_read {A} (m : M A) : Prop := ∀ w r w', m w = (r, w') → db w' = db w.

Lemma next_fault_db w x w' : next_fault w = (x, w') → db w' = db w.
Proof. unfold next_fault. destruct (faults w); intros [= <- <-]; done. Qed.

Section Keeps.
Context (P : Tables → Prop).

Lemma keeps_ret {A} (a : A) : keeps P (ret a).
Proof using. intros w r w' HP [= <- <-]. done. Qed.
Lemma keeps_fail {A} e : keeps P (@fail A e).
Proof using. intros w r w' HP [= <- <-]. done. Qed.
Lemma keeps_lift {A} (r : A + error) : keeps P (lift r).
Proof using. intros w r' w' HP [= <- <-]. done. Qed.
Lemma keeps_bind {A B} (m : M A) (k : A → M B) :
  keeps P m → (∀ a, keeps P (k a)) → keeps P (bind m k).
Proof using.
  intros Hm Hk w r w' HP. unfold bind. destruct (m w) as [[a|e] w1] eqn:E.
  - intros H. by eapply Hk; [eapply Hm|].
  - intros [= <- <-]. by eapply Hm.
Qed.
Lemma keeps_try {A} (m : M A) : keeps P m → keeps P (try m).
Proof using.
  intros Hm w r w' HP. unfold try. destruct (m w) as [r1 w1] eqn:E.
  intros [= <- <-]. by eapply Hm.
Qed.
Lemma keeps_if {A} (b : bool) (m m' : M A) : keeps P m → keeps P m' → keeps P (if b then m else m').
Proof using. by destruct b. Qed.
Lemma keeps_stmt {A} (f : Tables → (A * Tables) + error) :
  (∀ t a t', P t → f t = inl (a, t') → P t') → keeps P (stmt f).
Proof using.
  intros Hf w r w' HP. unfold stmt. destruct (next_fault w) as [x w1] eqn:E.
  apply next_fault_db in E. rewrite <-E in HP.
  destruct x, (f (db w1)) as [[a t']|e] eqn:Ef; intros [= <- <-]; simpl; eauto.
Qed.
Lemma keeps_query {A} (f : Tables → A) : keeps P (query f).
Proof using. apply keeps_stmt. by intros t a t' HP [= _ <-]. Qed.
Lemma keeps_query_row {A} (f : Tables → option A) : keeps P (query_row f).
Proof using. apply keeps_stmt. intros t a t' HP. destruct (f t); by intros [= _ <-]. Qed.
Lemma keeps_insert ok f :
  (∀ t, P t → ok t = None → P (f t)) → keeps P (insert_if ok f).
Proof using.
  intros Hf. apply keeps_stmt. intros t a t' HP. destruct (ok t) eqn:E; [done|].
  intros [= _ <-]. auto.
Qed.
Lemma keeps_exec {A} (f : Tables → A * Tables) :
  (∀ t, P t → P (snd (f t))) → keeps P (exec f).
Proof using.
  intros Hf. apply keeps_stmt. intros t a t' HP [= E].
  specialize (Hf t HP). by rewrite E in Hf.
Qed.
Lemma keeps_tx {A} (m : M A) : keeps P m → keeps P (tx m).
Proof using.
  intros Hm w r w' HP. unfold tx. destruct (next_fault w) as [x w1] eqn:E.
  apply next_fault_db in E. rewrite <-E in HP.
  destruct x; [|intros [= <- <-]; done..].
  destruct (m w1) as [[a|e] w2] eqn:Em; [|intros [= <- <-]; done].
  destruct (next_fault w2) as [y w3] eqn:E2. apply next_fault_db in E2.
  assert (P (db w3)) as H3 by (rewrite E2; by eapply Hm).
  destruct y; intros [= <- <-]; done.
Qed.
End Keeps.

(** Decompose a program into its statements. *)
Ltac keeps_step := match goal with
  | |- keeps _ (bind _ _) => apply keeps_bind; [|intros ?]
  | |- keeps _ (if _ then _ else _) => apply keeps_if
  | |- keeps _ (tx _) => apply keeps_tx
  | |- keeps _ (try _) => apply keeps_try
  | |- keeps _ (ret _) => apply keeps_ret
  | |- keeps _ (fail _) => apply keeps_fail
  | |- keeps _ (lift _) => apply keeps_lift
  | |- keeps _ (query _) => apply keeps_query
  | |- keeps _ (query_row _) => apply keeps_query_row
  | |- keeps _ (match ?x with _ => _ end) => destruct x
  end.
Ltac keeps := repeat (cbv zeta; keeps_step).

(** *** Triples

    [hoare P m Q E]: from tables satisfying [P], whatever the faults, a result
    [a] leaves [Q a] and an error [e] leaves [E e]. *)
Definition hoare {A} (P : Tables → Prop) (m : M A) (Q : A → Tables → Prop)
    (E : error → Tables → Prop) : Prop :=
  ∀ w r w', P (db w) → m w = (r, w') →
    match r with inl a => Q a (db w') | inr e => E e (db w') end.

Section Hoare.
Implicit Types (P : Tables → Prop) (E : error → Tables → Prop).

Lemma hoare_ret {A} (a : A) P Q E : (∀ t, P t → Q a t) → hoare P (ret a) Q E.
Proof. intros H w r w' HP [= <- <-]. auto. Qed.
Lemma hoare_fail {A} e P (Q : A → _) E : (∀ t, P t → E e t) → hoare P (fail e) Q E.
Proof. intros H w r w' HP [= <- <-]. auto. Qed.
Lemma hoare_lift {A} (x : A + error) P Q E :
  (∀ t, P t → match x with inl a => Q a t | inr e => E e t end) → hoare P (lift x) Q E.
Proof. intros H w r w' HP [= <- <-]. by apply H. Qed.
Lemma hoare_bind {A B} (m : M A) (k : A → M B) P Q R E :
  hoare P m Q E → (∀ a, hoare (Q a) (k a) R E) → hoare P (bind m k) R E.
Proof.
  intros Hm Hk w r w' HP. unfold bind. destruct (m w) as [[a|e] w1] eqn:Em.
  - intros H. apply (Hk a w1 r w'); [|done]. by apply (Hm w (inl a) w1).
  - intros [= <- <-]. by apply (Hm w (inr e) w1).
Qed.
Lemma hoare_try {A} (m : M A) P Q E (E' : error → Tables → Prop) :
  hoare P m Q E → hoare P (try m) (λ r t, match r with inl a => Q a t | inr e => E e t end) E'.
Proof.
  intros Hm w r w' HP. unfold try. destruct (m w) as [x w1] eqn:Em. intros [= <- <-].
  by apply (Hm w x w1).
Qed.
Lemma hoare_stmt {A} (f : Tables → (A * Tables) + error) P Q E :
  (∀ t, P t → match f t with
    | inl (a, t') => Q a t' ∧ E (ErrDB "connection") t'
    | inr e => E e t end) →
  (∀ t, P t → E (ErrDB "connection") t) →
  hoare P (stmt f) Q E.
Proof.
  intros Hf Hl w r w' HP. unfold stmt. destruct (next_fault w) as [x w1] eqn:En.
  apply next_fault_db in En. rewrite <-En in HP. specialize (Hf _ HP). specialize (Hl _ HP).
  destruct x, (f (db w1)) as [[a t']|e]; intros [= <- <-]; simpl; try done; apply Hf.
Qed.
Lemma hoare_query {A} (f : Tables → A) P (E : error → Tables → Prop) :
  (∀ t, P t → E (ErrDB "connection") t) → hoare P (query f) (λ a t, P t ∧ a = f t) E.
Proof. intros H. apply hoare_stmt; auto. Qed.
Lemma hoare_query_row {A} (f : Tables → option A) P E :
  (∀ t, P t → E (ErrDB "connection") t) → (∀ t, P t → f t = None → E ErrNoRows t) →
  hoare P (query_row f) (λ a t, P t ∧ f t = Some a) E.
Proof.
  intros H1 H2. apply hoare_stmt; [|auto]. intros t HP. destruct (f t) eqn:Ef; auto.
Qed.
(** A read whose failure the caller inspects. *)
Lemma hoare_try_row {A} (f : Tables → option A) P E :
  hoare P (try (query_row f))
    (λ r t, P t ∧ match r with inl a => f t = Some a | inr e => e = ErrNoRows → f t = None end) E.
Proof.
  intros w r w' HP. unfold try, query_row, stmt.
  destruct (next_fault w) as [x w1] eqn:En. apply next_fault_db in En. rewrite <-En in HP.
  destruct x, (f (db w1)) eqn:Ef; intros [= <- <-]; simpl; done.
Qed.
Lemma hoare_insert ok f P (Q : unit → Tables → Prop) E :
  (∀ t, P t → match ok t with
    | None => Q () (f t) ∧ E (ErrDB "connection") (f t) | Some e => E e t end) →
  (∀ t, P t → E (ErrDB "connection") t) →
  hoare P (insert_if ok f) Q E.
Proof.
  intros Hf Hl. apply hoare_stmt; [|done]. intros t HP. specialize (Hf t HP).
  destruct (ok t); done.
Qed.
Lemma hoare_tx {A} (m : M A) P Q E :
  hoare P m Q (λ e _, ∀ t, P t → E e t) →
  (∀ a t, Q a t → E (ErrDB "commit") t) →
  (∀ t, P t → E (ErrDB "commit") t) → (∀ t, P t → E (ErrDB "begin") t) →
  hoare P (tx m) Q E.
Proof.
  intros Hm H1 H2 H3 w r w' HP. unfold tx. destruct (next_fault w) as [x w1] eqn:En.
  apply next_fault_db in En. rewrite <-En in HP.
  destruct x; [|intros [= <- <-]; auto..].
  destruct (m w1) as [[a|e] w2] eqn:Em.
  - pose proof (Hm w1 _ w2 HP Em) as HQ. simpl in HQ.
    destruct (next_fault w2) as [y w3] eqn:E2. apply next_fault_db in E2.
    rewrite <-E2 in HQ. destruct y; intros [= <- <-]; simpl; eauto.
  - pose proof (Hm w1 _ w2 HP Em) as HE. intros [= <- <-]. simpl in *. auto.
Qed.
Lemma hoare_weaken {A} (m : M A) P P' Q Q' (E E' : error → Tables → Prop) :
  hoare P m Q E → (∀ t, P' t → P t) → (∀ a t, Q a t → Q' a t) → (∀ e t, E e t → E' e t) →
  hoare P' m Q' E'.
Proof.
  intros Hm H1 H2 H3 w r w' HP Hr. specialize (Hm w r w' (H1 _ HP) Hr). destruct r; auto.
Qed.
Lemma hoare_keeps {A} (m : M A) P : hoare P m (λ _, P) (λ _, P) → keeps P m.
Proof. intros H w r w' HP Hr. specialize (H w r w' HP Hr). by destruct r. Qed.
Lemma keeps_hoare {A} (m : M A) P : keeps P m → hoare P m (λ _, P) (λ _, P).
Proof. intros H w r w' HP Hr. specialize (H w r w' HP Hr). by destruct r. Qed.
(** A call whose error is ignored. *)
Lemma hoare_try_keeps {A} (m : M A) P E : keeps P m → hoare P (try m) (λ _, P) E.
Proof.
  intros H w r w' HP. unfold try. destruct (m w) as [x w1] eqn:Em. intros [= <- <-].
  by apply (H w x w1).
Qed.
End Hoare.

(** A failed transaction has no effect, unless the reply to its commit was
    lost. *)
Lemma tx_atomic {A} (m : M A) w e w' :
  tx m w = (inr e, w') → e ≠ ErrDB "commit" → db w' = db w.
Proof.
  unfold tx. destruct (next_fault w) as [x w1] eqn:E. apply next_fault_db in E.
  destruct x; [|intros [= <- <-]; done..].
  destruct (m w1) as [[a|e1] w2] eqn:Em; [|intros [= <- <-] _; done].
  destruct (next_fault w2) as [[] w3]; intros [= <- <-]; done.
Qed.

(** Runs without faults: the equations that evaluate a program. *)
Definition calm (t : Tables) : World := mkWorld t [].
Lemma stmt_calm {A} (f : Tables → (A * Tables) + error) t :
  stmt f (calm t) = match f t with
    | inl (a, t') => (inl a, calm t') | inr e => (inr e, calm t) end.
Proof. done. Qed.
Lemma tx_calm {A} (m : M A) t :
  tx m (calm t) = match m (calm t) with
    | (inl a, w') => let '(y, w'') := next_fault w' in
        match y with FNone => (inl a, w'')
        | FBefore => (inr (ErrDB "commit"), mkWorld t (faults w''))
        | FAfter => (inr (ErrDB "commit"), w'') end
    | (inr e, w') => (inr e, mkWorld t (faults w')) end.
Proof. done. Qed.

(** ** Tables as lists *)

Lemma find_some {A} (p : A → bool) l x : find p l = Some x → x ∈ l ∧ p x = true.
Proof. intros H. apply List.find_some in H as [? ?]. split; [by apply list_elem_of_In|done]. Qed.
Lemma find_none {A} (p : A → bool) l x : find p l = None → x ∈ l → p x = false.
Proof. intros H Hx. apply (List.find_none _ _ H). by apply list_elem_of_In. Qed.
Lemma find_unique {A} (p : A → bool) l x :
  x ∈ l → p x = true → (∀ y, y ∈ l → p y = true → y = x) → find p l = Some x.
Proof.
  intros Hx Hp Hu. destruct (find p l) as [y|] eqn:E.
  - apply find_some in E as [Hy Hpy]. f_equal. auto.
  - by rewrite (find_none p l x E Hx) in Hp.
Qed.
Lemma elem_of_update {A} (p : A → bool) f l y :
  y ∈ update p f l ↔ ∃ x, x ∈ l ∧ y = if p x then f x else x.
Proof. unfold update. rewrite list_elem_of_fmap. naive_solver. Qed.
Lemma update_keys {A K} (key : A → K) (p : A → bool) f l :
  (∀ x, key (f x) = key x) → key <$> update p f l = key <$> l.
Proof.
  intros H. unfold update. rewrite <-list_fmap_compose. apply list_fmap_ext.
  intros i x _. unfold compose. destruct (p x); [apply H|done].
Qed.
Lemma count_pos {A} (p : A → bool) l : 0 < count p l ↔ ∃ x, x ∈ l ∧ p x = true.
Proof.
  unfold count. split.
  - destruct (List.filter p l) as [|x l'] eqn:E; simpl; [lia|]. intros _. exists x.
    assert (In x (List.filter p l)) as Hin by (rewrite E; by left).
    apply filter_In in Hin as [? ?]. split; [by apply list_elem_of_In|done].
  - intros (x & Hx & Hp). destruct (List.filter p l) as [|y l'] eqn:E; simpl; [|lia].
    assert (In x (List.filter p l)) as Hin by (apply filter_In; split; [by apply list_elem_of_In|done]).
    by rewrite E in Hin.
Qed.
Lemma latest_elem {A} (key : A → Z) l x : latest key l = Some x → x ∈ l.
Proof.
  unfold latest. intros H. rewrite <-(sort_stable_in (λ x y, key x >? key y) x l).
  destruct (sort_stable _ l); [done|]. injection H as ->. left.
Qed.
Lemma latest_max {A} (key : A → Z) l x y : latest key l = Some x → y ∈ l → key y <= key x.
Proof.
  unfold latest. intros H Hy.
  assert (∀ x y : A, (key x >? key y) = true → (key y >? key x) = false) as Hasym.
  { intros a b. rewrite !Z.gtb_ltb. intros. apply Z.ltb_ge. zlia. }
  pose proof (sort_stable_sorted (λ x y, key x >? key y) Hasym l) as Hs.
  rewrite <-(sort_stable_in (λ x y, key x >? key y) y l) in Hy.
  apply Sorted_StronglySorted in Hs.
  2:{ intros a b c. unfold notless. rewrite !Z.gtb_ltb. intros ??. apply Z.ltb_ge. zlia. }
  destruct (sort_stable _ l) as [|z l']; [done|]. injection H as ->.
  apply StronglySorted_inv in Hs as [_ Hf]. apply elem_of_cons in Hy as [->|Hy]; [lia|].
  rewrite Forall_forall in Hf. specialize (Hf y Hy). unfold notless in Hf.
  rewrite Z.gtb_ltb in Hf. zlia.
Qed.
