(* ===== verification/AuditLog.v ===== *)
(** * Package [audit]: the tamper-evident log

    [audit.go] (the hash chain) and [store.go] (append, paging, verification).
    SHA-256 and PostgreSQL's reading of an [inet] are parameters. *)

From S2P Require Import Prelude GoStd Encode Json Decode Columns Db.
From Stdlib Require Import Ascii.
Open Scope Z_scope.
Open Scope go_scope.

(** ** audit.go *)

Abbreviation ActorType := string (only parsing).
Definition ActorUser : ActorType := "USER".
Definition ActorDevice : ActorType := "DEVICE".
Definition ActorSystem : ActorType := "SYSTEM".
Definition ActorSimulator : ActorType := "SIMULATOR".

Definition ResultSuccess : string := "SUCCESS".
Definition ResultDenied : string := "DENIED".
Definition ResultFailure : string := "FAILURE".

Record Entry := mkEntry {
  At : Z; EActorType : ActorType; ActorID : string; Action : string;
  TargetType : string; TargetID : string; EResult : string; RequestID : string;
  SourceIP : string; Detail : gmap string json }.
Record Record_ := mkRecord { Seq : Z; REntry : Entry; PrevHash : string; Hash : string }.

(** A [nil] detail and an empty one are the same map. *)
Definition Normalize (e : Entry) : Entry :=
  mkEntry (time_truncate_us (At e)) (EActorType e) (ActorID e) (Action e) (TargetType e)
    (TargetID e) (if str_eqb (EResult e) "" then ResultSuccess else EResult e)
    (RequestID e) (SourceIP e) (Detail e).

Definition CanonicalBytes (e : Entry) : string :=
  let n := Normalize e in
  marshal (JObject
    [("at", JString (rfc3339_nano (At n))); ("actor_type", JString (EActorType n));
     ("actor_id", JString (ActorID n)); ("action", JString (Action n));
     ("target_type", JString (TargetType n)); ("target_id", JString (TargetID n));
     ("result", JString (EResult n)); ("request_id", JString (RequestID n));
     ("source_ip", JString (SourceIP n)); ("detail", json_map (Detail n))]).

Definition equalHash (a b : string) : bool :=
  if (len a =? 0) && (len b =? 0) then true
  else if negb (len a =? len b) then false
  else str_eqb a b.

Section Chain.
Context (sha256 : string → string).

Definition ComputeHash (prevHash : string) (e : Entry) : string :=
  sha256 (prevHash +:+ CanonicalBytes e)%stdpp.

(** The loop of [VerifyChainFrom]; [last] is the sequence number of the record
    before, if any. *)
Fixpoint verify_loop (prev : string) (last : option Z) (records : list Record_) : result unit :=
  match records with
  | [] => inl ()
  | record :: rest =>
      if match last with Some l => Seq record <=? l | None => false end then
        inr (ErrChain (Seq record) "records are not in ascending sequence order")
      else if negb (equalHash (PrevHash record) prev) then
        inr (ErrChain (Seq record) "previous hash does not match the preceding record")
      else if negb (equalHash (Hash record) (ComputeHash prev (REntry record))) then
        inr (ErrChain (Seq record) "record contents do not match its hash")
      else verify_loop (Hash record) (Some (Seq record)) rest
  end.
Definition VerifyChainFrom (prev : string) (records : list Record_) : result unit :=
  verify_loop prev None records.
Definition VerifyChain (records : list Record_) : result unit := VerifyChainFrom "" records.

(** ** The chain *)

Lemma equalHash_eq a b : equalHash a b = true ↔ a = b.
Proof.
  unfold equalHash. destruct (_ && _) eqn:E.
  - zbool. unfold len in *. destruct a, b; simpl in *; try lia. done.
  - destruct (negb _) eqn:E2; [|apply str_eqb_eq]. zbool. split; [done|]. by intros ->.
Qed.

(** [linked prev rs]: every record carries the hash of the one before and the
    hash of its own contents. *)
Fixpoint linked (prev : string) (rs : list Record_) : Prop :=
  match rs with
  | [] => True
  | r :: rs => PrevHash r = prev ∧ Hash r = ComputeHash prev (REntry r) ∧ linked (Hash r) rs
  end.
Definition chain_end (prev : string) (rs : list Record_) : string :=
  default prev (Hash <$> last rs).

Lemma chain_end_cons prev r rs : chain_end prev (r :: rs) = chain_end (Hash r) rs.
Proof.
  unfold chain_end. destruct rs as [|r' rs]; [done|]. rewrite last_cons_cons.
  destruct (last (r' :: rs)) eqn:E; [done|]. by apply last_None in E.
Qed.
Lemma linked_app prev rs rs' :
  linked prev (rs ++ rs') ↔ linked prev rs ∧ linked (chain_end prev rs) rs'.
Proof.
  revert prev. induction rs as [|r rs IH]; intros prev; [simpl; tauto|].
  rewrite chain_end_cons. simpl. rewrite IH. tauto.
Qed.

(** [VerifyChainFrom] accepts exactly the linked lists in ascending order. *)
Lemma verify_loop_ok prev l rs :
  verify_loop prev l rs = inl () ↔
  linked prev rs ∧ Sorted Z.lt (Seq <$> rs) ∧
  (∀ x r, l = Some x → head rs = Some r → x < Seq r).
Proof.
  revert prev l. induction rs as [|r rs IH]; intros prev l.
  { split; [|done]. intros _. split_and!; [done|constructor|done]. }
  cbn [verify_loop linked]. split.
  - destruct (match l with Some _ => _ | None => _ end) eqn:E1; [done|].
    destruct (negb (equalHash (PrevHash r) _)) eqn:E2; [done|].
    destruct (negb (equalHash (Hash r) _)) eqn:E3; [done|].
    apply negb_false_iff, equalHash_eq in E2, E3.
    intros (Hl & Hs & Hlt)%IH. split_and!; try done.
    + rewrite fmap_cons. constructor; [done|]. destruct rs as [|r' rs]; constructor. by apply Hlt.
    + intros x r' -> [= <-]. zlia.
  - intros ((Hp & Hh & Hl) & Hs & Hlt).
    apply Sorted_inv in Hs as [Hs Hd]. fold (Seq <$> rs) in *.
    replace (match l with Some _ => _ | None => _ end) with false.
    2:{ destruct l as [x|]; [|done]. symmetry. apply Z.leb_gt. by apply Hlt. }
    replace (negb (equalHash (PrevHash r) prev)) with false
      by (symmetry; apply negb_false_iff; by apply equalHash_eq).
    replace (negb (equalHash (Hash r) _)) with false
      by (symmetry; apply negb_false_iff; by apply equalHash_eq).
    apply IH. split_and!; [done|done|]. intros x r' [= <-] Hr.
    destruct rs as [|r2 rs]; [done|]. injection Hr as <-. by apply HdRel_inv in Hd.
Qed.
Lemma VerifyChainFrom_ok prev rs :
  VerifyChainFrom prev rs = inl () ↔ linked prev rs ∧ Sorted Z.lt (Seq <$> rs).
Proof. unfold VerifyChainFrom. rewrite verify_loop_ok. naive_solver. Qed.

(** The first failure is the failure of the whole, and success continues. *)
Lemma verify_loop_app prev l rs rs' :
  verify_loop prev l (rs ++ rs') =
  match verify_loop prev l rs with
  | inl _ => verify_loop (chain_end prev rs) (match last rs with Some r => Some (Seq r) | None => l end) rs'
  | inr e => inr e
  end.
Proof.
  revert prev l. induction rs as [|r rs IH]; intros prev l; [done|].
  cbn [app verify_loop]. destruct (match l with Some _ => _ | None => _ end); [done|].
  destruct (negb _); [done|]. destruct (negb _); [done|]. rewrite IH, chain_end_cons.
  destruct rs as [|r' rs]; [done|]. rewrite last_cons_cons.
  destruct (last (r' :: rs)) eqn:E; [done|]. by apply last_None in E.
Qed.
Lemma verify_loop_start prev x rs :
  (∀ r, head rs = Some r → x < Seq r) → verify_loop prev (Some x) rs = verify_loop prev None rs.
Proof.
  destruct rs as [|r rs]; intros H; [done|]. simpl.
  replace (Seq r <=? x) with false by (symmetry; apply Z.leb_gt; by apply H). done.
Qed.
End Chain.

Section Store.
Context (sha256 : string → string).
Context (inet : string → option string).

(** ** store.go *)

Definition nullable (s : string) : option string := nullif s.
Definition deref (s : option string) : string := coalesce s.

Definition last_seq (t : Tables) : Z := foldr Z.max 0 (a_seq <$> audit_logs t).
(** The head of the chain: [ORDER BY seq DESC LIMIT 1]. *)
Definition head_hash (t : Tables) : option string := a_hash <$> latest a_seq (audit_logs t).

(** [Record]; [gap] is how many identity values were burned by transactions
    that rolled back since the last row. *)
Definition Record (now : Z) (gap : N) (entry : Entry) : M unit :=
  let entry := if time_isZero (At entry) then
      mkEntry now (EActorType entry) (ActorID entry) (Action entry) (TargetType entry)
        (TargetID entry) (EResult entry) (RequestID entry) (SourceIP entry) (Detail entry)
    else entry in
  let entry := Normalize entry in
  if str_eqb (Action entry) "" || str_eqb (EActorType entry) "" then fail ErrAuditEntry else
  tx ((* SELECT pg_advisory_xact_lock: appends are serialised *)
      query (λ _, ()) ;;;
      r <-- try (query_row head_hash) ;;
      prevHash <-- match r with
        | inl h => ret h
        | inr ErrNoRows => ret ""
        | inr _ => fail (ErrDB "read audit chain head")
        end ;;
      let hash := ComputeHash sha256 prevHash entry in
      insert_if
        (λ t, if negb (str_mem (EActorType entry) [ActorUser; ActorDevice; ActorSystem; ActorSimulator])
              then Some (ErrDB "audit_logs_actor_type_known")
              else match nullable (SourceIP entry) with
                   | Some ip => match inet ip with None => Some (ErrDB "invalid inet") | Some _ => None end
                   | None => None end)
        (λ t, set_audit_logs (audit_logs t ++ [mkAudit (1 + last_seq t + Z.of_N gap)
           (pg_time (At entry)) (EActorType entry) (nullable (ActorID entry)) (Action entry)
           (nullable (TargetType entry)) (nullable (TargetID entry)) (EResult entry)
           (nullable (RequestID entry))
           (ip ← nullable (SourceIP entry); inet ip) (Detail entry) prevHash hash]) t)).

(** *** The detail column

    [detail] is written with [json.Marshal] into a JSONB column, which keeps every integer
    exactly, and scanned into a [map[string]any]: each number becomes a [float64], and is
    printed as one when the entry is hashed again.  [a_detail] of a row is the value whose
    text the column holds, [read_detail] the map that [List] gets. *)
Fixpoint as_any (j : json) : json :=
  match j with
  | JInt z => JInt (shown z)
  | JString s => JString (scrub 0 s)
  | JArray l => JArray (as_any <$> l)
  | JObject kvs => json_map (list_to_map (reverse ((λ kv, (scrub 0 kv.1, as_any kv.2)) <$> kvs)))
  | JNull | JBool _ => j
  end.
Definition read_detail (d : gmap string json) : gmap string json :=
  list_to_map (reverse ((λ kv, (scrub 0 kv.1, as_any kv.2)) <$> sort_stable (λ x y, str_ltb x.1 y.1) (map_to_list d))).

(** The columns of one row, as [List] scans them. *)
Definition scan_record (r : audit_row) : Record_ :=
  mkRecord (a_seq r)
    (mkEntry (a_at r) (a_actor_type r) (deref (a_actor_id r)) (a_action r)
      (deref (a_target_type r)) (deref (a_target_id r)) (a_result r) (deref (a_request_id r))
      (deref (a_source_ip r)) (read_detail (a_detail r)))
    (a_prev_hash r) (a_hash r).

Definition List (afterSeq lim : Z) : M (list Record_) :=
  query (λ t, scan_record <$> limit (clamp_limit lim 1000 100)
    (order_asc a_seq (List.filter (λ r, a_seq r >? afterSeq) (audit_logs t)))).

(** The loop of [Verify], one page per iteration. *)
Fixpoint verify_pages (fuel : nat) (after : Z) (prev : string) : M unit :=
  match fuel with
  | O => fail (ErrPanic "fuel")
  | S fuel =>
      records <-- List after 500 ;;
      match last records with
      | None => ret ()
      | Some r =>
          lift (VerifyChainFrom sha256 prev records) ;;;
          verify_pages fuel (Seq r) (Hash r)
      end
  end.
(** Every page that is not the last holds at least one row. *)
Definition Verify : M unit := λ w, verify_pages (S (length (audit_logs (db w)))) 0 "" w.

(** [Log]: failure to record is reported to the logger only. *)
Definition Log (now : Z) (gap : N) (entry : Entry) : M unit :=
  try (Record now gap entry) ;;; ret ().

(** ** Appending *)

(** The log as a reader sees it. *)
Definition records (t : Tables) : list Record_ := scan_record <$> audit_logs t.
(** Rows in strictly ascending, positive sequence order, forming a chain. *)
Definition audit_ok (t : Tables) : Prop :=
  StronglySorted Z.lt (a_seq <$> audit_logs t) ∧ Forall (λ r, 0 < a_seq r) (audit_logs t) ∧
  VerifyChain sha256 (records t) = inl ().

Lemma truncate_stored t : pg_time (time_truncate_us t) = time_truncate_us t.
Proof.
  unfold pg_time, time_truncate_us, microsecond.
  change zero_time with (- (62135596800 * 1000000) * 1000).
  Z.to_euclidean_division_equations; lia.
Qed.
Lemma truncate_idem t : time_truncate_us (time_truncate_us t) = time_truncate_us t.
Proof.
  unfold time_truncate_us, microsecond.
  change zero_time with (- (62135596800 * 1000000) * 1000).
  Z.to_euclidean_division_equations; lia.
Qed.
Lemma normalize_idem e : Normalize (Normalize e) = Normalize e.
Proof.
  unfold Normalize. simpl. rewrite truncate_idem. f_equal.
  destruct (str_eqb (EResult e) "") eqn:E; [done|]. by rewrite E.
Qed.
Lemma deref_nullable s : deref (nullable s) = s.
Proof.
  unfold deref, nullable, coalesce, nullif. destruct (str_eqb s "") eqn:E; [|done].
  apply str_eqb_eq in E. done.
Qed.

Lemma last_seq_ge t r : r ∈ audit_logs t → a_seq r <= last_seq t.
Proof.
  unfold last_seq. induction 1 as [x l|x y l _ IH]; rewrite fmap_cons; simpl; lia.
Qed.
Lemma last_seq_nonneg t : 0 <= last_seq t.
Proof. unfold last_seq. induction (audit_logs t); rewrite ?fmap_cons; simpl; lia. Qed.

Lemma head_hash_spec t : audit_ok t → default "" (head_hash t) = chain_end "" (records t).
Proof.
  intros (Hs & _ & _). unfold head_hash, chain_end, records.
  destruct (audit_logs t) as [|r l _] using rev_ind; [done|].
  rewrite fmap_app. change (scan_record <$> [r]) with [scan_record r]. rewrite last_snoc.
  rewrite fmap_app in Hs. cbn [fmap list_fmap] in Hs.
  destruct (latest a_seq (l ++ [r])) as [x|] eqn:E.
  - assert (x = r) as ->; [|done].
    pose proof (latest_max a_seq _ _ r E ltac:(apply elem_of_app; right; left)).
    apply latest_elem in E. apply elem_of_app in E as [E|E%list_elem_of_singleton]; [|done].
    assert (a_seq x < a_seq r); [|lia].
    apply (StronglySorted_app_1_elem_of _ _ _ _ _ Hs); [|left].
    apply list_elem_of_fmap. by exists x.
  - unfold latest in E.
    assert (length (sort_stable (λ x y, a_seq x >? a_seq y) (l ++ [r])) = length (l ++ [r])) as Hl
      by apply sort_stable_length.
    destruct (sort_stable _ _); [|done]. rewrite length_app in Hl. simpl in Hl. lia.
Qed.

(** An entry whose address PostgreSQL prints back as it was given. *)
Definition ip_canonical (e : Entry) : Prop :=
  SourceIP e = "" ∨ inet (SourceIP e) = Some (SourceIP e).

(** A detail that is read back as it was given: text in UTF-8, integers of at most 53
    bits, lists of such; the code writes no objects into a detail. *)
Fixpoint json_plain (j : json) : Prop :=
  match j with
  | JInt z => Z.abs z <= 2 ^ 53
  | JString s => utf8_text 0 s = true
  | JArray l => foldr (λ x P, json_plain x ∧ P) True l
  | JObject _ => False
  | JNull | JBool _ => True
  end.
Definition detail_plain (d : gmap string json) : Prop := ∀ k j, d !! k = Some j → utf8_text 0 k = true ∧ json_plain j.
Lemma detail_plain_empty : detail_plain ∅.
Proof. intros k j Hk. by rewrite lookup_empty in Hk. Qed.
Lemma detail_plain_insert k j d : utf8_text 0 k = true → json_plain j → detail_plain d → detail_plain (<[k := j]> d).
Proof. intros Hk Hj Hd k' j' [[<- <-]|[_ H]]%lookup_insert_Some; [done|]. by apply Hd. Qed.
Lemma as_any_plain j : json_plain j → as_any j = j.
Proof.
  induction j as [|b|z|s|l IH|kvs IH] using json_induction; simpl; intros Hj; try done.
  - by rewrite shown_exact.
  - by rewrite scrub_utf8.
  - f_equal. induction IH as [|x l Hx _ IH]; [done|]. destruct Hj as [H1 H2]. rewrite fmap_cons, Hx, IH; done.
Qed.
Lemma read_detail_plain d : detail_plain d → read_detail d = d.
Proof.
  intros Hd. unfold read_detail. pose proof (sort_stable_perm (λ x y, str_ltb x.1 y.1) (map_to_list d)) as Hp.
  set (l := sort_stable _ _) in *. clearbody l. assert ((λ kv, (scrub 0 kv.1, as_any kv.2)) <$> l = l) as ->.
  { rewrite <-(list_fmap_id l) at 2. apply list_fmap_ext. intros i [k j] Hin%list_elem_of_lookup_2. rewrite Hp in Hin.
    apply elem_of_map_to_list, Hd in Hin as [Hk Hj]. simpl. by rewrite scrub_utf8, as_any_plain. }
  symmetry. apply list_to_map_flip. by rewrite reverse_Permutation.
Qed.

(** Such are the details that a JSON column returns unchanged ([Columns.audit_detail]); the
    map of [List] is what that column decodes to. *)
Lemma detail_fits_plain (d : gmap string any_value) : fits d → detail_plain (to_json <$> d).
Proof using.
  intros Hd k j Hk. apply lookup_fmap_Some in Hk as (a & <- & Ha). destruct (Hd k a Ha) as [[Hk _] Hf]. split; [done|].
  clear Ha. destruct a as [s|z|b|l]; simpl; [apply Hf|done|done|]. induction Hf as [|s l [Hs _] _ IH]; simpl; [done|]. split; [done|exact IH].
Qed.
Lemma column_detail {J : Jsonb} {L : JsonbLaws J} (d : gmap string any_value) : fits d →
  ∃ s d', kept d = Some s ∧ audit_detail s = Some d' ∧ to_json <$> d' = read_detail (to_json <$> d).
Proof using.
  intros Hd. destruct (decode_kept d Hd ltac:(vm_compute; discriminate)) as (s & Hs & _ & Hr). exists s, d. split_and!; [done..|].
  symmetry. by apply read_detail_plain, detail_fits_plain.
Qed.

(** An entry that the row gives back: see [scan_new_row]. *)
Definition entry_plain (e : Entry) : Prop := ip_canonical e ∧ detail_plain (Detail e).

(** What [Record] inserts, after [Normalize] and the default time. *)
Definition stamped (now : Z) (e : Entry) : Entry :=
  Normalize (if time_isZero (At e) then
      mkEntry now (EActorType e) (ActorID e) (Action e) (TargetType e)
        (TargetID e) (EResult e) (RequestID e) (SourceIP e) (Detail e)
    else e).
Lemma stamped_normal now e : Normalize (stamped now e) = stamped now e.
Proof. apply normalize_idem. Qed.

Definition new_row (t : Tables) (gap : N) (prev : string) (e : Entry) : audit_row :=
  mkAudit (1 + last_seq t + Z.of_N gap)
    (pg_time (At e)) (EActorType e) (nullable (ActorID e)) (Action e)
    (nullable (TargetType e)) (nullable (TargetID e)) (EResult e)
    (nullable (RequestID e)) (ip ← nullable (SourceIP e); inet ip) (Detail e) prev
    (ComputeHash sha256 prev e).

(** The stored row reads back as the entry that was hashed. *)
Lemma scan_new_row t gap prev e :
  Normalize e = e → entry_plain e →
  scan_record (new_row t gap prev e)
  = mkRecord (1 + last_seq t + Z.of_N gap) e prev (ComputeHash sha256 prev e).
Proof.
  intros Hn [Hip Hd]. unfold scan_record, new_row. simpl. rewrite !deref_nullable, read_detail_plain by done. f_equal.
  assert (pg_time (At e) = At e) as -> by (rewrite <-Hn; apply truncate_stored).
  assert (deref (ip ← nullable (SourceIP e); inet ip) = SourceIP e) as ->; [|by destruct e].
  destruct Hip as [E|E].
  - by rewrite E.
  - destruct (nullable (SourceIP e)) as [ip|] eqn:En; simpl.
    + unfold nullable, nullif in En. destruct (str_eqb _ _); [done|]. injection En as <-.
      by rewrite E.
    + rewrite <-(deref_nullable (SourceIP e)), En. done.
Qed.

Lemma append_ok t gap e :
  audit_ok t → Normalize e = e → entry_plain e →
  audit_ok (set_audit_logs (audit_logs t ++ [new_row t gap (default "" (head_hash t)) e]) t).
Proof.
  intros Hok Hn Hip. pose proof (head_hash_spec t Hok) as Hh. destruct Hok as (Hs & Hp & Hv).
  unfold audit_ok, records. simpl. pose proof (last_seq_nonneg t).
  assert (∀ r, r ∈ audit_logs t → a_seq r < 1 + last_seq t + Z.of_N gap) as Hlt.
  { intros r Hr. pose proof (last_seq_ge t r Hr). lia. }
  split_and!.
  - rewrite fmap_app. apply StronglySorted_app_2; [|done|by repeat constructor].
    intros x y [r [-> Hr]]%list_elem_of_fmap Hy. apply list_elem_of_singleton in Hy as ->.
    by apply Hlt.
  - apply Forall_app. split; [done|]. constructor; [simpl; lia|constructor].
  - rewrite fmap_app. cbn [fmap list_fmap]. rewrite scan_new_row by done.
    apply VerifyChainFrom_ok in Hv as [Hl Hsort]. apply VerifyChainFrom_ok. split.
    + apply linked_app. split; [done|]. fold (records t). simpl. by rewrite Hh.
    + rewrite fmap_app. cbn [fmap list_fmap Seq]. apply StronglySorted_Sorted.
      apply Sorted_StronglySorted in Hsort; [|intros ???; lia].
      apply StronglySorted_app_2; [|done|by repeat constructor].
      intros x y [rr [-> [r [-> Hr]]%list_elem_of_fmap]]%list_elem_of_fmap Hy.
      apply list_elem_of_singleton in Hy as ->. by apply Hlt.
Qed.

(** Every run of [Record], whatever fails, leaves a log that verifies. *)
Lemma record_keeps now gap e :
  entry_plain e → keeps audit_ok (Record now gap e).
Proof.
  intros Hip. unfold Record. cbv zeta. fold (stamped now e).
  assert (entry_plain (stamped now e)) as Hip'.
  { unfold stamped, entry_plain, ip_canonical. by destruct (time_isZero _). }
  destruct (_ || _); [apply keeps_fail|]. apply hoare_keeps, hoare_tx; try done.
  eapply hoare_bind; [by apply hoare_query|]. intros u.
  eapply hoare_bind.
  { apply hoare_try_row. }
  intros r. eapply hoare_bind with (Q := λ h t, audit_ok t ∧ h = default "" (head_hash t)).
  { simpl. destruct r as [h|[]]; try (apply hoare_fail; naive_solver).
    - apply hoare_ret. intros t [[? _] ->]. done.
    - apply hoare_ret. intros t [[? _] Hn]. by rewrite Hn. }
  intros h. apply hoare_insert; [|by intros]. intros t [Hok ->].
  assert (audit_ok (set_audit_logs (audit_logs t ++
    [new_row t gap (default "" (head_hash t)) (stamped now e)]) t)) as Ha
    by (apply append_ok; [done|apply stamped_normal|done]).
  destruct (negb _); [by intros|]. unfold new_row in Ha.
  destruct (nullable (SourceIP _)) as [ip|]; [destruct (inet ip); [|by intros]|];
    (split; [exact Ha|by intros]).
Qed.

(** ** Verification by pages *)

Lemma page_spec rows after l1 l2 :
  StronglySorted Z.lt (a_seq <$> rows) → rows = l1 ++ l2 →
  Forall (λ r, a_seq r <= after) l1 → Forall (λ r, after < a_seq r) l2 →
  order_asc a_seq (List.filter (λ r, a_seq r >? after) rows) = l2.
Proof.
  intros Hs -> H1 H2. rewrite List.filter_app.
  rewrite (lfilter_none _ l1), (lfilter_all _ l2).
  2,3: eapply Forall_impl; [eassumption|]; intros r Hr; simpl in *; rewrite Z.gtb_ltb;
    first [apply Z.ltb_lt|apply Z.ltb_ge]; lia.
  simpl. apply sort_stable_id. rewrite fmap_app in Hs. apply StronglySorted_app_1_r in Hs.
  clear H1 H2. induction l2 as [|r l2 IH]; [constructor|].
  rewrite fmap_cons in Hs. apply StronglySorted_inv in Hs as [Hs Hf]. constructor; [by apply IH|].
  rewrite Forall_forall in Hf. apply Forall_forall. intros x Hx. unfold notless. apply Z.ltb_ge.
  apply Z.lt_le_incl, Hf, list_elem_of_fmap. by exists x.
Qed.

Lemma verify_pages_spec fuel t l1 l2 after prev :
  audit_logs t = l1 ++ l2 → StronglySorted Z.lt (a_seq <$> audit_logs t) →
  Forall (λ r, a_seq r <= after) l1 → Forall (λ r, after < a_seq r) l2 →
  (length l2 < fuel)%nat →
  verify_pages fuel after prev (calm t) = (VerifyChainFrom sha256 prev (scan_record <$> l2), calm t).
Proof.
  revert l1 l2 after prev. induction fuel as [|fuel IH]; intros l1 l2 after prev Ht Hs H1 H2 Hf; [lia|].
  cbn [verify_pages]. unfold List, query, bind at 1. rewrite stmt_calm.
  rewrite (page_spec _ after l1 l2) by done.
  change (clamp_limit 500 1000 100) with 500. unfold limit.
  set (page := take (Z.to_nat 500) l2). destruct (last (scan_record <$> page)) as [r|] eqn:El.
  - destruct page as [|r0 page0 _] eqn:Ep using rev_ind; [done|].
    rewrite fmap_app in El. change (scan_record <$> [r0]) with [scan_record r0] in El.
    rewrite last_snoc in El. injection El as <-.
    assert (l2 = (page0 ++ [r0]) ++ drop (Z.to_nat 500) l2) as Hl2.
    { rewrite <-Ep. unfold page. by rewrite take_drop. }
    set (rest := drop _ l2) in *. clearbody rest.
    rewrite Hl2, (fmap_app _ (page0 ++ [r0]) rest). unfold VerifyChainFrom. rewrite verify_loop_app.
    unfold bind, lift, VerifyChainFrom. 
    destruct (verify_loop sha256 prev None (scan_record <$> page0 ++ [r0])) as [[]|e] eqn:Ev; [|done].
    rewrite fmap_app. change (scan_record <$> [r0]) with [scan_record r0].
    rewrite last_snoc. unfold chain_end. rewrite last_snoc. simpl.
    assert (Forall (λ r, a_seq r0 < a_seq r) rest) as Hrest.
    { rewrite Ht, Hl2, <-!app_assoc, !fmap_app in Hs.
      do 2 apply StronglySorted_app_1_r in Hs. apply StronglySorted_inv in Hs as [_ Hs].
      rewrite Forall_fmap in Hs. exact Hs. }
    rewrite verify_loop_start.
    2:{ intros x Hx. destruct rest as [|y rest]; [done|]. injection Hx as <-.
        by apply Forall_cons in Hrest as [? _]. }
    rewrite (IH (l1 ++ page0 ++ [r0]) rest); try done.
    + rewrite Ht, Hl2. by rewrite <-!app_assoc.
    + rewrite Ht, Hl2, !fmap_app, <-!app_assoc in Hs.
      rewrite !Forall_app. split_and!; [| |constructor; [lia|constructor]].
      * rewrite Forall_forall in *. intros x Hx.
        assert (after < a_seq r0); [|specialize (H1 x Hx); simpl in *; lia].
        apply H2. rewrite Hl2, !elem_of_app. left. right. left.
      * apply StronglySorted_app_1_r in Hs. rewrite Forall_forall. intros x Hx.
        apply Z.lt_le_incl. apply (StronglySorted_app_1_elem_of _ _ _ _ _ Hs).
        { apply list_elem_of_fmap. by exists x. } left.
    + rewrite Hl2, !length_app in Hf. simpl in Hf. lia.
  - apply last_None in El. apply fmap_nil_inv in El. unfold page in El.
    destruct l2; [done|]. done.
Qed.
End Store.

(** ** Tamper evidence *)

(** The bytes hashed for each record of a chain. *)
Fixpoint hashed (prev : string) (rs : list Record_) : list string :=
  match rs with
  | [] => []
  | r :: rs => (prev +:+ CanonicalBytes (REntry r))%stdpp :: hashed (Hash r) rs
  end.
(** Two different inputs of the same digest, one from each log. *)
Definition collision (sha256 : string → string) (l l' : list string) : Prop :=
  ∃ x y, x ∈ l ∧ y ∈ l' ∧ x ≠ y ∧ sha256 x = sha256 y.
Definition same_record (r r' : Record_) : Prop :=
  CanonicalBytes (REntry r) = CanonicalBytes (REntry r') ∧ PrevHash r = PrevHash r' ∧ Hash r = Hash r'.

Lemma hashed_app prev rs rs' : hashed prev (rs ++ rs') = hashed prev rs ++ hashed (chain_end prev rs) rs'.
Proof.
  revert prev. induction rs as [|r rs IH]; intros prev; [done|]. simpl. by rewrite IH, chain_end_cons.
Qed.

(** *** Where the first hash ends

    The first record is hashed alone, every other one behind a digest of 32 bytes.  Byte 32
    of a canonical entry is a character of its time or of the name of the next member, so
    it is not the brace that starts a canonical entry. *)
Definition time_char (c : ascii) : bool :=
  is_digit c || (ch c =? 45) || (ch c =? 46) || (ch c =? 58) || (ch c =? 84) || (ch c =? 90).
Definition no_brace (c : ascii) : bool := negb (ch c =? 123).
Lemma digit_time c : is_digit c = true → time_char c = true.
Proof. unfold time_char. by intros ->. Qed.
Lemma digits_time t : span is_digit t = (t, "") → str_all time_char t = true.
Proof.
  induction t as [|c t IH]; [done|]. simpl. destruct (is_digit c) eqn:E; [|done].
  destruct (span is_digit t) as [x y]. intros [= -> ->]. by rewrite IH, digit_time.
Qed.
Lemma sprint_int_time z : str_all time_char (sprint_int z) = true.
Proof.
  induction (sprint_int_text z) as [|z c t _ Hc Ht _|z c t _ IH _]; [done| |].
  - simpl. rewrite digits_time by done. rewrite digit_time; [done|]. by apply nonzero_digit.
  - change (true && str_all time_char (String c t) = true). by rewrite IH.
Qed.
Lemma pad_time w n : str_all time_char (pad w n) = true.
Proof.
  revert n. induction w as [|w IH]; intros n; [done|]. cbn [pad]. rewrite str_all_app, IH. simpl. rewrite digit_time; [done|].
  assert (0 <= n mod 10 < 10) as Hn by (apply Z.mod_pos_bound; lia). set (d := n mod 10) in *. clearbody d.
  assert (d = 0 ∨ d = 1 ∨ d = 2 ∨ d = 3 ∨ d = 4 ∨ d = 5 ∨ d = 6 ∨ d = 7 ∨ d = 8 ∨ d = 9) as Hd by lia.
  by destruct_or! Hd; subst.
Qed.
Lemma pad_length w n : String.length (pad w n) = w.
Proof. revert n. induction w as [|w IH]; intros n; [done|]. cbn [pad]. rewrite str_app_length, IH. simpl. lia. Qed.
Lemma frac_digits_time k n : str_all time_char (frac_digits k n) = true.
Proof.
  revert n. induction k as [|k IH]; intros n; [done|]. cbn [frac_digits]. destruct (n =? 0); [done|].
  by rewrite str_all_app, sprint_int_time, IH.
Qed.
Lemma rfc3339_time t : str_all time_char (rfc3339_nano t) = true ∧ (15 <= String.length (rfc3339_nano t))%nat.
Proof.
  unfold rfc3339_nano, rfc3339_secs. destruct (civil _) as [[y m] d]. split.
  - rewrite !str_all_app, !pad_time. assert (str_all time_char (pad_year y) = true) as ->.
    { unfold pad_year. destruct (y <? 0); [by rewrite str_all_app, pad_time|]. destruct (y <? 10000); [apply pad_time|apply sprint_int_time]. }
    destruct (_ =? 0); [done|]. by rewrite str_all_app, frac_digits_time.
  - rewrite !str_app_length, !pad_length. simpl. lia.
Qed.
Lemma escape_time s : str_all time_char s = true → escape_from 0 s = s.
Proof.
  induction s as [|c s IH]; [done|]. simpl. intros [Hc Hs]%andb_true_iff. rewrite (IH Hs).
  assert (escape_ascii c = String c "" ∧ (ch c <? 128) = true) as [-> ->]; [|done].
  clear -Hc. destruct c as [[] [] [] [] [] [] [] []]; vm_compute in Hc |- *; done.
Qed.

Lemma str_get_app n (s t : string) : String.get (String.length s + n) (s +:+ t)%stdpp = String.get n t.
Proof. induction s as [|c s IH]; [done|]. exact IH. Qed.
Lemma str_get_all p n (s t : string) :
  str_all p s = true → (n < String.length s)%nat → ∃ c, String.get n (s +:+ t)%stdpp = Some c ∧ p c = true.
Proof.
  revert n. induction s as [|c s IH]; intros n Hs Hn; simpl in *; [lia|]. apply andb_true_iff in Hs as [Hc Hs].
  destruct n as [|n]; [by exists c|]. apply IH; [done|lia].
Qed.
Lemma time_no_brace c : time_char c = true → no_brace c = true.
Proof. destruct c as [[] [] [] [] [] [] [] []]; vm_compute; done. Qed.
(** What every canonical entry starts with. *)
Definition at_member : string := ("{" +:+ String quote "at" +:+ String quote (String ":" (String quote "")))%stdpp.
Definition actor_member : string := String quote (String "," (String quote ("actor_type" +:+ String quote (String ":" ""))%stdpp)).
Lemma canonical_start e : ∃ t rest, CanonicalBytes e = (at_member +:+ (rfc3339_nano t +:+ actor_member) +:+ rest)%stdpp.
Proof.
  unfold CanonicalBytes. cbv zeta. set (n := Normalize e). exists (At n). cbn [marshal fmap list_fmap fst snd].
  assert (json_string (rfc3339_nano (At n)) = String quote (rfc3339_nano (At n) +:+ String quote ""))%stdpp as ->.
  { unfold json_string. by rewrite escape_time by apply rfc3339_time. }
  rewrite str_join_cons, str_join_cons. eexists. rewrite !str_app_assoc.
  change (json_string "at") with (String quote ("at" +:+ String quote "")%stdpp). change (json_string "actor_type") with (String quote ("actor_type" +:+ String quote "")%stdpp).
  unfold at_member, actor_member. rewrite !str_cons_app, !str_app_assoc. reflexivity.
Qed.
Lemma canonical_brace e : String.get 0 (CanonicalBytes e) = Some "{"%char.
Proof. destruct (canonical_start e) as (t & rest & ->). done. Qed.
Lemma canonical_byte32 e : String.get 32 (CanonicalBytes e) ≠ Some "{"%char.
Proof.
  destruct (canonical_start e) as (t & rest & ->). destruct (rfc3339_time t) as [Ht Hl].
  change 32%nat with (String.length at_member + 25)%nat. rewrite str_get_app.
  destruct (str_get_all no_brace 25 (rfc3339_nano t +:+ actor_member)%stdpp rest) as (c & -> & Hc).
  - rewrite str_all_app, (str_all_impl time_char no_brace _ time_no_brace Ht). done.
  - rewrite str_app_length. change (String.length actor_member) with 15%nat. lia.
  - intros [= ->]. done.
Qed.

Section Tamper.
Context (sha256 : string → string) (sha_len : ∀ s, String.length (sha256 s) = 32%nat).

Lemma chain_end_len rs : linked sha256 "" rs → rs ≠ [] → String.length (chain_end "" rs) = 32%nat.
Proof.
  intros H Hne. destruct rs as [|r rs _] using rev_ind; [done|].
  apply linked_app in H as [_ (_ & Hh & _)]. unfold chain_end. rewrite last_snoc. simpl.
  rewrite Hh. apply sha_len.
Qed.
(** Equal inputs of the digest are equal digests before and equal entries. *)
Lemma hash_input_inj rs rs' e e' :
  linked sha256 "" rs → linked sha256 "" rs' →
  (chain_end "" rs +:+ CanonicalBytes e)%stdpp = (chain_end "" rs' +:+ CanonicalBytes e')%stdpp →
  chain_end "" rs = chain_end "" rs' ∧ CanonicalBytes e = CanonicalBytes e'.
Proof.
  assert (∀ h x y, String.length h = 32%nat → CanonicalBytes x ≠ (h +:+ CanonicalBytes y)%stdpp) as Hfirst.
  { intros h x y Hh E. apply (canonical_byte32 x). rewrite E, <-(canonical_brace y), <-Hh.
    by rewrite <-(str_get_app 0 h), Nat.add_0_r. }
  intros Hl Hl' Heq. destruct (decide (rs = [])) as [->|Hn], (decide (rs' = [])) as [->|Hn']; [done| | |].
  - by apply Hfirst in Heq; [|apply chain_end_len].
  - symmetry in Heq. by apply Hfirst in Heq; [|apply chain_end_len].
  - apply str_app_inv_len; [|done]. by rewrite !chain_end_len.
Qed.

Lemma same_head_same_log rs rs' :
  linked sha256 "" rs → linked sha256 "" rs' → chain_end "" rs = chain_end "" rs' →
  Forall2 same_record rs rs' ∨ collision sha256 (hashed "" rs) (hashed "" rs').
Proof.
  assert (∀ l r, linked sha256 "" (l ++ [r]) → chain_end "" (l ++ [r]) ≠ "") as Hne.
  { intros l r Hl E. apply chain_end_len in Hl; [by rewrite E in Hl|by destruct l]. }
  revert rs'. induction rs as [|r rs IH] using rev_ind; intros rs' Hl Hl' Hend;
    (destruct rs' as [|r' rs' _] using rev_ind; [|]); [by left; constructor|by destruct (Hne _ _ Hl')|by destruct (Hne _ _ Hl)|].
  apply linked_app in Hl as [Hl (Hp & Hh & _)], Hl' as [Hl' (Hp' & Hh' & _)].
  unfold chain_end in Hend. rewrite !last_snoc in Hend. simpl in Hend.
  unfold ComputeHash in Hh, Hh'. rewrite Hh, Hh' in Hend.
  destruct (decide (chain_end "" rs +:+ CanonicalBytes (REntry r)
                    = chain_end "" rs' +:+ CanonicalBytes (REntry r'))%stdpp) as [Heq|Hx].
  2:{ right. eexists _, _. rewrite !hashed_app. split_and!; [..|done|done];
      apply elem_of_app; right; left. }
  apply hash_input_inj in Heq as [He Hb]; [|done..].
  destruct (IH rs' Hl Hl' He) as [Hf|(x & y & Hx & Hy & Hxy)].
  - left. apply Forall2_app; [done|]. constructor; [|constructor].
    split_and!; [done|congruence|]. by rewrite Hh, Hh', He, Hb.
  - right. exists x, y. rewrite !hashed_app. split_and!; [..|apply Hxy|apply Hxy];
      apply elem_of_app; by left.
Qed.
End Tamper.

(** C3: the log is tamper evident.  Take two logs, of whatever lengths, that both verify
    and end in the same hash.  Then they are the same log: as many records, with the same
    canonical entries in the same order and the same hashes; or two different byte strings
    that were hashed for them have the same SHA-256 digest.  So a record altered, inserted,
    removed or moved anywhere shows in the verification or in the last hash.  ([sha256] is
    any function with 32-byte results; sequence numbers are not hashed.) *)
Theorem audit_tamper_evident (sha256 : string → string) (rs rs' : list Record_) :
  (∀ s, String.length (sha256 s) = 32%nat) →
  VerifyChain sha256 rs = inl () → VerifyChain sha256 rs' = inl () →
  Hash <$> last rs = Hash <$> last rs' →
  Forall2 same_record rs rs' ∨ collision sha256 (hashed "" rs) (hashed "" rs').
Proof.
  intros Hlen [Hl _]%VerifyChainFrom_ok [Hl' _]%VerifyChainFrom_ok Hh.
  apply same_head_same_log; try done. unfold chain_end. by rewrite Hh.
Qed.

(** An altered row is located.  If a verifying log has one row whose contents
    are replaced (sequence number and hashes kept), verification reports exactly
    that row, or the two contents collide under SHA-256. *)
Theorem audit_alteration_located (sha256 : string → string) (rs tl : list Record_) (r r' : Record_) :
  VerifyChain sha256 (rs ++ r :: tl) = inl () →
  Seq r' = Seq r → PrevHash r' = PrevHash r → Hash r' = Hash r →
  CanonicalBytes (REntry r') ≠ CanonicalBytes (REntry r) →
  VerifyChain sha256 (rs ++ r' :: tl)
    = inr (ErrChain (Seq r) "record contents do not match its hash") ∨
  collision sha256 [(PrevHash r +:+ CanonicalBytes (REntry r))%stdpp]
                   [(PrevHash r +:+ CanonicalBytes (REntry r'))%stdpp].
Proof.
  intros Hv Hs Hp Hh Hne. unfold VerifyChain, VerifyChainFrom in *.
  rewrite verify_loop_app in Hv |- *.
  destruct (verify_loop sha256 "" None rs) as [[]|e] eqn:E; [|done].
  cbn [verify_loop] in Hv |- *. rewrite Hs, Hp, Hh.
  destruct (match _ with Some _ => _ | None => _ end); [done|].
  destruct (negb (equalHash (PrevHash r) _)) eqn:E2; [done|].
  destruct (negb (equalHash (Hash r) _)) eqn:E3 in Hv; [done|].
  apply negb_false_iff, equalHash_eq in E2, E3.
  destruct (negb (equalHash (Hash r) (ComputeHash _ _ (REntry r')))) eqn:E4; [by left|].
  apply negb_false_iff, equalHash_eq in E4. right. eexists _, _.
  split_and!; [left|left| |].
  - intros Heq. apply Hne. symmetry. by apply (str_app_inv_len (PrevHash r) (PrevHash r)) in Heq as [_ ?].
  - rewrite E2. unfold ComputeHash in *. congruence.
Qed.

(** Removing rows from the end is not visible to verification: every prefix of a
    verifying log verifies. *)
Lemma audit_truncation_verifies (sha256 : string → string) (rs rs' : list Record_) :
  VerifyChain sha256 (rs ++ rs') = inl () → VerifyChain sha256 rs = inl ().
Proof.
  unfold VerifyChain, VerifyChainFrom. rewrite verify_loop_app.
  by destruct (verify_loop sha256 "" None rs) as [[]|].
Qed.

(** C32: paged verification is verification of the whole log.  With rows in
    ascending positive sequence order, [Verify] (500 rows per page, terminating
    within one iteration per row plus one) returns exactly what [VerifyChain]
    returns on all the records: success, or the same first broken link. *)
Theorem audit_verify_paged (sha256 : string → string) (t : Tables) :
  StronglySorted Z.lt (a_seq <$> audit_logs t) → Forall (λ r, 0 < a_seq r) (audit_logs t) →
  Verify sha256 (calm t) = (VerifyChain sha256 (records t), calm t).
Proof.
  intros Hs Hp. unfold Verify. rewrite (verify_pages_spec sha256 _ t [] (audit_logs t)); try done.
  simpl. lia.
Qed.

(** A concrete digest and log. *)
Definition toy_sha (s : string) : string := pad 32 (len s).
Definition toy_inet (s : string) : option string := Some s.
Definition toy_entry (a : string) : Entry :=
  mkEntry zero_time ActorUser "alice" a "" "" "" "req-1" "10.0.0.1" ∅.
Definition toy_world : World :=
  let w := snd (Record toy_sha toy_inet (1000 * hour) 0 (toy_entry "auth.authenticate") (calm empty_tables)) in
  snd (Record toy_sha toy_inet (1001 * hour) 2 (toy_entry "device.revoke") w).

Lemma toy_sha_len s : String.length (toy_sha s) = 32%nat.
Proof.
  unfold toy_sha. generalize (len s). generalize 32%nat. clear s. intros n.
  induction n as [|n IH]; intros z; simpl; [done|]. rewrite str_app_length, IH. simpl. lia.
Qed.
Lemma toy_world_ok : audit_ok toy_sha (db toy_world).
Proof.
  split_and!; [|vm_compute; repeat constructor|vm_compute; reflexivity].
  vm_compute. repeat constructor.
Qed.

(** Two logs of different lengths that verify and end in the same hash, [toy_sha] being
    only as good as the length of its input: the entry of the one has an actor 32 bytes
    longer, which is the length of a digest. *)
Definition toy_log (es : list Entry) : list Record_ :=
  snd (foldl (λ s e, let '(n, h, l) := s in
    let x := ComputeHash toy_sha h e in (n + 1, x, l ++ [mkRecord n e h x])) (1, "", []) es).
Definition revoked_by (actor : string) : Entry := mkEntry zero_time ActorUser actor "device.revoke" "" "" "" "" "" ∅.
Definition short_log : list Record_ := toy_log [revoked_by "alice@0123456789abcdef0123456789"].
Definition long_log : list Record_ := toy_log [toy_entry "audit.read"; revoked_by ""].
Lemma audit_tamper_witness : collision toy_sha (hashed "" short_log) (hashed "" long_log).
Proof.
  destruct (audit_tamper_evident toy_sha short_log long_log toy_sha_len) as [H|H].
  - vm_compute. reflexivity.
  - vm_compute. reflexivity.
  - vm_compute. reflexivity.
  - apply Forall2_length in H. vm_compute in H. discriminate H.
  - exact H.
Defined.
Lemma audit_alteration_witness :
  VerifyChain toy_sha [mkRecord 1 (toy_entry "audit.read") "" (toy_sha (CanonicalBytes (toy_entry "x")))]
    = inr (ErrChain 1 "record contents do not match its hash") ∨
  collision toy_sha [CanonicalBytes (toy_entry "x")] [CanonicalBytes (toy_entry "audit.read")].
Proof.
  apply (audit_alteration_located toy_sha [] []
    (mkRecord 1 (toy_entry "x") "" (toy_sha (CanonicalBytes (toy_entry "x"))))
    (mkRecord 1 (toy_entry "audit.read") "" (toy_sha (CanonicalBytes (toy_entry "x"))))).
  - vm_compute. reflexivity.
  - reflexivity.
  - reflexivity.
  - reflexivity.
  - vm_compute. discriminate.
Defined.
Lemma audit_verify_witness :
  Verify toy_sha (calm (db toy_world)) = (VerifyChain toy_sha (records (db toy_world)), calm (db toy_world)).
Proof. apply (audit_verify_paged toy_sha); apply toy_world_ok. Defined.
