(* ===== verification/Device.v ===== *)
(** * Package [device]: enrolment, signed requests, revocation

    [signing.go] (what a device signs and how it is checked), [store.go] (the
    device repository) and [middleware.go] (authentication of an agent request).
    SHA-256, Ed25519 verification, base64 and the driver's encoding of a
    [time.Time] the client chose are the operations of the class [Crypto]. *)

From S2P Require Import Prelude GoStd Encode Db.
From Stdlib Require Import Ascii.
Open Scope Z_scope.
Open Scope go_scope.

Class Crypto := {
  sha256sum : string → string;                          (* sha256.Sum256 *)
  ed25519_verify : string → string → string → bool;     (* key, message, signature *)
  b64_std : string → option string;                     (* base64.StdEncoding.DecodeString *)
  b64_rawurl : string → string;                         (* base64.RawURLEncoding.EncodeToString *)
  timestamptz : Z → option Z;                           (* a time as the server stores it *)
  pg_lower : string → string;                           (* lower() of the server's locale *)
}.

(** The times PostgreSQL represents: 4714 BC to 294276 AD; years 1 to 9999 are
    well inside. *)
Definition pg_years (t : Z) : Prop := zero_time <= t <= 253402300799 * second.
(** What the code relies on: digests have 32 bytes, and a time in range is stored
    at microsecond precision. *)
Class CryptoLaws (C : Crypto) : Prop := {
  sha256_len : ∀ s, String.length (sha256sum s) = 32%nat;
  timestamptz_ok : ∀ t, pg_years t → timestamptz t = Some (pg_time t);
}.

(** ** signing.go *)

Definition MaxClockSkew : Z := 5 * minute.
Definition NonceMinLength : Z := 16.
Definition PublicKeySize : Z := 32.
Definition SignatureSize : Z := 64.

Record SigningInput := mkSigningInput {
  Method : string; Path : string; Timestamp : Z; Nonce : string; Body : string }.

Definition nonce_char (c : ascii) : bool :=
  is_digit c || ((97 <=? ch c) && (ch c <=? 102)) || ((65 <=? ch c) && (ch c <=? 70)) || (ch c =? 45).

Section Signing.
Context `{Crypto}.

Definition CanonicalString (input : SigningInput) : string :=
  str_join nl ["NETRA-v1"; to_upper (Method input); Path input;
    sprint_int (time_toUnix (Timestamp input)); Nonce input; hex_encode (sha256sum (Body input))].

Definition VerifySignature (publicKey : string) (input : SigningInput) (signature : string) : result unit :=
  reject! negb (len publicKey =? PublicKeySize) with ErrSignature;
  match b64_std signature with
  | None => inr ErrSignature
  | Some raw =>
      reject! negb (len raw =? SignatureSize) with ErrSignature;
      reject! negb (ed25519_verify publicKey (CanonicalString input) raw) with ErrSignature;
      inl ()
  end.

Definition CheckClockSkew (timestamp now : Z) : result unit :=
  let drift := time_sub now timestamp in
  let drift := if drift <? 0 then -! drift else drift in
  reject! drift >? MaxClockSkew with ErrClockSkew;
  inl ().

Definition ValidateNonce (nonce : string) : result unit :=
  reject! len nonce <? NonceMinLength with ErrSignature;
  reject! len nonce >? 128 with ErrSignature;
  reject! negb (str_all nonce_char nonce) with ErrSignature;
  inl ().

Definition ParsePublicKey (encoded : string) : result string :=
  match b64_std (trim_space encoded) with
  | None => inr (ErrDeviceValidation "public key is not valid base64")
  | Some raw =>
      if negb (len raw =? PublicKeySize) then inr (ErrDeviceValidation "public key length") else inl raw
  end.
End Signing.

(** ** store.go *)

Definition KeyProtectionSoftware : string := "software".
Definition KeyProtectionTPM : string := "tpm".
Definition KeyProtectionWindowsCertStore : string := "windows-cert-store".

Record Device := mkDev {
  ID : uuid; DeviceUID : string; Hostname : string; OSName : string; OSVersion : string;
  AgentVersion : string; PublicKey : string; KeyAlgorithm : string; KeyProtection : string;
  State : device_state; EnrolledAt : option Z; LastHeartbeatAt : option Z;
  RevokedAt : option Z; RevokedReason : string; CreatedAt : Z }.

Record EnrollRequest := mkEnroll {
  rq_DeviceUID : string; rq_Hostname : string; rq_OSName : string; rq_OSVersion : string;
  rq_AgentVersion : string; rq_PublicKey : string; rq_KeyProtection : string }.

Definition EnrollRequest_Validate (r : EnrollRequest) : result unit :=
  let l := len (trim_space (rq_DeviceUID r)) in
  reject! (l <? 8) || (l >? 128) with
    ErrDeviceValidation "device_uid must be between 8 and 128 characters";
  reject! str_eqb (trim_space (rq_Hostname r)) "" || (len (rq_Hostname r) >? 255) with
    ErrDeviceValidation "hostname is required and must be at most 255 characters";
  reject! negb (len (rq_PublicKey r) =? 32) with
    ErrDeviceValidation "public_key must be a 32-byte Ed25519 key";
  reject! negb (str_mem (rq_KeyProtection r)
      [KeyProtectionSoftware; KeyProtectionTPM; KeyProtectionWindowsCertStore]) with
    ErrDeviceValidation "key_protection must be software, tpm or windows-cert-store";
  match List.find (λ f, str_eqb (trim_space f.2) "" || (len f.2 >? 128))
      [("os_name", rq_OSName r); ("os_version", rq_OSVersion r); ("agent_version", rq_AgentVersion r)] with
  | Some (name, _) =>
      inr (ErrDeviceValidation (name +:+ " is required and must be at most 128 characters")%stdpp)
  | None => inl ()
  end.

Definition scanDevice (r : device_row) : Device :=
  mkDev (d_id r) (d_uid r) (d_hostname r) (d_os_name r) (d_os_version r) (d_agent_version r)
    (d_public_key r) (d_key_algorithm r) (d_key_protection r) (d_state r) (d_enrolled_at r)
    (d_last_heartbeat_at r) (d_revoked_at r) (coalesce (d_revoked_reason r)) (d_created_at r).

(** [last_heartbeat_at DESC NULLS LAST, created_at DESC]. *)
Definition heartbeat_before (a b : device_row) : bool :=
  match d_last_heartbeat_at a, d_last_heartbeat_at b with
  | Some x, Some y => if x =? y then d_created_at a >? d_created_at b else x >? y
  | Some _, None => true
  | None, Some _ => false
  | None, None => d_created_at a >? d_created_at b
  end.

Section DeviceStore.
Context `{Crypto}.

(** [raw] is the 32 random bytes, [id] the identifier the server generates. *)
Definition IssueEnrollmentToken (now : Z) (raw : string) (id : uuid) (createdBy : option uuid)
    (label : string) (ttl : Z) : M (string * uuid) :=
  if (ttl <=? 0) || (ttl >? 30 * 24 * hour) then
    fail (ErrDeviceValidation "enrollment token lifetime must be between 0 and 30 days") else
  let plaintext := b64_rawurl raw in
  let sum := sha256sum plaintext in
  insert_if
    (λ t, if existsb (λ k, str_eqb (t_hash k) sum || (t_id k =? id)%N) (tokens t) then Some ErrUnique
          else if fk_opt (has_user t) createdBy then None else Some (ErrDB "foreign key"))
    (λ t, set_tokens (tokens t ++ [mkToken id sum (nullif label) createdBy (pg_time now)
       (pg_time (time_add now ttl)) None None]) t) ;;;
  ret (plaintext, id).

Definition device_of (now : Z) (id : uuid) (req : EnrollRequest) : device_row :=
  mkDevice id (rq_DeviceUID req) (rq_Hostname req) (rq_OSName req) (rq_OSVersion req)
    (rq_AgentVersion req) (rq_PublicKey req) "ed25519" (rq_KeyProtection req) DEV_ACTIVE
    (Some (pg_time now)) None None None (pg_time now) (pg_time now).
(** [INSERT INTO devices ... RETURNING]. *)
Definition insert_device (now : Z) (id : uuid) (req : EnrollRequest) : M Device :=
  stmt (λ t,
    if existsb (λ d, str_eqb (d_uid d) (rq_DeviceUID req) || (d_id d =? id)%N) (devices t)
    then inr ErrUnique
    else inl (scanDevice (device_of now id req), set_devices (devices t ++ [device_of now id req]) t)).
(** [UPDATE enrollment_tokens SET used_at = now(), device_id = $1 WHERE id = $2]. *)
Definition spend_token (now : Z) (dev tokenID : uuid) : M unit :=
  exec (λ t, ((), set_tokens (update (λ k, (t_id k =? tokenID)%N)
    (λ k, mkToken (t_id k) (t_hash k) (t_label k) (t_created_by k) (t_created_at k)
       (t_expires_at k) (Some (pg_time now)) (Some dev)) (tokens t)) t)).

Definition Enroll (now : Z) (id : uuid) (token : string) (req : EnrollRequest) : M Device :=
  lift (EnrollRequest_Validate req) ;;;
  let sum := sha256sum (trim_space token) in
  tx (r <-- try (query_row (λ t, find (λ k, str_eqb (t_hash k) sum) (tokens t))) ;;
      tok <-- match r with
        | inl k => ret k
        | inr ErrNoRows => fail ErrEnrollmentToken
        | inr _ => fail (ErrDB "look up enrollment token")
        end ;;
      if negb (bool_decide (t_used_at tok = None)) || time_after now (t_expires_at tok)
      then fail ErrEnrollmentToken else
      c <-- try (insert_device now id req) ;;
      created <-- match c with
        | inl d => ret d
        | inr ErrUnique => fail ErrDeviceExists
        | inr _ => fail (ErrDB "create device")
        end ;;
      spend_token now (ID created) (t_id tok) ;;;
      ret created).

Definition ByUID (deviceUID : string) : M Device :=
  r <-- try (query_row (λ t, scanDevice <$> find (λ d, str_eqb (d_uid d) deviceUID) (devices t))) ;;
  match r with
  | inl d => ret d
  | inr ErrNoRows => fail ErrDeviceNotFound
  | inr _ => fail (ErrDB "load device")
  end.
Definition ByID (id : uuid) : M Device :=
  r <-- try (query_row (λ t, scanDevice <$> find (λ d, (d_id d =? id)%N) (devices t))) ;;
  match r with
  | inl d => ret d
  | inr ErrNoRows => fail ErrDeviceNotFound
  | inr _ => fail (ErrDB "load device")
  end.

Definition List (lim : Z) : M (list Device) :=
  query (λ t, scanDevice <$> limit (clamp_limit lim 500 100) (sort_stable heartbeat_before (devices t))).

Definition Heartbeat (now : Z) (id : uuid) (agentVersion : string) : M unit :=
  let hit d := (d_id d =? id)%N && bool_decide (d_state d = DEV_ACTIVE) in
  n <-- exec (λ t, (count hit (devices t), set_devices (update hit
    (λ d, mkDevice (d_id d) (d_uid d) (d_hostname d) (d_os_name d) (d_os_version d)
       (default (d_agent_version d) (nullif agentVersion)) (d_public_key d) (d_key_algorithm d)
       (d_key_protection d) (d_state d) (d_enrolled_at d) (Some (pg_time now)) (d_revoked_at d)
       (d_revoked_reason d) (d_created_at d) (pg_time now)) (devices t)) t)) ;;
  if n =? 0 then fail ErrDeviceNotActive else ret ().

Definition Revoke (now : Z) (id : uuid) (reason : string) : M unit :=
  let hit d := (d_id d =? id)%N && negb (bool_decide (d_state d = REVOKED)) in
  n <-- exec (λ t, (count hit (devices t), set_devices (update hit
    (λ d, mkDevice (d_id d) (d_uid d) (d_hostname d) (d_os_name d) (d_os_version d)
       (d_agent_version d) (d_public_key d) (d_key_algorithm d) (d_key_protection d) REVOKED
       (d_enrolled_at d) (d_last_heartbeat_at d) (Some (pg_time now)) (nullif reason)
       (d_created_at d) (pg_time now)) (devices t)) t)) ;;
  if n =? 0 then fail ErrDeviceNotFound else ret ().

Definition same_nonce (deviceID : uuid) (nonce : string) (r : replay_row) : bool :=
  (rn_device r =? deviceID)%N && str_eqb (rn_nonce r) nonce.
Definition ConsumeNonce (deviceID : uuid) (nonce : string) (seenAt : Z) : M unit :=
  r <-- try (stmt (λ t,
    match timestamptz seenAt with
    | None => inr (ErrDB "timestamp out of range")
    | Some at_ =>
        if existsb (same_nonce deviceID nonce) (replay_nonces t) then inr ErrUnique
        else if has_device t deviceID then
          inl ((), set_replay_nonces (replay_nonces t ++ [mkReplay nonce deviceID at_]) t)
        else inr (ErrDB "foreign key")
    end)) ;;
  match r with
  | inl _ => ret ()
  | inr ErrUnique => fail ErrReplayedNonce
  | inr _ => fail (ErrDB "record request nonce")
  end.

Definition PruneNonces (before : Z) : M Z :=
  exec (λ t, (count (λ r, rn_seen_at r <? pg_time before) (replay_nonces t),
    set_replay_nonces (List.filter (λ r, negb (rn_seen_at r <? pg_time before)) (replay_nonces t)) t)).

(** ** middleware.go *)

Definition MaxSignedBodyBytes : Z := 4194304.

(** The parts of an HTTP request the middleware reads: an absent header is the
    empty string, and [None] is a body whose transfer failed. *)
Record HttpRequest := mkHttp {
  h_method : string; h_path : string; h_device : string; h_timestamp : string;
  h_nonce : string; h_signature : string; h_body : option string }.

(** The response, or the device and body handed to the next handler. *)
Inductive outcome := Reject (status : Z) | Forward (d : Device) (body : string).
Definition StatusUnauthorized : Z := 401.
Definition StatusInternalServerError : Z := 500.

(** [io.ReadAll(http.MaxBytesReader(...))]. *)
Definition read_body (b : option string) : option string :=
  match b with
  | Some s => if len s >? MaxSignedBodyBytes then None else Some s
  | None => None
  end.

Definition RequireDeviceSignature (now : Z) (r : HttpRequest) : M outcome :=
  if str_eqb (h_device r) "" || str_eqb (h_nonce r) "" || str_eqb (h_signature r) ""
     || str_eqb (h_timestamp r) "" then ret (Reject StatusUnauthorized) else
  if negb (is_ok (ValidateNonce (h_nonce r))) then ret (Reject StatusUnauthorized) else
  match parse_int64 (h_timestamp r) with
  | None => ret (Reject StatusUnauthorized)
  | Some seconds =>
      let timestamp := time_unix seconds in
      if negb (is_ok (CheckClockSkew timestamp now)) then ret (Reject StatusUnauthorized) else
      match read_body (h_body r) with
      | None => ret (Reject StatusUnauthorized)
      | Some body =>
          e <-- try (ByUID (h_device r)) ;;
          match e with
          | inr _ => ret (Reject StatusUnauthorized)
          | inl enrolled =>
              if negb (bool_decide (State enrolled = DEV_ACTIVE)) then ret (Reject StatusUnauthorized) else
              let input := mkSigningInput (h_method r) (h_path r) timestamp (h_nonce r) body in
              if negb (is_ok (VerifySignature (PublicKey enrolled) input (h_signature r)))
              then ret (Reject StatusUnauthorized) else
              c <-- try (ConsumeNonce (ID enrolled) (h_nonce r) timestamp) ;;
              match c with
              | inl _ => ret (Forward enrolled body)
              | inr ErrReplayedNonce => ret (Reject StatusUnauthorized)
              | inr _ => ret (Reject StatusInternalServerError)
              end
          end
      end
  end.
End DeviceStore.
