(* ===== verification/User.v ===== *)
(** * The local record of a person (internal/user)

    A projection of the identity provider's subjects: one row per subject, created
    or refreshed whenever a token of that subject is presented. *)

From S2P Require Import Prelude GoStd Identity Risk Posture Policy Behaviour Db Device.
Open Scope Z_scope.
Open Scope go_scope.

Record User := mkUserRec {
  usr_ID : uuid; ExternalSubject : string; usr_Email : string; usr_DisplayName : string;
  usr_Department : string; usr_Role : Role; Disabled : bool; usr_CreatedAt : Z; usr_UpdatedAt : Z }.

(** The [user_role] enumeration and its text form; the cast of any other text
    fails. *)
Definition role_text (r : user_role) : string :=
  match r with USER => "USER" | SECURITY_ANALYST => "SECURITY_ANALYST"
             | ADMIN => "ADMIN" | AUDITOR => "AUDITOR" end.
Definition role_cast (s : string) : option user_role :=
  find (λ r, str_eqb (role_text r) s) [USER; SECURITY_ANALYST; ADMIN; AUDITOR].

Definition scanUser (r : user_row) : User :=
  let parsed := default RoleUser (ParseRole (role_text (u_role r))) in
  mkUserRec (u_id r) (u_subject r) (u_email r) (u_display_name r) (coalesce (u_department r)) parsed
    (negb (bool_decide (u_disabled_at r = None))) (u_created_at r) (u_updated_at r).

Section UserStore.
Context `{Crypto}.

(** [INSERT ... ON CONFLICT (external_subject) DO UPDATE ... RETURNING], with the
    unique index on [lower(email)]. *)
Definition upsert_user (now : Z) (id : uuid) (subject email name department : string) (role : string)
    : M user_row :=
  stmt (λ t,
    match role_cast role with
    | None => inr (ErrDB "invalid input value for enum user_role")
    | Some role =>
        let email_taken skip := existsb (λ u, negb (skip u) && str_eqb (pg_lower (u_email u)) (pg_lower email))
                                  (users t) in
        let same u := str_eqb (u_subject u) subject in
        match find same (users t) with
        | Some old =>
            if email_taken same then inr ErrUnique else
            let refresh u := mkUser (u_id u) (u_subject u) email name (nullif department) role
                               (u_created_at u) (pg_time now) (u_disabled_at u) in
            inl (refresh old, set_users (update same refresh (users t)) t)
        | None =>
            if email_taken (λ _, false) || existsb (λ u, (u_id u =? id)%N) (users t) then inr ErrUnique else
            let u := mkUser id subject email name (nullif department) role (pg_time now) (pg_time now) None in
            inl (u, set_users (users t ++ [u]) t)
        end
    end).

Definition ResolveFromClaims (now : Z) (id : uuid) (claims : Claims) : M User :=
  if str_eqb (trim_space (c_Subject claims)) "" then fail ErrClaims else
  let email := if str_eqb (c_Email claims) "" then (c_Subject claims +:+ "@unknown.invalid")%stdpp
               else c_Email claims in
  r <-- try (upsert_user now id (c_Subject claims) email (c_DisplayName claims) (c_Department claims)
               (HighestRole claims)) ;;
  match r with
  | inr _ => fail (ErrDB "upsert user")
  | inl row =>
      let u := scanUser row in
      if Disabled u then fail ErrDisabled else ret u
  end.

Definition ByID (id : uuid) : M User :=
  r <-- try (query_row (λ t, find (λ u, (u_id u =? id)%N) (users t))) ;;
  match r with inr _ => fail (ErrDB "load user") | inl row => ret (scanUser row) end.
End UserStore.
