(* ===== verification/Session.v ===== *)
(** * Package [session]: attestation and the session lifecycle

    [attestation.go] and [store.go].  [netip.ParseAddr] followed by [String], and
    PostgreSQL's reading of an [inet], are parameters. *)

From S2P Require Import Prelude GoStd Encode Db Device.
From Stdlib Require Import Ascii.
Open Scope Z_scope.
Open Scope go_scope.

(** ** attestation.go *)

Definition AttestationDeviceSignature : string := "device-signature".
Definition AttestationMTLS : string := "mtls".
Definition AttestationNone : string := "none".
Definition NonceLength : Z := 32.

Definition AttestationString (nonce subject : string) : string :=
  str_join nl ["NETRA-attest-v1"; nonce; subject].

(** [GenerateNonce] from the 32 random bytes it reads. *)
Definition GenerateNonce (raw : string) : string := hex_encode raw.

Definition lower_hex_char (c : ascii) : bool := is_digit c || ((97 <=? ch c) && (ch c <=? 102)).
Definition ValidateNonceFormat (nonce : string) : result unit :=
  reject! negb (len nonce =? NonceLength * 2) with ErrNonce;
  reject! negb (str_all lower_hex_char nonce) with ErrNonce;
  inl ().

(** ** store.go *)

Definition NonceTTL : Z := 2 * minute.
Definition HeartbeatFreshness : Z := 15 * minute.

Record Session := mkSess {
  SID : uuid; SUserID : uuid; SDeviceID : uuid; SStatus : session_status; SAuthMethod : string;
  SAttestation : string; SSourceIP : string; SCurrentRisk : option Z; SCurrentLevel : string;
  SStartedAt : Z; SLastSeenAt : Z; SEndedAt : option Z;
  SUserDisplayName : string; SUserEmail : string; SDeviceHostname : string; SDeviceUID : string }.

Record BeginRequest := mkBegin {
  bq_UserID : uuid; bq_Subject : string; bq_DeviceUID : string; bq_Nonce : string;
  bq_Signature : string; bq_SourceIP : string }.

Definition BeginRequest_Validate (r : BeginRequest) : result unit :=
  let! _ := ValidateNonceFormat (bq_Nonce r) in
  reject! str_eqb (trim_space (bq_DeviceUID r)) "" || (len (bq_DeviceUID r) >? 128) with
    ErrSessionValidation "device_uid is required";
  reject! str_eqb (trim_space (bq_Signature r)) "" || (len (bq_Signature r) >? 512) with
    ErrSessionValidation "attestation signature is required";
  inl ().

Definition scanSession (r : session_row) (u : user_row) (d : device_row) : Session :=
  mkSess (s_id r) (s_user r) (s_device r) (s_status r) (s_auth_method r) (s_attestation r)
    (coalesce (s_source_ip r)) (s_current_risk r) (coalesce (s_current_level r))
    (s_started_at r) (s_last_seen_at r) (s_ended_at r)
    (u_display_name u) (u_email u) (d_hostname d) (d_uid d).
(** The join of [sessions] with [users] and [devices]. *)
Definition join_session (t : Tables) (r : session_row) : option Session :=
  u ← find (λ u, (u_id u =? s_user r)%N) (users t);
  d ← find (λ d, (d_id d =? s_device r)%N) (devices t);
  Some (scanSession r u d).

Section SessionStore.
Context `{Crypto} (parse_addr inet : string → option string).

Definition IssueNonce (now : Z) (raw : string) (userID : uuid) : M (string * Z) :=
  let nonce := GenerateNonce raw in
  let expiresAt := time_add now NonceTTL in
  insert_if
    (λ t, if existsb (λ n, str_eqb (n_nonce n) nonce) (session_nonces t) then Some ErrUnique
          else if has_user t userID then None else Some (ErrDB "foreign key"))
    (λ t, set_session_nonces (session_nonces t ++
       [mkNonce nonce userID (pg_time now) (pg_time expiresAt) None None]) t) ;;;
  ret (nonce, expiresAt).

Definition verifyAttestation (publicKey nonce subject signature : string) : result unit :=
  reject! negb (len publicKey =? PublicKeySize) with ErrAttestation;
  match b64_std signature with
  | None => inr ErrAttestation
  | Some raw =>
      reject! negb (len raw =? SignatureSize) with ErrAttestation;
      reject! negb (ed25519_verify publicKey (AttestationString nonce subject) raw) with ErrAttestation;
      inl ()
  end.

(** [INSERT INTO sessions ... RETURNING]; a source address that is not an
    address is stored as [NULL]. *)
Definition session_of (now : Z) (id : uuid) (userID deviceID : uuid) (ip : option string) : session_row :=
  mkSession id userID deviceID ACTIVE "oidc" ip AttestationDeviceSignature None None
    (pg_time now) (pg_time now) None.
Definition insert_session (now : Z) (id userID deviceID : uuid) (sourceIP : option string) : M session_row :=
  stmt (λ t,
    if existsb (λ s, (s_id s =? id)%N) (sessions t) then inr ErrUnique
    else if negb (has_user t userID && has_device t deviceID) then inr (ErrDB "foreign key")
    else match sourceIP with
      | None => let s := session_of now id userID deviceID None in
          inl (s, set_sessions (sessions t ++ [s]) t)
      | Some a => match inet a with
          | None => inr (ErrDB "invalid inet")
          | Some ip => let s := session_of now id userID deviceID (Some ip) in
              inl (s, set_sessions (sessions t ++ [s]) t)
          end
      end).
(** [UPDATE session_nonces SET used_at = now(), session_id = $1 WHERE nonce = $2]. *)
Definition spend_nonce (now : Z) (session : uuid) (nonce : string) : M unit :=
  exec (λ t, ((), set_session_nonces (update (λ n, str_eqb (n_nonce n) nonce)
    (λ n, mkNonce (n_nonce n) (n_user n) (n_issued_at n) (n_expires_at n) (Some (pg_time now))
       (Some session)) (session_nonces t)) t)).

(** The transaction of [Begin]: the challenge is locked, checked, and spent on the
    new session. *)
Definition open_session (now : Z) (id : uuid) (req : BeginRequest) (deviceID : uuid) : M session_row :=
  tx (r <-- try (query_row (λ t, find (λ n, str_eqb (n_nonce n) (bq_Nonce req)) (session_nonces t))) ;;
      n <-- match r with
        | inl n => ret n
        | inr ErrNoRows => fail ErrNonce
        | inr _ => fail (ErrDB "look up attestation nonce")
        end ;;
      if negb (bool_decide (n_used_at n = None)) || time_after now (n_expires_at n)
         || negb (n_user n =? bq_UserID req)%N then fail ErrNonce else
      let sourceIP := parse_addr (bq_SourceIP req) in
      created <-- insert_session now id (bq_UserID req) deviceID sourceIP ;;
      spend_nonce now (s_id created) (bq_Nonce req) ;;;
      ret created).

Definition Begin (now : Z) (id : uuid) (req : BeginRequest) : M Session :=
  lift (BeginRequest_Validate req) ;;;
  e <-- try (Device.ByUID (bq_DeviceUID req)) ;;
  match e with
  | inr _ => fail ErrDeviceUnusable
  | inl enrolled =>
      if negb (bool_decide (State enrolled = DEV_ACTIVE)) then fail ErrDeviceUnusable else
      if match LastHeartbeatAt enrolled with
         | None => true
         | Some hb => time_sub now hb >? HeartbeatFreshness
         end then fail ErrDeviceUnusable else
      lift (verifyAttestation (PublicKey enrolled) (bq_Nonce req) (bq_Subject req) (bq_Signature req)) ;;;
      created <-- open_session now id req (ID enrolled) ;;
      ret (mkSess (s_id created) (s_user created) (s_device created) (s_status created)
        (s_auth_method created) (s_attestation created) (coalesce (s_source_ip created))
        (s_current_risk created) (coalesce (s_current_level created)) (s_started_at created)
        (s_last_seen_at created) (s_ended_at created) "" "" (Hostname enrolled) (DeviceUID enrolled))
  end.

Definition not_ended (s : session_row) : bool := negb (bool_decide (s_status s = ENDED)).

Definition End (now : Z) (sessionID userID : uuid) : M unit :=
  let hit s := (s_id s =? sessionID)%N && (s_user s =? userID)%N && not_ended s in
  n <-- exec (λ t, (count hit (sessions t), set_sessions (update hit
    (λ s, mkSession (s_id s) (s_user s) (s_device s) ENDED (s_auth_method s) (s_source_ip s)
       (s_attestation s) (s_current_risk s) (s_current_level s) (s_started_at s) (pg_time now)
       (Some (pg_time now))) (sessions t)) t)) ;;
  if n =? 0 then fail ErrNoRows else ret ().

Definition Touch (now : Z) (sessionID : uuid) : M unit :=
  let hit s := (s_id s =? sessionID)%N && not_ended s in
  exec (λ t, ((), set_sessions (update hit
    (λ s, mkSession (s_id s) (s_user s) (s_device s) (s_status s) (s_auth_method s) (s_source_ip s)
       (s_attestation s) (s_current_risk s) (s_current_level s) (s_started_at s) (pg_time now)
       (s_ended_at s)) (sessions t)) t)).

Definition List (activeOnly : bool) (lim : Z) : M (list Session) :=
  query (λ t, limit (clamp_limit lim 500 100)
    (omap (join_session t) (order_desc s_started_at
      (List.filter (λ s, negb activeOnly || not_ended s) (sessions t))))).

Definition ByID (id : uuid) : M Session :=
  query_row (λ t, s ← find (λ s, (s_id s =? id)%N) (sessions t); join_session t s).

Definition PruneNonces (before : Z) : M Z :=
  exec (λ t, (count (λ n, n_expires_at n <? pg_time before) (session_nonces t),
    set_session_nonces (List.filter (λ n, negb (n_expires_at n <? pg_time before)) (session_nonces t)) t)).
End SessionStore.
