(* ===== verification/Telemetry.v ===== *)
(** * Package [telemetry]: normalisation and ingestion of events

    [event.go] and [store.go]. *)

From S2P Require Import Prelude GoStd Encode Db.
From Stdlib Require Import Ascii.
Open Scope Z_scope.
Open Scope go_scope.

(** ** event.go *)

Definition TypeAuthLogin : string := "AUTH_LOGIN".
Definition TypeAuthLogout : string := "AUTH_LOGOUT".
Definition TypeDeviceEnrollment : string := "DEVICE_ENROLLMENT".
Definition TypeDevicePosture : string := "DEVICE_POSTURE".
Definition TypeApplicationStart : string := "APPLICATION_START".
Definition TypeApplicationAccess : string := "APPLICATION_ACCESS".
Definition TypeResourceAccess : string := "RESOURCE_ACCESS".
Definition TypePrivilegeChange : string := "PRIVILEGE_CHANGE".
Definition TypeNetworkEvent : string := "NETWORK_EVENT".
Definition TypeSecurityEvent : string := "SECURITY_EVENT".
Definition TypePolicyDecision : string := "POLICY_DECISION".
Definition TypeRiskUpdate : string := "RISK_UPDATE".
Definition TypeSecurityAlert : string := "SECURITY_ALERT".

Definition knownTypes : list string :=
  [TypeAuthLogin; TypeAuthLogout; TypeDeviceEnrollment; TypeDevicePosture; TypeApplicationStart;
   TypeApplicationAccess; TypeResourceAccess; TypePrivilegeChange; TypeNetworkEvent;
   TypeSecurityEvent; TypePolicyDecision; TypeRiskUpdate; TypeSecurityAlert].

Definition SeverityInfo : string := "INFO".
Definition SeverityLow : string := "LOW".
Definition SeverityMedium : string := "MEDIUM".
Definition SeverityHigh : string := "HIGH".
Definition SeverityCritical : string := "CRITICAL".
Definition knownSeverities : list string :=
  [SeverityInfo; SeverityLow; SeverityMedium; SeverityHigh; SeverityCritical].

Definition SourceAgent : string := "AGENT".
Definition SourceClient : string := "CLIENT".
Definition SourceBackend : string := "BACKEND".
Definition SourceSimulator : string := "SIMULATOR".
(** The values of the enumeration [event_source]. *)
Definition knownSources : list string := [SourceAgent; SourceClient; SourceBackend; SourceSimulator].

Definition MaxBatchSize : Z := 500.
Definition MaxMetadataEntries : Z := 32.
Definition MaxMetadataKeyLen : Z := 64.
Definition MaxMetadataValueLen : Z := 512.
Definition MaxEventIDLen : Z := 128.
Definition MaxClockDrift : Z := 24 * hour.

Record Inbound := mkInbound {
  in_EventID : string; in_OccurredAtMs : Z; in_Type : string; in_Severity : string;
  in_Metadata : gmap string string }.

Record Event := mkEv {
  EID : uuid; AgentEventID : string; OccurredAt : Z; ReceivedAt : Z; EDeviceID : option uuid;
  EUserID : option uuid; ESessionID : option uuid; EType : string; ESeverity : string;
  ESource : string; Metadata : gmap string string; DeviceHostname : string; UserName : string }.

Record Rejection := mkRejection { rj_EventID : string; rj_Index : Z; rj_Reason : error }.

(** [d.Seconds()], and ["%.0f"] of a [float64]: the exact value rounded half to
    even. *)
Definition duration_seconds (d : Z) : f64 :=
  f64_add (f64_of_int (d ÷ second)) (f64_div (f64_of_int (Z.rem d second)) (f64_of_int second)).
Definition round_half_even (m : Z) (k : Z) : Z :=
  let q := m / 2 ^ k in let r := m mod 2 ^ k in
  if 2 * r <? 2 ^ k then q else if 2 ^ k <? 2 * r then q + 1
  else if Z.even q then q else q + 1.
Definition sprint_f0 (f : f64) : string :=
  match f with
  | S754_finite s m e =>
      let v := if 0 <=? e then Zpos m * 2 ^ e else round_half_even (Zpos m) (- e) in
      ((if s then "-" else "") +:+ sprint_int v)%stdpp
  | S754_zero s => if s then "-0" else "0"
  | S754_infinity s => if s then "-Inf" else "+Inf"
  | S754_nan => "NaN"
  end.

(** The loop over the metadata; Go visits the entries in arbitrary order, on
    which only the message of a rejection depends. *)
Definition metadata_ok (m : gmap string string) : result unit :=
  foldr (λ kv k,
      reject! (len kv.1 =? 0) || (len kv.1 >? MaxMetadataKeyLen) with ErrInvalidEvent "metadata key";
      reject! len kv.2 >? MaxMetadataValueLen with ErrInvalidEvent "metadata value"; k)
    (inl ()) (map_to_list m).

Definition Inbound_Normalize (ev : Inbound) (deviceID : uuid) (now : Z) : result Event :=
  if negb (str_mem (in_Type ev) knownTypes) then inr (ErrInvalidEvent "unknown event_type") else
  let severity := if str_eqb (in_Severity ev) "" then SeverityInfo else in_Severity ev in
  if negb (str_mem severity knownSeverities) then inr (ErrInvalidEvent "unknown severity") else
  if len (in_EventID ev) >? MaxEventIDLen then inr (ErrInvalidEvent "event_id too long") else
  if Z.of_nat (size (in_Metadata ev)) >? MaxMetadataEntries then
    inr (ErrInvalidEvent "too many metadata entries") else
  let! _ := metadata_ok (in_Metadata ev) in
  let occurred := if in_OccurredAtMs ev >? 0 then time_unixMilli (in_OccurredAtMs ev) else now in
  let drift := time_sub now occurred in
  let wrong := (drift >? MaxClockDrift) || (drift <? - MaxClockDrift) in
  let metadata := if wrong then
      <["netra.clock_drift_seconds" := sprint_f0 (duration_seconds drift)]>
        (<["netra.reported_occurred_at" := rfc3339 occurred]> (in_Metadata ev))
    else in_Metadata ev in
  inl (mkEv uuid_nil (trim_space (in_EventID ev)) (if wrong then now else occurred) now
    (Some deviceID) None None (in_Type ev) severity SourceAgent metadata "" "").

Record Filter := mkFilter {
  f_DeviceID : option uuid; f_UserID : option uuid; f_SessionID : option uuid;
  f_Types : list string; f_Severity : option string; f_Since : option Z; f_Limit : Z }.
Definition Filter_Normalize (f : Filter) : Filter :=
  mkFilter (f_DeviceID f) (f_UserID f) (f_SessionID f) (f_Types f) (f_Severity f) (f_Since f)
    (clamp_limit (f_Limit f) 1000 100).

(** ** store.go *)

Record IngestResult := mkIngest {
  ir_BatchID : uuid; ir_Accepted : Z; ir_Duplicates : Z; ir_Rejected : list Rejection;
  ir_SessionID : option uuid }.

Definition activeSession (deviceID : uuid) : M (uuid * uuid) :=
  query_row (λ t, s ← latest s_started_at (List.filter
      (λ s, (s_device s =? deviceID)%N && negb (bool_decide (s_status s = ENDED))) (sessions t));
    Some (s_id s, s_user s)).

(** The rows of a batch that normalise, and the rejections of the others. *)
Fixpoint normalize_batch (deviceID : uuid) (now : Z) (index : Z) (inbound : list Inbound)
    : list Event * list Rejection :=
  match inbound with
  | [] => ([], [])
  | candidate :: rest =>
      let '(rows, rejected) := normalize_batch deviceID now (index + 1) rest in
      match Inbound_Normalize candidate deviceID now with
      | inl event => (event :: rows, rejected)
      | inr e => (rows, mkRejection (in_EventID candidate) index e :: rejected)
      end
  end.

Definition event_row_of (id : uuid) (e : Event) (user session batch : option uuid) : event_row :=
  mkEvent id (pg_time (OccurredAt e)) (pg_time (ReceivedAt e)) (EDeviceID e) user session
    (EType e) None (ESeverity e) (ESource e) (Metadata e) (nullif (AgentEventID e)) batch.

(** The unique index on [(device_id, agent_event_id)]. *)
Definition same_agent_event (r x : event_row) : bool :=
  match e_device r, e_agent_event_id r, e_device x, e_agent_event_id x with
  | Some d, Some i, Some d', Some i' => (d =? d')%N && str_eqb i i'
  | _, _, _, _ => false
  end.
(** The constraints of the [events] table other than that index. *)
Definition event_check (t : Tables) (r : event_row) : option error :=
  if existsb (λ x, (e_id x =? e_id r)%N) (events t) then Some ErrUnique
  else if negb (str_mem (e_type r) knownTypes) then Some (ErrDB "events_type_known")
  else if negb (str_mem (e_severity r) knownSeverities) then Some (ErrDB "event_severity")
  else if negb (str_mem (e_source r) knownSources) then Some (ErrDB "event_source")
  else if negb (fk_opt (has_device t) (e_device r) && fk_opt (has_user t) (e_user r)
                && fk_opt (has_session t) (e_session r)) then Some (ErrDB "foreign key")
  else None.
(** One [INSERT ... ON CONFLICT DO NOTHING] and its [RowsAffected]. *)
Definition insert_event (t : Tables) (r : event_row) : (Z * Tables) + error :=
  if existsb (same_agent_event r) (events t) then inl (0, t)
  else match event_check t r with
    | Some e => inr e
    | None => inl (1, set_events (events t ++ [r]) t)
    end.
(** A batch: the statements in order, up to the first error. *)
Fixpoint insert_events (t : Tables) (rows : list event_row) : (Z * Tables) + error :=
  match rows with
  | [] => inl (0, t)
  | r :: rest =>
      match insert_event t r with
      | inr e => inr e
      | inl (n, t') =>
          match insert_events t' rest with
          | inr e => inr e
          | inl (m, t'') => inl (n + m, t'')
          end
      end
  end.
Definition insert (rows : list event_row) : M Z := tx (stmt (λ t, insert_events t rows)).

(** [ids i] is the identifier the server generates for the i-th row. *)
Definition Ingest (now : Z) (batchID : uuid) (ids : nat → uuid) (deviceID : uuid)
    (inbound : list Inbound) : M IngestResult :=
  if Z.of_nat (length inbound) >? MaxBatchSize then fail (ErrInvalidEvent "batch size") else
  a <-- try (activeSession deviceID) ;;
  let session := match a with inl (s, _) => Some s | inr _ => None end in
  let user := match a with inl (_, u) => Some u | inr _ => None end in
  let '(evs, rejected) := normalize_batch deviceID now 0 inbound in
  if is_nil evs then ret (mkIngest batchID 0 0 rejected session) else
  let rows := imap (λ i e, event_row_of (ids i) e user session (Some batchID)) evs in
  inserted <-- insert rows ;;
  ret (mkIngest batchID inserted (Z.of_nat (length evs) - inserted) rejected session).

Definition RecordBackendEvent (now : Z) (id : uuid) (event : Event) : M unit :=
  let occurred := if time_isZero (OccurredAt event) then now else OccurredAt event in
  let row := mkEvent id (pg_time occurred) (pg_time now) (EDeviceID event) (EUserID event)
    (ESessionID event) (EType event) None (ESeverity event) (ESource event) (Metadata event)
    None None in
  insert_if (λ t, event_check t row) (λ t, set_events (events t ++ [row]) t).

Definition scanEvent (t : Tables) (r : event_row) : Event :=
  mkEv (e_id r) (coalesce (e_agent_event_id r)) (e_occurred_at r) (e_received_at r) (e_device r)
    (e_user r) (e_session r) (e_type r) (e_severity r) (e_source r) (e_metadata r)
    (coalesce (d ← e_device r; d_hostname <$> find (λ x, (d_id x =? d)%N) (devices t)))
    (coalesce (u ← e_user r; u_display_name <$> find (λ x, (u_id x =? u)%N) (users t))).

(** [col = $n]; a [NULL] column is not equal to anything. *)
Definition col_is {A} (eqb : A → A → bool) (col : option A) (want : option A) : bool :=
  match want with
  | None => true
  | Some v => match col with Some x => eqb x v | None => false end
  end.
Definition filter_matches (f : Filter) (r : event_row) : bool :=
  col_is N.eqb (e_device r) (f_DeviceID f) && col_is N.eqb (e_user r) (f_UserID f)
  && col_is N.eqb (e_session r) (f_SessionID f)
  && col_is str_eqb (Some (e_severity r)) (f_Severity f)
  && match f_Since f with Some since => pg_time since <=? e_occurred_at r | None => true end
  && (is_nil (f_Types f) || str_mem (e_type r) (f_Types f)).
(** The severity column is an enumeration: another text is refused by the server. *)
Definition Query (filter : Filter) : M (list Event) :=
  let filter := Filter_Normalize filter in
  stmt (λ t,
    if match f_Severity filter with Some s => negb (str_mem s knownSeverities) | None => false end
    then inr (ErrDB "invalid input value for enum event_severity")
    else inl (scanEvent t <$> limit (f_Limit filter)
      (order_desc e_occurred_at (List.filter (filter_matches filter) (events t))), t)).

Definition in_session (sessionID : uuid) (r : event_row) : bool :=
  match e_session r with Some s => (s =? sessionID)%N | None => false end.
(** [GROUP BY event_type]. *)
Definition CountByType (sessionID : uuid) : M (gmap string Z) :=
  query (λ t, foldr (λ r m, <[e_type r := 1 + default 0 (m !! e_type r)]> m) ∅
    (List.filter (in_session sessionID) (events t))).
