(* ===== verification/Incident.v ===== *)
(** * Package [incident]: correlation of escalations *)

From S2P Require Import Prelude GoStd Encode Db.
Open Scope Z_scope.
Open Scope go_scope.

Definition StatusOpen : string := "OPEN".
Definition StatusInvestigating : string := "INVESTIGATING".
Definition StatusContained : string := "CONTAINED".
Definition StatusResolved : string := "RESOLVED".
Definition StatusFalsePositive : string := "FALSE_POSITIVE".
Definition knownStatuses : list string :=
  [StatusOpen; StatusInvestigating; StatusContained; StatusResolved; StatusFalsePositive].

Definition ParseStatus (raw : string) : string * bool := (raw, str_mem raw knownStatuses).

Record Incident := mkInc {
  ID : uuid; Key : string; Title : string; Summary : string; Severity : string; Status : string;
  IUserID : option uuid; IDeviceID : option uuid; ISessionID : option uuid; PeakRisk : Z;
  OpenedAt : Z; UpdatedAt : Z; ClosedAt : option Z; UserName : string; DeviceName : string }.
Record Note := mkNt { NID : uuid; AuthorName : string; NBody : string; NCreatedAt : Z }.

Definition scanIncident (r : incident_row) : Incident :=
  mkInc (i_id r) (i_key r) (i_title r) (coalesce (i_summary r)) (i_severity r) (i_status r)
    (i_user r) (i_device r) (i_session r) (i_peak_risk r) (i_opened_at r) (i_updated_at r)
    (i_closed_at r) "" "".
Definition scanIncidentWithNames (t : Tables) (r : incident_row) : Incident :=
  mkInc (i_id r) (i_key r) (i_title r) (coalesce (i_summary r)) (i_severity r) (i_status r)
    (i_user r) (i_device r) (i_session r) (i_peak_risk r) (i_opened_at r) (i_updated_at r)
    (i_closed_at r)
    (coalesce (u ← i_user r; u_display_name <$> find (λ x, (u_id x =? u)%N) (users t)))
    (coalesce (d ← i_device r; d_hostname <$> find (λ x, (d_id x =? d)%N) (devices t))).

(** ["session-"] and the first 18 characters of the session identifier. *)
Definition incident_key (sessionID : uuid) : string :=
  ("session-" +:+ String.substring 0 18 (uuid_string sessionID))%stdpp.

Definition severity_known (s : string) : bool :=
  str_mem s ["LOW"; "MEDIUM"; "ELEVATED"; "HIGH"; "CRITICAL"].

(** The [DO UPDATE SET] of [OpenOrEscalate]. *)
Definition escalate (now : Z) (severity : string) (risk : Z) (summary : string)
    (i : incident_row) : incident_row :=
  mkIncident (i_id i) (i_key i) (i_title i)
    (match nullif summary with Some s => Some s | None => i_summary i end)
    (if i_peak_risk i <? risk then severity else i_severity i) (i_status i)
    (i_user i) (i_device i) (i_session i) (Z.max (i_peak_risk i) risk)
    (i_opened_at i) (pg_time now) (i_closed_at i).

Definition OpenOrEscalate (now : Z) (id : uuid) (sessionID userID deviceID : uuid)
    (severity : string) (risk : Z) (title summary : string) : M Incident :=
  let key := incident_key sessionID in
  stmt (λ t,
    if negb (int2 risk) then inr (ErrDB "smallint out of range")
    else if negb (severity_known severity) then inr (ErrDB "incidents_severity_known")
    else match find (λ i, str_eqb (i_key i) key) (incidents t) with
    | Some i =>
        inl (scanIncident (escalate now severity risk summary i),
             set_incidents (update (λ i, str_eqb (i_key i) key) (escalate now severity risk summary)
               (incidents t)) t)
    | None =>
        if has_incident t id then inr ErrUnique
        else if negb (has_user t userID && has_device t deviceID && has_session t sessionID)
        then inr (ErrDB "foreign key")
        else
          let i := mkIncident id key title (nullif summary) severity StatusOpen (Some userID)
            (Some deviceID) (Some sessionID) risk (pg_time now) (pg_time now) None in
          inl (scanIncident i, set_incidents (incidents t ++ [i]) t)
    end).

(** One [INSERT ... ON CONFLICT DO NOTHING] of [AttachEvents]. *)
Definition attach_one (incidentID : uuid) (t : Tables) (ordinal : Z) (eventID : uuid) : Tables + error :=
  if existsb (λ x, (ie_incident x =? incidentID)%N && (ie_event x =? eventID)%N) (incident_events t)
  then inl t
  else if has_incident t incidentID && has_event t eventID then
    inl (set_incident_events (incident_events t ++ [mkIncidentEvent incidentID eventID ordinal]) t)
  else inr (ErrDB "foreign key").
Fixpoint attach_all (incidentID : uuid) (t : Tables) (ordinal : Z) (eventIDs : list uuid) : (unit * Tables) + error :=
  match eventIDs with
  | [] => inl ((), t)
  | e :: rest =>
      match attach_one incidentID t ordinal e with
      | inl t' => attach_all incidentID t' (ordinal + 1) rest
      | inr e => inr e
      end
  end.
(** The batch is one implicit transaction. *)
Definition AttachEvents (incidentID : uuid) (eventIDs : list uuid) : M unit :=
  if is_nil eventIDs then ret () else stmt (λ t, attach_all incidentID t 0 eventIDs).

Definition incident_open (r : incident_row) : bool :=
  negb (str_mem (i_status r) [StatusResolved; StatusFalsePositive]).

Definition List (openOnly : bool) (lim : Z) : M (list Incident) :=
  query (λ t, scanIncidentWithNames t <$> limit (clamp_limit lim 500 100)
    (order_desc i_opened_at (List.filter (λ r, negb openOnly || incident_open r) (incidents t)))).

Definition ByID (id : uuid) : M Incident :=
  r <-- try (query_row (λ t, scanIncidentWithNames t <$> find (λ i, (i_id i =? id)%N) (incidents t))) ;;
  match r with
  | inl i => ret i
  | inr ErrNoRows => fail ErrIncidentNotFound
  | inr _ => fail (ErrDB "load incident")
  end.

Definition SetStatus (now : Z) (id : uuid) (status : string) : M unit :=
  let closed := str_eqb status StatusResolved || str_eqb status StatusFalsePositive in
  n <-- stmt (λ t,
    let n := count (λ i, (i_id i =? id)%N) (incidents t) in
    if (0 <? n) && negb (str_mem status knownStatuses) then inr (ErrDB "incidents_status_known")
    else inl (n, set_incidents (update (λ i, (i_id i =? id)%N)
      (λ i, mkIncident (i_id i) (i_key i) (i_title i) (i_summary i) (i_severity i) status
         (i_user i) (i_device i) (i_session i) (i_peak_risk i) (i_opened_at i) (pg_time now)
         (if closed then Some (pg_time now) else None)) (incidents t)) t)) ;;
  if n =? 0 then fail ErrIncidentNotFound else ret ().

Definition AddNote (now : Z) (id incidentID authorID : uuid) (body : string) : M unit :=
  insert_if
    (λ t, if existsb (λ n, (nt_id n =? id)%N) (notes t) then Some ErrUnique
          else if has_incident t incidentID && has_user t authorID then None
          else Some (ErrDB "foreign key"))
    (λ t, set_notes (notes t ++ [mkNote id incidentID (Some authorID) body (pg_time now)]) t).

Definition Notes (incidentID : uuid) : M (list Note) :=
  query (λ t, (λ n, mkNt (nt_id n)
      (coalesce (u ← nt_author n; u_display_name <$> find (λ x, (u_id x =? u)%N) (users t)))
      (nt_body n) (nt_created_at n))
    <$> order_asc nt_created_at (List.filter (λ n, (nt_incident n =? incidentID)%N) (notes t))).

Definition Counts : M (Z * Z) :=
  query (λ t, (count incident_open (incidents t),
               count (λ r, incident_open r && str_eqb (i_severity r) "CRITICAL") (incidents t))).
