(* ===== verification/RiskStore.v ===== *)
(** * Package [risk], [store.go]: recording assessments *)

From S2P Require Import Prelude GoStd Encode Risk Db.
Open Scope Z_scope.
Open Scope go_scope.

Definition level_known (l : string) : bool :=
  str_mem l [LevelLow; LevelMedium; LevelElevated; LevelHigh; LevelCritical].

Definition score_row (id userID deviceID : uuid) (a : Assessment) : risk_row :=
  mkRiskScore id (SessionID a) userID deviceID (pg_time (ComputedAt a)) (Score a) (ALevel a)
    (AAction a) (Dimensions a) (AModelVersion a) (nullif (TriggerEvent a)).
Definition factor_row_of (id : uuid) (f : Factor) : factor_row :=
  mkFactorRow id (fac_Code f) (fac_Label f) (fac_Dimension f) (fac_Contribution f)
    (nullif (fac_Detail f)).

(** [INSERT INTO risk_scores ... RETURNING id]. *)
Definition insert_score (id userID deviceID : uuid) (a : Assessment) : M uuid :=
  insert_if
    (λ t, if has_score t id then Some ErrUnique
          else if negb (has_session t (SessionID a) && has_user t userID && has_device t deviceID)
          then Some (ErrDB "foreign key")
          else if negb ((0 <=? Score a) && (Score a <=? 100)) then Some (ErrDB "risk_scores_score_range")
          else if negb (level_known (ALevel a)) then Some (ErrDB "risk_scores_level_known")
          else None)
    (λ t, set_risk_scores (risk_scores t ++ [score_row id userID deviceID a]) t) ;;;
  ret id.
(** The batch of [INSERT INTO risk_factors]. *)
Definition insert_factors (id : uuid) (fs : list Factor) : M unit :=
  insert_if
    (λ t, if existsb (λ f, negb (int2 (fac_Contribution f))) fs
          then Some (ErrDB "smallint out of range") else None)
    (λ t, set_risk_factors (risk_factors t ++ (factor_row_of id <$> fs)) t).
(** [UPDATE sessions SET current_risk, current_level, last_seen_at]. *)
Definition update_session_risk (now : Z) (a : Assessment) : M unit :=
  exec (λ t, ((), set_sessions (update (λ s, (s_id s =? SessionID a)%N)
    (λ s, mkSession (s_id s) (s_user s) (s_device s) (s_status s) (s_auth_method s) (s_source_ip s)
       (s_attestation s) (Some (Score a)) (Some (ALevel a)) (s_started_at s) (pg_time now)
       (s_ended_at s)) (sessions t)) t)).

Definition Record (now : Z) (id : uuid) (userID deviceID : uuid) (a : Assessment) : M uuid :=
  tx (id <-- insert_score id userID deviceID a ;;
      insert_factors id (Factors a) ;;;
      update_session_risk now a ;;;
      ret id).

(** The columns of one row; the factors are read separately. *)
Definition scanAssessment (r : risk_row) : Assessment :=
  mkAssessment (rs_session r) (rs_score r) (rs_level r) (rs_action r) [] (rs_dimensions r)
    (rs_computed_at r) (rs_model r) (coalesce (rs_trigger r)).

Definition scan_factor (r : factor_row) : Factor :=
  mkFactor (rf_code r) (rf_label r) (rf_dimension r) (rf_contribution r) (coalesce (rf_detail r)).
(** [ORDER BY contribution DESC, code]. *)
Definition factor_before (a b : factor_row) : bool :=
  if rf_contribution a =? rf_contribution b then str_ltb (rf_code a) (rf_code b)
  else rf_contribution a >? rf_contribution b.
Definition factors (riskScoreID : uuid) : M (list Factor) :=
  query (λ t, scan_factor <$> sort_stable factor_before
    (List.filter (λ f, (rf_score f =? riskScoreID)%N) (risk_factors t))).

Definition Latest (sessionID : uuid) : M Assessment :=
  r <-- query_row (λ t, latest rs_computed_at
         (List.filter (λ r, (rs_session r =? sessionID)%N) (risk_scores t))) ;;
  fs <-- factors (rs_id r) ;;
  let a := scanAssessment r in
  ret (mkAssessment (SessionID a) (Score a) (ALevel a) (AAction a) fs (Dimensions a)
    (ComputedAt a) (AModelVersion a) (TriggerEvent a)).

Definition History (sessionID : uuid) (lim : Z) : M (list Assessment) :=
  query (λ t, scanAssessment <$> limit (clamp_limit lim 500 100)
    (order_asc rs_computed_at (List.filter (λ r, (rs_session r =? sessionID)%N) (risk_scores t)))).

Definition is_user (u : uuid) (col : option uuid) : bool :=
  match col with Some x => (x =? u)%N | None => false end.
Definition CountRecentIncidents (userID : uuid) (since : Z) : M Z :=
  query (λ t, count (λ i, is_user userID (i_user i) && (pg_time since <=? i_opened_at i)) (incidents t)).
Definition CountRecentDenials (userID : uuid) (since : Z) : M Z :=
  query (λ t, count (λ d, (pd_user d =? userID)%N && (pg_time since <=? pd_evaluated_at d)
    && str_mem (pd_decision d) ["DENY"; "RESTRICT"; "ISOLATE"]) (decisions t)).
