(* ===== verification/PolicyStore.v ===== *)
(** * Package [policy], [store.go]: versioned policies and recorded decisions *)

From S2P Require Import Prelude GoStd Encode Risk Policy Db.
Open Scope Z_scope.
Open Scope go_scope.

(** [DISTINCT ON (policy_id) ... WHERE enabled ORDER BY policy_id, version DESC]. *)
Definition newest_enabled (l : list Policy) (p : Policy) : bool :=
  Enabled p && forallb (λ q, negb (Enabled q && str_eqb (PolicyID q) (PolicyID p))
                             || (Version q <=? Version p)) l.
Definition by_policy_id (p q : Policy) : bool := str_ltb (PolicyID p) (PolicyID q).
Definition active_policies (l : list Policy) : list Policy :=
  sort_stable by_policy_id (List.filter (newest_enabled l) l).
Definition Active : M (list Policy) := query (λ t, active_policies (Db.policies t)).

(** [ORDER BY policy_id, version DESC]. *)
Definition newest_first (p q : Policy) : bool :=
  if str_eqb (PolicyID p) (PolicyID q) then Version p >? Version q else by_policy_id p q.
Definition All : M (list Policy) := query (λ t, sort_stable newest_first (Db.policies t)).

(** [COALESCE((SELECT max(version) + 1 ... WHERE policy_id = $1), 1)]. *)
Definition next_version (l : list Policy) (id : string) : Z :=
  1 + foldr Z.max 0 (Version <$> List.filter (λ p, str_eqb (PolicyID p) id) l).

Definition Create (now : Z) (id : uuid) (p : Policy) (createdBy : option uuid) : M Policy :=
  lift (Validate p) ;;;
  stmt (λ t,
    let v := next_version (Db.policies t) (PolicyID p) in
    let row := mkPolicy id (PolicyID p) v (Name p) (Description p) (Priority p) (Enabled p)
      (PConditions p) (PActions p) (PFailMode p) createdBy (pg_time now) in
    if negb (int4 v) then inr (ErrDB "integer out of range")
    else if negb (int2 (Priority p)) then inr (ErrDB "smallint out of range")
    else if negb (str_mem (PFailMode p) [FailOpen; FailClosed; FailSafe])
    then inr (ErrDB "policies_fail_mode_known")
    else if existsb (λ q, (Policy.ID q =? id)%N
              || str_eqb (PolicyID q) (PolicyID p) && (Version q =? v)) (Db.policies t)
    then inr ErrUnique
    else if negb (fk_opt (has_user t) createdBy) then inr (ErrDB "foreign key")
    else inl (row, set_policies (Db.policies t ++ [row]) t)).

Definition has_resource (t : Tables) (r : uuid) : bool := existsb (λ x, (r_id x =? r)%N) (resources t).

(** [latency_us] is not modelled. *)
Definition RecordDecision (id : uuid) (sessionID userID deviceID : uuid)
    (riskScoreID resourceID : option uuid) (res : Result) (incidentID : option uuid) : M unit :=
  insert_if
    (λ t, if existsb (λ d, (pd_id d =? id)%N) (decisions t) then Some ErrUnique
          else if negb (knownDecisions (RDecision res)) then Some (ErrDB "policy_decisions_known")
          else if negb (int4 (PolicyVersion res)) then Some (ErrDB "integer out of range")
          else if has_session t sessionID && has_user t userID && has_device t deviceID
                  && fk_opt (has_score t) riskScoreID && fk_opt (has_resource t) resourceID
                  && fk_opt (has_incident t) incidentID
          then None else Some (ErrDB "foreign key"))
    (λ t, set_decisions (decisions t ++ [mkDecision id sessionID userID deviceID riskScoreID
       resourceID (nullif (RPolicyID res))
       (if PolicyVersion res =? 0 then None else Some (PolicyVersion res))
       (RDecision res) (Reason res) (pg_time (EvaluatedAt res)) incidentID]) t).

Record DecisionRecord := mkDecisionRecord {
  DR_ID : uuid; DR_SessionID : uuid; DR_UserName : string; DR_DeviceName : string;
  DR_PolicyID : string; DR_PolicyVersion : Z; DR_Decision : string; DR_Reason : string;
  DR_EvaluatedAt : Z }.
Definition scan_decision (t : Tables) (d : decision_row) : DecisionRecord :=
  mkDecisionRecord (pd_id d) (pd_session d)
    (coalesce (u_display_name <$> find (λ x, (u_id x =? pd_user d)%N) (users t)))
    (coalesce (d_hostname <$> find (λ x, (d_id x =? pd_device d)%N) (devices t)))
    (coalesce (pd_policy d)) (default 0 (pd_version d)) (pd_decision d) (pd_reason d)
    (pd_evaluated_at d).
Definition Decisions (sessionID : option uuid) (lim : Z) : M (list DecisionRecord) :=
  query (λ t, scan_decision t <$> limit (clamp_limit lim 500 100)
    (order_desc pd_evaluated_at (List.filter
      (λ d, match sessionID with Some s => (pd_session d =? s)%N | None => true end) (decisions t)))).

(** The loop of [EnsureDefaults]: the count of policies created before an error
    is returned with it. *)
Fixpoint create_all (now : Z) (ids : nat → uuid) (created : nat) (ps : list Policy) : M Z :=
  match ps with
  | [] => ret (Z.of_nat created)
  | p :: rest => Create now (ids created) p None ;;; create_all now ids (S created) rest
  end.
Definition EnsureDefaults (now : Z) (ids : nat → uuid) : M Z :=
  existing <-- All ;;
  if negb (is_nil existing) then ret 0 else create_all now ids 0 DefaultPolicies.
