(* ===== verification/PostureStore.v ===== *)
(** * Package [posture], [store.go]: posture history *)

From S2P Require Import Prelude GoStd Encode Posture Db.
Open Scope Z_scope.
Open Scope go_scope.

(** A stored record is a row of the table. *)
Definition Record (now : Z) (id deviceID : uuid) (signals : Signals) (assessment : Assessment) : M posture_row :=
  stmt (λ t,
    let r := mkPosture id deviceID (pg_time now) (Score assessment) signals (Factors assessment)
      (Verified assessment) (AModelVersion assessment) in
    if existsb (λ p, (p_id p =? id)%N) (postures t) then inr ErrUnique
    else if negb (has_device t deviceID) then inr (ErrDB "foreign key")
    else if negb ((0 <=? Score assessment) && (Score assessment <=? 100))
    then inr (ErrDB "device_posture_score_range")
    else inl (r, set_postures (postures t ++ [r]) t)).

Definition of_device (deviceID : uuid) (p : posture_row) : bool := (p_device p =? deviceID)%N.
Definition latest_posture (t : Tables) (deviceID : uuid) : option posture_row :=
  latest p_collected_at (List.filter (of_device deviceID) (postures t)).

Definition Latest (deviceID : uuid) : M posture_row :=
  r <-- try (query_row (λ t, latest_posture t deviceID)) ;;
  match r with
  | inl p => ret p
  | inr ErrNoRows => fail ErrNoPosture
  | inr _ => fail (ErrDB "load posture")
  end.

Definition History (deviceID : uuid) (lim : Z) : M (list posture_row) :=
  query (λ t, limit (clamp_limit lim 200 50)
    (order_desc p_collected_at (List.filter (of_device deviceID) (postures t)))).

(** [DISTINCT ON (device_id) ... ORDER BY device_id, collected_at DESC]. *)
Definition LatestScores : M (gmap uuid Z) :=
  query (λ t, foldr (λ p m,
    match latest_posture t (p_device p) with
    | Some l => <[p_device p := p_trust_score l]> m
    | None => m
    end) ∅ (postures t)).
