(* ===== verification/BehaviourStore.v ===== *)
(** * Package [behaviour], [store.go]: loading, saving and rebuilding baselines *)

From S2P Require Import Prelude GoStd Encode Columns Behaviour Db.
Open Scope Z_scope.
Open Scope go_scope.

Definition Load (userID : uuid) : M Profile :=
  r <-- try (query_row (λ t, find (λ p, (UserID p =? userID)%N) (profiles t))) ;;
  match r with
  | inl p => ret (mkProfile (UserID p) (UpdatedAt p) (WindowDays p) (ObservationCount p)
      (pad_hours (LoginHours p)) (KnownDevices p) (KnownApplications p) (KnownNetworks p)
      (AccessRateMean p) (AccessRateStdDev p) (Established p))
  | inr ErrNoRows => fail ErrNoProfile
  | inr _ => fail (ErrDB "load behaviour profile")
  end.

Definition Save (p : Profile) : M unit :=
  let row := mkProfile (UserID p) (pg_time (UpdatedAt p)) (WindowDays p) (ObservationCount p)
    (LoginHours p) (KnownDevices p) (KnownApplications p) (KnownNetworks p)
    (AccessRateMean p) (AccessRateStdDev p) (Established p) in
  insert_if
    (λ t, if negb (int2 (WindowDays p) && int4 (ObservationCount p)) then Some (ErrDB "integer out of range")
          else if has_user t (UserID p) then None else Some (ErrDB "foreign key"))
    (λ t, if existsb (λ q, (UserID q =? UserID p)%N) (profiles t)
          then set_profiles (update (λ q, (UserID q =? UserID p)%N) (λ _, row) (profiles t)) t
          else set_profiles (profiles t ++ [row]) t).

Definition observation_of (t : Tables) (s : session_row) : Observation :=
  mkObservation (s_started_at s) (s_device s) [] (coalesce (s_source_ip s))
    (count (λ e, match e_session e with Some x => (x =? s_id s)%N | None => false end) (events t)).

(** [AddDate(0, 0, -n)] in UTC is [n] days of 24 hours earlier. *)
Definition Rebuild (now : Z) (userID : uuid) (windowDays : Z) : M Profile :=
  let windowDays := if windowDays <=? 0 then DefaultWindowDays else windowDays in
  let since := now - windowDays * (24 * hour) in
  observations <-- query (λ t, observation_of t <$> order_asc s_started_at
    (List.filter (λ s, (s_user s =? userID)%N && (pg_time since <=? s_started_at s)) (sessions t))) ;;
  let profile := Build userID windowDays observations now in
  Save profile ;;;
  ret profile.
