(* ===== verification/Trust.v ===== *)
(** * Package [trust]: the continuous-trust loop

    [evaluator.go] gathers the context of a session from the tables, scores it,
    decides, records and enforces; [stats.go] counts the fleet. *)

From S2P Require Import Prelude GoStd Encode Risk Posture Policy Behaviour Db Telemetry Incident.
From S2P Require Import RiskStore PolicyStore PostureStore BehaviourStore.
Open Scope Z_scope.
Open Scope go_scope.

(** ** evaluator.go *)

Record Outcome := mkOutcome {
  OAssessment : Risk.Assessment; ODecision : Policy.Result; IncidentID : option uuid;
  Applied : string }.

Record sessionContext := mkContext {
  sc_SessionID : uuid; sc_UserID : uuid; sc_DeviceID : uuid; sc_StartedAt : Z; sc_Status : string;
  sc_Attestation : string; sc_SourceIP : string; sc_KeyProtection : string;
  sc_EnrolledAt : option Z; sc_HeartbeatAt : option Z }.

Definition loadSession (sessionID : uuid) : M sessionContext :=
  query_row (λ t,
    s ← find (λ s, (s_id s =? sessionID)%N) (sessions t);
    d ← find (λ d, (d_id d =? s_device s)%N) (devices t);
    Some (mkContext (s_id s) (s_user s) (s_device s) (s_started_at s) (status_text (s_status s))
      (s_attestation s) (coalesce (s_source_ip s)) (d_key_protection d) (d_enrolled_at d)
      (d_last_heartbeat_at d))).

(** The rank of one event's resource; an event without a resource ranks lowest. *)
Definition event_rank (t : Tables) (e : event_row) : Z :=
  match (r ← e_resource e; r_sensitivity <$> find (λ x, (r_id x =? r)%N) (resources t)) with
  | Some s => if str_eqb s "CRITICAL" then 4 else if str_eqb s "SENSITIVE" then 3
              else if str_eqb s "INTERNAL" then 2 else 1
  | None => 1
  end.
Definition peak_rank (t : Tables) (sessionID : uuid) : Z :=
  match List.filter (in_session sessionID) (events t) with
  | [] => 2
  | e :: l => foldr Z.max (event_rank t e) (event_rank t <$> l)
  end.
Definition peakSensitivity (sessionID : uuid) : M Sensitivity :=
  r <-- try (query (λ t, sprint_int (peak_rank t sessionID))) ;;
  match r with
  | inr _ => ret SensitivityInternal
  | inl s => ret (if str_eqb s "4" then SensitivityCritical
                  else if str_eqb s "3" then SensitivitySensitive
                  else if str_eqb s "1" then SensitivityPublic else SensitivityInternal)
  end.

(** What the baseline contributes: established, typical hour, first-seen device,
    familiar network, volume. *)
Record Behavioural := mkBehavioural {
  bh_Established : bool; bh_TypicalHour : bool; bh_FirstSeen : bool; bh_Familiar : bool; bh_ZScore : f64 }.
(** Before there is a profile nothing is unusual. *)
Definition no_baseline : Behavioural := mkBehavioural false true false false (f64_of_int 0).
Definition measure (session : sessionContext) (profile : Profile) (c : gmap string Z + error) : Behavioural :=
  mkBehavioural (Established profile) (IsTypicalHour profile (sc_StartedAt session))
    (Established profile && negb (IsKnownDevice profile (sc_DeviceID session)))
    (negb (Established profile) || str_eqb (sc_SourceIP session) ""
     || IsKnownNetwork profile (sc_SourceIP session))
    (match c with
     | inl counts => AccessVolumeZScore profile (sum_go ((map_to_list counts).*2))
     | inr _ => f64_of_int 0
     end).
Definition behavioural (session : sessionContext) : M Behavioural :=
  p <-- try (BehaviourStore.Load (sc_UserID session)) ;;
  match p with
  | inr _ => ret no_baseline
  | inl profile =>
      c <-- try (CountByType (sc_SessionID session)) ;;
      ret (measure session profile c)
  end.

(** The inputs of the risk engine, from what each source answered. *)
Definition inputs_of (now : Z) (session : sessionContext) (p : posture_row + error) (b : Behavioural)
    (sensitivity : Sensitivity) (i d prior : Z + error) : Inputs :=
  mkInputs (sc_SessionID session) (sc_UserID session) (sc_DeviceID session) now
    (match prior with inl n => n =? 0 | inr _ => false end)
    (negb (str_eqb (sc_Attestation session) "none"))
    (match p with inl r => Some (p_trust_score r) | inr _ => None end)
    (sc_KeyProtection session) (bh_FirstSeen b) (sc_EnrolledAt session) (sc_HeartbeatAt session)
    (bh_TypicalHour b) (bh_Established b) (bh_ZScore b) false (f64_of_int 0)
    (if bh_Established b then bh_Familiar b else true)
    (negb (str_eqb (sc_SourceIP session) ""))
    sensitivity
    (match i with inl n => n | inr _ => 0 end) (match d with inl n => n | inr _ => 0 end).
(** Other sessions of the user. *)
Definition prior_sessions (session : sessionContext) : M Z :=
  query (λ t, count (λ s, (s_user s =? sc_UserID session)%N
    && negb (s_id s =? sc_SessionID session)%N) (sessions t)).
Definition gather (now : Z) (session : sessionContext) : M Inputs :=
  p <-- try (PostureStore.Latest (sc_DeviceID session)) ;;
  b <-- behavioural session ;;
  sensitivity <-- peakSensitivity (sc_SessionID session) ;;
  let sinceWeek := now - 7 * (24 * hour) in
  i <-- try (CountRecentIncidents (sc_UserID session) sinceWeek) ;;
  d <-- try (CountRecentDenials (sc_UserID session) sinceWeek) ;;
  prior <-- try (prior_sessions session) ;;
  ret (inputs_of now session p b sensitivity i d prior).

Definition applyDecision (now : Z) (sessionID : uuid) (decision : Decision) : M string :=
  let enforce st :=
    exec (λ t, ((), set_sessions (update
      (λ s, (s_id s =? sessionID)%N && negb (bool_decide (s_status s = ENDED)))
      (λ s, mkSession (s_id s) (s_user s) (s_device s) st (s_auth_method s) (s_source_ip s)
         (s_attestation s) (s_current_risk s) (s_current_level s) (s_started_at s) (pg_time now)
         (s_ended_at s)) (sessions t)) t)) ;;;
    ret (status_text st) in
  if str_eqb decision DecisionRestrict then enforce RESTRICTED
  else if str_eqb decision DecisionIsolate || str_eqb decision DecisionDeny then enforce ISOLATED
  else query_row (λ t, status_text ∘ s_status <$> find (λ s, (s_id s =? sessionID)%N) (sessions t)).

Definition event_severity (l : Level) : string :=
  if str_eqb l LevelHigh then SeverityHigh
  else if str_eqb l LevelCritical then SeverityCritical
  else if str_eqb l LevelElevated then SeverityMedium else SeverityInfo.

(** The identifiers one evaluation generates. *)
Record Fresh := mkFresh {
  id_score : uuid; id_incident : uuid; id_decision : uuid; id_event1 : uuid; id_event2 : uuid }.

(** The two events an evaluation leaves. *)
Definition derived_event (session : sessionContext) (a : Risk.Assessment) (type : string)
    (metadata : gmap string string) : Event :=
  mkEv uuid_nil "" zero_time zero_time (Some (sc_DeviceID session)) (Some (sc_UserID session))
    (Some (sc_SessionID session)) type (event_severity (ALevel a)) SourceBackend metadata "" "".
Definition risk_event (session : sessionContext) (a : Risk.Assessment) : Event :=
  derived_event session a TypeRiskUpdate (list_to_map
    [("score", sprint_int (Risk.Score a)); ("level", ALevel a);
     ("factors", str_join "," (Codes a)); ("trigger", TriggerEvent a)]).
Definition decision_event (session : sessionContext) (a : Risk.Assessment) (decision : Policy.Result) : Event :=
  derived_event session a TypePolicyDecision (list_to_map
    [("decision", RDecision decision); ("reason", Reason decision); ("policy", RPolicyID decision)]).
Definition recordDerivedEvents (now : Z) (fresh : Fresh) (session : sessionContext)
    (a : Risk.Assessment) (decision : Policy.Result) : M unit :=
  try (RecordBackendEvent now (id_event1 fresh) (risk_event session a)) ;;;
  try (RecordBackendEvent now (id_event2 fresh) (decision_event session a decision)) ;;;
  ret ().

Definition summarise (a : Risk.Assessment) : string :=
  ("Risk " +:+ sprint_int (Risk.Score a) +:+ " (" +:+ ALevel a +:+ "). Contributing factors: "
   +:+ str_join ", " (Codes a) +:+ ".")%stdpp.
Definition shortID (id : uuid) : string := String.substring 0 8 (uuid_string id).

Definition with_trigger (a : Risk.Assessment) (trigger : string) : Risk.Assessment :=
  Risk.mkAssessment (SessionID a) (Risk.Score a) (ALevel a) (AAction a) (Risk.Factors a) (Dimensions a)
    (ComputedAt a) (Risk.AModelVersion a) trigger.

(** [Evaluate]; a panic of the risk engine is an error of its own. *)
Definition Evaluate (engine : Risk.Engine) (now : Z) (fresh : Fresh) (sessionID : uuid)
    (trigger : string) : M Outcome :=
  session <-- loadSession sessionID ;;
  inputs <-- gather now session ;;
  match Risk.Evaluate engine inputs with
  | None => fail (ErrPanic "risk engine")
  | Some a =>
      let assessment := with_trigger a trigger in
      riskScoreID <-- RiskStore.Record now (id_score fresh) (sc_UserID session) (sc_DeviceID session)
        assessment ;;
      active <-- PolicyStore.Active ;;
      let decision := Policy.Evaluate (Policy.NewEngine active)
        (mkRequest assessment (in_ResourceSensitivity inputs) None false) now in
      incident <-- (if CreateIncident decision then
          r <-- try (OpenOrEscalate now (id_incident fresh) sessionID (sc_UserID session)
            (sc_DeviceID session) (ALevel assessment) (Risk.Score assessment)
            ("Elevated risk on session for " +:+ shortID sessionID)%stdpp (summarise assessment)) ;;
          ret (match r with inl created => Some (Incident.ID created) | inr _ => None end)
        else ret None) ;;
      RecordDecision (id_decision fresh) sessionID (sc_UserID session) (sc_DeviceID session)
        (Some riskScoreID) None decision incident ;;;
      applied <-- applyDecision now sessionID (RDecision decision) ;;
      recordDerivedEvents now fresh session assessment decision ;;;
      ret (mkOutcome assessment decision incident applied)
  end.

(** [None] when the device has no session to score. *)
Definition EvaluateDevice (engine : Risk.Engine) (now : Z) (fresh : Fresh) (deviceID : uuid)
    (trigger : string) : M (option Outcome) :=
  r <-- try (query_row (λ t, s_id <$> latest s_started_at (List.filter
    (λ s, (s_device s =? deviceID)%N && negb (bool_decide (s_status s = ENDED))) (sessions t)))) ;;
  match r with
  | inr _ => ret None
  | inl sessionID =>
      o <-- Evaluate engine now fresh sessionID trigger ;;
      ret (Some o)
  end.

(** ** stats.go *)

Definition TrustedThreshold : Z := 70.
Record FleetSummary := mkFleet {
  Endpoints : Z; Trusted : Z; AtRisk : Z; ActiveSessions : Z; HighRiskSessions : Z;
  RiskDistribution : gmap string Z }.

Definition active_device (d : device_row) : bool := bool_decide (d_state d = DEV_ACTIVE).
Definition live_session (s : session_row) : bool := negb (bool_decide (s_status s = ENDED)).
Definition device_score (t : Tables) (d : device_row) : option Z :=
  p_trust_score <$> latest_posture t (d_id d).
Definition is_trusted (t : Tables) (d : device_row) : bool :=
  active_device d && match device_score t d with Some x => TrustedThreshold <=? x | None => false end.
Definition is_at_risk (t : Tables) (d : device_row) : bool :=
  active_device d && match device_score t d with Some x => x <? TrustedThreshold | None => true end.
Definition level_or_unscored (s : session_row) : string :=
  match s_current_level s with Some l => l | None => "UNSCORED" end.

Definition FleetSummary_ : M FleetSummary :=
  s <-- query (λ t, mkFleet (count active_device (devices t)) (count (is_trusted t) (devices t))
         (count (is_at_risk t) (devices t)) (count live_session (sessions t))
         (count (λ s, live_session s && match s_current_level s with
            | Some l => str_mem l ["HIGH"; "CRITICAL"] | None => false end) (sessions t)) ∅) ;;
  dist <-- query (λ t, foldr (λ s m, <[level_or_unscored s := 1 + default 0 (m !! level_or_unscored s)]> m)
         ∅ (List.filter live_session (sessions t))) ;;
  ret (mkFleet (Endpoints s) (Trusted s) (AtRisk s) (ActiveSessions s) (HighRiskSessions s) dist).
