(* ===== verification/Simulator.v ===== *)
(** * Package [simulator]: demonstration scenarios

    [scenario.go] and [scenarios.go] describe situations; [runner.go] plays them
    against the platform's own tables and evaluates after every step.  The
    identifiers the server generates are [ids 0, ids 1, ...] in the order of the
    inserts, the random key material is [keys] and [suffixes]. *)

From S2P Require Import Prelude GoStd Encode Risk Posture Policy Behaviour Db Device Session Telemetry.
From S2P Require Import Incident RiskStore PolicyStore PostureStore BehaviourStore Trust.
Open Scope Z_scope.
Open Scope go_scope.

(** ** scenario.go, scenarios.go *)

Record sessionOptions := mkOptions { Familiar : bool; AtHour : Z; AtMinute : Z; OSourceIP : string }.

(** The closures of the steps are sequences of calls, up to the first error. *)
Inductive action :=
  | EnrolDevice (hostname : string)
  | StartSession (o : sessionOptions)
  | AccessResource (application resource : string)
  | BulkAccess (application resource : string) (count : nat)
  | NetworkEvent (destination : string).
Record step := mkStep { st_label : string; st_run : list action }.
Record Scenario := mkScenario {
  sn_Name : string; sn_Title : string; sn_Description : string; sn_Expectation : string; sn_steps : list step }.

Definition usual : sessionOptions := mkOptions true 0 0 "".
Definition elsewhere : sessionOptions := mkOptions false 0 0 "".

Definition normalSession : Scenario := mkScenario "normal-session" "Normal session"
  "A known user signs in from their usual device during working hours and opens internal applications."
  "Risk stays in the LOW band and access is allowed."
  [mkStep "Sign in from the usual device" [StartSession usual];
   mkStep "Open mail" [AccessResource "mail" "inbox"];
   mkStep "Open the internal portal" [AccessResource "portal" "policies"]].
Definition newDevice : Scenario := mkScenario "new-device" "New device"
  "The same user signs in from a device they have never used before."
  "The NEW_DEVICE factor appears and risk rises."
  [mkStep "Enrol an unfamiliar device" [EnrolDevice "SIM-LAPTOP-NEW"];
   mkStep "Sign in from the unfamiliar device" [StartSession elsewhere];
   mkStep "Open mail" [AccessResource "mail" "inbox"]].
Definition unusualLoginTime : Scenario := mkScenario "unusual-login-time" "Unusual sign-in time"
  "The user signs in at 01:47, far outside the hours their own history shows."
  "UNUSUAL_LOGIN_TIME appears, judged against this user's baseline rather than an office norm."
  [mkStep "Sign in at 01:47" [StartSession (mkOptions true 1 47 "")];
   mkStep "Open the operations portal" [AccessResource "operations" "field-reports"]].
Definition sensitiveAccess : Scenario := mkScenario "sensitive-resource" "Sensitive resource access"
  "The same session reaches a CRITICAL resource instead of an internal one."
  "CRITICAL_RESOURCE contributes and the policy answer becomes stricter for identical behaviour."
  [mkStep "Sign in normally" [StartSession usual];
   mkStep "Open an internal resource" [AccessResource "portal" "policies"];
   mkStep "Open the classified operations database" [AccessResource "critical" "operations-db"]].
Definition abnormalVolume : Scenario := mkScenario "abnormal-volume" "Abnormal access volume"
  "The session reads far more than this user's history shows they ever do."
  "ABNORMAL_ACCESS_VOLUME appears once the z-score exceeds three."
  [mkStep "Sign in normally" [StartSession usual];
   mkStep "Read 120 records in quick succession" [BulkAccess "operations" "field-reports" 120]].
Definition networkAnomaly : Scenario := mkScenario "network-anomaly" "Unusual network"
  "The session connects from a network this user has never used, and reaches an unfamiliar destination."
  "UNUSUAL_NETWORK contributes to the score."
  [mkStep "Sign in from an unfamiliar network" [StartSession (mkOptions false 0 0 "203.0.113.77")];
   mkStep "Connect to an unfamiliar destination" [NetworkEvent "198.51.100.42:8443"]].
Definition compromisedSession : Scenario := mkScenario "compromised-session" "Compromised employee session"
  "A credential is used from an unfamiliar device at 01:47, reaches classified material, reads at a volume the user has never reached, and connects to an unfamiliar destination."
  "Risk escalates step by step until policy isolates the session and opens one incident."
  [mkStep "Normal sign-in, usual device" [StartSession usual; AccessResource "mail" "inbox"];
   mkStep "Credential used from a new device" [EnrolDevice "SIM-LAPTOP-UNKNOWN"; StartSession elsewhere];
   mkStep "Sign-in at 01:47 from an unfamiliar network"
     [StartSession (mkOptions false 1 47 "203.0.113.77"); NetworkEvent "198.51.100.42:8443"];
   mkStep "Classified resource reached" [AccessResource "critical" "deployment-plans"];
   mkStep "Abnormal read volume" [BulkAccess "critical" "operations-db" 140]].

Definition Catalogue : list Scenario :=
  [normalSession; newDevice; unusualLoginTime; sensitiveAccess; abnormalVolume; networkAnomaly;
   compromisedSession].
Definition Find (name : string) : option Scenario :=
  List.find (λ s, str_eqb (sn_Name s) name) Catalogue.

Record StepResult := mkStepResult {
  sr_Step : string; sr_At : Z; sr_EventsAdded : Z; sr_Score : option Z; sr_Level : string;
  sr_Decision : string; sr_Factors : list string; sr_IncidentID : string }.
Record SimResult := mkSimResult {
  re_Scenario : string; re_SessionID : string; re_UserName : string; re_DeviceName : string;
  re_StartedAt : Z; re_Steps : list StepResult; re_FinalScore : Z; re_FinalLevel : string;
  re_Decision : string; re_IncidentID : string }.

Definition habitualHour : Z := 9.
Definition habitualMinute : Z := 12.
(** [time.Date] of the day of [now] at an hour and minute, in UTC. *)
Definition at_clock (now h m : Z) : Z := now / (24 * hour) * (24 * hour) + h * hour + m * minute.
Definition startedAt (o : sessionOptions) (now : Z) : Z :=
  if (AtHour o =? 0) && (AtMinute o =? 0) then at_clock now habitualHour habitualMinute
  else at_clock now (AtHour o) (AtMinute o).

Definition eventFor (type severity : string) (metadata : gmap string string) : Event :=
  mkEv 0 "" zero_time zero_time None None None type severity SourceSimulator metadata "" "".

(** ** runner.go *)

(** The state of one execution; [sm_next] is the next generated identifier,
    [sm_devices] counts the key pairs generated. *)
Record sim := mkSim {
  sm_user : uuid; sm_home : uuid; sm_current : uuid; sm_session : uuid; sm_added : Z;
  sm_next : nat; sm_devices : nat }.

Section Runner.
Context `{Crypto} (inet : string → option string) (engine : Risk.Engine).
Context (now : Z) (ids : nat → uuid) (keys suffixes : nat → string) (fresh : nat → Fresh).

(** [INSERT INTO users ... ON CONFLICT (external_subject) DO UPDATE SET updated_at = now()]. *)
Definition sim_user (id : uuid) : M uuid :=
  stmt (λ t,
    let same u := str_eqb (u_subject u) "sim-alice" in
    match find same (users t) with
    | Some u =>
        inl (u_id u, set_users (update same (λ u, mkUser (u_id u) (u_subject u) (u_email u) (u_display_name u)
          (u_department u) (u_role u) (u_created_at u) (pg_time now) (u_disabled_at u)) (users t)) t)
    | None =>
        if existsb (λ u, str_eqb (pg_lower (u_email u)) (pg_lower "alice.sharma@example.gov")
                         || (u_id u =? id)%N) (users t) then inr ErrUnique
        else inl (id, set_users (users t ++ [mkUser id "sim-alice" "alice.sharma@example.gov" "Alice Sharma"
          (Some "Operations") USER (pg_time now) (pg_time now) None]) t)
    end).
(** [INSERT INTO devices ... ON CONFLICT (device_uid) DO UPDATE SET last_heartbeat_at = now()]. *)
Definition sim_device (id : uuid) (uid hostname publicKey : string) : M uuid :=
  stmt (λ t,
    let same d := str_eqb (d_uid d) uid in
    match find same (devices t) with
    | Some d =>
        inl (d_id d, set_devices (update same (λ d, mkDevice (d_id d) (d_uid d) (d_hostname d) (d_os_name d)
          (d_os_version d) (d_agent_version d) (d_public_key d) (d_key_algorithm d) (d_key_protection d)
          (d_state d) (d_enrolled_at d) (Some (pg_time now)) (d_revoked_at d) (d_revoked_reason d)
          (d_created_at d) (d_updated_at d)) (devices t)) t)
    | None =>
        if existsb (λ d, (d_id d =? id)%N) (devices t) then inr ErrUnique
        else inl (id, set_devices (devices t ++ [mkDevice id uid hostname "windows" "11" "0.1.0" publicKey
          "ed25519" "software" DEV_ACTIVE (Some (pg_time now)) (Some (pg_time now)) None None (pg_time now)
          (pg_time now)]) t)
    end).
(** [INSERT INTO sessions] with its constraints. *)
Definition sim_session (id user device : uuid) (status : session_status) (ip : string) (started seen : Z)
    (ended : option Z) : M uuid :=
  stmt (λ t,
    if existsb (λ s, (s_id s =? id)%N) (sessions t) then inr ErrUnique
    else if negb (has_user t user && has_device t device) then inr (ErrDB "foreign key")
    else match inet ip with
      | None => inr (ErrDB "invalid inet")
      | Some a => inl (id, set_sessions (sessions t ++ [mkSession id user device status "oidc" (Some a)
          "device-signature" None None (pg_time started) (pg_time seen) (pg_time <$> ended)]) t)
      end).

Definition yes : option bool := Some true.
Definition sim_signals : Posture.Signals := Posture.mkSignals yes yes yes yes yes "windows" "11" ∅.
Definition sim_assessment : Posture.Assessment :=
  Posture.Evaluate sim_signals
    (Posture.mkDeviceContext true "software" "0.1.0" "0.1.0" (Some now) now) Posture.DefaultWeights.
Definition seedPosture (n : nat) (deviceID : uuid) : M nat :=
  existing <-- query (λ t, count (λ p, (p_device p =? deviceID)%N) (postures t)) ;;
  if existing >? 0 then ret n else
  PostureStore.Record now (ids n) deviceID sim_signals sim_assessment ;;;
  ret (S n).

(** [k] numbers the generated key pair. *)
Definition ensureDevice (n k : nat) (key hostname : string) : M (uuid * nat) :=
  id <-- sim_device (ids n) ("netra-sim-" +:+ key)%stdpp hostname (keys k) ;;
  n' <-- seedPosture (S n) id ;;
  ret (id, n').

(** The events of one seeded day, from the i-th. *)
Fixpoint seed_events (n : nat) (user device session : uuid) (started : Z) (i : Z) (count : nat) : M nat :=
  match count with
  | O => ret n
  | S count =>
      RecordBackendEvent now (ids n)
        (mkEv 0 "" (time_add started (i * minute)) zero_time (Some device) (Some user) (Some session)
           TypeResourceAccess SeverityInfo SourceSimulator
           (list_to_map [("application", "mail"); ("seeded", "true")]) "" "") ;;;
      seed_events (S n) user device session started (i + 1) count
  end.
(** The days, from [day] down to 1. *)
Fixpoint seed_days (n : nat) (user device : uuid) (day : nat) : M nat :=
  match day with
  | O => ret n
  | S day' =>
      let started := at_clock now 9 12 - Z.of_nat day * (24 * hour) in
      session <-- sim_session (ids n) user device ENDED "10.10.4.21" started started (Some started) ;;
      n' <-- seed_events (S n) user device session started 0 (18 + day mod 7) ;;
      seed_days n' user device day'
  end.
Definition seedHistory (n : nat) (user device : uuid) : M nat :=
  existing <-- query (λ t, count (λ s, (s_user s =? user)%N) (sessions t)) ;;
  if existing >=? MinimumObservations then ret n else
  n' <-- seed_days n user device 30 ;;
  Rebuild now user DefaultWindowDays ;;;
  ret n'.

Definition prepare : M sim :=
  user <-- sim_user (ids 0) ;;
  d <-- ensureDevice 1 0 "sim-home" "SIM-LAPTOP-01" ;;
  n <-- seedHistory d.2 user d.1 ;;
  ret (mkSim user d.1 d.1 uuid_nil 0 n 1).

(** ** Step primitives *)

Definition recordWithResource (id : uuid) (event : Event) (resourceID : uuid) : M unit :=
  let resource := if (resourceID =? uuid_nil)%N then None else Some resourceID in
  let occurred := if time_isZero (OccurredAt event) then now else OccurredAt event in
  let row := mkEvent id (pg_time occurred) (pg_time now) (EDeviceID event) (EUserID event) (ESessionID event)
    (EType event) resource (ESeverity event) (ESource event) (Metadata event) None None in
  insert_if
    (λ t, match event_check t row with
          | Some e => Some e
          | None => if fk_opt (has_resource t) resource then None else Some (ErrDB "foreign key")
          end)
    (λ t, set_events (events t ++ [row]) t).

Definition recordResource (st : sim) (type severity : string) (resourceID : uuid)
    (metadata : gmap string string) : M sim :=
  let e := eventFor type severity metadata in
  let event := mkEv (EID e) (AgentEventID e) (OccurredAt e) (ReceivedAt e) (Some (sm_current st))
    (Some (sm_user st)) (if (sm_session st =? uuid_nil)%N then None else Some (sm_session st)) (EType e)
    (ESeverity e) (ESource e) (Metadata e) "" "" in
  recordWithResource (ids (sm_next st)) event resourceID ;;;
  ret (mkSim (sm_user st) (sm_home st) (sm_current st) (sm_session st) (sm_added st + 1) (S (sm_next st))
    (sm_devices st)).
Definition record (st : sim) (type severity : string) (metadata : gmap string string) : M sim :=
  recordResource st type severity uuid_nil metadata.

Definition enrolDevice (st : sim) (hostname : string) : M sim :=
  d <-- ensureDevice (sm_next st) (sm_devices st) (hex_encode (suffixes (sm_devices st))) hostname ;;
  record (mkSim (sm_user st) (sm_home st) d.1 (sm_session st) (sm_added st) d.2 (S (sm_devices st)))
    TypeDeviceEnrollment SeverityMedium (list_to_map [("hostname", hostname); ("simulated", "true")]).

(** ["%02d"] of a clock field. *)
Definition two_digits (n : Z) : string := if n <? 10 then ("0" +:+ sprint_int n)%stdpp else sprint_int n.
Definition startSession (st : sim) (o : sessionOptions) : M sim :=
  let device := if Familiar o then sm_home st else sm_current st in
  let sourceIP := if str_eqb (OSourceIP o) "" then "10.10.4.21" else OSourceIP o in
  let started := startedAt o now in
  session <-- sim_session (ids (sm_next st)) (sm_user st) device ACTIVE sourceIP started now None ;;
  record (mkSim (sm_user st) (sm_home st) device session (sm_added st) (S (sm_next st)) (sm_devices st))
    TypeAuthLogin SeverityInfo
    (list_to_map [("source_ip", sourceIP);
       ("hour", (two_digits (time_hour started) +:+ ":" +:+ two_digits ((started / minute) mod 60))%stdpp)]).

Definition resolveResource (application resource : string) : M (uuid * string) :=
  query_row (λ t, (λ r, (r_id r, r_sensitivity r)) <$>
    find (λ r, str_eqb (r_application r) application && str_eqb (r_key r) resource) (resources t)).
Definition access_metadata (application resource sensitivity : string) : list (string * string) :=
  [("application", application); ("resource", resource); ("sensitivity", sensitivity)].
Definition accessResource (st : sim) (application resource : string) : M sim :=
  r <-- resolveResource application resource ;;
  let severity := if str_eqb r.2 "CRITICAL" then SeverityMedium else SeverityInfo in
  recordResource st TypeResourceAccess severity r.1 (list_to_map (access_metadata application resource r.2)).
Fixpoint bulk_loop (st : sim) (application resource : string) (r : uuid * string) (i : Z) (count : nat) : M sim :=
  match count with
  | O => ret st
  | S count =>
      st' <-- recordResource st TypeResourceAccess SeverityInfo r.1
        (list_to_map (access_metadata application resource r.2 ++ [("sequence", sprint_int i)])) ;;
      bulk_loop st' application resource r (i + 1) count
  end.
Definition bulkAccess (st : sim) (application resource : string) (count : nat) : M sim :=
  r <-- resolveResource application resource ;;
  bulk_loop st application resource r 0 count.
Definition networkEvent (st : sim) (destination : string) : M sim :=
  record st TypeNetworkEvent SeverityLow {["destination" := destination]}.

Definition perform (st : sim) (a : action) : M sim :=
  match a with
  | EnrolDevice hostname => enrolDevice st hostname
  | StartSession o => startSession st o
  | AccessResource application resource => accessResource st application resource
  | BulkAccess application resource count => bulkAccess st application resource count
  | NetworkEvent destination => networkEvent st destination
  end.
Fixpoint perform_all (st : sim) (l : list action) : M sim :=
  match l with
  | [] => ret st
  | a :: l => st' <-- perform st a ;; perform_all st' l
  end.

(** ** Run *)

Definition reset (st : sim) : sim :=
  mkSim (sm_user st) (sm_home st) (sm_current st) (sm_session st) 0 (sm_next st) (sm_devices st).
Definition unscored (st : sim) (s : step) : StepResult :=
  mkStepResult (st_label s) now (sm_added st) None "" "" [] "".
Definition scored (st : sim) (s : step) (o : Outcome) : StepResult :=
  let a := OAssessment o in
  mkStepResult (st_label s) now (sm_added st) (Some (Risk.Score a)) (Risk.ALevel a)
    (RDecision (ODecision o)) (Risk.Codes a)
    (match IncidentID o with Some i => uuid_string i | None => "" end).
(** [j] numbers the evaluations. *)
Fixpoint run_steps (name : string) (j : nat) (steps : list step) (st : sim) (re : SimResult)
    : M (sim * SimResult) :=
  match steps with
  | [] => ret (st, re)
  | s :: steps =>
      st <-- perform_all (reset st) (st_run s) ;;
      if (sm_session st =? uuid_nil)%N then
        run_steps name (S j) steps st (mkSimResult (re_Scenario re) (re_SessionID re) (re_UserName re)
          (re_DeviceName re) (re_StartedAt re) (re_Steps re ++ [unscored st s]) (re_FinalScore re)
          (re_FinalLevel re) (re_Decision re) (re_IncidentID re))
      else
        o <-- Trust.Evaluate engine now (fresh j) (sm_session st) ("simulator:" +:+ name)%stdpp ;;
        let r := scored st s o in
        run_steps name (S j) steps st (mkSimResult (re_Scenario re) (uuid_string (sm_session st))
          (re_UserName re) (re_DeviceName re) (re_StartedAt re) (re_Steps re ++ [r])
          (Risk.Score (OAssessment o)) (sr_Level r) (sr_Decision r)
          (if str_eqb (sr_IncidentID r) "" then re_IncidentID re else sr_IncidentID r))
  end.

(** [Run]; a failure to look up the names is only logged. *)
Definition Run (s : Scenario) : M SimResult :=
  st <-- prepare ;;
  x <-- run_steps (sn_Name s) 0 (sn_steps s) st (mkSimResult (sn_Name s) "" "" "" now [] 0 "" "" "") ;;
  let '(st, re) := x in
  names <-- try (query_row (λ t,
    u ← find (λ u, (u_id u =? sm_user st)%N) (users t);
    d ← find (λ d, (d_id d =? sm_current st)%N) (devices t);
    Some (u_display_name u, d_hostname d))) ;;
  let '(u, d) := match names with inl x => x | inr _ => ("", "") end in
  ret (mkSimResult (re_Scenario re) (re_SessionID re) u d (re_StartedAt re) (re_Steps re)
    (re_FinalScore re) (re_FinalLevel re) (re_Decision re) (re_IncidentID re)).
End Runner.
