(* ===== verification/Web.v ===== *)
(** * The HTTP surface: requests, replies, middleware (internal/httpapi, internal/auth)

    Wire types, problem replies, the middleware every request goes through, and
    the two gates of package auth.  A handler runs in the store monad and returns
    a reply; its database time, its fresh identifiers and its random bytes are the
    fields of an [Env].  Bodies are decoded by [Decode].  Parameters: the text of driver
    errors and [uuid.Parse]. *)

From S2P Require Import Prelude GoStd Encode Json Decode Columns Identity Risk Posture Policy Behaviour Db AuditLog Device.
From S2P Require Import User Session Telemetry Trust RateLimit.
From Stdlib Require Import Ascii.
Open Scope Z_scope.
Open Scope go_scope.

(** ** Requests *)

(** A request after chi has matched a route: [q_params] holds the path parameters,
    [q_query] the first value of each query parameter, [q_http] the method, the
    path, the device headers and the body, [q_request_id] the identifier that
    [RequestID] assigned. *)
Record Req := mkReq {
  q_http : HttpRequest; q_authorization : string; q_origin : string; q_remote : string;
  q_query : gmap string string; q_params : gmap string string; q_request_id : string }.
Definition q_method (r : Req) : string := h_method (q_http r).
Definition q_path (r : Req) : string := h_path (q_http r).
(** [r.URL.Query().Get] and [chi.URLParam]: empty when absent. *)
Definition query_get (r : Req) (name : string) : string := default "" (q_query r !! name).
Definition url_param (r : Req) (name : string) : string := default "" (q_params r !! name).

(** What the environment supplies to one request: the time, burned audit sequence
    numbers, generated identifiers, random bytes; and for a scenario run the
    identifiers of its evaluations and its key material. *)
Record Env := mkEnv {
  e_now : Z; e_gap : N; e_ids : nat → uuid; e_raw : string; e_fresh : Fresh;
  e_runs : nat → Fresh; e_keys : nat → string; e_suffixes : nat → string }.

Record DevTokenRequest := mkDevTokenRequest {
  dt_Subject : string; dt_Email : string; dt_DisplayName : string; dt_Department : string;
  dt_Roles : list string }.
Record EnrollmentTokenRequest := mkTokenRequest { et_Label : string; et_TTLMinutes : Z }.
Record EnrollRequestBody := mkEnrollBody {
  eb_EnrollmentToken : string; eb_DeviceUID : string; eb_Hostname : string; eb_OSName : string;
  eb_OSVersion : string; eb_AgentVersion : string; eb_PublicKey : string; eb_KeyProtection : string }.
Record HeartbeatRequest := mkHeartbeatRequest {
  hr_AgentVersion : string; hr_QueuedEvents : Z; hr_DroppedEvents : Z }.
Record BeginSessionRequest := mkBeginBody { bs_DeviceUID : string; bs_Nonce : string; bs_Signature : string }.
Record PolicyTrial := mkTrial {
  pt_Score : Z; pt_Level : string; pt_Factors : list string; pt_ResourceSensitivity : string }.

(** Code outside the repository: [err.Error()] of the driver's errors and [uuid.Parse]. *)
Class Libs := {
  err_text : error → string;
  uuid_parse : string → option uuid;
}.

(** ** Request bodies

    The fields and tags of the structs that bodies are decoded into. *)
Definition dev_token_fields : list (field DevTokenRequest) := [
  fld "subject" dt_Subject (λ x r, mkDevTokenRequest x (dt_Email r) (dt_DisplayName r) (dt_Department r) (dt_Roles r));
  fld "email" dt_Email (λ x r, mkDevTokenRequest (dt_Subject r) x (dt_DisplayName r) (dt_Department r) (dt_Roles r));
  fld "display_name" dt_DisplayName
    (λ x r, mkDevTokenRequest (dt_Subject r) (dt_Email r) x (dt_Department r) (dt_Roles r));
  fld "department" dt_Department
    (λ x r, mkDevTokenRequest (dt_Subject r) (dt_Email r) (dt_DisplayName r) x (dt_Roles r));
  fld "roles" dt_Roles
    (λ x r, mkDevTokenRequest (dt_Subject r) (dt_Email r) (dt_DisplayName r) (dt_Department r) x)].
Definition token_fields : list (field EnrollmentTokenRequest) := [
  fld "label" et_Label (λ x r, mkTokenRequest x (et_TTLMinutes r));
  fld "ttl_minutes" et_TTLMinutes (λ x r, mkTokenRequest (et_Label r) x)].
Definition enroll_fields : list (field EnrollRequestBody) := [
  fld "enrollment_token" eb_EnrollmentToken (λ x r, mkEnrollBody x (eb_DeviceUID r) (eb_Hostname r) (eb_OSName r)
    (eb_OSVersion r) (eb_AgentVersion r) (eb_PublicKey r) (eb_KeyProtection r));
  fld "device_uid" eb_DeviceUID (λ x r, mkEnrollBody (eb_EnrollmentToken r) x (eb_Hostname r) (eb_OSName r)
    (eb_OSVersion r) (eb_AgentVersion r) (eb_PublicKey r) (eb_KeyProtection r));
  fld "hostname" eb_Hostname (λ x r, mkEnrollBody (eb_EnrollmentToken r) (eb_DeviceUID r) x (eb_OSName r)
    (eb_OSVersion r) (eb_AgentVersion r) (eb_PublicKey r) (eb_KeyProtection r));
  fld "os_name" eb_OSName (λ x r, mkEnrollBody (eb_EnrollmentToken r) (eb_DeviceUID r) (eb_Hostname r) x
    (eb_OSVersion r) (eb_AgentVersion r) (eb_PublicKey r) (eb_KeyProtection r));
  fld "os_version" eb_OSVersion (λ x r, mkEnrollBody (eb_EnrollmentToken r) (eb_DeviceUID r) (eb_Hostname r)
    (eb_OSName r) x (eb_AgentVersion r) (eb_PublicKey r) (eb_KeyProtection r));
  fld "agent_version" eb_AgentVersion (λ x r, mkEnrollBody (eb_EnrollmentToken r) (eb_DeviceUID r) (eb_Hostname r)
    (eb_OSName r) (eb_OSVersion r) x (eb_PublicKey r) (eb_KeyProtection r));
  fld "public_key" eb_PublicKey (λ x r, mkEnrollBody (eb_EnrollmentToken r) (eb_DeviceUID r) (eb_Hostname r)
    (eb_OSName r) (eb_OSVersion r) (eb_AgentVersion r) x (eb_KeyProtection r));
  fld "key_protection" eb_KeyProtection (λ x r, mkEnrollBody (eb_EnrollmentToken r) (eb_DeviceUID r) (eb_Hostname r)
    (eb_OSName r) (eb_OSVersion r) (eb_AgentVersion r) (eb_PublicKey r) x)].
Definition heartbeat_fields : list (field HeartbeatRequest) := [
  fld "agent_version" hr_AgentVersion (λ x r, mkHeartbeatRequest x (hr_QueuedEvents r) (hr_DroppedEvents r));
  fld "queued_events" hr_QueuedEvents (λ x r, mkHeartbeatRequest (hr_AgentVersion r) x (hr_DroppedEvents r));
  fld "dropped_events" hr_DroppedEvents (λ x r, mkHeartbeatRequest (hr_AgentVersion r) (hr_QueuedEvents r) x)].
Definition begin_fields : list (field BeginSessionRequest) := [
  fld "device_uid" bs_DeviceUID (λ x r, mkBeginBody x (bs_Nonce r) (bs_Signature r));
  fld "nonce" bs_Nonce (λ x r, mkBeginBody (bs_DeviceUID r) x (bs_Signature r));
  fld "signature" bs_Signature (λ x r, mkBeginBody (bs_DeviceUID r) (bs_Nonce r) x)].
Definition trial_fields : list (field PolicyTrial) := [
  fld "score" pt_Score (λ x r, mkTrial x (pt_Level r) (pt_Factors r) (pt_ResourceSensitivity r));
  fld "level" pt_Level (λ x r, mkTrial (pt_Score r) x (pt_Factors r) (pt_ResourceSensitivity r));
  fld "factors" pt_Factors (λ x r, mkTrial (pt_Score r) (pt_Level r) x (pt_ResourceSensitivity r));
  fld "resource_sensitivity" pt_ResourceSensitivity (λ x r, mkTrial (pt_Score r) (pt_Level r) (pt_Factors r) x)].
Definition inbound_fields : list (field Inbound) := [
  fld "event_id" in_EventID (λ x e, mkInbound x (in_OccurredAtMs e) (in_Type e) (in_Severity e) (in_Metadata e));
  fld "occurred_at_ms" in_OccurredAtMs (λ x e, mkInbound (in_EventID e) x (in_Type e) (in_Severity e) (in_Metadata e));
  fld "event_type" in_Type (λ x e, mkInbound (in_EventID e) (in_OccurredAtMs e) x (in_Severity e) (in_Metadata e));
  fld "severity" in_Severity (λ x e, mkInbound (in_EventID e) (in_OccurredAtMs e) (in_Type e) x (in_Metadata e));
  fld "metadata" in_Metadata (λ x e, mkInbound (in_EventID e) (in_OccurredAtMs e) (in_Type e) (in_Severity e) x)].
#[export] Instance Inbound_json : FromJSON Inbound := {
  go_zero := mkInbound "" 0 "" "" ∅;
  decode_into := decode_struct inbound_fields }.
(** A struct with one field. *)
Definition only {A} `{FromJSON A} (name : string) : list (field A) := [fld name (λ x, x) (λ x _, x)].

Section Policies.
Context `{Libs}.
Definition put_id (x : uuid) (p : Policy.Policy) : Policy.Policy :=
  mkPolicy x (PolicyID p) (Version p) (Name p) (Description p) (Priority p) (Enabled p) (PConditions p) (PActions p)
    (PFailMode p) (Policy.CreatedBy p) (Policy.CreatedAt p).
Definition put_creation (by_ : option uuid) (at_ : Z) (p : Policy.Policy) : Policy.Policy :=
  mkPolicy (Policy.ID p) (PolicyID p) (Version p) (Name p) (Description p) (Priority p) (Enabled p) (PConditions p)
    (PActions p) (PFailMode p) by_ at_.
Definition put_text (id name description mode : string) (p : Policy.Policy) : Policy.Policy :=
  mkPolicy (Policy.ID p) id (Version p) name description (Priority p) (Enabled p) (PConditions p) (PActions p) mode
    (Policy.CreatedBy p) (Policy.CreatedAt p).
Definition put_rule (version priority : Z) (enabled : bool) (c : Conditions) (a : Actions) (p : Policy.Policy) : Policy.Policy :=
  mkPolicy (Policy.ID p) (PolicyID p) version (Name p) (Description p) priority enabled c a (PFailMode p)
    (Policy.CreatedBy p) (Policy.CreatedAt p).
Definition policy_fields : list (field Policy.Policy) := [
  mkField "id" (λ _ p v, x ← decode_uuid uuid_parse (Policy.ID p) v; Some (put_id x p));
  fld "policy_id" PolicyID (λ x p, put_text x (Name p) (Description p) (PFailMode p) p);
  fld "version" Version (λ x p, put_rule x (Priority p) (Enabled p) (PConditions p) (PActions p) p);
  fld "name" Name (λ x p, put_text (PolicyID p) x (Description p) (PFailMode p) p);
  fld "description" Description (λ x p, put_text (PolicyID p) (Name p) x (PFailMode p) p);
  fld "priority" Priority (λ x p, put_rule (Version p) x (Enabled p) (PConditions p) (PActions p) p);
  fld "enabled" Enabled (λ x p, put_rule (Version p) (Priority p) x (PConditions p) (PActions p) p);
  fld "conditions" PConditions (λ x p, put_rule (Version p) (Priority p) (Enabled p) x (PActions p) p);
  fld "actions" PActions (λ x p, put_rule (Version p) (Priority p) (Enabled p) (PConditions p) x p);
  fld "fail_mode" PFailMode (λ x p, put_text (PolicyID p) (Name p) (Description p) x p);
  mkField "created_by" (λ _ p v, match v with
    | VNull => Some (put_creation None (Policy.CreatedAt p) p)
    | _ => x ← decode_uuid uuid_parse (default uuid_nil (Policy.CreatedBy p)) v; Some (put_creation (Some x) (Policy.CreatedAt p) p)
    end);
  mkField "created_at" (λ _ p v, x ← decode_time (Policy.CreatedAt p) v; Some (put_creation (Policy.CreatedBy p) x p))].
Definition zero_policy : Policy.Policy :=
  mkPolicy uuid_nil "" 0 "" "" 0 false go_zero go_zero "" None zero_time.
End Policies.

Definition decode_dev_token : Z → option string → option DevTokenRequest :=
  decodeJSONWithLimit dev_token_fields (mkDevTokenRequest "" "" "" "" []).
Definition decode_token_request : Z → option string → option EnrollmentTokenRequest :=
  decodeJSONWithLimit token_fields (mkTokenRequest "" 0).
Definition decode_enroll : Z → option string → option EnrollRequestBody :=
  decodeJSONWithLimit enroll_fields (mkEnrollBody "" "" "" "" "" "" "" "").
Definition decode_heartbeat : Z → option string → option HeartbeatRequest :=
  decodeJSONWithLimit heartbeat_fields (mkHeartbeatRequest "" 0 0).
Definition decode_reason : Z → option string → option string := decodeJSONWithLimit (only "reason") "".
Definition decode_begin : Z → option string → option BeginSessionRequest :=
  decodeJSONWithLimit begin_fields (mkBeginBody "" "" "").
Definition decode_session_id : Z → option string → option string := decodeJSONWithLimit (only "session_id") "".
Definition decode_signals : Z → option string → option Posture.Signals := decodeJSONWithLimit (only "signals") go_zero.
Definition decode_batch : Z → option string → option (list Inbound) := decodeJSONWithLimit (only "events") [].
Definition decode_policy `{Libs} : Z → option string → option Policy.Policy :=
  decodeJSONWithLimit policy_fields zero_policy.
Definition decode_trial : Z → option string → option PolicyTrial := decodeJSONWithLimit trial_fields (mkTrial 0 "" [] "").
Definition decode_status : Z → option string → option string := decodeJSONWithLimit (only "status") "".
Definition decode_note : Z → option string → option string := decodeJSONWithLimit (only "body") "".

(** [decodeJSON] and [decodeLargeJSON]. *)
Definition json_limit : Z := 2 ^ 20.
Definition large_json_limit : Z := 4 * 2 ^ 20.
Definition body_of (r : Req) : option string := h_body (q_http r).

(** [intQuery]. *)
Definition intQuery (r : Req) (name : string) (fallback : Z) : option Z :=
  let raw := query_get r name in
  if str_eqb raw "" then Some fallback else parse_int64 raw.

(** [strings.Cut(s, ":")], and [cutLast(s, ":")] of session_routes.go. *)
Definition colon (c : ascii) : bool := ch c =? 58.
Fixpoint cut_first (s : string) : option (string * string) :=
  match s with
  | EmptyString => None
  | String c s' => if colon c then Some ("", s')
                   else '(a, b) ← cut_first s'; Some (String c a, b)
  end.
Fixpoint cutLast (s : string) : option (string * string) :=
  match s with
  | EmptyString => None
  | String c s' =>
      match cutLast s' with
      | Some (a, b) => Some (String c a, b)
      | None => if colon c then Some ("", s') else None
      end
  end.
(** [clientIP] of package auth and of package httpapi. *)
Definition auth_clientIP (r : Req) : string :=
  match cut_first (q_remote r) with None => q_remote r | Some (host, _) => host end.
Definition clientIP (r : Req) : string :=
  match cutLast (q_remote r) with None => q_remote r | Some (host, _) => host end.

(** ** Replies *)

Record Problem := mkProblem {
  pb_Type : string; pb_Title : string; pb_Status : Z; pb_Detail : string;
  pb_Instance : string; pb_RequestID : string }.
Definition WriteProblem (r : Req) (status : Z) (title detail : string) : Problem :=
  mkProblem "about:blank" title status detail (q_path r) (q_request_id r).

Inductive reply (A : Type) := Refused (p : Problem) | Json (status : Z) (v : A).
Arguments Refused {A}.
Arguments Json {A}.
Definition reply_status {A} (x : reply A) : Z :=
  match x with Refused p => pb_Status p | Json s _ => s end.

Definition refuse {A} (r : Req) (status : Z) (title detail : string) : M (reply A) :=
  ret (Refused (WriteProblem r status title detail)).
Definition internal {A} (r : Req) (detail : string) : M (reply A) :=
  refuse r 500 "Internal Server Error" detail.
Definition bad_body {A} (r : Req) : M (reply A) :=
  refuse r 400 "Invalid Request" "The request body is not valid JSON for this endpoint.".
Definition bad_id {A} (r : Req) (detail : string) : M (reply A) := refuse r 400 "Invalid Parameter" detail.
Definition no_principal {A} (r : Req) : M (reply A) :=
  refuse r 401 "Unauthorized" "A bearer token is required.".

(** [if err != nil]: a panic is not an error value. *)
Definition attempt {A} (m : M A) : M (A + error) :=
  r <-- try m ;; match r with inr (ErrPanic w) => fail (ErrPanic w) | _ => ret r end.
(** [Recoverer]. *)
Definition Recoverer {A} (r : Req) (m : M (reply A)) : M (reply A) :=
  x <-- try m ;;
  match x with inl a => ret a | inr _ => internal r "The request could not be completed." end.

(** ** middleware.go: headers *)

Definition RequestIDHeader : string := "X-Request-ID".
Definition SecurityHeaders : list (string * string) :=
  [("X-Content-Type-Options", "nosniff"); ("X-Frame-Options", "DENY");
   ("Referrer-Policy", "no-referrer"); ("Cache-Control", "no-store");
   ("Content-Security-Policy", "default-src 'none'; frame-ancestors 'none'")].
(** The headers set, and whether the request stops here with 204. *)
Definition CORS (allowed : list string) (r : Req) : list (string * string) * bool :=
  (if negb (str_eqb (q_origin r) "") && str_mem (q_origin r) allowed then
     [("Access-Control-Allow-Origin", q_origin r); ("Access-Control-Allow-Credentials", "true");
      ("Access-Control-Allow-Headers", "Authorization, Content-Type, " +:+ RequestIDHeader)%stdpp;
      ("Access-Control-Allow-Methods", "GET, POST, PATCH, DELETE, OPTIONS");
      ("Access-Control-Max-Age", "600"); ("Vary", "Origin")]
   else [],
   str_eqb (q_method r) "OPTIONS").

(** ** ratelimit.go: keys and middleware *)

Definition ByIP (r : Req) : string := clientIP r.
Definition ByDevice (r : Req) : string :=
  if negb (str_eqb (h_device (q_http r)) "") then ("device:" +:+ h_device (q_http r))%stdpp
  else ("ip:" +:+ clientIP r)%stdpp.
(** The verdict of [RateLimited] and the limiter after it. *)
Definition RateLimited (l : limiter) (key : string) (now : Z) (r : Req) : option Problem * limiter :=
  let '(allowed, _, l') := allow l key now in
  (if allowed then None
   else Some (WriteProblem r 429 "Too Many Requests"
     "This client has made too many requests. Retry after the interval in the Retry-After header."), l').

(** ** Package auth *)

Record Principal := mkPrincipal {
  pr_UserID : uuid; pr_Subject : string; pr_Email : string; pr_DisplayName : string;
  pr_Department : string; pr_Roles : list Role }.
Definition HasAnyRole (p : Principal) (roles : list Role) : bool :=
  existsb (HasRole (pr_Roles p)) roles.

(** [bearerToken]: [strings.Cut(header, " ")]. *)
Fixpoint cut_space (s : string) : option (string * string) :=
  match s with
  | EmptyString => None
  | String c s' => if ch c =? 32 then Some ("", s')
                   else '(a, b) ← cut_space s'; Some (String c a, b)
  end.
Definition bearerToken (r : Req) : option string :=
  if str_eqb (q_authorization r) "" then None else
  match cut_space (q_authorization r) with
  | None => None
  | Some (scheme, token) =>
      if negb (equal_fold scheme "bearer") then None else
      let token := trim_space token in
      if str_eqb token "" then None else Some token
  end.

Definition entry (actor actorID action targetType targetID result requestID sourceIP : string)
    (detail : gmap string json) : AuditLog.Entry :=
  mkEntry zero_time actor actorID action targetType targetID result requestID sourceIP detail.

Section Auth.
Context `{Crypto} (inet : string → option string) {Lib : Libs} {V : Verifier}.

Definition audit (env : Env) (e : AuditLog.Entry) : M unit :=
  AuditLog.Log sha256sum inet (e_now env) (e_gap env) e.

Definition RequireAuth (env : Env) (r : Req) : M (Principal + Problem) :=
  match bearerToken r with
  | None => ret (inr (WriteProblem r 401 "Unauthorized" "A bearer token is required."))
  | Some raw =>
      let invalid := inr (WriteProblem r 401 "Unauthorized" "The bearer token is not valid.") in
      match Identity.Verify (e_now env) raw with
      | inr _ => ret invalid
      | inl claims =>
          if negb (is_ok (Claims_Validate claims)) then ret invalid else
          u <-- attempt (ResolveFromClaims (e_now env) (e_ids env 0) claims) ;;
          match u with
          | inr err =>
              audit env (entry ActorUser (c_Subject claims) "auth.authenticate" "" "" ResultDenied
                (q_request_id r) (auth_clientIP r) {["reason" := JString (err_text err)]}) ;;;
              ret (inr (WriteProblem r 403 "Forbidden" "This account may not access NETRA."))
          | inl record =>
              ret (inl (mkPrincipal (usr_ID record) (c_Subject claims) (usr_Email record)
                (usr_DisplayName record) (usr_Department record) (c_Roles claims)))
          end
      end
  end.

Definition roleNames (roles : list Role) : json := JArray (JString <$> roles).
Definition RequireRole (env : Env) (roles : list Role) (r : Req) (principal : Principal)
    : M (option Problem) :=
  if HasAnyRole principal roles then ret None else
  audit env (entry ActorUser (uuid_string (pr_UserID principal)) "auth.authorization_denied" "endpoint"
    (q_method r +:+ " " +:+ q_path r)%stdpp ResultDenied (q_request_id r) (auth_clientIP r)
    (list_to_map [("required_roles", roleNames roles); ("held_roles", roleNames (pr_Roles principal))])) ;;;
  ret (Some (WriteProblem r 403 "Forbidden" "Your role does not permit this operation.")).
End Auth.
