(* ===== verification/SessionApi.v ===== *)
(** * Session endpoints (internal/httpapi/session_routes.go, me.go) *)

From S2P Require Import Prelude GoStd Encode Identity Risk Posture Policy Behaviour Db AuditLog Device.
From S2P Require Import User Session Telemetry Trust RateLimit Web.
Open Scope Z_scope.
Open Scope go_scope.

Record NonceResponse := mkNonceResponse { nr_Nonce : string; nr_ExpiresAt : Z; nr_Message : string }.
Record SessionResponse := mkSessionResponse {
  sr_ID : string; sr_UserID : string; sr_DeviceID : string; sr_Status : string; sr_AuthMethod : string;
  sr_Attestation : string; sr_SourceIP : string; sr_CurrentRisk : option Z; sr_RiskLevel : string;
  sr_StartedAt : Z; sr_LastSeenAt : Z; sr_EndedAt : option Z; sr_UserDisplayName : string;
  sr_UserEmail : string; sr_DeviceHostname : string; sr_DeviceUID : string }.
Record MeResponse := mkMe {
  me_UserID : string; me_Subject : string; me_Email : string; me_DisplayName : string;
  me_Department : string; me_Roles : list string }.

Definition toSessionResponse (s : Session.Session) : SessionResponse :=
  mkSessionResponse (uuid_string (SID s)) (uuid_string (SUserID s))
    (uuid_string (SDeviceID s)) (status_text (SStatus s)) (SAuthMethod s)
    (SAttestation s) (SSourceIP s) (SCurrentRisk s) (SCurrentLevel s)
    (SStartedAt s) (SLastSeenAt s) (SEndedAt s) (SUserDisplayName s)
    (SUserEmail s) (SDeviceHostname s) (SDeviceUID s).

(** [handleMe]; the argument is what [auth.FromContext] returns. *)
Definition handleMe (r : Req) (principal : option Principal) : M (reply MeResponse) :=
  match principal with
  | None => no_principal r
  | Some p => ret (Json 200 (mkMe (uuid_string (pr_UserID p)) (pr_Subject p) (pr_Email p) (pr_DisplayName p)
      (pr_Department p) (pr_Roles p)))
  end.

Section SessionApi.
Context `{Crypto} (parse_addr inet : string → option string) {Lib : Libs}.

(** ** Client plane *)

Definition issueNonce (env : Env) (r : Req) (principal : option Principal) : M (reply NonceResponse) :=
  match principal with
  | None => no_principal r
  | Some p =>
      x <-- attempt (IssueNonce (e_now env) (e_raw env) (pr_UserID p)) ;;
      match x with
      | inr _ => internal r "An attestation challenge could not be issued."
      | inl (nonce, expiresAt) =>
          ret (Json 201 (mkNonceResponse nonce expiresAt (AttestationString nonce (pr_Subject p))))
      end
  end.

(** The audit entry of a refused attestation. *)
Definition begin_denied (r : Req) (p : Principal) (deviceUID reason : string) : AuditLog.Entry :=
  entry ActorUser (uuid_string (pr_UserID p)) "session.begin" "device" deviceUID ResultDenied
    (q_request_id r) (clientIP r) {["reason" := JString reason]}.

Definition begin (env : Env) (r : Req) (principal : option Principal) : M (reply SessionResponse) :=
  match principal with
  | None => no_principal r
  | Some p =>
      match decode_begin json_limit (body_of r) with
      | None => bad_body r
      | Some body =>
          x <-- attempt (Begin parse_addr inet (e_now env) (e_ids env 1)
                 (mkBegin (pr_UserID p) (pr_Subject p) (bs_DeviceUID body) (bs_Nonce body)
                    (bs_Signature body) (clientIP r))) ;;
          let denied reason := audit inet env (begin_denied r p (bs_DeviceUID body) reason) in
          match x with
          | inr (ErrSessionValidation _) | inr ErrNonce =>
              denied "invalid or expired attestation challenge" ;;;
              refuse r 400 "Invalid Request" "The attestation challenge is not valid."
          | inr ErrAttestation =>
              denied "device attestation signature did not verify" ;;;
              refuse r 401 "Unauthorized" "The device attestation could not be verified."
          | inr ErrDeviceUnusable =>
              denied "device is unknown, not active, or has not reported recently" ;;;
              refuse r 403 "Forbidden" "This device may not establish a session."
          | inr _ => internal r "The session could not be established."
          | inl created =>
              audit inet env (entry ActorUser (uuid_string (pr_UserID p)) "session.begin" "session"
                (uuid_string (SID created)) ResultSuccess (q_request_id r) (clientIP r)
                (list_to_map [("device_id", JString (uuid_string (SDeviceID created)));
                   ("device_uid", JString (SDeviceUID created));
                   ("attestation", JString (SAttestation created))])) ;;;
              ret (Json 201 (toSessionResponse created))
          end
      end
  end.

Definition end_ (env : Env) (r : Req) (principal : option Principal) : M (reply string) :=
  match principal with
  | None => no_principal r
  | Some p =>
      match decode_session_id json_limit (body_of r) with
      | None => bad_body r
      | Some raw =>
          match uuid_parse raw with
          | None => refuse r 400 "Invalid Request" "session_id must be a UUID."
          | Some id =>
              x <-- attempt (End (e_now env) id (pr_UserID p)) ;;
              match x with
              | inr ErrNoRows => refuse r 404 "Not Found" "No such active session for this user."
              | inr _ => internal r "The session could not be ended."
              | inl _ =>
                  audit inet env (entry ActorUser (uuid_string (pr_UserID p)) "session.end" "session"
                    (uuid_string id) ResultSuccess (q_request_id r) (clientIP r) ∅) ;;;
                  ret (Json 200 (uuid_string id))
              end
          end
      end
  end.

(** ** SOC plane *)

Definition listSessions (r : Req) : M (reply (list SessionResponse)) :=
  match intQuery r "limit" 100 with
  | None => bad_id r "limit must be between 1 and 500."
  | Some lim =>
      if (lim <? 1) || (lim >? 500) then bad_id r "limit must be between 1 and 500." else
      x <-- attempt (Session.List (str_eqb (query_get r "active") "true") lim) ;;
      match x with
      | inr _ => internal r "Sessions could not be listed."
      | inl l => ret (Json 200 (toSessionResponse <$> l))
      end
  end.

Definition getSession (r : Req) : M (reply SessionResponse) :=
  match uuid_parse (url_param r "id") with
  | None => bad_id r "id must be a UUID."
  | Some id =>
      x <-- attempt (Session.ByID id) ;;
      match x with
      | inr ErrNoRows => refuse r 404 "Not Found" "No such session."
      | inr _ => internal r "The session could not be loaded."
      | inl found => ret (Json 200 (toSessionResponse found))
      end
  end.
End SessionApi.
