(* ===== verification/DeviceApi.v ===== *)
(** * Device and posture endpoints (internal/httpapi/device_routes.go, posture_routes.go) *)

From S2P Require Import Prelude GoStd Encode Identity Risk Posture Policy Behaviour Db AuditLog Device.
From S2P Require Import User Session Telemetry PostureStore Trust RateLimit Web.
From Stdlib Require Import Ascii.
Open Scope Z_scope.
Open Scope go_scope.

(** ** Wire types *)

Record EnrollmentTokenResponse := mkTokenResponse {
  er_TokenID : string; er_Token : string; er_ExpiresAt : Z; er_Notice : string }.
Record DeviceResponse := mkDeviceResponse {
  dr_ID : string; dr_DeviceUID : string; dr_Hostname : string; dr_OSName : string; dr_OSVersion : string;
  dr_AgentVersion : string; dr_KeyAlgorithm : string; dr_KeyProtection : string; dr_State : string;
  dr_EnrolledAt : option Z; dr_LastHeartbeatAt : option Z; dr_RevokedAt : option Z;
  dr_RevokedReason : string; dr_TrustScore : option Z }.
Record HeartbeatResponse := mkHeartbeatResponse {
  hb_ServerTime : Z; hb_HeartbeatInterval : Z; hb_PolicyVersion : Z }.
Record PostureResponse := mkPostureResponse {
  po_TrustScore : Z; po_Factors : list Posture.Factor; po_Weakest : list Posture.Factor;
  po_Verified : bool; po_ModelVersion : string; po_CollectedAt : Z }.
Record PosturePoint := mkPoint { pp_CollectedAt : Z; pp_TrustScore : Z; pp_Verified : bool }.

Definition state_text (s : device_state) : string :=
  match s with PENDING => "PENDING" | DEV_ACTIVE => "ACTIVE" | REVOKED => "REVOKED" end.

(** The public key is not in the response. *)
Definition toDeviceResponse (d : Device) : DeviceResponse :=
  mkDeviceResponse (uuid_string (Device.ID d)) (DeviceUID d) (Hostname d) (Device.OSName d)
    (Device.OSVersion d) (Device.AgentVersion d) (KeyAlgorithm d) (Device.KeyProtection d)
    (state_text (State d)) (EnrolledAt d) (Device.LastHeartbeatAt d) (RevokedAt d) (RevokedReason d) None.
Definition with_score (d : DeviceResponse) (score : option Z) : DeviceResponse :=
  mkDeviceResponse (dr_ID d) (dr_DeviceUID d) (dr_Hostname d) (dr_OSName d) (dr_OSVersion d)
    (dr_AgentVersion d) (dr_KeyAlgorithm d) (dr_KeyProtection d) (dr_State d) (dr_EnrolledAt d)
    (dr_LastHeartbeatAt d) (dr_RevokedAt d) (dr_RevokedReason d) score.

(** [base64.RawStdEncoding.EncodeToString]. *)
Definition b64_char (n : N) : ascii :=
  if (n <? 26)%N then ascii_of_N (65 + n) else if (n <? 52)%N then ascii_of_N (71 + n)
  else if (n <? 62)%N then ascii_of_N (n - 4) else if (n =? 62)%N then ascii_of_N 43 else ascii_of_N 47.
Fixpoint b64_encode (s : string) : string :=
  match s with
  | EmptyString => ""
  | String a s1 =>
      let x := N_of_ascii a in
      match s1 with
      | EmptyString => String (b64_char (x / 4)) (String (b64_char (x mod 4 * 16)) "")
      | String b s2 =>
          let y := N_of_ascii b in
          match s2 with
          | EmptyString => String (b64_char (x / 4)) (String (b64_char (x mod 4 * 16 + y / 16))
              (String (b64_char (y mod 16 * 4)) ""))
          | String c s3 =>
              let z := N_of_ascii c in
              String (b64_char (x / 4)) (String (b64_char (x mod 4 * 16 + y / 16))
                (String (b64_char (y mod 16 * 4 + z / 64)) (String (b64_char (z mod 64)) (b64_encode s3))))
          end
      end
  end.
Example b64_sample : b64_encode "Man" = "TWFu" ∧ b64_encode "Ma" = "TWE" ∧ b64_encode "M" = "TQ".
Proof. done. Qed.
Definition publicKeyFingerprint (key : string) : string := String.substring 0 16 (b64_encode key).

Definition actorID (p : option Principal) : string :=
  match p with None => "" | Some p => uuid_string (pr_UserID p) end.

Section DeviceApi.
Context `{Crypto} (inet : string → option string) {Lib : Libs}.

(** ** Admin plane *)

Definition issueEnrollmentToken (env : Env) (r : Req) (principal : option Principal)
    : M (reply EnrollmentTokenResponse) :=
  match decode_token_request json_limit (body_of r) with
  | None => bad_body r
  | Some req =>
      let minutes := if et_TTLMinutes req <=? 0 then 60 else et_TTLMinutes req in
      if minutes >? 60 * 24 * 7 then
        refuse r 400 "Invalid Request" "ttl_minutes must not exceed one week." else
      let ttl := minutes *! minute in
      x <-- attempt (IssueEnrollmentToken (e_now env) (e_raw env) (e_ids env 1)
                       (pr_UserID <$> principal) (et_Label req) ttl) ;;
      match x with
      | inr _ => internal r "The enrollment token could not be issued."
      | inl (token, tokenID) =>
          audit inet env (entry ActorUser (actorID principal) "device.enrollment_token_issued"
            "enrollment_token" (uuid_string tokenID) ResultSuccess (q_request_id r) ""
            (list_to_map [("label", JString (et_Label req)); ("ttl_minutes", JInt minutes)])) ;;;
          ret (Json 201 (mkTokenResponse (uuid_string tokenID) token (time_add (e_now env) ttl)
            "This token is shown once and can enrol exactly one device."))
      end
  end.

(** [posture] is whether posture scoring is configured. *)
Definition listDevices (posture : bool) (r : Req) : M (reply (list DeviceResponse)) :=
  match intQuery r "limit" 100 with
  | None => bad_id r "limit must be between 1 and 500."
  | Some lim =>
      if (lim <? 1) || (lim >? 500) then bad_id r "limit must be between 1 and 500." else
      x <-- attempt (Device.List lim) ;;
      match x with
      | inr _ => internal r "Devices could not be listed."
      | inl devices =>
          scores <-- (if posture then s <-- attempt LatestScores ;;
                        ret (match s with inl m => m | inr _ => ∅ end)
                      else ret ∅) ;;
          ret (Json 200 ((λ d, with_score (toDeviceResponse d) (scores !! Device.ID d)) <$> devices))
      end
  end.

Definition getDevice (posture : bool) (r : Req) : M (reply DeviceResponse) :=
  match uuid_parse (url_param r "id") with
  | None => bad_id r "id must be a UUID."
  | Some id =>
      x <-- attempt (Device.ByID id) ;;
      match x with
      | inr ErrDeviceNotFound => refuse r 404 "Not Found" "No such device."
      | inr _ => internal r "The device could not be loaded."
      | inl found =>
          score <-- (if posture then l <-- attempt (PostureStore.Latest (Device.ID found)) ;;
                       ret (match l with inl p => Some (p_trust_score p) | inr _ => None end)
                     else ret None) ;;
          ret (Json 200 (with_score (toDeviceResponse found) score))
      end
  end.

Definition revokeDevice (env : Env) (r : Req) (principal : option Principal) : M (reply string) :=
  match uuid_parse (url_param r "id") with
  | None => bad_id r "id must be a UUID."
  | Some id =>
      match decode_reason json_limit (body_of r) with
      | None => bad_body r
      | Some reason =>
          x <-- attempt (Revoke (e_now env) id reason) ;;
          match x with
          | inr ErrDeviceNotFound => refuse r 404 "Not Found" "No such device, or it is already revoked."
          | inr _ => internal r "The device could not be revoked."
          | inl _ =>
              audit inet env (entry ActorUser (actorID principal) "device.revoke" "device" (uuid_string id)
                ResultSuccess (q_request_id r) "" {["reason" := JString reason]}) ;;;
              ret (Json 200 (uuid_string id))
          end
      end
  end.

(** ** Agent plane *)

Definition enroll (env : Env) (r : Req) : M (reply DeviceResponse) :=
  match decode_enroll json_limit (body_of r) with
  | None => bad_body r
  | Some body =>
      match ParsePublicKey (eb_PublicKey body) with
      | inr err => refuse r 400 "Invalid Request" (err_text err)
      | inl publicKey =>
          let req := mkEnroll (eb_DeviceUID body) (eb_Hostname body) (eb_OSName body) (eb_OSVersion body)
                       (eb_AgentVersion body) publicKey (eb_KeyProtection body) in
          x <-- attempt (Enroll (e_now env) (e_ids env 1) (eb_EnrollmentToken body) req) ;;
          match x with
          | inr ErrEnrollmentToken =>
              audit inet env (entry ActorDevice (eb_DeviceUID body) "device.enroll" "device"
                (eb_DeviceUID body) ResultDenied (q_request_id r) ""
                {["reason" := JString "invalid or spent enrollment token"]}) ;;;
              refuse r 401 "Unauthorized" "The enrollment token is not valid."
          | inr ErrDeviceExists =>
              refuse r 409 "Conflict" "A device with this identifier is already enrolled."
          | inr (ErrDeviceValidation msg) =>
              refuse r 400 "Invalid Request" (err_text (ErrDeviceValidation msg))
          | inr _ => internal r "The device could not be enrolled."
          | inl d =>
              audit inet env (entry ActorDevice (uuid_string (Device.ID d)) "device.enroll" "device"
                (uuid_string (Device.ID d)) ResultSuccess (q_request_id r) ""
                (list_to_map [("hostname", JString (Hostname d));
                   ("os", JString (Device.OSName d +:+ " " +:+ Device.OSVersion d)%stdpp);
                   ("agent_version", JString (Device.AgentVersion d));
                   ("key_protection", JString (Device.KeyProtection d));
                   ("public_key_sha256", JString (publicKeyFingerprint publicKey))])) ;;;
              ret (Json 201 (toDeviceResponse d))
          end
      end
  end.

(** Handlers of the signed plane; the device is what [device.FromContext] returns. *)
Definition no_device {A} (r : Req) : M (reply A) :=
  refuse r 401 "Unauthorized" "Device authentication is required.".

Definition heartbeat (env : Env) (r : Req) (dev : option Device) : M (reply HeartbeatResponse) :=
  match dev with
  | None => no_device r
  | Some d =>
      match decode_heartbeat json_limit (body_of r) with
      | None => bad_body r
      | Some body =>
          x <-- attempt (Heartbeat (e_now env) (Device.ID d) (hr_AgentVersion body)) ;;
          match x with
          | inr ErrDeviceNotActive => refuse r 403 "Forbidden" "This device is not active."
          | inr _ => internal r "The heartbeat could not be recorded."
          | inl _ => ret (Json 200 (mkHeartbeatResponse (e_now env) 30 0))
          end
      end
  end.

(** ** Posture *)

Definition auditRejection (env : Env) (r : Req) (deviceID reason : string) : M unit :=
  audit inet env (entry ActorDevice deviceID "device.posture_rejected" "device" deviceID ResultDenied
    (q_request_id r) "" {["reason" := JString reason]}).

Definition submit (weights : Posture.Weights) (expectedAgent : string) (env : Env) (r : Req)
    (dev : option Device) : M (reply PostureResponse) :=
  match dev with
  | None => no_device r
  | Some d =>
      match decode_signals json_limit (body_of r) with
      | None => bad_body r
      | Some signals =>
          match Signals_Validate signals with
          | inr err =>
              auditRejection env r (uuid_string (Device.ID d)) (err_text err) ;;;
              refuse r 400 "Invalid Request" (err_text err)
          | inl _ =>
              let assessment := Posture.Evaluate signals
                (Posture.mkDeviceContext (bool_decide (State d = DEV_ACTIVE)) (Device.KeyProtection d)
                   (Device.AgentVersion d) expectedAgent (Device.LastHeartbeatAt d) (e_now env)) weights in
              x <-- attempt (PostureStore.Record (e_now env) (e_ids env 1) (Device.ID d) signals assessment) ;;
              match x with
              | inr _ => internal r "The posture report could not be stored."
              | inl stored =>
                  ret (Json 201 (mkPostureResponse (p_trust_score stored) (p_factors stored)
                    (Weakest assessment 3) (p_verified stored) (p_model stored) (p_collected_at stored)))
              end
          end
      end
  end.

Definition latest (r : Req) : M (reply posture_row) :=
  match uuid_parse (url_param r "id") with
  | None => bad_id r "id must be a UUID."
  | Some id =>
      x <-- attempt (PostureStore.Latest id) ;;
      match x with
      | inr ErrNoPosture => refuse r 404 "Not Found" "This device has not reported its posture yet."
      | inr _ => internal r "The posture could not be loaded."
      | inl record => ret (Json 200 record)
      end
  end.

Definition history (r : Req) : M (reply (string * list PosturePoint)) :=
  match uuid_parse (url_param r "id") with
  | None => bad_id r "id must be a UUID."
  | Some id =>
      match intQuery r "limit" 50 with
      | None => bad_id r "limit must be between 1 and 200."
      | Some lim =>
          if (lim <? 1) || (lim >? 200) then bad_id r "limit must be between 1 and 200." else
          x <-- attempt (PostureStore.History id lim) ;;
          match x with
          | inr _ => internal r "The posture history could not be loaded."
          | inl records =>
              ret (Json 200 (uuid_string id,
                (λ p, mkPoint (p_collected_at p) (p_trust_score p) (p_verified p)) <$> records))
          end
      end
  end.
End DeviceApi.
