(* ===== verification/TrustApi.v ===== *)
(** * Continuous-trust endpoints (internal/httpapi/trust_routes.go) *)

From S2P Require Import Prelude GoStd Encode Identity Risk Posture Policy Behaviour Db AuditLog Device.
From S2P Require Import User Session Telemetry Incident RiskStore PolicyStore PostureStore BehaviourStore.
From S2P Require Import Trust RateLimit Web DeviceApi.
From Stdlib Require Import Ascii.
Open Scope Z_scope.
Open Scope go_scope.

Record RiskPoint := mkRiskPoint { rp_ComputedAt : Z; rp_Score : Z; rp_Level : string; rp_Trigger : string }.
Record RiskResponse := mkRiskResponse {
  rr_SessionID : string; rr_Current : Risk.Assessment; rr_History : list RiskPoint }.
(** The incident with the parts that could be loaded. *)
Record IncidentResponse := mkIncidentResponse {
  ix_Incident : Incident.Incident; ix_Notes : option (list Incident.Note); ix_Events : option (list Event);
  ix_RiskHistory : option (list Risk.Assessment); ix_Decisions : option (list DecisionRecord) }.
Record OverviewResponse := mkOverview {
  ov_Endpoints : Z; ov_EndpointsTrusted : Z; ov_EndpointsAtRisk : Z; ov_ActiveSessions : Z;
  ov_HighRiskSessions : Z; ov_OpenIncidents : Z; ov_CriticalIncidents : Z;
  ov_RiskDistribution : gmap string Z; ov_RecentEvents : list Event }.

(** [strings.Split(raw, ",")]. *)
Fixpoint split_comma (s : string) : list string :=
  match s with
  | EmptyString => [""]
  | String c s' =>
      if ch c =? 44 then "" :: split_comma s'
      else match split_comma s' with [] => [String c ""] | x :: l => String c x :: l end
  end.
(** A query parameter that must be a UUID when present. *)
Definition uuid_query `{Lib : Libs} (r : Req) (name : string) : option (option uuid) :=
  let raw := query_get r name in
  if str_eqb raw "" then Some None else id ← uuid_parse raw; Some (Some id).
Definition ok_or {A} (x : A + error) (dflt : A) : A := match x with inl a => a | inr _ => dflt end.
Definition ok_opt {A} (x : A + error) : option A := match x with inl a => Some a | inr _ => None end.

Section TrustApi.
Context `{Crypto} (inet : string → option string) {Lib : Libs} (engine : Risk.Engine).

(** ** Agent plane *)

Definition ingest (env : Env) (r : Req) (dev : option Device) : M (reply IngestResult) :=
  match dev with
  | None => no_device r
  | Some d =>
      match decode_batch large_json_limit (body_of r) with
      | None => bad_body r
      | Some events =>
          if is_nil events then refuse r 400 "Invalid Request" "The batch contains no events." else
          x <-- attempt (Ingest (e_now env) (e_ids env 1) (λ i, e_ids env (2 + i)) (Device.ID d) events) ;;
          match x with
          | inr (ErrInvalidEvent msg) => refuse r 400 "Invalid Request" (err_text (ErrInvalidEvent msg))
          | inr _ => internal r "The events could not be stored."
          | inl result =>
              (if ir_Accepted result >? 0 then
                 attempt (EvaluateDevice engine (e_now env) (e_fresh env) (Device.ID d) "telemetry_batch") ;;;
                 ret ()
               else ret ()) ;;;
              ret (Json 202 result)
          end
      end
  end.

(** ** Events *)

Definition event_types (raw : string) : list string :=
  if str_eqb raw "" then [] else (λ v, to_upper (trim_space v)) <$> split_comma raw.
Definition listEvents (r : Req) : M (reply (list Event)) :=
  match intQuery r "limit" 100 with
  | None => bad_id r "limit must be between 1 and 1000."
  | Some lim =>
      if (lim <? 1) || (lim >? 1000) then bad_id r "limit must be between 1 and 1000." else
      match uuid_query r "session_id", uuid_query r "device_id" with
      | None, _ => bad_id r "session_id must be a UUID."
      | _, None => bad_id r "device_id must be a UUID."
      | Some session, Some device =>
          let severity := let raw := query_get r "severity" in
            if str_eqb raw "" then None else Some (to_upper raw) in
          x <-- attempt (Query (mkFilter device None session (event_types (query_get r "type")) severity None lim)) ;;
          match x with
          | inr _ => internal r "Events could not be queried."
          | inl events => ret (Json 200 events)
          end
      end
  end.

(** ** Risk *)

Definition sessionRisk (r : Req) : M (reply RiskResponse) :=
  match uuid_parse (url_param r "session_id") with
  | None => bad_id r "session_id must be a UUID."
  | Some id =>
      x <-- attempt (RiskStore.Latest id) ;;
      match x with
      | inr _ => refuse r 404 "Not Found" "This session has not been scored yet."
      | inl current =>
          h <-- attempt (RiskStore.History id 200) ;;
          ret (Json 200 (mkRiskResponse (uuid_string id) current
            ((λ p, mkRiskPoint (Risk.ComputedAt p) (Risk.Score p) (Risk.ALevel p) (Risk.TriggerEvent p))
               <$> ok_or h [])))
      end
  end.

Definition evaluate (env : Env) (r : Req) : M (reply Outcome) :=
  match uuid_parse (url_param r "session_id") with
  | None => bad_id r "session_id must be a UUID."
  | Some id =>
      x <-- attempt (Trust.Evaluate engine (e_now env) (e_fresh env) id "manual") ;;
      match x with
      | inr _ => internal r "The session could not be evaluated."
      | inl outcome => ret (Json 200 outcome)
      end
  end.

(** ** Policy *)

Definition listPolicies (r : Req) : M (reply (list Policy.Policy)) :=
  x <-- attempt All ;;
  match x with inr _ => internal r "Policies could not be listed." | inl l => ret (Json 200 l) end.

Definition enable (p : Policy.Policy) : Policy.Policy :=
  mkPolicy (Policy.ID p) (PolicyID p) (Version p) (Name p) (Description p) (Priority p) true
    (PConditions p) (PActions p) (PFailMode p) (CreatedBy p) (Policy.CreatedAt p).
Definition createPolicy (env : Env) (r : Req) (principal : option Principal) : M (reply Policy.Policy) :=
  match decode_policy json_limit (body_of r) with
  | None => bad_body r
  | Some candidate =>
      x <-- attempt (PolicyStore.Create (e_now env) (e_ids env 1) (enable candidate) (pr_UserID <$> principal)) ;;
      match x with
      | inr (ErrInvalidPolicy msg) => refuse r 400 "Invalid Request" (err_text (ErrInvalidPolicy msg))
      | inr _ => internal r "The policy could not be created."
      | inl created =>
          audit inet env (entry ActorUser (actorID principal) "policy.created" "policy" (PolicyID created)
            ResultSuccess (q_request_id r) ""
            (list_to_map [("version", JInt (Version created));
               ("decision", JString (ADecision (PActions created))); ("name", JString (Name created))])) ;;;
          ret (Json 201 created)
      end
  end.

(** The assessment of a hypothetical request. *)
Definition trial_assessment (t : PolicyTrial) : Risk.Assessment :=
  let level := to_upper (pt_Level t) in
  Risk.mkAssessment uuid_nil (pt_Score t)
    (if str_eqb level "" then Thresholds_Level DefaultThresholds (pt_Score t) else level) ""
    ((λ c, Risk.mkFactor (to_upper c) "" "" 0 "") <$> pt_Factors t) ∅ zero_time "" "".
Definition evaluatePolicy (env : Env) (r : Req) : M (reply Policy.Result) :=
  match decode_trial json_limit (body_of r) with
  | None => bad_body r
  | Some t =>
      if (pt_Score t <? 0) || (pt_Score t >? 100) then refuse r 400 "Invalid Request" "score must be 0..100." else
      x <-- attempt Active ;;
      match x with
      | inr _ => internal r "Policies could not be loaded."
      | inl active =>
          ret (Json 200 (Policy.Evaluate (NewEngine active)
            (mkRequest (trial_assessment t) (to_upper (pt_ResourceSensitivity t)) None false) (e_now env)))
      end
  end.

Definition listDecisions (r : Req) : M (reply (list DecisionRecord)) :=
  match intQuery r "limit" 100 with
  | None => bad_id r "limit must be between 1 and 500."
  | Some lim =>
      if (lim <? 1) || (lim >? 500) then bad_id r "limit must be between 1 and 500." else
      match uuid_query r "session_id" with
      | None => bad_id r "session_id must be a UUID."
      | Some session =>
          x <-- attempt (Decisions session lim) ;;
          match x with inr _ => internal r "Decisions could not be listed." | inl l => ret (Json 200 l) end
      end
  end.

(** ** Incidents *)

Definition listIncidents (r : Req) : M (reply (list Incident.Incident)) :=
  match intQuery r "limit" 100 with
  | None => bad_id r "limit must be between 1 and 500."
  | Some lim =>
      if (lim <? 1) || (lim >? 500) then bad_id r "limit must be between 1 and 500." else
      x <-- attempt (Incident.List (str_eqb (query_get r "open") "true") lim) ;;
      match x with inr _ => internal r "Incidents could not be listed." | inl l => ret (Json 200 l) end
  end.

Definition getIncident (r : Req) : M (reply IncidentResponse) :=
  match uuid_parse (url_param r "id") with
  | None => bad_id r "id must be a UUID."
  | Some id =>
      x <-- attempt (Incident.ByID id) ;;
      match x with
      | inr ErrIncidentNotFound => refuse r 404 "Not Found" "No such incident."
      | inr _ => internal r "The incident could not be loaded."
      | inl found =>
          notes <-- attempt (Notes id) ;;
          match ISessionID found with
          | None => ret (Json 200 (mkIncidentResponse found (ok_opt notes) None None None))
          | Some s =>
              events <-- attempt (Query (mkFilter None None (Some s) [] None None 200)) ;;
              history <-- attempt (RiskStore.History s 200) ;;
              decisions <-- attempt (Decisions (Some s) 100) ;;
              ret (Json 200 (mkIncidentResponse found (ok_opt notes) (ok_opt events) (ok_opt history)
                (ok_opt decisions)))
          end
      end
  end.

Definition setIncidentStatus (env : Env) (r : Req) (principal : option Principal) : M (reply (string * string)) :=
  match uuid_parse (url_param r "id") with
  | None => bad_id r "id must be a UUID."
  | Some id =>
      match decode_status json_limit (body_of r) with
      | None => bad_body r
      | Some raw =>
          match ParseStatus (to_upper raw) with
          | (_, false) => refuse r 400 "Invalid Request"
              "status must be OPEN, INVESTIGATING, CONTAINED, RESOLVED or FALSE_POSITIVE."
          | (status, true) =>
              x <-- attempt (SetStatus (e_now env) id status) ;;
              match x with
              | inr ErrIncidentNotFound => refuse r 404 "Not Found" "No such incident."
              | inr _ => internal r "The incident could not be updated."
              | inl _ =>
                  audit inet env (entry ActorUser (actorID principal) "incident.status_changed" "incident"
                    (uuid_string id) ResultSuccess (q_request_id r) "" {["status" := JString status]}) ;;;
                  ret (Json 200 (uuid_string id, status))
              end
          end
      end
  end.

Definition addIncidentNote (env : Env) (r : Req) (principal : option Principal) : M (reply unit) :=
  match uuid_parse (url_param r "id") with
  | None => bad_id r "id must be a UUID."
  | Some id =>
      match decode_note json_limit (body_of r) with
      | None => bad_body r
      | Some raw =>
          let trimmed := trim_space raw in
          if str_eqb trimmed "" || (len trimmed >? 4000) then
            refuse r 400 "Invalid Request" "A note must be between 1 and 4000 characters." else
          match principal with
          | None => no_principal r
          | Some p =>
              x <-- attempt (AddNote (e_now env) (e_ids env 1) id (pr_UserID p) trimmed) ;;
              match x with inr _ => internal r "The note could not be added." | inl _ => ret (Json 201 ()) end
          end
      end
  end.

(** ** Baselines and overview *)

Definition rebuildBaseline (env : Env) (r : Req) : M (reply Profile) :=
  match uuid_parse (url_param r "id") with
  | None => bad_id r "id must be a UUID."
  | Some id =>
      x <-- attempt (Rebuild (e_now env) id DefaultWindowDays) ;;
      match x with inr _ => internal r "The baseline could not be rebuilt." | inl p => ret (Json 200 p) end
  end.

Definition getBaseline (r : Req) : M (reply Profile) :=
  match uuid_parse (url_param r "id") with
  | None => bad_id r "id must be a UUID."
  | Some id =>
      x <-- attempt (Load id) ;;
      match x with
      | inr _ => refuse r 404 "Not Found" "This user has no behavioural baseline yet."
      | inl p => ret (Json 200 p)
      end
  end.

Definition overview : M (reply OverviewResponse) :=
  counts <-- attempt Counts ;;
  events <-- attempt (Query (mkFilter None None None [] None None 15)) ;;
  fleet <-- attempt FleetSummary_ ;;
  let '(open, critical) := ok_or counts (0, 0) in
  let f := ok_or fleet (mkFleet 0 0 0 0 0 ∅) in
  ret (Json 200 (mkOverview (Endpoints f) (Trusted f) (AtRisk f) (ActiveSessions f) (HighRiskSessions f)
    open critical (RiskDistribution f) (ok_or events []))).
End TrustApi.
