(* ===== verification/BodyProps.v ===== *)
(** * Request bodies

    [decodeJSON] refuses what it does not know: a body that is accepted is one JSON value
    within the size limit, null or an object, and every member of it, and of the structs
    in it, names a field of the struct it is decoded into (up to case). *)

From S2P Require Import Prelude GoStd Encode Json Decode Columns Identity Risk Posture Policy Behaviour Db AuditLog Device.
From S2P Require Import User Session Telemetry Trust RateLimit Web TrustApi.
Open Scope Z_scope.
Open Scope go_scope.

(** A value whose members are among [names] up to case, and satisfy [inner]. *)
Definition known_members (names : list string) (inner : string → jval → Prop) (v : jval) : Prop :=
  v = VNull ∨ ∃ kvs, v = VObj kvs ∧
    Forall (λ kv, ∃ n, n ∈ names ∧ equal_fold n kv.1 = true ∧ inner n kv.2) kvs.
Definition anything (_ : string) (_ : jval) : Prop := True.
(** A body with such a value at its start. *)
Definition reads_as (limit : Z) (body : option string) (names : list string) (inner : string → jval → Prop) : Prop :=
  ∃ b v, body = Some b ∧ parse_stream (str_take limit b) = Some v ∧ known_members names inner v.

Lemma find_field_known {A} (fields : list (field A)) key f :
  find_field fields key = Some f → f ∈ fields ∧ equal_fold (f_name f) key = true.
Proof.
  unfold find_field. destruct (List.find (λ g, str_eqb (f_name g) key) fields) as [g|] eqn:E.
  - intros [= ->]. apply Db.find_some in E as [Hin Hk%str_eqb_eq]. split; [done|]. rewrite Hk. apply equal_fold_refl.
  - intros E'. by apply Db.find_some in E'.
Qed.
(** Strict decoding stores every member in a field. *)
Lemma members_known {A} (fields : list (field A)) (inner : string → jval → Prop) kvs a b :
  (∀ f a v b, f ∈ fields → f_set f true a v = Some b → inner (f_name f) v) →
  foldl (decode_member fields true) (Some a) kvs = Some b →
  Forall (λ kv, ∃ n, n ∈ f_name <$> fields ∧ equal_fold n kv.1 = true ∧ inner n kv.2) kvs.
Proof.
  intros Hin. revert a. induction kvs as [|kv kvs IH]; intros a; [constructor|]. cbn [foldl]. unfold decode_member at 2.
  cbn [mbind option_bind]. destruct (find_field fields kv.1) as [f|] eqn:Ef; [|by rewrite member_None].
  apply find_field_known in Ef as [Hf He]. destruct (f_set f true a kv.2) as [a'|] eqn:Es; [|by rewrite member_None].
  intros Hk. constructor; [|by eapply IH]. exists (f_name f). split_and!; [by apply list_elem_of_fmap_2|done|by eapply Hin].
Qed.
Lemma struct_known {A} (fields : list (field A)) inner v a b :
  (∀ f a v b, f ∈ fields → f_set f true a v = Some b → inner (f_name f) v) →
  decode_struct fields true a v = Some b → known_members (f_name <$> fields) inner v.
Proof.
  intros Hin. destruct v; simpl; try done; [by left|]. intros Hd. right. eexists. split; [done|].
  by eapply (members_known fields).
Qed.
Lemma struct_names {A} (fields : list (field A)) v a b :
  decode_struct fields true a v = Some b → known_members (f_name <$> fields) anything v.
Proof. by apply struct_known. Qed.
Lemma body_known {A} (fields : list (field A)) inner zero limit body a :
  (∀ f a v b, f ∈ fields → f_set f true a v = Some b → inner (f_name f) v) →
  decodeJSONWithLimit fields zero limit body = Some a → reads_as limit body (f_name <$> fields) inner.
Proof.
  intros Hin. unfold decodeJSONWithLimit. destruct body as [b|]; simpl; [|done].
  destruct (parse_stream _) as [v|] eqn:E; simpl; [|done]. intros Hd. exists b, v. split_and!; [done..|].
  by eapply (struct_known fields).
Qed.

(** The structs inside a body. *)
Definition of_policy (n : string) (v : jval) : Prop :=
  (n = "conditions" → known_members (f_name <$> condition_fields) anything v) ∧
  (n = "actions" → known_members (f_name <$> action_fields) anything v).
Definition of_report (n : string) (v : jval) : Prop := known_members (f_name <$> signal_fields) anything v.
Definition of_batch (n : string) (v : jval) : Prop :=
  v = VNull ∨ ∃ l, v = VArr l ∧ Forall (known_members (f_name <$> inbound_fields) anything) l.

Lemma fld_decoded {A B} `{FromJSON B} n (get : A → B) put strict a v b :
  f_set (fld n get put) strict a v = Some b → ∃ x, decode_into strict (get a) v = Some x.
Proof. simpl. destruct (decode_into strict (get a) v) as [x|]; simpl; [|done]. by exists x. Qed.
Lemma elements_known old l x :
  decode_elements true old l = Some x → Forall (known_members (f_name <$> inbound_fields) anything) l.
Proof.
  revert old x. induction l as [|v l IH]; intros old x; [constructor|]. cbn [decode_elements].
  destruct (decode_into true _ v) as [y|] eqn:Ev; simpl; [|done].
  destruct (decode_elements true (tail old) l) as [ys|] eqn:El; simpl; [|done]. intros _.
  constructor; [|by eapply IH]. exact (struct_names inbound_fields v _ y Ev).
Qed.
Lemma policy_inner `{Libs} f a v b : f ∈ policy_fields → f_set f true a v = Some b → of_policy (f_name f) v.
Proof.
  intros Hf Hs. unfold policy_fields in Hf. pick Hf; split; intros Hn; try discriminate Hn;
    apply fld_decoded in Hs as [x Hx]; first [exact (struct_names condition_fields v _ x Hx)|exact (struct_names action_fields v _ x Hx)].
Qed.
Lemma report_inner f (a : Signals) v b : f ∈ only "signals" → f_set f true a v = Some b → of_report (f_name f) v.
Proof.
  intros Hf Hs. unfold only in Hf. pick Hf. apply fld_decoded in Hs as [x Hx]. exact (struct_names signal_fields v _ x Hx).
Qed.
Lemma batch_inner f (a : list Inbound) v b : f ∈ only "events" → f_set f true a v = Some b → of_batch (f_name f) v.
Proof.
  intros Hf Hs. unfold only in Hf. pick Hf. apply fld_decoded in Hs as [x Hx]. destruct v; try done; [by left|].
  right. eexists. split; [done|]. exact (elements_known a l x Hx).
Qed.

(** C18: unknown fields are refused, not ignored.  Whatever endpoint decodes a body, it
    reads the first JSON value of the first [limit] bytes and accepts it only if it is null
    or an object all of whose members name fields of the expected struct (up to case); the
    same holds of the conditions and actions inside a policy, of the signals inside a posture
    report and of every event of a batch.  Nothing is asked of what follows that value. *)
Theorem unknown_fields_refused {Lib : Libs} (limit : Z) (body : option string) :
  (∀ x, decode_dev_token limit body = Some x → reads_as limit body (f_name <$> dev_token_fields) anything) ∧
  (∀ x, decode_token_request limit body = Some x → reads_as limit body (f_name <$> token_fields) anything) ∧
  (∀ x, decode_enroll limit body = Some x → reads_as limit body (f_name <$> enroll_fields) anything) ∧
  (∀ x, decode_heartbeat limit body = Some x → reads_as limit body (f_name <$> heartbeat_fields) anything) ∧
  (∀ x, decode_begin limit body = Some x → reads_as limit body (f_name <$> begin_fields) anything) ∧
  (∀ x, decode_trial limit body = Some x → reads_as limit body (f_name <$> trial_fields) anything) ∧
  (∀ x, decode_reason limit body = Some x → reads_as limit body ["reason"] anything) ∧
  (∀ x, decode_session_id limit body = Some x → reads_as limit body ["session_id"] anything) ∧
  (∀ x, decode_status limit body = Some x → reads_as limit body ["status"] anything) ∧
  (∀ x, decode_note limit body = Some x → reads_as limit body ["body"] anything) ∧
  (∀ x, decode_policy limit body = Some x → reads_as limit body (f_name <$> policy_fields) of_policy) ∧
  (∀ x, decode_signals limit body = Some x → reads_as limit body ["signals"] of_report) ∧
  (∀ x, decode_batch limit body = Some x → reads_as limit body ["events"] of_batch).
Proof.
  split_and!; intros x Hx.
  11: exact (body_known policy_fields of_policy zero_policy limit body x policy_inner Hx).
  11: exact (body_known (only (A := Signals) "signals") of_report go_zero limit body x report_inner Hx).
  11: exact (body_known (only (A := list Inbound) "events") of_batch [] limit body x batch_inner Hx).
  all: by eapply body_known in Hx; [exact Hx|].
Qed.

(** ** Well-formed bodies are accepted *)

Definition inbound_slots (e : Inbound) : list (string * option json) := [
  ("event_id", nonempty always (in_EventID e)); ("occurred_at_ms", nonempty always (in_OccurredAtMs e));
  ("event_type", nonempty always (in_Type e)); ("severity", nonempty always (in_Severity e));
  ("metadata", nonempty is_empty_map (in_Metadata e))].
Definition inbound_fit (e : Inbound) : Prop :=
  fits (in_EventID e) ∧ fits (in_OccurredAtMs e) ∧ fits (in_Type e) ∧ fits (in_Severity e) ∧ fits (in_Metadata e).
Lemma inbound_names : plain_names inbound_fields.
Proof. names. Qed.
Lemma inbound_independent : independent inbound_fields.
Proof. commute inbound_fields. Qed.
Lemma inbound_read strict e kvs :
  inbound_fit e → Forall2 like (members_of (inbound_slots e)) kvs →
  foldl (decode_member inbound_fields strict) (Some go_zero) kvs = Some e.
Proof.
  intros (H1 & H2 & H3 & H4 & H5) Hk. open_slots Hk inbound_slots. value_next (in_EventID e) H1 Hk done.
  value_next (in_OccurredAtMs e) H2 Hk done. value_next (in_Type e) H3 Hk done. value_next (in_Severity e) H4 Hk done.
  value_next (in_Metadata e) H5 Hk ltac:(by intros ->%empty_map). read_end Hk. by destruct e.
Qed.
#[export] Instance Inbound_stored : Stored Inbound.
Proof.
  refine {| to_json e := struct_json (inbound_slots e); fits := inbound_fit; json_levels := 2 |}; [..|done|done|].
  - intros strict e v He Hv. eapply (struct_reads inbound_fields); [apply inbound_independent|apply inbound_names| |
      intros kvs; by apply inbound_read|exact Hv]. by apply slots_named.
  - intros e (H1 & H2 & H3 & H4 & H5). apply (slots_tidy inbound_fields); [apply inbound_names|done|].
    members_have @stored_tidy.
  - intros e (H1 & H2 & H3 & H4 & H5). apply (slots_text inbound_fields); [apply inbound_names|done|].
    members_have @stored_text.
  - intros e. apply (slots_depth _ 1); [done|]. members_have @shallow; done.
Defined.

Lemma str_take_all n s : len s <= n → str_take n s = s.
Proof.
  revert n. induction s as [|c s IH]; intros n Hn; [done|]. unfold len in Hn. simpl in *.
  rewrite (proj2 (Z.leb_gt _ _)) by lia. rewrite IH; [done|]. unfold len. lia.
Qed.
(** A body that wraps one value in an object with one member. *)
Definition wrapped {A} `{Stored A} (name : string) (a : A) : string := marshal (JObject [(name, to_json a)]).
Lemma wrapped_accepted {A} `{Stored A} name (a : A) limit :
  storable name → fits a → json_levels < maxNestingDepth → len (wrapped name a) <= limit →
  decodeJSONWithLimit (only name) go_zero limit (Some (wrapped name a)) = Some a.
Proof.
  intros Hname Ha Hl Hlen. unfold decodeJSONWithLimit. cbn [mbind option_bind]. rewrite str_take_all by done.
  pose proof (stored_depth a) as Hd. pose proof levels_nonneg as Hp.
  pose proof (reads_all (JObject [(name, to_json a)]) (enough (wrapped name a)) 0 "") as Hr. rewrite str_app_nil_r in Hr.
  unfold parse_stream, wrapped in *. rewrite Hr; [|simpl; lia|done|unfold ample, enough; lia].
  cbn [of_json fmap list_fmap fst snd mbind option_bind decode_struct foldl]. unfold decode_member. cbn [mbind option_bind fst snd].
  rewrite (storable_scrub name Hname). unfold find_field, only. cbn [List.find f_name fld]. rewrite str_eqb_refl. cbn [f_set fld].
  by rewrite (stored_reads true a _ Ha (stored_tidy a Ha)).
Qed.

(** What an agent reports arrives.  A posture report and a batch of events, encoded
    as JSON within the size limit of their endpoint, are decoded to exactly the signals
    and the events that were encoded (text in UTF-8 without NUL, integers of 64 bits). *)
Theorem reports_arrive :
  (∀ s : Signals, fits s → len (wrapped "signals" s) <= json_limit →
     decode_signals json_limit (Some (wrapped "signals" s)) = Some s) ∧
  (∀ batch : list Inbound, fits batch → len (wrapped "events" batch) <= large_json_limit →
     decode_batch large_json_limit (Some (wrapped "events" batch)) = Some batch).
Proof.
  split; intros a Ha Hl; [exact (wrapped_accepted "signals" a json_limit ltac:(done) Ha ltac:(done) Hl)|].
  exact (wrapped_accepted "events" a large_json_limit ltac:(done) Ha ltac:(done) Hl).
Qed.
