(* ===== verification/AdminApi.v ===== *)
(** * Audit, development, demonstration and health endpoints (internal/httpapi/audit.go, dev.go, health.go,
    demo_routes.go) *)

From S2P Require Import Prelude GoStd Encode Identity Risk Posture Policy Behaviour Db AuditLog Device.
From S2P Require Import User Session Telemetry Trust Simulator RateLimit Web DeviceApi.
Open Scope Z_scope.
Open Scope go_scope.

Record AuditRecordResponse := mkAuditResponse {
  ar_Seq : Z; ar_At : Z; ar_ActorType : string; ar_ActorID : string; ar_Action : string;
  ar_TargetType : string; ar_TargetID : string; ar_Result : string; ar_RequestID : string;
  ar_SourceIP : string; ar_Detail : gmap string json; ar_Hash : string; ar_PrevHash : string }.
Record AuditListResponse := mkAuditList {
  al_Records : list AuditRecordResponse; al_ChainVerified : bool; al_ChainError : string; al_NextAfter : Z }.
Record DevTokenResponse := mkDevToken {
  dk_AccessToken : string; dk_TokenType : string; dk_Issuer : string; dk_Roles : list string }.
(** The build information of the response is left out. *)
Record HealthResponse := mkHealth {
  hl_Status : string; hl_Checks : gmap string string; hl_Time : Z; hl_Env : string; hl_Uptime : string }.

Definition toAuditResponse (x : Record_) : AuditRecordResponse :=
  let e := REntry x in
  mkAuditResponse (Seq x) (At e) (EActorType e) (ActorID e) (Action e) (TargetType e) (TargetID e)
    (EResult e) (RequestID e) (SourceIP e) (Detail e) (hex_encode (Hash x)) (hex_encode (PrevHash x)).

(** ** health.go *)

Definition uptime (now started : Z) : string := duration_string (duration_round (time_sub now started) second).
Definition Live (environment : string) (started : Z) (env : Env) : M (reply HealthResponse) :=
  ret (Json 200 (mkHealth "ok" ∅ (e_now env) environment (uptime (e_now env) started))).
Definition Ready (environment : string) (started : Z) (env : Env) : M (reply HealthResponse) :=
  x <-- attempt (query (λ _, ())) ;;
  let '(status, code, check) := match x with
    | inr _ => ("degraded", 503, "unavailable") | inl _ => ("ok", 200, "ok") end in
  ret (Json code (mkHealth status {["database" := check]} (e_now env) environment
    (uptime (e_now env) started))).

Section AdminApi.
Context `{Crypto} (inet : string → option string) {Lib : Libs}.

(** ** audit.go *)

Definition listAudit (env : Env) (r : Req) (principal : option Principal) : M (reply AuditListResponse) :=
  match intQuery r "after" 0 with
  | None => bad_id r "after must be a non-negative integer."
  | Some after =>
      if after <? 0 then bad_id r "after must be a non-negative integer." else
      match intQuery r "limit" 100 with
      | None => bad_id r "limit must be between 1 and 1000."
      | Some lim =>
          if (lim <? 1) || (lim >? 1000) then bad_id r "limit must be between 1 and 1000." else
          x <-- attempt (AuditLog.List after lim) ;;
          match x with
          | inr _ => internal r "The audit log could not be read."
          | inl records =>
              v <-- attempt (AuditLog.Verify sha256sum) ;;
              match principal with
              | None => ret ()
              | Some p =>
                  audit inet env (entry ActorUser (uuid_string (pr_UserID p)) "audit.read" "" "" ResultSuccess
                    (q_request_id r) "" (list_to_map [("after", JInt after); ("limit", JInt lim)]))
              end ;;;
              ret (Json 200 (mkAuditList (toAuditResponse <$> records) (is_ok v)
                (match v with inl _ => "" | inr e => err_text e end)
                (match last records with Some x => Seq x | None => 0 end)))
          end
      end
  end.

(** ** dev.go *)

Definition mint {J : Jwt} (verifier : DevVerifier) (env : Env) (r : Req) : M (reply DevTokenResponse) :=
  match decode_dev_token (8 * 1024) (body_of r) with
  | None => bad_body r
  | Some req =>
      if str_eqb (trim_space (dt_Subject req)) "" then refuse r 400 "Invalid Request" "subject is required." else
      let roles := ParseRoles (dt_Roles req) in
      match Mint verifier (e_now env) (dt_Subject req) (dt_Email req) (dt_DisplayName req)
              (dt_Department req) roles with
      | inr _ => refuse r 400 "Invalid Request" "The token could not be issued."
      | inl token =>
          audit inet env (entry ActorSystem "dev-auth" "auth.dev_token_issued" "user" (dt_Subject req)
            ResultSuccess (q_request_id r) "" {["roles" := roleNames roles]}) ;;;
          ret (Json 200 (mkDevToken token "Bearer" DevIssuer roles))
      end
  end.

(** ** demo_routes.go *)

(** The notice that goes with the catalogue is left out. *)
Definition listScenarios : M (reply (list Scenario)) := ret (Json 200 Catalogue).

Definition runScenario (engine : Risk.Engine) (env : Env) (r : Req) (principal : option Principal)
    : M (reply SimResult) :=
  let name := url_param r "name" in
  match Find name with
  | None => refuse r 404 "Not Found" "No such scenario."
  | Some scenario =>
      x <-- attempt (Run inet engine (e_now env) (λ n, e_ids env (S n)) (e_keys env) (e_suffixes env)
                       (e_runs env) scenario) ;;
      match x with
      | inr _ => internal r "The scenario could not be completed."
      | inl result =>
          audit inet env (entry ActorUser (actorID principal) "demo.scenario_run" "scenario" name
            ResultSuccess (q_request_id r) ""
            (list_to_map [("final_score", JInt (re_FinalScore result));
               ("final_level", JString (re_FinalLevel result));
               ("final_decision", JString (re_Decision result));
               ("session_id", JString (re_SessionID result))])) ;;;
          ret (Json 200 result)
      end
  end.
End AdminApi.
