(* ===== verification/Router.v ===== *)
(** * The router (internal/httpapi/router.go) as main.go configures it

    Every service is configured; the development plane is there only when a
    development verifier was built.  chi matches the method and the path; [serve]
    is what happens to a request once its route is known. *)

From S2P Require Import Prelude GoStd Encode Identity Risk Posture Policy Behaviour Db AuditLog Device.
From S2P Require Import User Session Telemetry Incident RiskStore PolicyStore PostureStore BehaviourStore.
From S2P Require Import Trust Simulator RateLimit Web SessionApi DeviceApi TrustApi AdminApi.
Open Scope Z_scope.
Open Scope go_scope.

Inductive endpoint :=
  | EpLive | EpReady | EpDevToken
  | EpEnroll | EpHeartbeat | EpPosture | EpIngest
  | EpMe | EpNonce | EpBegin | EpEnd
  | EpAudit | EpEvents | EpRisk | EpPolicies | EpDecisions | EpIncidents | EpIncident | EpOverview
  | EpBaseline | EpIncidentStatus | EpIncidentNote | EpEvaluate | EpRebuild
  | EpCreatePolicy | EpTryPolicy
  | EpSessions | EpSession | EpDevices | EpDevice | EpPostureLatest | EpPostureHistory
  | EpIssueToken | EpRevoke
  | EpScenarios | EpRunScenario.
#[export] Instance endpoint_eq : EqDecision endpoint.
Proof. solve_decision. Defined.

(** The authentication planes, with their rate limits. *)
Inductive plane :=
  | Public | PublicLimited | TokenLimited   (* health; enrolment and token issue, by address *)
  | Signed (limited : bool)                 (* by device key; ingest is limited by device *)
  | Authenticated | RolesOf (roles : list Role).

Record route := mkRoute { rt_method : string; rt_pattern : string; rt_endpoint : endpoint; rt_plane : plane }.

Definition soc : plane := RolesOf [RoleAnalyst; RoleAdmin; RoleAuditor].
Definition analyst : plane := RolesOf [RoleAnalyst; RoleAdmin].
Definition admin : plane := RolesOf [RoleAdmin].

(** The session and fleet views, and the administration of devices. *)
Definition fleet_routes : list route :=
  [mkRoute "GET" "/sessions" EpSessions soc;
   mkRoute "GET" "/sessions/{id}" EpSession soc;
   mkRoute "GET" "/devices" EpDevices soc;
   mkRoute "GET" "/devices/{id}" EpDevice soc;
   mkRoute "GET" "/devices/{id}/posture" EpPostureLatest soc;
   mkRoute "GET" "/devices/{id}/posture/history" EpPostureHistory soc;
   mkRoute "POST" "/enrollment-tokens" EpIssueToken admin;
   mkRoute "POST" "/devices/{id}/revoke" EpRevoke admin].

(** [NewRouter], in the order of mounting, under ["/api/v1"]. *)
Definition routes (dev : bool) : list route :=
  [mkRoute "GET" "/health" EpLive Public; mkRoute "GET" "/health/ready" EpReady Public] ++
  (if dev then [mkRoute "POST" "/dev/token" EpDevToken TokenLimited] else []) ++
  [mkRoute "POST" "/agent/enroll" EpEnroll PublicLimited;
   mkRoute "POST" "/agent/heartbeat" EpHeartbeat (Signed false);
   mkRoute "POST" "/agent/posture" EpPosture (Signed false);
   mkRoute "POST" "/agent/events" EpIngest (Signed true);
   mkRoute "GET" "/client/me" EpMe Authenticated;
   mkRoute "POST" "/client/session/nonce" EpNonce Authenticated;
   mkRoute "POST" "/client/session/begin" EpBegin Authenticated;
   mkRoute "POST" "/client/session/end" EpEnd Authenticated;
   mkRoute "GET" "/audit" EpAudit (RolesOf [RoleAuditor; RoleAdmin; RoleAnalyst]);
   mkRoute "GET" "/events" EpEvents soc;
   mkRoute "GET" "/risk/{session_id}" EpRisk soc;
   mkRoute "GET" "/policies" EpPolicies soc;
   mkRoute "GET" "/policy-decisions" EpDecisions soc;
   mkRoute "GET" "/incidents" EpIncidents soc;
   mkRoute "GET" "/incidents/{id}" EpIncident soc;
   mkRoute "GET" "/overview" EpOverview soc;
   mkRoute "GET" "/users/{id}/baseline" EpBaseline soc;
   mkRoute "POST" "/incidents/{id}/status" EpIncidentStatus analyst;
   mkRoute "POST" "/incidents/{id}/notes" EpIncidentNote analyst;
   mkRoute "POST" "/sessions/{session_id}/evaluate" EpEvaluate analyst;
   mkRoute "POST" "/users/{id}/baseline/rebuild" EpRebuild analyst;
   mkRoute "POST" "/policies" EpCreatePolicy admin;
   mkRoute "POST" "/policies/evaluate" EpTryPolicy admin;
   mkRoute "GET" "/demo/scenarios" EpScenarios (RolesOf [RoleAdmin; RoleAnalyst]);
   mkRoute "POST" "/demo/scenarios/{name}" EpRunScenario (RolesOf [RoleAdmin; RoleAnalyst])] ++
  fleet_routes.

(** The bodies of successful replies. *)
Inductive payload :=
  | PHealth (x : HealthResponse) | PDevToken (x : DevTokenResponse) | PDevice (x : DeviceResponse)
  | PDevices (x : list DeviceResponse) | PHeartbeat (x : HeartbeatResponse) | PPosture (x : PostureResponse)
  | PIngest (x : IngestResult) | PMe (x : MeResponse) | PNonce (x : NonceResponse)
  | PSession (x : SessionResponse) | PSessions (x : list SessionResponse) | PId (x : string)
  | PAudit (x : AuditListResponse) | PEvents (x : list Event) | PRisk (x : RiskResponse)
  | PPolicies (x : list Policy.Policy) | PPolicy (x : Policy.Policy) | PDecisions (x : list DecisionRecord)
  | PIncidents (x : list Incident.Incident) | PIncident (x : IncidentResponse)
  | POverview (x : OverviewResponse) | PProfile (x : Profile) | PStatus (x : string * string) | PAdded
  | POutcome (x : Outcome) | PResult (x : Policy.Result) | PPostureRow (x : posture_row)
  | PHistory (x : string * list PosturePoint) | PToken (x : EnrollmentTokenResponse)
  | PScenarios (x : list Scenario) | PSimulation (x : SimResult).

Definition as_ {A} (f : A → payload) (m : M (reply A)) : M (reply payload) :=
  x <-- m ;; ret (match x with Refused p => Refused p | Json s v => Json s (f v) end).

(** The configuration a request sees. *)
Record Config := mkConfig {
  cf_env : string; cf_started : Z; cf_dev : option DevVerifier; cf_origins : list string;
  cf_weights : Posture.Weights; cf_agent : string }.

(** The three limiters of [NewRouter]. *)
Record Limiters := mkLimiters { lim_enrollment : limiter; lim_ingest : limiter; lim_tokens : limiter }.
Definition newLimiters : Limiters :=
  mkLimiters (newLimiter (mkRateLimit 20 minute)) (newLimiter (mkRateLimit 240 minute))
    (newLimiter (mkRateLimit 30 minute)).

Section Router.
Context `{Crypto} (parse_addr inet : string → option string) {Lib : Libs} {V : Verifier} {J : Jwt}.
Context (engine : Risk.Engine) (cfg : Config).

Definition handle (env : Env) (r : Req) (ep : endpoint) (principal : option Principal) (dev : option Device)
    : M (reply payload) :=
  match ep with
  | EpLive => as_ PHealth (Live (cf_env cfg) (cf_started cfg) env)
  | EpReady => as_ PHealth (Ready (cf_env cfg) (cf_started cfg) env)
  | EpDevToken => match cf_dev cfg with
                  | Some d => as_ PDevToken (mint inet d env r)
                  | None => refuse r 404 "Not Found" "No such endpoint." end
  | EpEnroll => as_ PDevice (enroll inet env r)
  | EpHeartbeat => as_ PHeartbeat (heartbeat env r dev)
  | EpPosture => as_ PPosture (submit inet (cf_weights cfg) (cf_agent cfg) env r dev)
  | EpIngest => as_ PIngest (ingest engine env r dev)
  | EpMe => as_ PMe (handleMe r principal)
  | EpNonce => as_ PNonce (issueNonce env r principal)
  | EpBegin => as_ PSession (begin parse_addr inet env r principal)
  | EpEnd => as_ PId (end_ inet env r principal)
  | EpAudit => as_ PAudit (listAudit inet env r principal)
  | EpEvents => as_ PEvents (listEvents r)
  | EpRisk => as_ PRisk (sessionRisk r)
  | EpPolicies => as_ PPolicies (listPolicies r)
  | EpDecisions => as_ PDecisions (listDecisions r)
  | EpIncidents => as_ PIncidents (listIncidents r)
  | EpIncident => as_ PIncident (getIncident r)
  | EpOverview => as_ POverview overview
  | EpBaseline => as_ PProfile (getBaseline r)
  | EpIncidentStatus => as_ PStatus (setIncidentStatus inet env r principal)
  | EpIncidentNote => as_ (λ _, PAdded) (addIncidentNote env r principal)
  | EpEvaluate => as_ POutcome (evaluate engine env r)
  | EpRebuild => as_ PProfile (rebuildBaseline env r)
  | EpCreatePolicy => as_ PPolicy (createPolicy inet env r principal)
  | EpTryPolicy => as_ PResult (evaluatePolicy env r)
  | EpSessions => as_ PSessions (listSessions r)
  | EpSession => as_ PSession (getSession r)
  | EpDevices => as_ PDevices (listDevices true r)
  | EpDevice => as_ PDevice (getDevice true r)
  | EpPostureLatest => as_ PPostureRow (latest r)
  | EpPostureHistory => as_ PHistory (history r)
  | EpIssueToken => as_ PToken (issueEnrollmentToken inet env r principal)
  | EpRevoke => as_ PId (revokeDevice inet env r principal)
  | EpScenarios => as_ PScenarios listScenarios
  | EpRunScenario => as_ PSimulation (runScenario inet engine env r principal)
  end.

(** What a plane lets through: the caller it established, or the refusal. *)
Inductive verdict := Pass (principal : option Principal) (dev : option Device) | Stop (p : Problem).

Definition rejected (r : Req) (status : Z) : Problem :=
  if status =? 500 then WriteProblem r 500 "Internal Server Error" "The request could not be processed."
  else WriteProblem r 401 "Unauthorized" "The request is not a valid signed device request.".

Definition limited (l : limiter) (key : string) (env : Env) (r : Req) (v : verdict) : verdict * limiter :=
  match RateLimited l key (e_now env) r with
  | (None, l') => (v, l')
  | (Some p, l') => (Stop p, l')
  end.

Definition gate (env : Env) (ls : Limiters) (r : Req) (pl : plane) : M (verdict * Limiters) :=
  match pl with
  | Public => ret (Pass None None, ls)
  | PublicLimited =>
      let '(v, l) := limited (lim_enrollment ls) (ByIP r) env r (Pass None None) in
      ret (v, mkLimiters l (lim_ingest ls) (lim_tokens ls))
  | TokenLimited =>
      let '(v, l) := limited (lim_tokens ls) (ByIP r) env r (Pass None None) in
      ret (v, mkLimiters (lim_enrollment ls) (lim_ingest ls) l)
  | Signed lim =>
      o <-- RequireDeviceSignature (e_now env) (q_http r) ;;
      match o with
      | Reject status => ret (Stop (rejected r status), ls)
      | Forward d _ =>
          if lim then
            let '(v, l) := limited (lim_ingest ls) (ByDevice r) env r (Pass None (Some d)) in
            ret (v, mkLimiters (lim_enrollment ls) l (lim_tokens ls))
          else ret (Pass None (Some d), ls)
      end
  | Authenticated =>
      a <-- RequireAuth inet env r ;;
      ret (match a with inr p => Stop p | inl p => Pass (Some p) None end, ls)
  | RolesOf roles =>
      a <-- RequireAuth inet env r ;;
      match a with
      | inr p => ret (Stop p, ls)
      | inl p =>
          d <-- RequireRole inet env roles r p ;;
          ret (match d with Some x => Stop x | None => Pass (Some p) None end, ls)
      end
  end.

(** A request on a known route. *)
Definition serve (env : Env) (ls : Limiters) (r : Req) (rt : route) : M (reply payload * Limiters) :=
  g <-- gate env ls r (rt_plane rt) ;;
  let '(v, ls') := g in
  match v with
  | Stop p => ret (Refused p, ls')
  | Pass principal dev =>
      x <-- Recoverer r (handle env r (rt_endpoint rt) principal dev) ;;
      ret (x, ls')
  end.

(** The whole chain: the headers of every response, the preflight answer (204, no
    body), and the routes chi did not find. *)
Inductive answer := NoContent | Answer (x : reply payload).
Inductive matching := Matched (rt : route) | NotFound | MethodNotAllowed.
Definition respond (env : Env) (ls : Limiters) (r : Req) (matched : matching)
    : M (list (string * string) * answer * Limiters) :=
  let '(cors, preflight) := CORS (cf_origins cfg) r in
  let headers := (RequestIDHeader, q_request_id r) :: SecurityHeaders ++ cors in
  if preflight then ret (headers, NoContent, ls) else
  match matched with
  | NotFound => ret (headers, Answer (Refused (WriteProblem r 404 "Not Found" "No such endpoint.")), ls)
  | MethodNotAllowed => ret (headers, Answer (Refused (WriteProblem r 405 "Method Not Allowed"
      "This method is not supported for this endpoint.")), ls)
  | Matched rt =>
      x <-- serve env ls r rt ;;
      ret (headers, Answer x.1, x.2)
  end.
End Router.
