(* ===== verification/Migrate.v ===== *)
(** * Schema migration (internal/store/migrate.go)

    [LoadMigrations] orders the embedded scripts; [Migrate] applies those not yet
    recorded, each in its own transaction with its bookkeeping row.  What a script
    does to the schema is a parameter; every round trip may fail. *)

From S2P Require Import Prelude GoStd Db.
From Stdlib Require Import Ascii.
Open Scope Z_scope.
Open Scope go_scope.

Record Migration := mkMigration { Version : Z; MName : string; SQL : string }.

(** [strings.TrimSuffix(name, ".sql")] and [strings.Cut(base, "_")]. *)
Fixpoint trim_sql (s : string) : string :=
  if str_eqb s ".sql" then ""
  else match s with EmptyString => "" | String c s' => String c (trim_sql s') end.
Fixpoint cut_underscore (s : string) : option (string * string) :=
  match s with
  | EmptyString => None
  | String c s' => if ch c =? 95 then Some ("", s')
                   else '(a, b) ← cut_underscore s'; Some (String c a, b)
  end.

(** The loop over the files, in the order of [fs.Glob]; a body that cannot be read
    is [None]. *)
Fixpoint load_loop (seen : list Z) (files : list (string * option string)) : result (list Migration) :=
  match files with
  | [] => inl []
  | (name, body) :: files =>
      match cut_underscore (trim_sql name) with
      | None => inr (ErrConfig ["migration must be named NNNN_name.sql"])
      | Some (prefix, rest) =>
          match parse_int64 prefix with
          | None => inr (ErrConfig ["migration has a non-numeric version prefix"])
          | Some version =>
              if existsb (Z.eqb version) seen then inr (ErrConfig ["migrations share version"]) else
              match body with
              | None => inr (ErrConfig ["read migration"])
              | Some sql =>
                  let! out := load_loop (version :: seen) files in
                  inl (mkMigration version rest sql :: out)
              end
          end
      end
  end.
Definition LoadMigrations (files : list (string * option string)) : result (list Migration) :=
  let! out := load_loop [] files in
  inl (sort_stable (λ a b, Version a <? Version b) out).

Section Migrate.
(** What executing a script does to the schema: an error leaves nothing, inside a
    transaction. *)
Context {Schema : Type} (exec_sql : string → Schema → option Schema).

(** The database: the schema the scripts made, and the table of applied
    migrations, if it exists. *)
Record database := mkDatabase { schema : Schema; schema_migrations : option (list (Z * string)) }.
Definition rows (d : database) : list (Z * string) := default [] (schema_migrations d).

(** The outcome of each round trip is the head of [faults]. *)
Definition next (fs : list fault) : fault * list fault :=
  match fs with [] => (FNone, []) | f :: fs => (f, fs) end.
Definition failed {A} (what : string) (d : database) (fs : list fault) : result A * database * list fault :=
  (inr (ErrDB what), d, fs).

Definition applyOne (m : Migration) (d : database) (fs : list fault) : result unit * database * list fault :=
  let '(f1, fs) := next fs in
  match f1 with FNone =>
    let '(f2, fs) := next fs in
    match f2, exec_sql (SQL m) (schema d) with FNone, Some s' =>
      let '(f3, fs) := next fs in
      match f3 with FNone =>
        if existsb (λ r, r.1 =? Version m) (rows d) || negb (int4 (Version m))
        then failed "record migration" d fs
        else
          let d' := mkDatabase s' (Some (rows d ++ [(Version m, MName m)])) in
          let '(f4, fs) := next fs in
          match f4 with
          | FNone => (inl (), d', fs)
          | FBefore => failed "commit" d fs
          | FAfter => failed "commit" d' fs
          end
      | _ => failed "record migration" d fs
      end
    | _, _ => failed "apply migration" d fs
    end
  | _ => failed "begin migration" d fs
  end.

Fixpoint apply_pending (applied : list Z) (pending : list Migration) (d : database) (fs : list fault)
    : result unit * database * list fault :=
  match pending with
  | [] => (inl (), d, fs)
  | m :: pending =>
      if existsb (Z.eqb (Version m)) applied then apply_pending applied pending d fs else
      match applyOne m d fs with
      | (inr e, d', fs) => (inr e, d', fs)
      | (inl _, d', fs) => apply_pending applied pending d' fs
      end
  end.

(** [CREATE TABLE IF NOT EXISTS]. *)
Definition create_table (d : database) : database := mkDatabase (schema d) (Some (rows d)).
(** Acquire a connection, take the lock, create the table, read it, apply; the
    unlocking at the end changes nothing. *)
Definition Migrate (files : list (string * option string)) (d : database) (fs : list fault)
    : result unit * database * list fault :=
  match LoadMigrations files with
  | inr e => (inr e, d, fs)
  | inl pending =>
      let '(f1, fs) := next fs in
      match f1 with FNone =>
        let '(f2, fs) := next fs in
        match f2 with FNone =>
          let '(f3, fs) := next fs in
          match f3 with
          | FNone =>
              let d := create_table d in
              let '(f4, fs) := next fs in
              match f4 with
              | FNone => apply_pending (rows d).*1 pending d fs
              | _ => failed "read applied migrations" d fs
              end
          | FBefore => failed "create schema_migrations" d fs
          | FAfter => failed "create schema_migrations" (create_table d) fs
          end
        | _ => failed "acquire migration lock" d fs
        end
      | _ => failed "acquire migration connection" d fs
      end
  end.

(** ** Order and uniqueness of the scripts *)

Lemma load_loop_nodup seen files out :
  load_loop seen files = inl out →
  NoDup (Version <$> out) ∧ ∀ m, m ∈ out → Version m ∉ seen.
Proof using.
  revert seen out. induction files as [|[name body] files IH]; intros seen out; simpl.
  - intros [= <-]. split; [constructor|]. intros m Hm. by apply elem_of_nil in Hm.
  - destruct (cut_underscore _) as [[prefix rest]|]; [|done]. destruct (parse_int64 prefix) as [v|]; [|done].
    destruct (existsb _ seen) eqn:Es; [done|]. destruct body as [sql|]; [|done].
    destruct (load_loop (v :: seen) files) as [out'|e] eqn:El; [|done]. intros [= <-].
    apply IH in El as [Hn Hs]. rewrite fmap_cons. split.
    + apply NoDup_cons. split; [|done]. intros (m & Hv & Hm)%list_elem_of_fmap. simpl in Hv.
      apply (Hs m Hm). rewrite <-Hv. left.
    + intros m [->|Hm]%elem_of_cons; simpl.
      * intros Hin. assert (existsb (Z.eqb v) seen = true) as Ht; [|by rewrite Es in Ht].
        apply existsb_elem. exists v. split; [done|apply Z.eqb_refl].
      * intros Hin. apply (Hs m Hm). by right.
Qed.
Lemma load_sorted files l : LoadMigrations files = inl l → StronglySorted Z.lt (Version <$> l).
Proof using.
  unfold LoadMigrations. destruct (load_loop [] files) as [out|e] eqn:E; [|done]. simpl. intros [= <-].
  apply load_loop_nodup in E as [Hn _].
  assert (NoDup (Version <$> sort_stable (λ a b, Version a <? Version b) out)) as Hnd by by rewrite sort_stable_perm.
  pose proof (sort_stable_sorted (λ a b, Version a <? Version b) ltac:(intros a b; simpl; lia) out) as Hs.
  apply Sorted_StronglySorted in Hs; [|intros a b c; unfold notless; zlia].
  induction Hs as [|x l Hs IH Hf]; [constructor|]. rewrite fmap_cons in *. apply NoDup_cons in Hnd as [Hx Hnd].
  constructor; [by apply IH|]. apply Forall_forall. intros v (m & -> & Hm)%list_elem_of_fmap.
  rewrite Forall_forall in Hf. specialize (Hf m Hm). unfold notless in Hf.
  assert (Version m ≠ Version x); [|zlia]. intros Heq. apply Hx. apply list_elem_of_fmap. by exists m.
Qed.

(** ** Exactly once *)

(** The database is what the migrations [ms], in that order, make of [s0], and
    they are what is recorded. *)
Definition exec_all (s0 : Schema) (ms : list Migration) : option Schema :=
  foldl (λ s m, s ≫= exec_sql (SQL m)) (Some s0) ms.
Definition history (s0 : Schema) (d : database) (ms : list Migration) : Prop :=
  rows d = (λ m, (Version m, MName m)) <$> ms ∧ exec_all s0 ms = Some (schema d).

Lemma applyOne_history s0 m d fs r d' fs' ms :
  history s0 d ms → applyOne m d fs = (r, d', fs') →
  (r = inl () ∧ history s0 d' (ms ++ [m])) ∨ (is_ok r = false ∧ (d' = d ∨ history s0 d' (ms ++ [m]))).
Proof using.
  intros [H1 H2]. unfold applyOne, failed. destruct (next fs) as [[] fs1]; [|intros [= <- <- _]; by auto..].
  destruct (next fs1) as [[] fs2]; [|intros [= <- <- _]; by auto..].
  destruct (exec_sql (SQL m) (schema d)) as [s'|] eqn:Es; [|intros [= <- <- _]; by auto].
  destruct (next fs2) as [[] fs3]; [|intros [= <- <- _]; by auto..].
  destruct (_ || _); [intros [= <- <- _]; by auto|].
  assert (history s0 (mkDatabase s' (Some (rows d ++ [(Version m, MName m)]))) (ms ++ [m])) as Hh.
  { split; [unfold rows at 1; simpl; by rewrite H1, fmap_app|].
    unfold exec_all in *. by rewrite foldl_app, H2. }
  destruct (next fs3) as [[] fs4]; intros [= <- <- _]; auto.
Qed.
Definition unapplied (applied : list Z) (l : list Migration) : list Migration :=
  List.filter (λ m, negb (existsb (Z.eqb (Version m)) applied)) l.
Lemma apply_pending_history s0 applied pending d fs r d' fs' ms :
  history s0 d ms → apply_pending applied pending d fs = (r, d', fs') →
  ∃ new, history s0 d' (ms ++ new) ∧ new `prefix_of` unapplied applied pending ∧
    (r = inl () → new = unapplied applied pending).
Proof using.
  revert d fs ms. induction pending as [|m pending IH]; intros d fs ms Hh; simpl.
  - intros [= <- <- _]. exists []. rewrite app_nil_r. split_and!; [done|apply prefix_nil|done].
  - unfold unapplied. simpl. destruct (existsb _ applied); [by apply IH|].
    destruct (applyOne m d fs) as [[r1 d1] fs1] eqn:E.
    destruct (applyOne_history s0 m d fs r1 d1 fs1 ms Hh E) as [[-> H1]|[Hr H1]].
    + intros (new & Hn & Hp & Hs)%(IH _ _ (ms ++ [m]) H1). exists (m :: new).
      rewrite <-app_assoc in Hn. split_and!; [done|by apply prefix_cons|]. intros Hok. f_equal. auto.
    + destruct r1 as [|e]; [done|]. intros [= <- <- _]. destruct H1 as [->|H1].
      * exists []. rewrite app_nil_r. split_and!; [done|apply prefix_nil|done].
      * exists [m]. split_and!; [done|apply prefix_cons, prefix_nil|done].
Qed.
(** When everything is recorded there is nothing to do. *)
Lemma apply_pending_done applied pending d fs :
  (∀ m, m ∈ pending → Version m ∈ applied) → apply_pending applied pending d fs = (inl (), d, fs).
Proof using.
  induction pending as [|m pending IH]; intros Ha; simpl; [done|].
  assert (existsb (Z.eqb (Version m)) applied = true) as ->.
  { apply existsb_elem. exists (Version m). split; [apply Ha; left|apply Z.eqb_refl]. }
  apply IH. intros m' Hm. apply Ha. by right.
Qed.
End Migrate.

Lemma sorted_sublist (l l' : list Z) : sublist l l' → StronglySorted Z.lt l' → StronglySorted Z.lt l.
Proof.
  induction 1 as [|x l l' Hs IH|x l l' Hs IH]; intros H; [constructor| |].
  - apply StronglySorted_inv in H as [H1 H2]. constructor; [by apply IH|].
    apply Forall_forall. intros y Hy. rewrite Forall_forall in H2. apply H2. by eapply elem_of_sublist.
  - apply StronglySorted_inv in H as [H1 _]. by apply IH.
Qed.
Lemma lfilter_sublist {A} (p : A → bool) l : sublist (List.filter p l) l.
Proof. induction l as [|x l IH]; simpl; [constructor|]. by destruct (p x); constructor. Qed.

(** The scripts [Migrate] would load. *)
Definition loaded (files : list (string * option string)) (m : Migration) : Prop :=
  match LoadMigrations files with inl l => m ∈ l | inr _ => False end.

Section Cases.
Context {Schema : Type} (exec_sql : string → Schema → option Schema).
Lemma migrate_cases files d fs r d' fs' :
  Migrate exec_sql files d fs = (r, d', fs') →
  (is_ok r = false ∧ schema d' = schema d ∧ rows d' = rows d) ∨
  ∃ l fs1, LoadMigrations files = inl l ∧
    apply_pending exec_sql (rows d).*1 l (create_table d) fs1 = (r, d', fs').
Proof.
  unfold Migrate, failed. destruct (LoadMigrations files) as [l|e]; [|intros [= <- <- _]; by left].
  destruct (next fs) as [[] fs1]; [|intros [= <- <- _]; by left..].
  destruct (next fs1) as [[] fs2]; [|intros [= <- <- _]; by left..].
  destruct (next fs2) as [[] fs3]; [|intros [= <- <- _]; by left..]. cbv zeta.
  destruct (next fs3) as [[] fs4]; [|intros [= <- <- _]; by left..]. intros H. right. by exists l, fs4.
Qed.
Lemma apply_pending_table applied pending d fs r d' fs' :
  apply_pending exec_sql applied pending d fs = (r, d', fs') →
  is_Some (schema_migrations d) → is_Some (schema_migrations d').
Proof.
  revert d fs. induction pending as [|m pending IH]; intros d fs; simpl; [by intros [= _ <- _]|].
  destruct (existsb _ applied); [apply IH|]. destruct (applyOne exec_sql m d fs) as [[r1 d1] fs1] eqn:E.
  intros H Hd. assert (is_Some (schema_migrations d1)) as H1.
  { revert E. unfold applyOne, failed. repeat (case_match; simplify_eq); intros; simplify_eq; done. }
  destruct r1; [by apply (IH d1 fs1)|]. by injection H as _ <- _.
Qed.
End Cases.

Section Once.
Context {Schema : Type} (exec_sql : string → Schema → option Schema) (files : list (string * option string)).

Lemma not_applied m applied : negb (existsb (Z.eqb (Version m)) applied) = true ↔ Version m ∉ applied.
Proof using.
  rewrite negb_true_iff. split.
  - intros Hna Hx. assert (existsb (Z.eqb (Version m)) applied = true) as Ht; [|by rewrite Hna in Ht].
    apply existsb_elem. exists (Version m). split; [done|apply Z.eqb_refl].
  - intros Hna. apply not_true_iff_false. intros (v & Hx & E%Z.eqb_eq)%existsb_elem. by rewrite E in Hna.
Qed.
(** What [Migrate] adds: scripts that were not recorded, in their order, and all of them
    when it succeeds. *)
Lemma migrate_adds s0 ms d d' fs fs' r :
  history exec_sql s0 d ms → Migrate exec_sql files d fs = (r, d', fs') →
  ∃ new l, history exec_sql s0 d' (ms ++ new) ∧ new `prefix_of` unapplied (Version <$> ms) l ∧
    (new = [] ∨ LoadMigrations files = inl l) ∧
    (r = inl () → LoadMigrations files = inl l ∧ new = unapplied (Version <$> ms) l ∧ is_Some (schema_migrations d')).
Proof using.
  intros Hh [(Hr & Es & Er)|(l & fs1 & Hl & Ha)]%migrate_cases.
  - exists [], []. rewrite app_nil_r. split_and!; [|done|by left|by intros ->].
    destruct Hh as [H1 H2]. split; [by rewrite Er|by rewrite Es].
  - assert (history exec_sql s0 (create_table d) ms) as Hc by done.
    destruct (apply_pending_history exec_sql s0 _ _ _ _ _ _ _ ms Hc Ha) as (new & Hn & Hp & Hs).
    assert ((rows d).*1 = Version <$> ms) as Hv by (rewrite (proj1 Hh), <-list_fmap_compose; done).
    rewrite Hv in *. exists new, l. split_and!; [done|done|by right|]. intros Hok. split_and!; [done|by apply Hs|].
    apply (apply_pending_table exec_sql) in Ha; [done|by eexists].
Qed.
(** A successful [Migrate] leaves every script recorded, with its effect. *)
Lemma migrate_complete s0 ms d d' fs fs' :
  history exec_sql s0 d ms → Migrate exec_sql files d fs = (inl (), d', fs') →
  ∃ new, history exec_sql s0 d' (ms ++ new) ∧ ∀ m, loaded files m → Version m ∈ Version <$> (ms ++ new).
Proof using.
  intros Hh Hm. destruct (migrate_adds s0 ms d d' fs fs' (inl ()) Hh Hm) as (new & l & Hn & _ & _ & Hs).
  destruct (Hs eq_refl) as (Hl & -> & _). exists (unapplied (Version <$> ms) l). split; [done|]. unfold loaded. rewrite Hl. intros m Hin.
  rewrite fmap_app. apply elem_of_app. destruct (decide (Version m ∈ Version <$> ms)) as [|Hna]; [by left|right].
  apply list_elem_of_fmap_2, elem_of_lfilter. split; [done|]. by apply not_applied.
Qed.
End Once.

(** C35: every migration is applied exactly once, in order, and recorded with its
    effect.  If the database is what the recorded migrations made of an initial
    schema, it is so again after [Migrate], whatever fails (a round trip may fail
    before or after it took effect): the migrations added are scripts whose version
    was not recorded, in ascending version order.  When [Migrate] succeeds every
    script is recorded, and migrating again does nothing. *)
Theorem migrate_exactly_once {Schema : Type} (exec_sql : string → Schema → option Schema)
    (files : list (string * option string)) (s0 : Schema) (ms : list Migration)
    (d d' : database) (fs fs' : list fault) (r : result unit) :
  history exec_sql s0 d ms → Migrate exec_sql files d fs = (r, d', fs') →
  ∃ new, history exec_sql s0 d' (ms ++ new) ∧ StronglySorted Z.lt (Version <$> new) ∧
    (∀ m, m ∈ new → loaded files m ∧ Version m ∉ Version <$> ms) ∧
    (r = inl () → (∀ m, loaded files m → Version m ∈ Version <$> (ms ++ new)) ∧
       Migrate exec_sql files d' [] = (inl (), d', [])).
Proof.
  intros Hh Hm. destruct (migrate_adds exec_sql files s0 ms d d' fs fs' r Hh Hm) as (new & l & Hn & Hp & Hl & Hs).
  exists new. split; [done|]. split_and!.
  - destruct Hl as [->|Hl]; [constructor|]. eapply sorted_sublist; [|by apply (load_sorted files)]. apply fmap_sublist.
    etrans; [|apply (lfilter_sublist (λ m, negb (existsb (Z.eqb (Version m)) (Version <$> ms))))].
    destruct Hp as [k Hk]. unfold unapplied in Hk. rewrite Hk. by apply sublist_inserts_r.
  - intros m Hin. destruct Hl as [->|Hl]; [by apply elem_of_nil in Hin|].
    assert (m ∈ unapplied (Version <$> ms) l) as [Hin' Hna%not_applied]%elem_of_lfilter by (eapply elem_of_prefix; eauto).
    unfold loaded. by rewrite Hl.
  - intros ->. destruct (Hs eq_refl) as (Hl' & Hnew & t & Ht).
    assert (∀ m, loaded files m → Version m ∈ Version <$> (ms ++ new)) as Hall.
    { destruct (migrate_complete exec_sql files s0 ms d d' fs fs' Hh Hm) as (new' & [Hr' _] & Hc). destruct Hn as [Hr _].
      intros m Hin. specialize (Hc m Hin). assert (Version <$> (ms ++ new) = (rows d').*1) as -> by (rewrite Hr, <-list_fmap_compose; done).
      rewrite Hr', <-list_fmap_compose. exact Hc. }
    split; [done|]. unfold Migrate. rewrite Hl'. simpl.
    assert (create_table d' = d') as -> by (destruct d' as [s ?]; simpl in Ht; by subst).
    apply apply_pending_done. intros m Hin. rewrite (proj1 Hn), <-list_fmap_compose. apply (Hall m). unfold loaded. by rewrite Hl'.
Qed.

(** Two scripts, the second interrupted after its commit took effect. *)
Definition sample_files : list (string * option string) :=
  [("0002_b.sql", Some "b"); ("0001_a.sql", Some "a")].
Definition sample_exec (sql : string) (s : list string) : option (list string) := Some (s ++ [sql]).
Lemma migrate_witness :
  ∃ new, history sample_exec [] (mkDatabase ["a"; "b"] (Some [(1, "a"); (2, "b")])) ([] ++ new) ∧
    StronglySorted Z.lt (Version <$> new).
Proof.
  destruct (migrate_exactly_once sample_exec sample_files [] [] (mkDatabase [] None)
    (mkDatabase ["a"; "b"] (Some [(1, "a"); (2, "b")]))
    (repeat FNone 11 ++ [FAfter]) [] (inr (ErrDB "commit"))) as (new & H1 & H2 & _).
  - split; reflexivity.
  - vm_compute. reflexivity.
  - exists new. split; assumption.
Defined.
