(* ===== verification/System.v ===== *)
(** * The control plane as a transition system

    Every operation of the stores that changes the tables, run at an instant of a
    clock that never goes back, with any faults.  [steps] is reachability; the
    invariants and the stability facts of the other files are proved by rule
    induction on it. *)

From S2P Require Import Prelude GoStd Encode Risk Posture Policy Behaviour Db AuditLog Device Session.
From S2P Require Import Identity User Telemetry Incident RiskStore PolicyStore PostureStore BehaviourStore Trust.
From S2P Require Import Simulator.
Open Scope Z_scope.
Open Scope go_scope.

Inductive op :=
  | OpIssueToken (raw : string) (id : uuid) (createdBy : option uuid) (label : string) (ttl : Z)
  | OpEnroll (id : uuid) (token : string) (req : EnrollRequest)
  | OpRequest (r : HttpRequest)
  | OpHeartbeat (id : uuid) (agentVersion : string)
  | OpRevoke (id : uuid) (reason : string)
  | OpPrune
  | OpIssueNonce (raw : string) (user : uuid)
  | OpBegin (id : uuid) (req : BeginRequest)
  | OpEnd (session user : uuid)
  | OpTouch (session : uuid)
  | OpIngest (batch : uuid) (ids : nat → uuid) (device : uuid) (inbound : list Inbound)
  | OpEvent (id : uuid) (e : Event)
  | OpAttach (incident : uuid) (ids : list uuid)
  | OpIncidentStatus (incident : uuid) (status : string)
  | OpNote (id incident author : uuid) (body : string)
  | OpCreatePolicy (id : uuid) (p : Policy.Policy) (createdBy : option uuid)
  | OpEnsureDefaults (ids : nat → uuid)
  | OpPosture (id device : uuid) (s : Posture.Signals) (a : Posture.Assessment)
  | OpRebuild (user : uuid) (windowDays : Z)
  | OpEvaluate (fresh : Fresh) (session : uuid) (trigger : string)
  | OpEvaluateDevice (fresh : Fresh) (device : uuid) (trigger : string)
  | OpAudit (gap : N) (e : AuditLog.Entry)
  | OpResolve (id : uuid) (claims : Claims)
  | OpSimulate (s : Scenario) (ids : nat → uuid) (keys suffixes : nat → string) (fresh : nat → Fresh).

Section System.
Context `{Crypto} (parse_addr inet : string → option string) (engine : Risk.Engine).

(** One tick of [startNoncePruner] (cmd/netrad/main.go): both tables are pruned,
    failures are only logged. *)
Definition prune_tick (now : Z) : M unit :=
  let cutoff := time_add now (-2 * MaxClockSkew) in
  try (Device.PruneNonces cutoff) ;;;
  try (Session.PruneNonces now) ;;;
  ret ().

Definition void {A} (m : M A) : M unit := m ;;; ret ().
Definition run (now : Z) (o : op) : M unit :=
  match o with
  | OpIssueToken raw id by_ label ttl => void (IssueEnrollmentToken now raw id by_ label ttl)
  | OpEnroll id token req => void (Enroll now id token req)
  | OpRequest r => void (RequireDeviceSignature now r)
  | OpHeartbeat id v => Heartbeat now id v
  | OpRevoke id reason => Revoke now id reason
  | OpPrune => prune_tick now
  | OpIssueNonce raw user => void (IssueNonce now raw user)
  | OpBegin id req => void (Begin parse_addr inet now id req)
  | OpEnd session user => End now session user
  | OpTouch session => Touch now session
  | OpIngest batch ids device inbound => void (Ingest now batch ids device inbound)
  | OpEvent id e => RecordBackendEvent now id e
  | OpAttach i ids => AttachEvents i ids
  | OpIncidentStatus i status => SetStatus now i status
  | OpNote id i author body => AddNote now id i author body
  | OpCreatePolicy id p by_ => void (PolicyStore.Create now id p by_)
  | OpEnsureDefaults ids => void (EnsureDefaults now ids)
  | OpPosture id device s a => void (PostureStore.Record now id device s a)
  | OpRebuild user days => void (Rebuild now user days)
  | OpEvaluate fresh session trigger => void (Trust.Evaluate engine now fresh session trigger)
  | OpEvaluateDevice fresh device trigger => void (EvaluateDevice engine now fresh device trigger)
  | OpAudit gap e => AuditLog.Record sha256sum inet now gap e
  | OpResolve id claims => void (ResolveFromClaims now id claims)
  | OpSimulate s ids keys suffixes fresh => void (Run inet engine now ids keys suffixes fresh s)
  end.

(** Reachability by operations satisfying [ok]: from the tables [t] at time [clk]
    to the tables [t'] at time [clk']. *)
Inductive steps (ok : op → Prop) : Z → Tables → Z → Tables → Prop :=
  | steps_refl clk t : steps ok clk t clk t
  | steps_wait clk clk1 clk' t t' : clk <= clk1 → steps ok clk1 t clk' t' → steps ok clk t clk' t'
  | steps_op clk t o fs r w clk' t' : ok o → run clk o (mkWorld t fs) = (r, w) →
      steps ok clk (db w) clk' t' → steps ok clk t clk' t'.

Lemma steps_clock ok clk t clk' t' : steps ok clk t clk' t' → clk <= clk'.
Proof. induction 1; lia. Qed.
(** Rule induction: what every operation up to the end time preserves, holds at
    the end. *)
Lemma steps_keeps (ok : op → Prop) (P : Tables → Prop) clk t clk' t' :
  (∀ now o, clk <= now <= clk' → ok o → keeps P (run now o)) →
  steps ok clk t clk' t' → P t → P t'.
Proof.
  intros HP Hs. induction Hs as [|clk clk1 clk' t t' Hle Hs IH|clk t o fs r w clk' t' Ho Hr Hs IH]; [done|..].
  - apply IH. intros now o Hn. apply HP. lia.
  - intros Ht. pose proof (steps_clock _ _ _ _ _ Hs). apply IH; [done|].
    apply (HP clk o ltac:(lia) Ho (mkWorld t fs) r w); done.
Qed.

(** ** Frames: a predicate on one table is preserved by the operations that write
    the others *)

Lemma insert_events_frame rows t n t' :
  insert_events t rows = inl (n, t') → ∃ l, t' = set_events l t.
Proof.
  revert t n. induction rows as [|r rows IH]; intros t n; simpl.
  - intros [= _ <-]. exists (events t). by destruct t.
  - unfold insert_event. destruct (existsb _ _).
    + destruct (insert_events t rows) as [[m t1]|e] eqn:E; [|done]. intros [= _ <-]. by eapply IH.
    + destruct (event_check t r); [done|].
      destruct (insert_events _ rows) as [[m t1]|e] eqn:E; [|done]. intros [= _ <-].
      apply IH in E as [l ->]. by exists l.
Qed.
Lemma attach_all_frame i ids t n a t' :
  attach_all i t n ids = inl (a, t') → ∃ l, t' = set_incident_events l t.
Proof.
  revert t n. induction ids as [|e ids IH]; intros t n; simpl.
  - intros [= _ <-]. exists (incident_events t). by destruct t.
  - unfold attach_one. destruct (existsb _ _); [apply IH|].
    destruct (_ && _); [|done]. intros Ht. apply IH in Ht as [l ->]. by exists l.
Qed.
Lemma create_all_keeps P now ids n ps :
  (∀ id p, keeps P (PolicyStore.Create now id p None)) → keeps P (create_all now ids n ps).
Proof.
  intros Hc. revert n. induction ps as [|p ps IH]; intros n; simpl; keeps; auto.
Qed.

(** A scenario run preserves what its statements and the evaluations preserve. *)
Section Simulate.
Context (P : Tables → Prop) (now : Z) (ids : nat → uuid) (keys suffixes : nat → string) (fresh : nat → Fresh).
Context (Huser : ∀ id, keeps P (sim_user now id)).
Context (Hdevice : ∀ id uid hostname key, keeps P (sim_device now id uid hostname key)).
Context (Hsession : ∀ id user device status ip started seen ended,
  keeps P (sim_session inet id user device status ip started seen ended)).
Context (Hposture : ∀ id d s a, keeps P (PostureStore.Record now id d s a)).
Context (Hevent : ∀ id e, keeps P (RecordBackendEvent now id e)).
Context (Hresource : ∀ id e r, keeps P (recordWithResource now id e r)).
Context (Hrebuild : ∀ u n, keeps P (Rebuild now u n)).
Context (Hevaluate : ∀ f s t, keeps P (Trust.Evaluate engine now f s t)).

Lemma seedPosture_keeps n d : keeps P (seedPosture now ids n d).
Proof using Hposture. unfold seedPosture. keeps. apply Hposture. Qed.
Lemma ensureDevice_keeps n k key hostname : keeps P (ensureDevice now ids keys n k key hostname).
Proof using Hposture Hdevice. unfold ensureDevice. keeps; [apply Hdevice|apply seedPosture_keeps]. Qed.
Lemma seed_events_keeps n u d s started i count : keeps P (seed_events now ids n u d s started i count).
Proof using Hevent. revert n i. induction count as [|count IH]; intros n i; simpl; keeps; auto. Qed.
Lemma seed_days_keeps n u d day : keeps P (seed_days inet now ids n u d day).
Proof using Hevent Hsession.
  revert n. induction day as [|day IH]; intros n; cbn [seed_days]; keeps; auto using seed_events_keeps.
Qed.
Lemma prepare_keeps : keeps P (prepare inet now ids keys).
Proof using Huser Hdevice Hposture Hevent Hsession Hrebuild.
  unfold prepare, seedHistory. keeps; auto using ensureDevice_keeps, seed_days_keeps.
Qed.
Lemma recordResource_keeps st ty sev r md : keeps P (recordResource now ids st ty sev r md).
Proof using Hresource. unfold recordResource. keeps. apply Hresource. Qed.
Lemma bulk_loop_keeps st a r x i count : keeps P (bulk_loop now ids st a r x i count).
Proof using Hresource.
  revert st i. induction count as [|count IH]; intros st i; simpl; keeps; auto using recordResource_keeps.
Qed.
Lemma perform_keeps st a : keeps P (perform inet now ids keys suffixes st a).
Proof using Hdevice Hposture Hsession Hresource.
  destruct a; simpl; unfold enrolDevice, startSession, accessResource, bulkAccess, networkEvent, record,
    resolveResource; keeps; auto using ensureDevice_keeps, recordResource_keeps, bulk_loop_keeps.
Qed.
Lemma perform_all_keeps st l : keeps P (perform_all inet now ids keys suffixes st l).
Proof using Hdevice Hposture Hsession Hresource.
  revert st. induction l as [|a l IH]; intros st; simpl; keeps; auto using perform_keeps.
Qed.
Lemma run_steps_keeps name j l st re :
  keeps P (run_steps inet engine now ids keys suffixes fresh name j l st re).
Proof using Hdevice Hposture Hsession Hresource Hevaluate.
  revert j st re. induction l as [|s l IH]; intros j st re; simpl; keeps; auto using perform_all_keeps.
Qed.
Lemma simulate_keeps s : keeps P (Run inet engine now ids keys suffixes fresh s).
Proof using Huser Hdevice Hposture Hevent Hsession Hrebuild Hresource Hevaluate.
  unfold Run. keeps; auto using prepare_keeps, run_steps_keeps.
Qed.
End Simulate.
End System.

(** [frame] closes the statements that write another table than the one the
    predicate reads; what is left is the component's own statements. *)
Ltac frame_stmt := match goal with
  | |- keeps _ (insert_if _ _) =>
      solve [apply keeps_insert; intros ? HP_ _; exact HP_
            |apply keeps_insert; intros ? HP_ _; destruct (existsb _ _); exact HP_]
  | |- keeps _ (exec _) => solve [apply keeps_exec; intros ? HP_; exact HP_]
  | |- keeps _ (stmt (λ t, insert_events _ _)) =>
      solve [apply keeps_stmt; intros ? ? ? HP_ [? ->]%insert_events_frame; exact HP_]
  | |- keeps _ (stmt (λ t, attach_all _ _ _ _)) =>
      solve [apply keeps_stmt; intros ? ? ? HP_ [? ->]%attach_all_frame; exact HP_]
  | |- keeps _ (stmt _) =>
      solve [apply keeps_stmt; intros ? ? ? HP_ E_; cbv zeta in E_;
        repeat case_match; simplify_eq; exact HP_]
  | |- keeps _ (create_all _ _ _ _) => apply create_all_keeps; intros ? ?
  | |- keeps _ (Run _ _ _ _ _ _ _ _) => apply simulate_keeps; intros
  end.
Ltac unfold_ops :=
  unfold run, void, prune_tick, IssueEnrollmentToken, Enroll, RequireDeviceSignature, Device.ByUID,
    Heartbeat, Revoke, Device.PruneNonces, Session.PruneNonces, ConsumeNonce, insert_device, spend_token,
    IssueNonce, Begin, open_session, insert_session, spend_nonce, End, Touch, Ingest, activeSession, Telemetry.insert,
    RecordBackendEvent, AttachEvents, SetStatus, AddNote, EnsureDefaults, All, PolicyStore.Create,
    PostureStore.Record, Rebuild, Save, Trust.Evaluate, EvaluateDevice, loadSession, gather, behavioural, prior_sessions,
    peakSensitivity, PostureStore.Latest, Load, CountByType, CountRecentIncidents, CountRecentDenials,
    RiskStore.Record, insert_score, insert_factors, update_session_risk, Active, OpenOrEscalate,
    RecordDecision, applyDecision, recordDerivedEvents, AuditLog.Record, ResolveFromClaims, upsert_user,
    sim_user, sim_device, sim_session, recordWithResource.
Ltac frame := repeat (cbv zeta; first [keeps_step | frame_stmt | progress unfold_ops]).
