(* ===== verification/DeviceProps.v ===== *)
(** * Properties of device authentication

    What a signature binds, the clock-skew window, and the rows the device store
    keeps. *)

From S2P Require Import Prelude GoStd Encode Db Device Session.
From stdpp Require Import pretty.
From Stdlib Require Import Ascii.
Open Scope Z_scope.
Open Scope go_scope.

(** ** Lines *)

Definition no_nl (s : string) : bool := str_all (λ c, negb (ch c =? 10)) s.

Lemma nl_char c : ch c = 10 → String c "" = nl.
Proof. intros H. unfold nl. f_equal. apply ch_inj. by rewrite H. Qed.

(** Splitting at the first line end, and at the last. *)
Lemma first_line x y s t :
  no_nl x = true → no_nl y = true → (x +:+ nl +:+ s)%stdpp = (y +:+ nl +:+ t)%stdpp → x = y ∧ s = t.
Proof.
  revert y. induction x as [|c x IH]; intros [|d y] Hx Hy; cbn; cbn in Hx, Hy.
  - intros H. by injection H.
  - intros H. injection H as H1 _. subst d. done.
  - intros H. injection H as H1 _. subst c. done.
  - apply andb_true_iff in Hx as [_ Hx], Hy as [_ Hy]. intros H. injection H as -> H.
    destruct (IH y Hx Hy H) as [-> ->]. done.
Qed.
Lemma last_line x y s t :
  no_nl x = true → no_nl y = true → (s +:+ nl +:+ x)%stdpp = (t +:+ nl +:+ y)%stdpp → s = t ∧ x = y.
Proof.
  intros Hx Hy. revert t. induction s as [|c s IH]; intros [|d t]; cbn.
  - intros H. by injection H.
  - intros H. injection H as H1 H2. change (x = (t +:+ nl +:+ y)%stdpp) in H2. rewrite H2 in Hx. unfold no_nl in Hx.
    rewrite !str_all_app in Hx. cbn in Hx. by rewrite andb_false_r in Hx.
  - intros H. injection H as H1 H2. change ((s +:+ nl +:+ x)%stdpp = y) in H2. rewrite <-H2 in Hy. unfold no_nl in Hy.
    rewrite !str_all_app in Hy. cbn in Hy. by rewrite andb_false_r in Hy.
  - intros H. injection H as -> H. destruct (IH t H) as [-> ->]. done.
Qed.

(** Decimal and hexadecimal digits contain no line end. *)
Lemma hex_digit_hex n : (n < 16)%N → lower_hex_char (hex_digit n) = true.
Proof.
  intros H. assert (forallb (λ n, lower_hex_char (hex_digit (N.of_nat n))) (seq 0 16) = true) as Hall
    by (vm_compute; reflexivity).
  rewrite forallb_elem in Hall. rewrite <-(N2Nat.id n). apply Hall, elem_of_seq. lia.
Qed.
Lemma hex_digits_hex k n : str_all lower_hex_char (hex_digits k n) = true.
Proof.
  induction k as [|k IH]; [done|]. cbn [hex_digits str_all]. rewrite IH, hex_digit_hex; [done|].
  by apply N.mod_lt.
Qed.
Lemma hex_encode_hex s : str_all lower_hex_char (hex_encode s) = true.
Proof. induction s as [|c s IH]; [done|]. cbn [hex_encode]. by rewrite str_all_app, hex_digits_hex, IH. Qed.
Lemma hex_encode_length s : String.length (hex_encode s) = (2 * String.length s)%nat.
Proof.
  induction s as [|c s IH]; [done|]. cbn [hex_encode]. rewrite str_app_length, hex_digits_length, IH.
  simpl. lia.
Qed.
Lemma hex_encode_inj s t : hex_encode s = hex_encode t → s = t.
Proof.
  revert t. induction s as [|c s IH]; intros [|d t]; [done|done|done|].
  cbn [hex_encode]. intros H. apply str_app_inv_len in H as [H1 H2]; [|by rewrite !hex_digits_length].
  apply IH in H2 as ->. f_equal. apply hex_digits_inj in H1.
  change (16 ^ N.of_nat 2)%N with 256%N in H1.
  assert (∀ c, N_of_ascii c < 256)%N as Hb by apply N_ascii_bounded.
  rewrite !N.mod_small in H1 by done. rewrite <-(ascii_N_embedding c), <-(ascii_N_embedding d).
  by rewrite H1.
Qed.
Lemma lower_hex_no_nl s : str_all lower_hex_char s = true → no_nl s = true.
Proof.
  apply str_all_impl. intros c. unfold lower_hex_char, is_digit. rewrite orb_true_iff, !andb_true_iff.
  intros Hc. apply negb_true_iff, Z.eqb_neq. destruct Hc as [[H1 H2]|[H1 H2]]; zlia.
Qed.
Lemma nonce_no_nl s : str_all nonce_char s = true → no_nl s = true.
Proof.
  apply str_all_impl. intros c. unfold nonce_char, is_digit. rewrite !orb_true_iff, !andb_true_iff.
  intros Hc. apply negb_true_iff, Z.eqb_neq. destruct_or! Hc; zlia.
Qed.
Lemma pretty_N_go_no_nl x s : no_nl s = true → no_nl (pretty_N_go x s) = true.
Proof.
  revert s. induction (N.lt_wf_0 x) as [x _ IH]; intros s Hs.
  destruct (decide (x = 0)%N) as [->|Hx]; [by rewrite pretty_N_go_0|].
  rewrite pretty_N_go_step by lia. apply IH; [apply N.div_lt; lia|].
  unfold no_nl. cbn [str_all]. fold (no_nl s). rewrite Hs, andb_true_r.
  unfold pretty_N_char. repeat case_match; done.
Qed.
Lemma sprint_int_no_nl z : no_nl (sprint_int z) = true.
Proof.
  destruct z as [|p|p]; [done|..].
  - change (sprint_int (Zpos p)) with (pretty_N_go (Npos p) EmptyString). by apply pretty_N_go_no_nl.
  - change (sprint_int (Zneg p)) with ("-" +:+ pretty_N_go (Npos p) EmptyString)%stdpp.
    unfold no_nl. rewrite str_all_app. by apply pretty_N_go_no_nl.
Qed.
Lemma sprint_int_inj z z' : sprint_int z = sprint_int z' → z = z'.
Proof. unfold sprint_int. apply (inj pretty). Qed.

(** Three fields without line ends after a field that may have some. *)
Lemma last_lines (p t n d p' t' n' d' : string) :
  no_nl t = true → no_nl n = true → no_nl d = true →
  no_nl t' = true → no_nl n' = true → no_nl d' = true →
  (p +:+ nl +:+ t +:+ nl +:+ n +:+ nl +:+ d)%stdpp = (p' +:+ nl +:+ t' +:+ nl +:+ n' +:+ nl +:+ d')%stdpp →
  p = p' ∧ t = t' ∧ n = n' ∧ d = d'.
Proof.
  intros Ht Hn Hd Ht' Hn' Hd' H.
  assert (∀ p t n d, (p +:+ nl +:+ t +:+ nl +:+ n +:+ nl +:+ d
    = ((p +:+ nl +:+ t) +:+ nl +:+ n) +:+ nl +:+ d)%stdpp) as Ha
    by (intros; by rewrite !str_app_assoc).
  rewrite !Ha in H. apply last_line in H as [H ->]; [|done..].
  apply last_line in H as [H ->]; [|done..]. apply last_line in H as [-> ->]; done.
Qed.

(** ** What signatures bind *)

Lemma ValidateNonce_chars n : ValidateNonce n = inl () → str_all nonce_char n = true.
Proof.
  unfold ValidateNonce, reject. destruct (len n <? _); [done|]. destruct (len n >? _); [done|].
  by destruct (str_all nonce_char n).
Qed.
Lemma ValidateNonceFormat_chars n : ValidateNonceFormat n = inl () → str_all lower_hex_char n = true.
Proof.
  unfold ValidateNonceFormat, reject. destruct (negb (len n =? _)); [done|].
  by destruct (str_all lower_hex_char n).
Qed.

(** C28: a device signature binds the whole request.  If two requests (with a method
    free of line ends, as HTTP methods are, and validated nonces) have the same
    canonical string, they have the same method up to case, the same path (which
    may contain line ends), the same timestamp in seconds, the same nonce and the
    same body digest. *)
Theorem canonical_string_binds {C : Crypto} (a b : SigningInput) :
  no_nl (to_upper (Method a)) = true → no_nl (to_upper (Method b)) = true →
  ValidateNonce (Nonce a) = inl () → ValidateNonce (Nonce b) = inl () →
  CanonicalString a = CanonicalString b →
  to_upper (Method a) = to_upper (Method b) ∧ Path a = Path b ∧
  time_toUnix (Timestamp a) = time_toUnix (Timestamp b) ∧ Nonce a = Nonce b ∧
  sha256sum (Body a) = sha256sum (Body b).
Proof.
  intros Ma Mb Na%ValidateNonce_chars%nonce_no_nl Nb%ValidateNonce_chars%nonce_no_nl H.
  unfold CanonicalString in H. cbn [str_join] in H.
  apply first_line in H as [_ H]; [|done..]. apply first_line in H as [HM H]; [|done..].
  apply last_lines in H as (HP & HT & HN & HD);
    [|by auto using sprint_int_no_nl, lower_hex_no_nl, hex_encode_hex..].
  apply sprint_int_inj in HT. apply hex_encode_inj in HD. done.
Qed.

(** Signing domains are separate.  No agent-request string is an attestation
    string, whatever the fields; and an attestation string determines the
    (well-formed) nonce and the subject it was made for. *)
Theorem attestation_domain_separate {C : Crypto} (nonce subject : string) :
  ValidateNonceFormat nonce = inl () →
  (∀ input, CanonicalString input ≠ AttestationString nonce subject) ∧
  (∀ nonce' subject', ValidateNonceFormat nonce' = inl () →
     AttestationString nonce subject = AttestationString nonce' subject' →
     nonce = nonce' ∧ subject = subject').
Proof.
  intros Hn%ValidateNonceFormat_chars%lower_hex_no_nl. split.
  - intros input. unfold CanonicalString, AttestationString. cbn [str_join]. intros H.
    by apply first_line in H as [H _].
  - intros n' s' Hn'%ValidateNonceFormat_chars%lower_hex_no_nl H.
    unfold AttestationString in H. cbn [str_join] in H.
    apply first_line in H as [_ H]; [|done..]. by apply first_line in H.
Qed.

(** ** The clock-skew window *)

(** The skew check accepts exactly the timestamps within five minutes of the
    server's clock, on either side, whenever the difference fits in a
    [Duration] (292 years). *)
Theorem clock_skew_window (timestamp now : Z) :
  sane_time timestamp → - 2 ^ 63 < now - timestamp < 2 ^ 63 →
  CheckClockSkew timestamp now = inl () ↔ Z.abs (now - timestamp) <= 5 * minute.
Proof.
  intros Hs Hr. unfold CheckClockSkew. rewrite time_sub_exact;
    [|done|unfold int64_range, minInt64, maxInt64; lia].
  cbv zeta. unfold reject, MaxClockSkew. change (5 * minute) with 300000000000.
  destruct (now - timestamp <? 0) eqn:E; zbool; unwrap;
    destruct (_ >? _) eqn:E2; zbool; split; intros; try done; lia.
Qed.

(** Beyond that, a timestamp in the future is accepted: the difference saturates
    at the smallest [Duration], whose negation is itself. *)
Lemma clock_skew_far_future (timestamp now : Z) :
  sane_time timestamp → now - timestamp < - 2 ^ 63 → CheckClockSkew timestamp now = inl ().
Proof.
  intros Hs Hr. unfold CheckClockSkew. rewrite time_sub_sane by done.
  rewrite bool_decide_eq_false_2 by (unfold int64_range, minInt64; lia).
  replace (now <? timestamp) with true by (symmetry; apply Z.ltb_lt; lia). reflexivity.
Qed.
