(* ===== verification/Pool.v ===== *)
(** * The connection pool and the redaction of its errors (internal/store/store.go, redact.go)

    [New] opens the pool; whatever the driver complains about is passed through
    [redact], the replacement of every match of the regular expression

      (postgres(?:ql)?://[^:/@\s]+):[^@\s]*@      by      $1:REDACTED@

    A negated class matches every other byte, and each of the two runs ends at the
    first byte outside its class, so a match at a position is unique and the
    expression is the deterministic function [match_dsn].  The driver is a
    parameter: the text of its error at each stage, if any. *)

From S2P Require Import Prelude GoStd Device DeviceProps.
From S2P Require Config.
From Stdlib Require Import Ascii.
Open Scope Z_scope.
Open Scope go_scope.

(** ** redact.go *)

Definition re_space (c : ascii) : bool :=
  (ch c =? 9) || (ch c =? 10) || (ch c =? 12) || (ch c =? 13) || (ch c =? 32).
(** The class of the user name, and that of the password. *)
Definition user_char (c : ascii) : bool :=
  negb ((ch c =? 58) || (ch c =? 47) || (ch c =? 64) || re_space c).
Definition password_char (c : ascii) : bool := negb ((ch c =? 64) || re_space c).

(** A literal, and the longest run of a class. *)
Fixpoint strip (lit s : string) : option string :=
  match lit, s with
  | EmptyString, _ => Some s
  | String l lit, String c s => if Ascii.eqb l c then strip lit s else None
  | String _ _, EmptyString => None
  end.
Fixpoint span (p : ascii → bool) (s : string) : string * string :=
  match s with
  | EmptyString => ("", "")
  | String c s' => if p c then let '(a, b) := span p s' in (String c a, b) else ("", s)
  end.

(** [(?:ql)?://], the longer alternative first. *)
Definition scheme_end (s : string) : option (string * string) :=
  match (r ← strip "ql" s; strip "://" r) with
  | Some rest => Some ("postgresql://", rest)
  | None => rest ← strip "://" s; Some ("postgres://", rest)
  end.
(** [[^:/@\s]+):[^@\s]*@]: the user name, and what follows the match. *)
Definition credentials (s : string) : option (string * string) :=
  let '(user, rest) := span user_char s in
  if str_eqb user "" then None else
  r ← strip ":" rest;
  tail ← strip "@" (span password_char r).2;
  Some (user, tail).
(** A match at the start of [s]: its group 1, and what follows it. *)
Definition match_dsn (s : string) : option (string * string) :=
  r ← strip "postgres" s;
  a ← scheme_end r;
  b ← credentials a.2;
  Some ((a.1 +:+ b.1)%stdpp, b.2).

(** [ReplaceAllString]: from left to right, [skip] bytes of a match being left. *)
Fixpoint replace_all (skip : nat) (s : string) : string :=
  match s with
  | EmptyString => ""
  | String c s' =>
      match skip with
      | S skip => replace_all skip s'
      | O => match match_dsn s with
        | Some (group, tail) =>
            (group +:+ ":REDACTED@" +:+ replace_all (String.length s' - String.length tail) s')%stdpp
        | None => String c (replace_all 0 s')
        end
      end
  end.
Definition redact (err : option string) : option string := replace_all 0 <$> err.

(** ** store.go *)

(** What the pool is created with. *)
Record pool_config := mkPoolConfig {
  pc_MaxConns : Z; pc_MinConns : Z; pc_MaxConnLifetime : Z; pc_MaxConnIdleTime : Z }.
(** The errors of [pgxpool.ParseConfig], [NewWithConfig] and [Ping]. *)
Record driver := mkDriver {
  ParseConfig : string → option string; NewWithConfig : string → pool_config → option string;
  PingPool : string → option string }.

Definition wrapped (what : string) (err : string) : string := (what +:+ ": " +:+ err)%stdpp.
(** The pool's settings, or the text of the error. *)
Definition New (d : driver) (cfg : Config.DatabaseConfig) : pool_config + string :=
  match redact (ParseConfig d (Config.URL cfg)) with
  | Some e => inr (wrapped "parse database url" e)
  | None =>
      let poolCfg := mkPoolConfig (Config.MaxConns cfg) (Config.MinConns cfg) hour (15 * minute) in
      match redact (NewWithConfig d (Config.URL cfg) poolCfg) with
      | Some e => inr (wrapped "create connection pool" e)
      | None =>
          match redact (PingPool d (Config.URL cfg)) with
          | Some e => inr (wrapped "connect to database" e)
          | None => inl poolCfg
          end
      end
  end.

(** ** The matcher *)

Lemma span_app_stop p s t a c r :
  span p s = (a, String c r) → span p (s +:+ t)%stdpp = (a, (String c r +:+ t)%stdpp).
Proof.
  revert a. induction s as [|x s IH]; intros a; simpl; [done|]. destruct (p x); [|by intros [= <- <- <-]].
  destruct (span p s) as [a' b']. intros [= <- ->]. by rewrite (IH a').
Qed.
Lemma span_app_all p s t a :
  span p s = (a, "") → span p (s +:+ t)%stdpp = let '(a', b) := span p t in ((a +:+ a')%stdpp, b).
Proof.
  revert a. induction s as [|x s IH]; intros a; simpl;
    [intros [= <-]; change ("" +:+ t)%stdpp with t; by destruct (span p t)|].
  destruct (p x); [|done]. destruct (span p s) as [a' b']. intros [= <- ->]. rewrite (IH a') by done.
  by destruct (span p t).
Qed.
Lemma span_spec p s a b : span p s = (a, b) → s = (a +:+ b)%stdpp.
Proof.
  revert a. induction s as [|x s IH]; intros a; simpl; [by intros [= <- <-]|].
  destruct (p x); [|by intros [= <- <-]]. destruct (span p s) as [a' b']. intros [= <- ->]. simpl. by rewrite (IH a').
Qed.
Lemma span_all p s t c : str_all p s = true → p c = false → span p (s +:+ String c t)%stdpp = (s, String c t).
Proof.
  intros Hs Hc. induction s as [|x s IH]; simpl in *; [by rewrite Hc|].
  apply andb_true_iff in Hs as [-> Hs]. by rewrite (IH Hs).
Qed.
Lemma strip_spec lit s r : strip lit s = Some r → s = (lit +:+ r)%stdpp.
Proof.
  revert s. induction lit as [|l lit IH]; intros s; simpl; [by intros [= <-]|].
  destruct s as [|c s]; [done|]. destruct (Ascii.eqb_spec l c) as [->|]; [|done]. intros Hs. by rewrite (IH s Hs).
Qed.
(** A literal without the letter p cannot reach into a text that begins with it. *)
Lemma strip_before lit s u :
  str_all (λ c, negb (Ascii.eqb c "p")) lit = true → lit ≠ "" →
  strip lit (s +:+ String "p" u)%stdpp = (λ r, (r +:+ String "p" u)%stdpp) <$> strip lit s.
Proof.
  revert s. induction lit as [|l lit IH]; intros s Hl Hn; [done|]. cbn [str_all] in Hl.
  apply andb_true_iff in Hl as [Hp Hl]. apply negb_true_iff in Hp.
  destruct s as [|c s]; simpl; [by rewrite Hp|]. destruct (Ascii.eqb l c); [|done].
  destruct lit as [|l' lit]; [done|]. by apply IH.
Qed.

Lemma append_cons c (s t : string) : (String c s +:+ t)%stdpp = String c (s +:+ t)%stdpp.
Proof. done. Qed.

Lemma scheme_end_spec s a : scheme_end s = Some a → ∃ m, s = (m +:+ a.2)%stdpp.
Proof.
  unfold scheme_end. destruct (strip "ql" s ≫= strip "://") as [rest|] eqn:E.
  - intros [= <-]. apply bind_Some in E as (r & ->%strip_spec & ->%strip_spec).
    exists ("ql" +:+ "://")%stdpp. by rewrite str_app_assoc.
  - intros (rest & ->%strip_spec & [= <-])%bind_Some. by eexists.
Qed.
Lemma credentials_spec s b : credentials s = Some b → ∃ m, s = (m +:+ b.2)%stdpp.
Proof.
  unfold credentials. destruct (span user_char s) as [user rest] eqn:E. apply span_spec in E as ->.
  destruct (str_eqb user ""); [done|]. intros (r & ->%strip_spec & (t & Ht & [= <-])%bind_Some)%bind_Some.
  destruct (span password_char r) as [a b] eqn:E. apply span_spec in E as ->. apply strip_spec in Ht. simpl in Ht.
  subst b. exists (user +:+ ":" +:+ a +:+ "@")%stdpp. by rewrite !str_app_assoc.
Qed.
Lemma match_dsn_spec s g tail :
  match_dsn s = Some (g, tail) → ∃ c m, s = (String c m +:+ tail)%stdpp.
Proof.
  unfold match_dsn. intros (r & ->%strip_spec & (a & Ha & (b & Hb & [= _ <-])%bind_Some)%bind_Some)%bind_Some.
  apply scheme_end_spec in Ha as [m1 ->]. apply credentials_spec in Hb as [m2 ->].
  exists "p"%char, ("ostgres" +:+ m1 +:+ m2)%stdpp.
  change (String "p" ("ostgres" +:+ m1 +:+ m2))%stdpp with ("postgres" +:+ (m1 +:+ m2))%stdpp.
  by rewrite !str_app_assoc.
Qed.
Lemma replace_skip m s : replace_all (String.length m) (m +:+ s)%stdpp = replace_all 0 s.
Proof. induction m as [|c m IH]; [done|]. apply IH. Qed.
(** The replacement, match by match. *)
Lemma replace_step s : replace_all 0 s = match match_dsn s with
  | Some (g, tail) => (g +:+ ":REDACTED@" +:+ replace_all 0 tail)%stdpp
  | None => match s with EmptyString => "" | String c s' => String c (replace_all 0 s') end
  end.
Proof.
  destruct (match_dsn s) as [[g tail]|] eqn:E; [|destruct s; [done|]; simpl; by rewrite E].
  pose proof (match_dsn_spec _ _ _ E) as (c & m & ->). rewrite append_cons in *.
  cbn [replace_all]. rewrite E. do 2 f_equal.
  rewrite str_app_length. replace (String.length m + String.length tail - String.length tail)%nat
    with (String.length m) by lia. apply replace_skip.
Qed.

(** ** A quoted connection string *)

Section Quoted.
Context (ql : bool) (user post : string).
Context (Hu : str_all user_char user = true) (Hne : user ≠ "").

Definition scheme_of : string := if ql then "postgresql://" else "postgres://".
Definition dsn (pw : string) : string := (scheme_of +:+ user +:+ ":" +:+ pw +:+ "@" +:+ post)%stdpp.

Lemma dsn_p pw : ∃ u, dsn pw = String "p" u.
Proof using. unfold dsn, scheme_of. destruct ql; rewrite append_cons; eauto. Qed.
Lemma user_password s : str_all user_char s = true → str_all password_char s = true.
Proof using.
  apply str_all_impl. intros c. unfold user_char, password_char. rewrite !negb_true_iff, !orb_false_iff. tauto.
Qed.
Lemma password_run s pw :
  str_all password_char s = true → str_all password_char pw = true →
  span password_char (s +:+ user +:+ ":" +:+ pw +:+ "@" +:+ post)%stdpp
    = ((s +:+ user +:+ ":" +:+ pw)%stdpp, ("@" +:+ post)%stdpp).
Proof using Hu.
  intros Hs Hp. replace (s +:+ user +:+ ":" +:+ pw +:+ "@" +:+ post)%stdpp
    with ((s +:+ user +:+ ":" +:+ pw) +:+ "@" +:+ post)%stdpp by by rewrite !str_app_assoc.
  apply span_all; [|done]. rewrite !str_all_app, Hs, (user_password _ Hu), Hp. done.
Qed.

(** A match that begins before the quoted string ends before it, or swallows it up to
    the [@]: [o] is its group 1 with what it leaves of the text before. *)
Definition across (pw : string) (o : option (string * option string)) : option (string * string) :=
  (λ x, (x.1, match x.2 with Some r => (r +:+ dsn pw)%stdpp | None => post end)) <$> o.
Definition shrinks (pre : string) (o : option (string * option string)) : Prop :=
  match o with Some (_, Some r) => (String.length r <= String.length pre)%nat | _ => True end.

Lemma strip_dsn lit pre pw :
  str_all (λ c, negb (Ascii.eqb c "p")) lit = true → lit ≠ "" →
  strip lit (pre +:+ dsn pw)%stdpp = (λ r, (r +:+ dsn pw)%stdpp) <$> strip lit pre.
Proof using. destruct (dsn_p pw) as [u ->]. apply strip_before. Qed.
Lemma scheme_before pre pw :
  scheme_end (pre +:+ dsn pw)%stdpp = (λ a, (a.1, (a.2 +:+ dsn pw)%stdpp)) <$> scheme_end pre.
Proof using.
  unfold scheme_end. rewrite !strip_dsn by done. destruct (strip "ql" pre) as [r|]; cbn [fmap option_fmap option_map mbind option_bind].
  - rewrite strip_dsn by done. destruct (strip "://" r); [done|]. by destruct (strip "://" pre).
  - by destruct (strip "://" pre).
Qed.
Lemma user_run pw : span user_char (dsn pw) =
  (if ql then "postgresql" else "postgres", ("://" +:+ user +:+ ":" +:+ pw +:+ "@" +:+ post)%stdpp).
Proof using. unfold dsn, scheme_of. by destruct ql. Qed.
Lemma credentials_before pre : ∃ o, shrinks pre o ∧
  ∀ pw, str_all password_char pw = true → credentials (pre +:+ dsn pw)%stdpp = across pw o.
Proof using Hu.
  unfold credentials. destruct (span user_char pre) as [u [|c r]] eqn:E.
  - exists (Some ((u +:+ if ql then "postgresql" else "postgres")%stdpp, None)). split; [done|]. intros pw Hp.
    rewrite (span_app_all _ _ _ u E), user_run.
    assert (str_eqb (u +:+ (if ql then "postgresql" else "postgres"))%stdpp "" = false) as ->
      by (by destruct u, ql).
    change ("://" +:+ user +:+ ":" +:+ pw +:+ "@" +:+ post)%stdpp
      with (String ":" ("//" +:+ user +:+ ":" +:+ pw +:+ "@" +:+ post))%stdpp.
    cbn [strip Ascii.eqb Bool.eqb mbind option_bind]. by rewrite password_run.
  - setoid_rewrite (span_app_stop _ _ _ _ _ _ E). destruct (str_eqb u ""); [by exists None|].
    apply span_spec in E as ->. cbn [strip]. destruct (Ascii.eqb ":" c) eqn:Ec; [|exists None; split; [done|]; intros; by rewrite append_cons, ?Ec].
    destruct (span password_char r) as [p [|c' r']] eqn:Ep.
    + exists (Some (u, None)). split; [done|]. intros pw Hp. rewrite append_cons, Ec.
      cbn [mbind option_bind]. rewrite (span_app_all _ _ _ p Ep). unfold dsn.
      rewrite password_run; [done| |done]. unfold scheme_of. by destruct ql.
    + exists (if Ascii.eqb "@" c' then Some (u, Some r') else None). split.
      * destruct (Ascii.eqb "@" c'); [|done]. unfold shrinks. apply span_spec in Ep as ->.
        rewrite !str_app_length. simpl. rewrite str_app_length. simpl. lia.
      * intros pw Hp. rewrite append_cons, Ec. cbn [mbind option_bind].
        rewrite (span_app_stop _ _ _ _ _ _ Ep). cbn [snd]. rewrite append_cons. cbn [strip].
        by destruct (Ascii.eqb "@" c').
Qed.
(** Same for a whole match. *)
Lemma match_before c pre : ∃ o, shrinks pre o ∧
  ∀ pw, str_all password_char pw = true → match_dsn (String c pre +:+ dsn pw)%stdpp = across pw o.
Proof using Hu.
  assert (∀ pw, strip "postgres" (String c pre +:+ dsn pw)%stdpp =
    (λ r, (r +:+ dsn pw)%stdpp) <$> strip "postgres" (String c pre)) as Hs.
  { intros pw. rewrite append_cons.
    assert (∀ x, strip "postgres" (String c x) = if Ascii.eqb "p" c then strip "ostgres" x else None) as Ho by done.
    rewrite !Ho. destruct (Ascii.eqb "p" c); [|done]. by apply strip_dsn. }
  unfold match_dsn. destruct (strip "postgres" (String c pre)) as [r|] eqn:Er.
  2:{ exists None. split; [done|]. intros pw _. by rewrite Hs. }
  apply strip_spec, (f_equal String.length) in Er. rewrite str_app_length in Er. simpl in Er.
  destruct (scheme_end r) as [a|] eqn:Ea.
  2:{ exists None. split; [done|]. intros pw _. rewrite Hs. cbn [fmap option_fmap option_map mbind option_bind].
      by rewrite scheme_before, Ea. }
  destruct (credentials_before a.2) as (o & Ho & Hc).
  exists ((λ x, ((a.1 +:+ x.1)%stdpp, x.2)) <$> o). split.
  - apply scheme_end_spec in Ea as [m ->]. rewrite str_app_length in Er.
    destruct o as [[g [t|]]|]; [|done..]. simpl in *. lia.
  - intros pw Hp. rewrite Hs. cbn [fmap option_fmap option_map mbind option_bind].
    rewrite scheme_before, Ea. cbn [fmap option_fmap option_map mbind option_bind fst snd]. rewrite Hc by done.
    by destruct o.
Qed.
Lemma match_here pw :
  str_all password_char pw = true → match_dsn (dsn pw) = Some ((scheme_of +:+ user)%stdpp, post).
Proof using Hu Hne.
  intros Hp.
  assert (credentials (user +:+ ":" +:+ pw +:+ "@" +:+ post)%stdpp = Some (user, post)) as Hc.
  { unfold credentials. change (":" +:+ pw +:+ "@" +:+ post)%stdpp with (String ":" (pw +:+ "@" +:+ post))%stdpp.
    rewrite span_all by done. destruct (str_eqb user "") eqn:E; [by apply str_eqb_eq in E|].
    cbn [strip Ascii.eqb Bool.eqb mbind option_bind].
    change ("@" +:+ post)%stdpp with (String "@" post). by rewrite span_all. }
  unfold dsn. remember (user +:+ ":" +:+ pw +:+ "@" +:+ post)%stdpp as x eqn:Ex. clear Ex.
  unfold match_dsn, scheme_of. destruct ql.
  - change (strip "postgres" ("postgresql://" +:+ x)%stdpp) with (Some ("ql://" +:+ x)%stdpp).
    cbn [mbind option_bind]. change (scheme_end ("ql://" +:+ x)%stdpp) with (Some ("postgresql://", x)).
    cbn [mbind option_bind fst snd]. by rewrite Hc.
  - change (strip "postgres" ("postgres://" +:+ x)%stdpp) with (Some ("://" +:+ x)%stdpp).
    cbn [mbind option_bind]. change (scheme_end ("://" +:+ x)%stdpp) with (Some ("postgres://", x)).
    cbn [mbind option_bind fst snd]. by rewrite Hc.
Qed.
(** The redacted text does not depend on the password. *)
Lemma replace_hides pre pw pw' :
  str_all password_char pw = true → str_all password_char pw' = true →
  replace_all 0 (pre +:+ dsn pw)%stdpp = replace_all 0 (pre +:+ dsn pw')%stdpp.
Proof using Hu Hne.
  intros Hp Hp'. remember (String.length pre) as n eqn:En.
  revert pre En. induction (lt_wf n) as [n _ IH]. intros pre ->. destruct pre as [|c pre].
  - change ("" +:+ dsn pw)%stdpp with (dsn pw). change ("" +:+ dsn pw')%stdpp with (dsn pw').
    rewrite (replace_step (dsn pw)), (replace_step (dsn pw')). by rewrite !match_here.
  - destruct (match_before c pre) as (o & Ho & Hm).
    rewrite (replace_step (_ +:+ dsn pw)%stdpp), (replace_step (_ +:+ dsn pw')%stdpp), !Hm by done.
    destruct o as [[g [r|]]|]; cbn [across fmap option_fmap option_map fst snd].
    + do 2 f_equal. apply (IH (String.length r)); [|done]. simpl in *. lia.
    + done.
    + rewrite !append_cons. f_equal. apply (IH (String.length pre)); [simpl; lia|done].
Qed.
End Quoted.

(** Outside the matches the text is left as it is. *)
Lemma replace_none s :
  (∀ a b, s = (a +:+ b)%stdpp → match_dsn b = None) → replace_all 0 s = s.
Proof.
  induction s as [|c s IH]; intros Hn; [done|]. rewrite replace_step, (Hn "" (String c s)) by done.
  f_equal. apply IH. intros a b ->. by apply (Hn (String c a)).
Qed.

(** Two texts that differ in the password of one quoted connection string.  A password
    in a connection string is percent-encoded: it has neither [@] nor blanks. *)
Definition requoted (s s' : string) : Prop := ∃ ql user pre post pw pw',
  str_all user_char user = true ∧ user ≠ "" ∧ str_all password_char pw = true ∧ str_all password_char pw' = true ∧
  s = (pre +:+ dsn ql user post pw)%stdpp ∧ s' = (pre +:+ dsn ql user post pw')%stdpp.
(** The errors of two runs of the driver that differ only in the passwords they quote. *)
Definition same_but_passwords : option string → option string → Prop := option_Forall2 (rtc requoted).

Lemma redact_same e e' : same_but_passwords e e' → redact e = redact e'.
Proof.
  destruct 1 as [s s' Hs|]; [|done]. unfold redact. simpl. f_equal.
  induction Hs as [|s s1 s' (ql & user & pre & post & pw & pw' & H1 & H2 & H3 & H4 & -> & ->) _ IH]; [done|].
  rewrite <-IH. by apply replace_hides.
Qed.

(** C38: errors of the connection pool do not reveal the database password.  If two
    deployments differ only in their connection strings and the errors of their
    drivers only in the passwords of the connection strings they quote (any number of
    them, anywhere in the text), then [New] returns the same: nothing of a password
    reaches the error it returns, which is logged.  The connection strings quoted have a
    user name, and passwords without @ and without blanks (an @ in a password is not
    hidden: [raw_at_sign_leaks]).  A text that quotes no connection string is returned as it
    is. *)
Theorem errors_hide_password (d d' : driver) (cfg cfg' : Config.DatabaseConfig) :
  Config.MaxConns cfg = Config.MaxConns cfg' → Config.MinConns cfg = Config.MinConns cfg' →
  same_but_passwords (ParseConfig d (Config.URL cfg)) (ParseConfig d' (Config.URL cfg')) →
  (∀ p, same_but_passwords (NewWithConfig d (Config.URL cfg) p) (NewWithConfig d' (Config.URL cfg') p)) →
  same_but_passwords (PingPool d (Config.URL cfg)) (PingPool d' (Config.URL cfg')) →
  New d cfg = New d' cfg' ∧
  ∀ s, (∀ a b, s = (a +:+ b)%stdpp → match_dsn b = None) → redact (Some s) = Some s.
Proof.
  intros H1 H2 Hp Hn Hg. split.
  - unfold New. by rewrite H1, H2, (redact_same _ _ Hp), (redact_same _ _ (Hn _)), (redact_same _ _ Hg).
  - intros s Hs. unfold redact. simpl. by rewrite replace_none.
Qed.

(** A driver that cannot reach the server says so and quotes its connection string. *)
Definition unreachable (url : string) : string := ("failed to connect to " +:+ url +:+ ": refused")%stdpp.
Definition quoting : driver := mkDriver (λ _, None) (λ _ _, None) (λ url, Some (unreachable url)).
Lemma errors_hide_witness :
  New quoting (Config.mkDatabaseConfig "postgres://netra:sup3rs3cret@db:5432/netra" 10 2 true) =
  New quoting (Config.mkDatabaseConfig "postgres://netra:other@db:5432/netra" 10 2 true).
Proof.
  apply (errors_hide_password quoting quoting
    (Config.mkDatabaseConfig "postgres://netra:sup3rs3cret@db:5432/netra" 10 2 true)
    (Config.mkDatabaseConfig "postgres://netra:other@db:5432/netra" 10 2 true)); [reflexivity..|constructor|constructor|].
  constructor. apply rtc_once.
  exists false, "netra", "failed to connect to ", "db:5432/netra: refused", "sup3rs3cret", "other".
  repeat split; discriminate || reflexivity.
Defined.

(** A password with a raw [@] is cut at its first one, and one without a user name is
    not recognised. *)
Lemma raw_at_sign_leaks :
  redact (Some "postgres://netra:p@ss@db/netra") = Some "postgres://netra:REDACTED@ss@db/netra" ∧
  redact (Some "postgres://:secret@db/netra") = Some "postgres://:secret@db/netra".
Proof. split; reflexivity. Qed.
