(* ===== verification/SystemProps.v ===== *)
(** * What holds along every run of the control plane

    Replay protection, single use of enrolment tokens and of attestation nonces,
    permanence of revocation and of the end of a session, and the audit log. *)

From S2P Require Import Prelude GoStd Encode Risk Posture Policy Behaviour Db AuditLog Device Session.
From S2P Require Import Telemetry Incident RiskStore PolicyStore PostureStore BehaviourStore Trust Simulator.
From S2P Require Import System.
Open Scope Z_scope.
Open Scope go_scope.

(** ** Rows that persist *)

Lemma existsb_false {A} (p : A → bool) l x : existsb p l = false → x ∈ l → p x = false.
Proof.
  intros H Hx. destruct (p x) eqn:E; [|done]. rewrite <-H. symmetry. apply existsb_elem. by exists x.
Qed.
Lemma NoDup_snoc {A} (l : list A) x : NoDup l → x ∉ l → NoDup (l ++ [x]).
Proof. intros H Hx. apply NoDup_app. split_and!; [done|set_solver|apply NoDup_singleton]. Qed.
(** Deleting rows keeps a key unique. *)
Lemma NoDup_lfilter {A K} (key : A → K) (p : A → bool) l :
  NoDup (key <$> l) → NoDup (key <$> List.filter p l).
Proof.
  induction l as [|x l IH]; [done|]. rewrite fmap_cons, NoDup_cons. intros [Hx Hl]. cbn [List.filter].
  destruct (p x); [|by apply IH]. rewrite fmap_cons. apply NoDup_cons. split; [|by apply IH].
  intros (y & Hy & [Hin _]%elem_of_lfilter)%list_elem_of_fmap. destruct Hx.
  apply list_elem_of_fmap. by exists y.
Qed.
(** A key is unique in a table. *)
Lemma unique_key {A K} `{EqDecision K} (key : A → K) l x y :
  NoDup (key <$> l) → x ∈ l → y ∈ l → key x = key y → x = y.
Proof.
  induction l as [|z l IH]; [set_solver|]. rewrite fmap_cons, NoDup_cons.
  intros [Hz Hl] Hx Hy Hk. apply elem_of_cons in Hx as [->|Hx], Hy as [->|Hy]; [done|..].
  - destruct Hz. apply list_elem_of_fmap. by exists y.
  - destruct Hz. apply list_elem_of_fmap. by exists x.
  - by apply IH.
Qed.

(** Conjuncts are preserved one by one. *)
Lemma keeps_and {A} (P Q : Tables → Prop) (m : M A) : keeps P m → keeps Q m → keeps (λ t, P t ∧ Q t) m.
Proof. intros HP HQ w r w' [H1 H2] Hr. split; [by eapply HP|by eapply HQ]. Qed.

Section Tokens.
(** The token with this hash has been spent. *)
Definition token_spent (h : string) (t : Tables) : Prop :=
  NoDup (t_hash <$> tokens t) ∧ ∃ k, k ∈ tokens t ∧ t_hash k = h ∧ t_used_at k ≠ None.
Definition tokens_ok (t : Tables) : Prop := NoDup (t_hash <$> tokens t).

Lemma token_insert (h : string) (k : token_row) l :
  existsb (λ x, str_eqb (t_hash x) (t_hash k) || (t_id x =? t_id k)%N) l = false →
  NoDup (t_hash <$> l) → NoDup (t_hash <$> (l ++ [k])).
Proof.
  intros He Hl. rewrite fmap_app. apply NoDup_snoc; [done|].
  intros (x & Hx & Hin)%list_elem_of_fmap. pose proof (existsb_false _ _ _ He Hin) as Hf.
  simpl in Hf. rewrite <-Hx, str_eqb_refl in Hf. done.
Qed.
End Tokens.

Section Traces.
Context `{Crypto} (parse_addr inet : string → option string) (engine : Risk.Engine).
Abbreviation run := (run parse_addr inet engine).
Abbreviation steps := (steps parse_addr inet engine).

Lemma tokens_ok_keeps now o : keeps tokens_ok (run now o).
Proof.
  destruct o; frame.
  - apply keeps_insert. intros t HP. destruct (existsb _ _) eqn:E; [done|]. intros _.
    unfold tokens_ok. simpl.
    exact (token_insert "" (mkToken id (sha256sum (b64_rawurl raw)) _ _ _ _ _ _) _ E HP).
  - apply keeps_exec. intros t HP. unfold tokens_ok. simpl. by rewrite update_keys.
Qed.
Lemma token_spent_keeps h now o : keeps (token_spent h) (run now o).
Proof.
  destruct o; frame.
  - apply keeps_insert. intros t [HP (k & Hk & Hh)]. destruct (existsb _ _) eqn:E; [done|]. intros _.
    split; [exact (token_insert "" (mkToken id (sha256sum (b64_rawurl raw)) _ _ _ _ _ _) _ E HP)|].
    exists k. simpl. set_solver.
  - apply keeps_exec. intros t [HP (k & Hk & Hh & Hu)]. split; simpl; [by rewrite update_keys|].
    eexists. rewrite elem_of_update. split; [by exists k|]. by destruct (t_id k =? _)%N.
Qed.

(** A successful enrolment spends its token. *)
Lemma enroll_spends now id token req :
  hoare tokens_ok (Enroll now id token req)
    (λ _, token_spent (sha256sum (trim_space token))) (λ _ _, True).
Proof.
  unfold Enroll. eapply hoare_bind with (Q := λ _, tokens_ok).
  { apply hoare_lift. intros t Ht. by destruct (EnrollRequest_Validate req). }
  intros _. cbv zeta. set (sum := sha256sum (trim_space token)).
  apply hoare_tx; try done. eapply hoare_bind; [apply hoare_try_row|]. intros r.
  eapply hoare_bind with (Q := λ k t, tokens_ok t ∧ k ∈ tokens t ∧ t_hash k = sum).
  { destruct r as [k|[]]; try (apply hoare_fail; done). apply hoare_ret.
    intros t [Ht [Hin Hh%str_eqb_eq]%find_some]. done. }
  intros k. destruct (_ || _); [apply hoare_fail; done|].
  eapply hoare_bind with (Q := λ _ t, tokens_ok t ∧ k ∈ tokens t ∧ t_hash k = sum).
  { apply hoare_try_keeps, keeps_stmt. intros t a t' Ht. destruct (existsb _ _); [done|].
    intros [= _ <-]. exact Ht. }
  intros c. eapply hoare_bind with (Q := λ _ t, tokens_ok t ∧ k ∈ tokens t ∧ t_hash k = sum).
  { destruct c as [d|[]]; try (apply hoare_fail; done). by apply hoare_ret. }
  intros d. eapply hoare_bind with (Q := λ _, token_spent sum).
  { apply hoare_stmt; [|done]. intros t (Ht & Hk & Hh). split; [|done].
    split; simpl; [by rewrite update_keys|]. eexists. rewrite elem_of_update. split; [by exists k|].
    by rewrite N.eqb_refl. }
  intros _. by apply hoare_ret.
Qed.

(** A spent token enrols nothing. *)
Lemma spent_token_refused now id token req t fs r w :
  token_spent (sha256sum (trim_space token)) t → Enroll now id token req (mkWorld t fs) = (r, w) →
  (∀ d, r ≠ inl d) ∧ (EnrollRequest_Validate req = inl () → fs = [] → (r, w) = (inr ErrEnrollmentToken, mkWorld t [])).
Proof.
  intros [Hnd (k & Hk & Hh & Hu)] Hr.
  assert (find (λ k, str_eqb (t_hash k) (sha256sum (trim_space token))) (tokens t) = Some k) as Hf.
  { apply find_unique; [done|by apply str_eqb_eq|].
    intros y Hy Hy2%str_eqb_eq. apply (unique_key t_hash (tokens t)); [done..|congruence]. }
  assert (bool_decide (t_used_at k = None) = false) as Hb by by apply bool_decide_eq_false.
  split.
  - intros d ->. revert Hr. unfold Enroll, bind at 1, lift.
    destruct (EnrollRequest_Validate req) as [[]|e]; [|done]. unfold tx.
    destruct (next_fault _) as [x w1] eqn:E1. apply next_fault_db in E1. simpl in E1.
    destruct x; [|done..]. unfold bind at 1, try at 1, query_row, stmt at 1.
    destruct (next_fault w1) as [y w2] eqn:E2. apply next_fault_db in E2. rewrite E2, E1, Hf.
    destruct y; [|done..]. unfold bind at 1, ret at 1. rewrite Hb. done.
  - intros Hv ->. rewrite <-Hr. unfold Enroll, bind at 1, lift. rewrite Hv.
    change (mkWorld t []) with (calm t). rewrite tx_calm.
    unfold bind at 1, try at 1, query_row. rewrite stmt_calm, Hf. unfold bind at 1, ret at 1.
    by rewrite Hb.
Qed.
End Traces.

(** Enrolment tokens are single use.  Once [Enroll] has succeeded with a token,
    no later [Enroll] presenting that token succeeds, whatever operations ran in
    between and whatever failed; with a valid request and a working database it
    is refused as an invalid token and changes nothing. *)
Theorem enrollment_token_single_use {C : Crypto} (parse_addr inet : string → option string)
    (engine : Risk.Engine) (now now' : Z) (id id' : uuid) (token token' : string)
    (req req' : EnrollRequest) (w w' w2 : World) (t' : Tables) (fs : list fault)
    (d : Device) (r : Device + error) :
  tokens_ok (db w) → Enroll now id token req w = (inl d, w') →
  steps parse_addr inet engine (λ _, True) now (db w') now' t' →
  trim_space token' = trim_space token → Enroll now' id' token' req' (mkWorld t' fs) = (r, w2) →
  (∀ d', r ≠ inl d') ∧
  (EnrollRequest_Validate req' = inl () → fs = [] → (r, w2) = (inr ErrEnrollmentToken, mkWorld t' [])).
Proof.
  intros Hok He Hs Ht Hr. apply (enroll_spends now id token req w _ w' Hok) in He. simpl in He.
  eapply spent_token_refused; [|exact Hr]. rewrite Ht.
  eapply steps_keeps; [|exact Hs|exact He]. intros n o _ _. apply token_spent_keeps.
Qed.

(** ** Devices *)

Definition devices_ok (t : Tables) : Prop :=
  NoDup (d_id <$> devices t) ∧ NoDup (d_uid <$> devices t).
(** The device [id] is registered under [uid], with [G] true of its row. *)
Definition device_is (id : uuid) (uid : string) (G : device_row → Prop) (t : Tables) : Prop :=
  devices_ok t ∧ ∃ d, d ∈ devices t ∧ d_id d = id ∧ d_uid d = uid ∧ G d.
(** Facts about a row that a heartbeat or a revocation does not undo. *)
Definition lasting (G : device_row → Prop) : Prop :=
  ∀ d d', d_public_key d' = d_public_key d → d_state d' = d_state d ∨ d_state d' = REVOKED → G d → G d'.

Lemma device_rewrite id uid (G : device_row → Prop) (hit : device_row → bool) f t :
  (∀ d, d_id (f d) = d_id d) → (∀ d, d_uid (f d) = d_uid d) →
  (∀ d, d_id d = id → hit d = true → G d → G (f d)) →
  device_is id uid G t → device_is id uid G (set_devices (update hit f (devices t)) t).
Proof.
  intros Hid Huid HG [[H1 H2] (d & Hd & Hi & Hu & Hg)]. split.
  - split; simpl; by rewrite update_keys.
  - exists (if hit d then f d else d). simpl. rewrite elem_of_update. split; [by exists d|].
    destruct (hit d) eqn:E; rewrite ?Hid, ?Huid; auto.
Qed.
Lemma device_update id uid G (hit : device_row → bool) f t :
  lasting G → (∀ d, d_id (f d) = d_id d) → (∀ d, d_uid (f d) = d_uid d) →
  (∀ d, d_public_key (f d) = d_public_key d) → (∀ d, d_state (f d) = d_state d ∨ d_state (f d) = REVOKED) →
  device_is id uid G t → device_is id uid G (set_devices (update hit f (devices t)) t).
Proof. intros HG Hid Huid Hk Hst. apply device_rewrite; [done..|]. intros d _ _. by apply HG. Qed.
Lemma device_insert_row id uid G (r : device_row) t :
  (∀ d, d ∈ devices t → d_uid d ≠ d_uid r ∧ d_id d ≠ d_id r) →
  device_is id uid G t → device_is id uid G (set_devices (devices t ++ [r]) t).
Proof.
  intros Hn [[H1 H2] (d & Hd & Hg)]. split; [|exists d; simpl; set_solver].
  split; simpl; rewrite fmap_app; (apply NoDup_snoc; [done|]);
    intros (x & Hx & Hin)%list_elem_of_fmap; destruct (Hn x Hin); by auto.
Qed.
Lemma device_insert id uid G now newid req t :
  existsb (λ d, str_eqb (d_uid d) (rq_DeviceUID req) || (d_id d =? newid)%N) (devices t) = false →
  device_is id uid G t → device_is id uid G (set_devices (devices t ++ [device_of now newid req]) t).
Proof.
  intros He. apply device_insert_row. intros d Hd. pose proof (existsb_false _ _ _ He Hd) as Hf.
  apply orb_false_iff in Hf as [Hf1 Hf2%N.eqb_neq]. split; [|done].
  intros Hu. simpl in Hu. by rewrite Hu, str_eqb_refl in Hf1.
Qed.
(** The row after its agent, or the simulator in its place, reported. *)
Definition reported (now : Z) (version : string) (updated : Z) (d : device_row) : device_row :=
  mkDevice (d_id d) (d_uid d) (d_hostname d) (d_os_name d) (d_os_version d) version (d_public_key d)
    (d_key_algorithm d) (d_key_protection d) (d_state d) (d_enrolled_at d) (Some (pg_time now))
    (d_revoked_at d) (d_revoked_reason d) (d_created_at d) updated.
Lemma sim_device_is `{Crypto} id uid (G : device_row → Prop) now nid uid' hostname key :
  (∀ d v u, G d → G (reported now v u d)) → keeps (device_is id uid G) (sim_device now nid uid' hostname key).
Proof.
  intros HG. apply keeps_stmt. intros t x t' HP. cbv zeta. destruct (find _ (devices t)) eqn:Ef.
  - intros [= _ <-]. apply device_rewrite; [done..| |done]. intros ? _ _. apply HG.
  - destruct (existsb _ _) eqn:Ee; [done|]. intros [= _ <-].
    eapply (device_insert_row id uid G (mkDevice nid uid' _ _ _ _ _ _ _ _ _ _ _ _ _ _)); [|exact HP].
    intros d Hd. split.
    + intros Hu. pose proof (find_none _ _ _ Ef Hd) as Hf. simpl in Hf, Hu. by rewrite Hu, str_eqb_refl in Hf.
    + pose proof (existsb_false _ _ _ Ee Hd) as Hf. by apply N.eqb_neq.
Qed.

Section DeviceTraces.
Context `{Crypto} (parse_addr inet : string → option string) (engine : Risk.Engine).
Abbreviation run := (run parse_addr inet engine).

Lemma device_is_keeps id uid G now o : lasting G → keeps (device_is id uid G) (run now o).
Proof.
  intros HG. destruct o; frame.
  - apply keeps_stmt. intros t x t' HP. destruct (existsb _ _) eqn:E; [done|].
    intros [= _ <-]. by apply device_insert.
  - apply keeps_exec. intros t HP. simpl. apply device_update; auto.
  - apply keeps_exec. intros t HP. simpl. apply device_update; auto.
  - apply sim_device_is. intros d v u. apply HG; auto.
Qed.

End DeviceTraces.

Section DeviceRules.
Context `{Crypto}.

(** [ByUID] reads the row of the device. *)
Lemma ByUID_spec id uid G (P : Tables → Prop) E :
  (∀ t, P t → device_is id uid G t) →
  hoare P (try (ByUID uid))
    (λ r t, P t ∧ match r with
      | inl d => ∃ row, row ∈ devices t ∧ d = scanDevice row ∧ d_id row = id ∧ d_uid row = uid ∧ G row
      | inr _ => True end) E.
Proof.
  intros HP w r w' Hw. unfold try, ByUID. destruct (bind _ _ w) as [x w1] eqn:Eb. intros [= <- <-].
  revert Eb. unfold bind, try, query_row, stmt.
  destruct (next_fault w) as [y w2] eqn:En. apply next_fault_db in En. rewrite <-En in Hw.
  destruct (HP _ Hw) as [[H1 H2] (d & Hd & Hi & Hu & HG)].
  rewrite (find_unique _ (devices (db w2)) d); [|done|by apply str_eqb_eq|].
  2:{ intros z Hz Hz2%str_eqb_eq. apply (unique_key d_uid (devices (db w2))); [done..|congruence]. }
  destruct y; unfold ret, fail; intros [= <- <-]; (split; [done|]); [|done..].
  by exists d.
Qed.

(** The last step of the middleware. *)
Definition consume (enrolled : Device) (nonce body : string) (timestamp : Z) : M outcome :=
  c <-- try (ConsumeNonce (Device.ID enrolled) nonce timestamp) ;;
  match c with
  | inl _ => ret (Forward enrolled body)
  | inr ErrReplayedNonce => ret (Reject StatusUnauthorized)
  | inr _ => ret (Reject StatusInternalServerError)
  end.
(** The middleware rejects with 401 before writing anything, or every check has
    passed and the nonce is consumed. *)
Lemma middleware_rule now r id G (P : Tables → Prop) Q E :
  (∀ t, P t → device_is id (h_device r) G t) → (∀ t, P t → Q (Reject StatusUnauthorized) t) →
  (∀ row seconds body,
     parse_int64 (h_timestamp r) = Some seconds → CheckClockSkew (time_unix seconds) now = inl () →
     d_id row = id → G row → d_state row = DEV_ACTIVE →
     hoare (λ t, P t ∧ row ∈ devices t) (consume (scanDevice row) (h_nonce r) body (time_unix seconds)) Q E) →
  hoare P (RequireDeviceSignature now r) Q E.
Proof.
  intros HP HQ Hc. unfold RequireDeviceSignature.
  destruct (_ || _); [by apply hoare_ret|]. destruct (negb _); [by apply hoare_ret|].
  destruct (parse_int64 _) as [seconds|]; [|by apply hoare_ret]. cbv zeta.
  destruct (CheckClockSkew (time_unix seconds) now) as [[]|e] eqn:Ec; cbn [is_ok negb]; [|by apply hoare_ret].
  destruct (read_body _) as [body|]; [|by apply hoare_ret].
  eapply hoare_bind; [by apply (ByUID_spec id (h_device r) G P E)|].
  intros [d|e]; [|apply hoare_ret; naive_solver]. simpl.
  destruct (bool_decide (State d = DEV_ACTIVE)) eqn:Es; cbn [negb]; [|apply hoare_ret; naive_solver].
  destruct (negb _); [apply hoare_ret; naive_solver|]. apply bool_decide_eq_true in Es.
  intros w x w' [Hw (row & Hrow & -> & Hi & Hu & HG)] Hr.
  exact (Hc row seconds body eq_refl Ec Hi HG Es w x w' (conj Hw Hrow) Hr).
Qed.

Lemma consume_rule P (d : Device) nonce body ts Q E :
  hoare P (ConsumeNonce (Device.ID d) nonce ts) (λ _ t, Q (Forward d body) t)
    (λ _ t, Q (Reject StatusUnauthorized) t ∧ Q (Reject StatusInternalServerError) t) →
  hoare P (consume d nonce body ts) Q E.
Proof.
  intros Hc. unfold consume. eapply hoare_bind; [apply hoare_try; exact Hc|].
  intros [c|e]; simpl; [by apply hoare_ret|]. destruct e; apply hoare_ret; naive_solver.
Qed.
(** [ConsumeNonce] from the effect of its [INSERT]. *)
Lemma ConsumeNonce_rule P id nonce ts (Q : Tables → Prop) (E : error → Tables → Prop) :
  (∀ t at_, P t → timestamptz ts = Some at_ → existsb (same_nonce id nonce) (replay_nonces t) = false →
     Q (set_replay_nonces (replay_nonces t ++ [mkReplay nonce id at_]) t)) →
  (∀ e t, E e t) → hoare P (ConsumeNonce id nonce ts) (λ _, Q) E.
Proof.
  intros HQ HE. unfold ConsumeNonce. eapply hoare_bind.
  { apply (hoare_try _ _ (λ _, Q) (λ _ _, True)). apply hoare_stmt; [|done]. intros t Ht.
    destruct (timestamptz ts); [|done]. destruct (existsb _ _) eqn:Ee; [done|].
    destruct (has_device t id); [|done]. split; [|done]. by apply HQ. }
  intros [c|e]; simpl; [by apply hoare_ret|]. destruct e; by apply hoare_fail.
Qed.

(** A revoked device is turned away before anything is written. *)
Lemma revoked_rejected now r id t fs res w :
  device_is id (h_device r) (λ d, d_state d = REVOKED) t →
  RequireDeviceSignature now r (mkWorld t fs) = (res, w) → res = inl (Reject StatusUnauthorized) ∧ db w = t.
Proof.
  intros Hd Hr.
  assert (hoare (λ t', t' = t) (RequireDeviceSignature now r)
    (λ o t', o = Reject StatusUnauthorized ∧ t' = t) (λ _ _, False)) as Hh.
  { apply (middleware_rule now r id (λ d, d_state d = REVOKED)); [by intros ? ->|done|].
    intros row s body _ _ _ Hs Ha. congruence. }
  specialize (Hh (mkWorld t fs) _ _ eq_refl Hr). destruct res; [naive_solver|done].
Qed.
(** What [Revoke] does to the row. *)
Lemma revoke_revokes now id uid reason :
  hoare (device_is id uid (λ _, True)) (Revoke now id reason)
    (λ _, device_is id uid (λ d, d_state d = REVOKED)) (λ _ _, True).
Proof.
  unfold Revoke. cbv zeta. eapply hoare_bind with (Q := λ n, device_is id uid (λ d, d_state d = REVOKED)).
  - apply hoare_stmt; [|done]. intros t [[H1 H2] (d & Hd & Hi & Hu & _)]. split; [|done]. split.
    + split; simpl; by rewrite update_keys.
    + eexists. simpl. rewrite elem_of_update. split; [by exists d|]. rewrite Hi, N.eqb_refl. simpl.
      destruct (bool_decide (d_state d = REVOKED)) eqn:E; simpl; [|done].
      by apply bool_decide_eq_true in E.
  - intros n. destruct (n =? 0); [by apply hoare_fail|by apply hoare_ret].
Qed.
Lemma revoked_no_session (parse_addr inet : string → option string) now id req did t fs res w :
  device_is did (bq_DeviceUID req) (λ d, d_state d = REVOKED) t →
  Begin parse_addr inet now id req (mkWorld t fs) = (res, w) → (∀ s, res ≠ inl s) ∧ db w = t.
Proof.
  intros Hd Hr.
  assert (hoare (λ t', t' = t) (Begin parse_addr inet now id req) (λ _ _, False) (λ _ t', t' = t)) as Hh.
  { unfold Begin, open_session. eapply hoare_bind with (Q := λ _ t', t' = t).
    { apply hoare_lift. intros ? ->. by destruct (BeginRequest_Validate req). }
    intros _. eapply hoare_bind.
    { apply (ByUID_spec did (bq_DeviceUID req) (λ d, d_state d = REVOKED)). by intros ? ->. }
    intros [d|e]; [|apply hoare_fail; naive_solver]. simpl.
    destruct (bool_decide (State d = DEV_ACTIVE)) eqn:Es; cbn [negb]; [|apply hoare_fail; naive_solver].
    apply bool_decide_eq_true in Es. intros w' x w'' [_ (row & _ & -> & _ & _ & HG)]. simpl in Es.
    congruence. }
  specialize (Hh (mkWorld t fs) _ _ eq_refl Hr). destruct res; [done|]. split; [done|exact Hh].
Qed.

End DeviceRules.

(** C11: revocation is immediate and permanent.  Once [Revoke] has succeeded on an
    enrolled device, then after any operations (heartbeats, new enrolments, other
    revocations, failures at any point) every request signed as that device is
    answered 401 and writes nothing, and no session can begin on it, whatever its
    signature. *)
Theorem revocation_permanent {C : Crypto} (parse_addr inet : string → option string)
    (engine : Risk.Engine) (now now' : Z) (id : uuid) (uid reason : string) (w w' : World)
    (t' : Tables) (fs : list fault) :
  device_is id uid (λ _, True) (db w) → Revoke now id reason w = (inl (), w') →
  steps parse_addr inet engine (λ _, True) now (db w') now' t' →
  (∀ r res w2, h_device r = uid → RequireDeviceSignature now' r (mkWorld t' fs) = (res, w2) →
     res = inl (Reject StatusUnauthorized) ∧ db w2 = t') ∧
  (∀ sid req res w2, bq_DeviceUID req = uid →
     Begin parse_addr inet now' sid req (mkWorld t' fs) = (res, w2) → (∀ s, res ≠ inl s) ∧ db w2 = t').
Proof.
  intros Hd Hr Hs. apply (revoke_revokes now id uid reason w _ w' Hd) in Hr. simpl in Hr.
  assert (device_is id uid (λ d, d_state d = REVOKED) t') as Ht.
  { eapply steps_keeps; [|exact Hs|exact Hr]. intros n o _ _. apply device_is_keeps.
    intros d d' _ [E|E] Hg; congruence. }
  split.
  - intros r res w2 <-. by eapply revoked_rejected.
  - intros sid req res w2 <-. by eapply revoked_no_session.
Qed.

(** ** Replay *)

(** The nonce of a request accepted from device [id] at [timestamp] is stored. *)
Definition nonce_seen (id : uuid) (uid nonce : string) (timestamp : Z) (t : Tables) : Prop :=
  device_is id uid (λ _, True) t ∧
  ∃ x, x ∈ replay_nonces t ∧ rn_device x = id ∧ rn_nonce x = nonce ∧ rn_seen_at x = pg_time timestamp.

Lemma pg_time_mono a b : a <= b → pg_time a <= pg_time b.
Proof. intros H. unfold pg_time, microsecond. pose proof (Z.div_le_mono a b 1000 ltac:(lia) H). lia. Qed.
Lemma pg_years_sane t : pg_years t → sane_time t.
Proof. unfold pg_years, sane_time. change zero_time with (-62135596800 * second). change second with 1000000000. lia. Qed.
(** An accepted timestamp is at most five minutes old. *)
Lemma skew_not_old timestamp now :
  sane_time timestamp → CheckClockSkew timestamp now = inl () → now - timestamp <= MaxClockSkew.
Proof.
  intros Hs. unfold CheckClockSkew. rewrite time_sub_sane by done. cbv zeta.
  unfold reject, MaxClockSkew. change (5 * minute) with 300000000000.
  case_bool_decide as Hr.
  - destruct (_ <? 0) eqn:E1; [zlia|]. destruct (_ >? _) eqn:E2; [done|]. zlia.
  - destruct (now <? timestamp) eqn:E1; [zlia|done].
Qed.

Section Replay.
Context {C : Crypto} (parse_addr inet : string → option string) (engine : Risk.Engine).
Abbreviation run := (run parse_addr inet engine).

Lemma nonce_seen_keeps id uid nonce ts now o :
  sane_time now → now - 2 * MaxClockSkew <= ts → keeps (nonce_seen id uid nonce ts) (run now o).
Proof.
  intros Hs Hle. destruct o; frame.
  - apply keeps_stmt. intros t x t' [HP Hx]. destruct (existsb _ _) eqn:E; [done|].
    intros [= _ <-]. split; [by apply device_insert|exact Hx].
  - apply keeps_stmt. intros t x t' [HP (y & Hy)]. destruct (timestamptz _); [|done].
    destruct (existsb _ _); [done|]. destruct (has_device _ _); [|done]. intros [= _ <-].
    split; [exact HP|]. exists y. simpl. set_solver.
  - apply keeps_exec. intros t [HP Hx]. split; [apply device_update; auto; by intros ??|exact Hx].
  - apply keeps_exec. intros t [HP Hx]. split; [apply device_update; auto; by intros ??|exact Hx].
  - apply keeps_exec. intros t [HP (y & Hy & Hd & Hn & Ha)]. split; [exact HP|]. exists y. simpl.
    split_and!; try done. apply elem_of_lfilter. split; [done|].
    apply negb_true_iff, Z.ltb_ge. rewrite Ha, time_add_sane; [|done|].
    + apply pg_time_mono. lia.
    + unfold int64_range, minInt64, maxInt64, MaxClockSkew. change minute with 60000000000. lia.
  - eapply (keeps_and (device_is id uid (λ _, True))); [by apply sim_device_is|]. frame.
Qed.

(** An accepted request leaves its nonce behind. *)
Lemma forward_seen `{!CryptoLaws C} now r id seconds :
  parse_int64 (h_timestamp r) = Some seconds → pg_years (time_unix seconds) →
  hoare (device_is id (h_device r) (λ _, True)) (RequireDeviceSignature now r)
    (λ o t, ∀ d body, o = Forward d body → nonce_seen id (h_device r) (h_nonce r) (time_unix seconds) t)
    (λ _ _, True).
Proof.
  intros Hp Hy. apply (middleware_rule now r id (λ _, True)); [done|done|].
  intros row s body Hs _ Hi _ _. rewrite Hp in Hs. injection Hs as <-.
  apply consume_rule. cbn [Device.ID scanDevice].
  apply (ConsumeNonce_rule _ _ _ _
    (λ t, ∀ d b, Forward (scanDevice row) body = Forward d b → _) _); [|done].
  intros t at_ [Hw _] Ht _ d b _. rewrite timestamptz_ok in Ht by done. injection Ht as <-.
  split; [exact Hw|]. eexists. simpl. rewrite elem_of_app, elem_of_cons.
  split; [right; left; reflexivity|]. done.
Qed.

(** A request whose nonce is stored is not accepted. *)
Lemma seen_not_forwarded now r id ts t fs res w :
  nonce_seen id (h_device r) (h_nonce r) ts t →
  RequireDeviceSignature now r (mkWorld t fs) = (res, w) → ∀ d body, res ≠ inl (Forward d body).
Proof.
  intros Hn Hr.
  assert (hoare (nonce_seen id (h_device r) (h_nonce r) ts) (RequireDeviceSignature now r)
    (λ o _, ∀ d body, o ≠ Forward d body) (λ _ _, True)) as Hh.
  { apply (middleware_rule now r id (λ _, True)); [by intros ? [? _]|done|].
    intros row s body _ _ Hi _ _. apply consume_rule. cbn [Device.ID scanDevice].
    apply (ConsumeNonce_rule _ _ _ _ (λ _, ∀ d b, _) _); [|done].
    intros t1 at_ [[_ (x & Hx & Hd & Hn1 & _)] _] _ He. exfalso.
    pose proof (existsb_false _ _ _ He Hx) as Hf. unfold same_nonce in Hf.
    by rewrite Hd, Hi, Hn1, N.eqb_refl, str_eqb_refl in Hf. }
  specialize (Hh (mkWorld t fs) _ _ Hn Hr). destruct res; [|done]. intros d body [= ->]. by eapply Hh.
Qed.
(** Acceptance requires a fresh timestamp. *)
Lemma forward_fresh now r t fs d body w :
  RequireDeviceSignature now r (mkWorld t fs) = (inl (Forward d body), w) →
  ∃ seconds, parse_int64 (h_timestamp r) = Some seconds ∧ CheckClockSkew (time_unix seconds) now = inl ().
Proof.
  unfold RequireDeviceSignature. destruct (_ || _); [done|]. destruct (negb _); [done|].
  destruct (parse_int64 _) as [s|]; [|done]. cbv zeta.
  destruct (CheckClockSkew (time_unix s) now) as [[]|e] eqn:Ec; cbn [is_ok negb]; [|done].
  intros _. by exists s.
Qed.
End Replay.

(** C1: no captured request is accepted twice.  Let a device request be accepted.
    After any operations, including any number of runs of the nonce pruner (which
    forgets nonces older than ten minutes), a request with the same device,
    timestamp and nonce headers is not accepted, at any later time.  The clock
    never goes back, and the timestamp lies in the years 1 to 9999. *)
Theorem replay_rejected {C : Crypto} {L : CryptoLaws C} (parse_addr inet : string → option string)
    (engine : Risk.Engine) (now now' : Z) (r r' : HttpRequest) (id : uuid) (seconds : Z)
    (w w' w2 : World) (t' : Tables) (fs : list fault) (d : Device) (body : string)
    (res : outcome + error) :
  device_is id (h_device r) (λ _, True) (db w) →
  RequireDeviceSignature now r w = (inl (Forward d body), w') →
  parse_int64 (h_timestamp r) = Some seconds → pg_years (time_unix seconds) →
  sane_time now → sane_time now' →
  steps parse_addr inet engine (λ _, True) now (db w') now' t' →
  h_device r' = h_device r → h_nonce r' = h_nonce r → h_timestamp r' = h_timestamp r →
  RequireDeviceSignature now' r' (mkWorld t' fs) = (res, w2) →
  ∀ d' body', res ≠ inl (Forward d' body').
Proof.
  intros Hd Hf Hp Hy Hn Hn' Hs H1 H2 H3 Hr d' body' ->.
  destruct (forward_fresh _ _ _ _ _ _ _ Hr) as (s & Hps & Hc). rewrite H3, Hp in Hps. injection Hps as <-.
  apply skew_not_old in Hc; [|by apply pg_years_sane].
  apply (forward_seen now r id seconds Hp Hy w _ w' Hd) in Hf. specialize (Hf d body eq_refl).
  eapply (seen_not_forwarded now' r' id (time_unix seconds) t'); [|exact Hr|done].
  rewrite H1, H2. eapply steps_keeps; [|exact Hs|exact Hf].
  intros n o Hno _. apply nonce_seen_keeps.
  - unfold sane_time in *. lia.
  - assert (0 <= MaxClockSkew) by done. lia.
Qed.

(** ** The audit log *)

(** Entries that the log gives back as they were hashed: PostgreSQL prints the source
    address as it was given, the text of the detail is UTF-8 and its integers have at most
    53 bits. *)
Definition canonical_entries (inet : string → option string) (o : op) : Prop :=
  match o with OpAudit _ e => entry_plain inet e | _ => True end.

Lemma audit_run_keeps `{Crypto} parse_addr inet engine now o :
  canonical_entries inet o → keeps (audit_ok sha256sum) (run parse_addr inet engine now o).
Proof. intros Ho. destruct o; try (frame; fail). by apply record_keeps. Qed.
Lemma audit_prefix_keeps `{Crypto} parse_addr inet engine l now o :
  keeps (λ t, ∃ k, audit_logs t = l ++ k) (run parse_addr inet engine now o).
Proof.
  destruct o; frame. apply keeps_insert. intros t [k Hk] _. simpl. rewrite Hk, <-app_assoc. by eexists.
Qed.

(** C4: the audit log is append-only and goes on verifying.  Take a run of the system
    whose audit entries have addresses that PostgreSQL prints back as they were given and
    details of UTF-8 text and integers of at most 53 bits (a larger one is read back as a
    [float64]: HttpScenario.audit_cursor_breaks_log).  Whatever round trips fail and however
    identity values are burned by rolled-back appends, a log that verifies at the start
    verifies at the end, and every record present at the start is still there, unchanged
    and in place. *)
Theorem audit_log_intact {C : Crypto} (parse_addr inet : string → option string) (engine : Risk.Engine)
    (now now' : Z) (t t' : Tables) :
  audit_ok sha256sum t → steps parse_addr inet engine (canonical_entries inet) now t now' t' →
  audit_ok sha256sum t' ∧ ∃ l, audit_logs t' = audit_logs t ++ l.
Proof.
  intros Hok Hs. split.
  - eapply steps_keeps; [|exact Hs|exact Hok]. intros n o _ Ho. by apply audit_run_keeps.
  - apply (steps_keeps _ _ _ (canonical_entries inet) (λ t', ∃ l, audit_logs t' = audit_logs t ++ l) _ _ _ _
      (λ n o _ _, audit_prefix_keeps parse_addr inet engine _ n o) Hs). exists []. by rewrite app_nil_r.
Qed.
