(* ===== verification/SessionProps.v ===== *)
(** * Sessions: how one begins, and how it can change

    What a successful [Begin] has checked, single use of its nonce, and the
    lifecycle of a session along every run of the system. *)

From S2P Require Import Prelude GoStd Encode Risk Posture Policy Behaviour Db AuditLog Device Session.
From S2P Require Import Telemetry Incident RiskStore PolicyStore PostureStore BehaviourStore Trust System.
From S2P Require Import SystemProps.
Open Scope Z_scope.
Open Scope go_scope.

(** ** Beginning a session *)

(** The challenge and the device a session was begun with. *)
Definition attested {C : Crypto} (now : Z) (req : BeginRequest) (n : nonce_row) (d : device_row) : Prop :=
  n_nonce n = bq_Nonce req ∧ n_user n = bq_UserID req ∧ n_used_at n = None ∧ now <= n_expires_at n ∧
  d_uid d = bq_DeviceUID req ∧ d_state d = DEV_ACTIVE ∧
  (∃ hb, d_last_heartbeat_at d = Some hb ∧ time_sub now hb <= HeartbeatFreshness) ∧
  verifyAttestation (d_public_key d) (bq_Nonce req) (bq_Subject req) (bq_Signature req) = inl ().

Definition nonces_ok (t : Tables) : Prop := NoDup (n_nonce <$> session_nonces t).
(** No unspent challenge with this text is stored. *)
Definition nonce_spent (n : string) (t : Tables) : Prop :=
  nonces_ok t ∧ ∀ x, x ∈ session_nonces t → n_nonce x = n → n_used_at x ≠ None.

Section Begin.
Context `{Crypto} (parse_addr inet : string → option string).

(** What a successful [Begin] leaves, relative to the tables [t0] it read. *)
Definition begun (now : Z) (id : uuid) (req : BeginRequest) (t0 t : Tables) : Prop :=
  nonce_spent (bq_Nonce req) t ∧
  ∃ n d s, n ∈ session_nonces t0 ∧ d ∈ devices t0 ∧ attested now req n d ∧
    sessions t = sessions t0 ++ [s] ∧ s_id s = id ∧ s_user s = bq_UserID req ∧
    s_device s = d_id d ∧ s_status s = ACTIVE ∧ s_attestation s = AttestationDeviceSignature.

(** The three statements of the transaction. *)
Lemma begin_tx now id req d t0 :
  nonces_ok t0 → d ∈ devices t0 →
  (∀ n, n_nonce n = bq_Nonce req → n_user n = bq_UserID req → n_used_at n = None → now <= n_expires_at n →
     attested now req n d) →
  hoare (λ t, t = t0) (open_session parse_addr inet now id req (d_id d))
    (λ s t, begun now id req t0 t) (λ _ _, True).
Proof.
  intros Hok Hd Ha. unfold open_session. apply hoare_tx; try done. eapply hoare_bind; [apply hoare_try_row|]. intros r.
  eapply hoare_bind with (Q := λ n t, t = t0 ∧ n ∈ session_nonces t0 ∧ n_nonce n = bq_Nonce req).
  { destruct r as [n|[]]; try (apply hoare_fail; done). apply hoare_ret.
    intros t [-> [Hin Hn%str_eqb_eq]%find_some]. done. }
  intros n. destruct (_ || _) eqn:E; [by apply hoare_fail|].
  apply orb_false_iff in E as [[E1 E2]%orb_false_iff E3].
  apply negb_false_iff, bool_decide_eq_true in E1. apply negb_false_iff, N.eqb_eq in E3.
  unfold time_after in E2. apply Z.ltb_ge in E2. cbv zeta.
  eapply hoare_bind with (Q := λ _ t, session_nonces t = session_nonces t0 ∧
    ∃ s, n ∈ session_nonces t0 ∧ attested now req n d ∧ sessions t = sessions t0 ++ [s] ∧ s_id s = id ∧
      s_user s = bq_UserID req ∧ s_device s = d_id d ∧ s_status s = ACTIVE ∧
      s_attestation s = AttestationDeviceSignature).
  { apply hoare_stmt; [|done]. intros t (-> & Hn & Hnn).
    destruct (existsb _ _); [done|]. destruct (negb _); [done|].
    destruct (parse_addr _) as [a|]; [destruct (inet a) as [ip|]; [|done]|];
      (split; [|done]); (split; [done|]); eexists; split_and!; eauto; done. }
  intros s. eapply hoare_bind with (Q := λ _, begun now id req t0); [|intros _; by apply hoare_ret].
  apply hoare_stmt; [|done]. intros t (Hsn & s' & Hn & Hatt & Hs). split; [|done]. split.
  - split; [unfold nonces_ok; simpl; rewrite Hsn; by rewrite update_keys|].
    simpl. intros x (y & _ & ->)%elem_of_update. destruct (str_eqb (n_nonce y) (bq_Nonce req)) eqn:E; [done|].
    intros Hy. by rewrite Hy, str_eqb_refl in E.
  - exists n, d, s'. split_and!; try done; apply Hs.
Qed.

Lemma begin_spec now id req t0 :
  nonces_ok t0 →
  hoare (λ t, t = t0) (Begin parse_addr inet now id req) (λ _, begun now id req t0) (λ _ _, True).
Proof.
  intros Hok. unfold Begin. eapply hoare_bind with (Q := λ _ t, t = t0).
  { apply hoare_lift. intros t ->. by destruct (BeginRequest_Validate req). }
  intros _. eapply hoare_bind with (Q := λ r t, t = t0 ∧ match r with
    | inl d => ∃ row, row ∈ devices t0 ∧ d = scanDevice row ∧ d_uid row = bq_DeviceUID req | inr _ => True end).
  { intros w r w' Hw. unfold try, ByUID. destruct (bind _ _ w) as [x w1] eqn:Eb. intros [= <- <-].
    revert Eb. unfold bind, try, query_row, stmt.
    destruct (next_fault w) as [y w2] eqn:En. apply next_fault_db in En. rewrite <-En in Hw. rewrite Hw.
    destruct (find _ _) as [row|] eqn:Ef.
    - apply find_some in Ef as [Hin Hu%str_eqb_eq].
      destruct y; unfold ret, fail; simpl; intros [= <- <-]; (split; [done|]); try done. by exists row.
    - destruct y; unfold ret, fail; simpl; intros [= <- <-]; done. }
  intros [d|e]; [|by apply hoare_fail].
  destruct (bool_decide (State d = DEV_ACTIVE)) eqn:Es; cbn [negb]; [|by apply hoare_fail].
  apply bool_decide_eq_true in Es.
  destruct (match LastHeartbeatAt d with None => _ | Some _ => _ end) eqn:Eh; [by apply hoare_fail|].
  eapply hoare_bind with (Q := λ _ t, (t = t0 ∧ ∃ row, row ∈ devices t0 ∧ d = scanDevice row ∧
      d_uid row = bq_DeviceUID req) ∧
    verifyAttestation (PublicKey d) (bq_Nonce req) (bq_Subject req) (bq_Signature req) = inl ()).
  { apply hoare_lift. intros t Ht. by destruct (verifyAttestation _ _ _ _) as [[]|]. }
  intros _. eapply hoare_bind with (Q := λ _, begun now id req t0); [|intros s; by apply hoare_ret].
  intros w r w' [[Hw (row & Hrow & -> & Hu)] Hv] Hr. cbn [Device.ID scanDevice] in Hr.
  refine (begin_tx now id req row t0 Hok Hrow _ w r w' Hw Hr).
  intros n H1 H2 H3 H4. cbn [State LastHeartbeatAt PublicKey scanDevice] in *.
  destruct (d_last_heartbeat_at row) as [hb|] eqn:Ehb; [|done].
  split_and!; try done. exists hb. split; [done|]. zlia.
Qed.
End Begin.

(** C6: a session begins only on proof.  If [Begin] succeeds, then the tables it
    started from held a challenge with that nonce, issued to that user, unspent
    and unexpired, and an active device with that identifier whose agent reported
    within fifteen minutes and whose key verifies the signature over the nonce and
    the user's subject; exactly one session was added, active, for that user and
    that device, and the challenge is now spent. *)
Theorem begin_requires_proof {C : Crypto} (parse_addr inet : string → option string) (now : Z) (id : uuid)
    (req : BeginRequest) (w w' : World) (s : Session.Session) :
  nonces_ok (db w) → Begin parse_addr inet now id req w = (inl s, w') → begun now id req (db w) (db w').
Proof.
  intros Hok Hr. by apply (begin_spec parse_addr inet now id req (db w) Hok w _ w' eq_refl) in Hr.
Qed.

(** ** A challenge is spent once *)

(** The operations that do not draw this nonce at random again. *)
Definition other_nonce (n : string) (o : op) : Prop :=
  match o with OpIssueNonce raw _ => GenerateNonce raw ≠ n | _ => True end.

Section Challenge.
Context `{Crypto} (parse_addr inet : string → option string) (engine : Risk.Engine).

Lemma nonce_insert (x : nonce_row) t :
  existsb (λ n, str_eqb (n_nonce n) (n_nonce x)) (session_nonces t) = false →
  nonces_ok t → nonces_ok (set_session_nonces (session_nonces t ++ [x]) t).
Proof.
  intros He Hok. unfold nonces_ok. simpl. rewrite fmap_app. apply NoDup_snoc; [done|].
  intros (y & Hy & Hin)%list_elem_of_fmap. pose proof (existsb_false _ _ _ He Hin) as Hf.
  cbv beta in Hf. by rewrite <-Hy, str_eqb_refl in Hf.
Qed.
Lemma nonce_spent_keeps n now o :
  other_nonce n o → keeps (nonce_spent n) (run parse_addr inet engine now o).
Proof.
  intros Ho. destruct o; frame.
  - apply keeps_exec. intros t [Hok Hn]. split.
    + unfold nonces_ok. simpl. by apply NoDup_lfilter.
    + simpl. intros x [Hx _]%elem_of_lfilter. by apply Hn.
  - apply keeps_insert. intros t [Hok Hn]. destruct (existsb _ _) eqn:E; [done|]. intros _. split.
    + by apply (nonce_insert (mkNonce (GenerateNonce raw) _ _ _ _ _)).
    + simpl. intros x [Hx|Hx%list_elem_of_singleton]%elem_of_app; [by apply Hn|]. subst x. simpl in *. congruence.
  - apply keeps_exec. intros t [Hok Hn]. split.
    + unfold nonces_ok. simpl. by rewrite update_keys.
    + simpl. intros x (y & Hy & ->)%elem_of_update. destruct (str_eqb _ _); [done|]. by apply Hn.
Qed.

Lemma spent_nonce_refused n now id req t fs r w :
  nonce_spent n t → bq_Nonce req = n →
  Begin parse_addr inet now id req (mkWorld t fs) = (r, w) → ∀ s, r ≠ inl s.
Proof.
  intros [Hok Hn] <- Hr s ->.
  apply (begin_spec parse_addr inet now id req t Hok (mkWorld t fs) _ w eq_refl) in Hr.
  destruct Hr as [_ (x & d & s' & Hx & _ & (H1 & _ & H3 & _) & _)]. by apply (Hn x).
Qed.
End Challenge.

(** An attestation challenge begins at most one session.  Once [Begin] has
    succeeded with a nonce, no later [Begin] with that nonce succeeds, for any
    user, device or signature, whatever ran in between (the pruner included), as
    long as the same 32 random bytes are not drawn for a new challenge. *)
Theorem attestation_nonce_single_use {C : Crypto} (parse_addr inet : string → option string)
    (engine : Risk.Engine) (now now' : Z) (id id' : uuid) (req req' : BeginRequest)
    (w w' w2 : World) (t' : Tables) (fs : list fault) (s : Session.Session) (r : Session.Session + error) :
  nonces_ok (db w) → Begin parse_addr inet now id req w = (inl s, w') →
  steps parse_addr inet engine (other_nonce (bq_Nonce req)) now (db w') now' t' →
  bq_Nonce req' = bq_Nonce req → Begin parse_addr inet now' id' req' (mkWorld t' fs) = (r, w2) →
  ∀ s', r ≠ inl s'.
Proof.
  intros Hok Hb Hs Hn Hr.
  apply (begin_spec parse_addr inet now id req (db w) Hok w _ w' eq_refl) in Hb as [Hsp _].
  eapply spent_nonce_refused; [|exact Hn|exact Hr].
  eapply steps_keeps; [|exact Hs|exact Hsp]. intros k o _ Ho. by apply nonce_spent_keeps.
Qed.

(** ** The lifecycle of a session *)

(** A fact about the session [sid] (all rows with that identifier). *)
Definition session_is (sid : uuid) (G : session_row → Prop) (t : Tables) : Prop :=
  (∃ s, s ∈ sessions t ∧ s_id s = sid) ∧ ∀ s, s ∈ sessions t → s_id s = sid → G s.
(** The updates the code makes to a session row. *)
Definition session_moves (s s' : session_row) : Prop :=
  s_id s' = s_id s ∧ s_user s' = s_user s ∧ s_device s' = s_device s ∧
  s_attestation s' = s_attestation s ∧ s_started_at s' = s_started_at s ∧
  (s_status s = ENDED → s_status s' = ENDED ∧ s_ended_at s' = s_ended_at s) ∧
  (s_status s' = ACTIVE → s_status s = ACTIVE).
Definition session_lasting (G : session_row → Prop) : Prop := ∀ s s', session_moves s s' → G s → G s'.

Lemma session_update sid G (hit : session_row → bool) f t :
  session_lasting G → (∀ s, hit s = true → session_moves s (f s)) →
  session_is sid G t → session_is sid G (set_sessions (update hit f (sessions t)) t).
Proof.
  intros HG Hm [(s & Hs & Hi) Hall]. split; simpl.
  - exists (if hit s then f s else s). rewrite elem_of_update. split; [by exists s|].
    destruct (hit s) eqn:E; [|done]. rewrite <-Hi. by apply Hm.
  - intros x (y & Hy & ->)%elem_of_update. destruct (hit y) eqn:E; [|by apply Hall].
    intros Hx. eapply HG; [by apply Hm|]. apply Hall; [done|]. rewrite <-Hx. symmetry. by apply Hm.
Qed.
Lemma session_insert sid G s t :
  existsb (λ x, (s_id x =? s_id s)%N) (sessions t) = false →
  session_is sid G t → session_is sid G (set_sessions (sessions t ++ [s]) t).
Proof.
  intros He [(x & Hx & Hi) Hall]. split; simpl; [exists x; set_solver|].
  intros y [Hy|Hy%list_elem_of_singleton]%elem_of_app; [by apply Hall|]. subst y. intros Hs.
  pose proof (existsb_false _ _ _ He Hx) as Hf. cbv beta in Hf. by rewrite Hi, Hs, N.eqb_refl in Hf.
Qed.
(** An update that leaves ended sessions alone, or does not touch the status. *)
Ltac moves := intros s_; unfold not_ended; cbv beta; intros Hs_;
  rewrite ?andb_true_iff, ?negb_true_iff, ?bool_decide_eq_false in Hs_; unfold session_moves; simpl;
  split_and!; intros; try done; try tauto.

Lemma session_is_keeps `{Crypto} parse_addr inet engine sid G now o :
  session_lasting G → keeps (session_is sid G) (run parse_addr inet engine now o).
Proof.
  intros HG. destruct o; frame.
  { apply keeps_stmt. intros t x t' HP. destruct (existsb _ _) eqn:E; [done|]. destruct (negb _); [done|].
    destruct (parse_addr _) as [a'|]; [destruct (inet a') as [ip|]; [|done]|]; intros [= _ <-];
      by apply session_insert. }
  all: lazymatch goal with
  | |- keeps _ (exec _) => apply keeps_exec; intros ? HP; (apply session_update; [done|moves|done])
  | |- _ => apply keeps_stmt; intros ? ? ? HP; destruct (existsb _ _) eqn:E; [done|]; destruct (negb _); [done|];
      destruct (inet ip); [|done]; intros [= _ <-]; by apply session_insert
  end.
Qed.

Lemma session_moves_trans x y z : session_moves x y → session_moves y z → session_moves x z.
Proof.
  intros (A1 & A2 & A3 & A4 & A5 & A6 & A7) (B1 & B2 & B3 & B4 & B5 & B6 & B7).
  unfold session_moves. split_and!; [congruence..| |auto].
  intros E. destruct (A6 E) as [E1 E2]. destruct (B6 E1) as [E3 E4]. split; congruence.
Qed.

(** C27: sessions only close.  Along every run, a session keeps its user, its
    device, its attestation and its start; once it is not [ACTIVE] it is never
    [ACTIVE] again, so no decision to allow re-opens it; and once it is [ENDED] it
    stays ended, with the same end time. *)
Theorem session_never_reopens {C : Crypto} (parse_addr inet : string → option string)
    (engine : Risk.Engine) (now now' : Z) (t t' : Tables) (s s' : session_row) :
  session_is (s_id s) (eq s) t → steps parse_addr inet engine (λ _, True) now t now' t' →
  s' ∈ sessions t' → s_id s' = s_id s →
  s_user s' = s_user s ∧ s_device s' = s_device s ∧ s_attestation s' = s_attestation s ∧
  s_started_at s' = s_started_at s ∧
  (s_status s ≠ ACTIVE → s_status s' ≠ ACTIVE) ∧
  (s_status s = ENDED → s_status s' = ENDED ∧ s_ended_at s' = s_ended_at s).
Proof.
  intros Hs Hst Hin Hi.
  assert (session_is (s_id s) (session_moves s) t') as [_ Hall].
  { eapply steps_keeps; [|exact Hst|].
    - intros n o _ _. apply session_is_keeps. intros x y Hxy Hx. by eapply session_moves_trans.
    - destruct Hs as [He Hall]. split; [done|]. intros x Hx Hxi. rewrite <-(Hall x Hx Hxi).
      unfold session_moves. naive_solver. }
  destruct (Hall s' Hin Hi) as (_ & H1 & H2 & H3 & H4 & H5 & H6). naive_solver.
Qed.
