(* ===== verification/PolicyProps.v ===== *)
(** * Stored policies: versions, the active set, the seeded defaults *)

From S2P Require Import Prelude GoStd Encode Risk Policy Db PolicyStore.
Open Scope Z_scope.
Open Scope go_scope.

(** ** Versions *)

(** Versions are positive and [(policy_id, version)] is a key. *)
Definition policies_ok (t : Tables) : Prop :=
  Forall (λ p, 1 <= Version p) (Db.policies t) ∧
  NoDup ((λ p, (PolicyID p, Version p)) <$> Db.policies t).

Lemma next_version_fresh l id p :
  p ∈ l → PolicyID p = id → Version p < next_version l id.
Proof.
  intros Hp Hid. unfold next_version. assert (p ∈ List.filter (λ p, str_eqb (PolicyID p) id) l) as Hf.
  { apply elem_of_lfilter. split; [done|]. by apply str_eqb_eq. }
  revert Hf. generalize (List.filter (λ p, str_eqb (PolicyID p) id) l). clear Hp.
  induction l0 as [|q l' IH]; [set_solver|]. rewrite fmap_cons. cbn [foldr].
  intros [->|Hin]%elem_of_cons; [lia|]. specialize (IH Hin). lia.
Qed.
Lemma next_version_pos l id : 1 <= next_version l id.
Proof.
  unfold next_version. generalize (Version <$> List.filter (λ p, str_eqb (PolicyID p) id) l).
  intros k. assert (0 <= foldr Z.max 0 k) by (induction k; simpl; lia). lia.
Qed.

(** ** The active set *)

Lemma elem_of_active l p : p ∈ active_policies l ↔ p ∈ l ∧ newest_enabled l p = true.
Proof. unfold active_policies. by rewrite sort_stable_in, elem_of_lfilter. Qed.
Lemma newest_enabled_spec l p : newest_enabled l p = true ↔
  Enabled p = true ∧ ∀ q, q ∈ l → Enabled q = true → PolicyID q = PolicyID p → Version q <= Version p.
Proof.
  unfold newest_enabled. rewrite andb_true_iff, forallb_elem. split.
  - intros [He Hq]. split; [done|]. intros q Hin Hqe Hqi. specialize (Hq q Hin).
    rewrite Hqe, Hqi, str_eqb_refl in Hq. simpl in Hq. zlia.
  - intros [He Hq]. split; [done|]. intros q Hin. destruct (Enabled q) eqn:E1; [|done].
    destruct (str_eqb (PolicyID q) (PolicyID p)) eqn:E2; [|done]. simpl.
    apply str_eqb_eq in E2. apply Z.leb_le. auto.
Qed.
(** A policy with an enabled version has a highest one. *)
Lemma highest_enabled (l : list Policy) q :
  q ∈ l → Enabled q = true →
  ∃ p, p ∈ l ∧ PolicyID p = PolicyID q ∧ newest_enabled l p = true.
Proof.
  intros Hq He. set (cand := List.filter (λ p, Enabled p && str_eqb (PolicyID p) (PolicyID q)) l).
  assert (q ∈ cand) as Hc.
  { apply elem_of_lfilter. by rewrite He, str_eqb_refl. }
  destruct (latest Version cand) as [p|] eqn:E.
  - pose proof (latest_elem _ _ _ E) as [Hp [Hpe Hpi%str_eqb_eq]%andb_true_iff]%elem_of_lfilter.
    exists p. split_and!; try done. apply newest_enabled_spec. split; [done|].
    intros q' Hq' He' Hi'. apply (latest_max _ _ _ _ E). apply elem_of_lfilter.
    split; [done|]. rewrite He'. apply str_eqb_eq. congruence.
  - unfold latest in E. rewrite <-(sort_stable_in (λ x y, Version x >? Version y) q cand) in Hc.
    destruct (sort_stable _ cand); [set_solver|done].
Qed.

(** The policy [p] as a stored version. *)
Definition as_version (now : Z) (id : uuid) (by_ : option uuid) (p : Policy) (v : Z) : Policy :=
  mkPolicy id (PolicyID p) v (Name p) (Description p) (Priority p) (Enabled p) (PConditions p) (PActions p)
    (PFailMode p) by_ (pg_time now).

(** C39: policy versions are immutable and the active set is right.  On a table whose versions
    are positive and unique per policy, [Create] (whatever fails) never changes or removes a
    stored version and keeps [(policy_id, version)] unique.  What it adds is at most one row:
    the policy it was given, under a version above every earlier one of that policy; and
    exactly that row when it succeeds, which it returns.  The active set holds, for each
    policy that has an enabled version, exactly its highest enabled one. *)
Theorem policy_versions (now : Z) (id : uuid) (p : Policy) (by_ : option uuid) (w w' : World)
    (r : Policy + error) :
  policies_ok (db w) → PolicyStore.Create now id p by_ w = (r, w') →
  policies_ok (db w') ∧
  (∃ added, Db.policies (db w') = Db.policies (db w) ++ added ∧ (length added <= 1)%nat ∧
     (∀ q, q ∈ added → q = as_version now id by_ p (Version q)) ∧ (∀ q, r = inl q → added = [q]) ∧
     ∀ q q', q ∈ added → q' ∈ Db.policies (db w) → PolicyID q = PolicyID q' → Version q' < Version q) ∧
  (∀ q, q ∈ active_policies (Db.policies (db w')) ↔
     q ∈ Db.policies (db w') ∧ Enabled q = true ∧
     ∀ q', q' ∈ Db.policies (db w') → Enabled q' = true → PolicyID q' = PolicyID q → Version q' <= Version q) ∧
  (∀ q, q ∈ Db.policies (db w') → Enabled q = true →
     ∃ q', q' ∈ active_policies (Db.policies (db w')) ∧ PolicyID q' = PolicyID q).
Proof.
  intros [Hpos Hnd] Hr.
  set (Q := λ (r : option Policy) t, ∃ added, Db.policies t = Db.policies (db w) ++ added ∧ (length added <= 1)%nat ∧
    (∀ q, q ∈ added → 1 <= Version q) ∧ (∀ q, q ∈ added → q = as_version now id by_ p (Version q)) ∧
    (∀ q, r = Some q → added = [q]) ∧
    ∀ q q', q ∈ added → q' ∈ Db.policies (db w) → PolicyID q = PolicyID q' → Version q' < Version q).
  assert (Q None (db w)) as H0.
  { exists []. rewrite app_nil_r. split_and!; [done|simpl; lia|set_solver|set_solver|done|set_solver]. }
  assert (hoare (λ t, t = db w) (PolicyStore.Create now id p by_) (λ q, Q (Some q)) (λ _, Q None)) as Hh.
  { unfold PolicyStore.Create. eapply hoare_bind with (Q := λ _ t, t = db w).
    { apply hoare_lift. intros t ->. by destruct (Validate p). }
    intros _. apply hoare_stmt; [|by intros t ->]. intros t ->. cbv zeta.
    repeat (destruct (negb _); [exact H0|]). destruct (existsb _ _); [exact H0|].
    destruct (negb _); [exact H0|].
    set (row := mkPolicy id (PolicyID p) (next_version (Db.policies (db w)) (PolicyID p)) (Name p) (Description p) (Priority p)
      (Enabled p) (PConditions p) (PActions p) (PFailMode p) by_ (pg_time now)).
    assert (∀ x, x = Some row ∨ x = None → Q x (set_policies (Db.policies (db w) ++ [row]) (db w))) as HQ; [|split; apply HQ; auto].
    intros x Hx. exists [row]. split; [reflexivity|]. split_and!; [simpl; lia|..].
    - intros q ->%list_elem_of_singleton. apply next_version_pos.
    - by intros q ->%list_elem_of_singleton.
    - intros q ->. destruct Hx as [[= <-]|?]; done.
    - intros q q' ->%list_elem_of_singleton Hq' Hi. apply next_version_fresh; [done|]. by rewrite <-Hi. }
  assert (Q (match r with inl q => Some q | inr _ => None end) (db w')) as (added & Hp & Hl & Hv & Has & Hret & Hlt).
  { specialize (Hh w r w' eq_refl Hr). by destruct r. }
  split_and!.
  - split; rewrite Hp.
    + apply Forall_app. split; [done|]. by apply Forall_forall.
    + rewrite fmap_app. apply NoDup_app. split_and!; [done| |].
      * intros x (q & -> & Hq)%list_elem_of_fmap (q' & He & Hq')%list_elem_of_fmap.
        injection He as He1 He2. specialize (Hlt q' q Hq' Hq (eq_sym He1)). lia.
      * destruct added as [|q [|q' added]]; [constructor|apply NoDup_singleton|simpl in Hl; lia].
  - exists added. split_and!; try done. intros q ->. by apply Hret.
  - intros q. by rewrite elem_of_active, newest_enabled_spec.
  - intros q Hq He. destruct (highest_enabled _ q Hq He) as (p' & Hp' & Hi & Hn).
    exists p'. split; [|done]. by apply elem_of_active.
Qed.

(** ** Seeding the defaults *)

(** A policy as [Create] stores it in version 1. *)
Definition stored (now : Z) (id : uuid) (p : Policy) : Policy :=
  mkPolicy id (PolicyID p) 1 (Name p) (Description p) (Priority p) (Enabled p) (PConditions p)
    (PActions p) (PFailMode p) None (pg_time now).
Definition seeded (now : Z) (ids : nat → uuid) : list Policy :=
  imap (λ i p, stored now (ids i) p) DefaultPolicies.
(** A shipped policy the table accepts. *)
Definition storable (p : Policy) : bool :=
  is_ok (Validate p) && int2 (Priority p) && str_mem (PFailMode p) [FailOpen; FailClosed; FailSafe].

Lemma next_version_new l id : (∀ q, q ∈ l → PolicyID q ≠ id) → next_version l id = 1.
Proof.
  intros H. unfold next_version. rewrite lfilter_none; [done|]. apply Forall_forall.
  intros q Hq. destruct (str_eqb (PolicyID q) id) eqn:E; [|done]. apply str_eqb_eq in E. by destruct (H q).
Qed.
Lemma create_stores now id p t :
  storable p = true → (∀ q, q ∈ Db.policies t → PolicyID q ≠ PolicyID p ∧ Policy.ID q ≠ id) →
  PolicyStore.Create now id p None (calm t)
    = (inl (stored now id p), calm (set_policies (Db.policies t ++ [stored now id p]) t)).
Proof.
  intros [[Hv Hp]%andb_true_iff Hf]%andb_true_iff Hq.
  unfold PolicyStore.Create, bind, lift. destruct (Validate p) as [[]|]; [|done].
  rewrite stmt_calm. cbv zeta. rewrite next_version_new by (intros q Hin; by apply Hq).
  change (int4 1) with true. rewrite Hp, Hf. cbn [negb].
  replace (existsb _ _) with false; [done|]. symmetry. apply not_true_iff_false.
  rewrite existsb_elem. intros (q & Hin & He). destruct (Hq q Hin) as [H1 H2].
  apply orb_true_iff in He as [He%N.eqb_eq|[He%str_eqb_eq _]%andb_true_iff]; done.
Qed.
Lemma create_all_stores now ids n ps t :
  Forall (λ p, storable p = true) ps → NoDup (PolicyID <$> ps) →
  (∀ i j, ids i = ids j → i = j) →
  (∀ q, q ∈ Db.policies t → (PolicyID q ∉ (PolicyID <$> ps)) ∧ ∃ i, (i < n)%nat ∧ Policy.ID q = ids i) →
  create_all now ids n ps (calm t) = (inl (Z.of_nat (n + length ps)),
    calm (set_policies (Db.policies t ++ imap (λ i p, stored now (ids (n + i)%nat) p) ps) t)).
Proof.
  intros Hs. revert n t. induction Hs as [|p ps Hp Hs IH]; intros n t Hnd Hinj Hq.
  - cbn [create_all length imap]. rewrite app_nil_r, Nat.add_0_r. by destruct t.
  - rewrite fmap_cons, NoDup_cons in Hnd. destruct Hnd as [Hpn Hnd].
    cbn [create_all]. unfold bind at 1. rewrite create_stores; [|done|].
    2:{ intros q Hin. destruct (Hq q Hin) as [H1 (i & Hi & H2)]. rewrite fmap_cons in H1. split; [set_solver|].
        rewrite H2. intros E%Hinj. lia. }
    rewrite IH; [|done|done|].
    + cbn [length Db.policies set_policies imap]. rewrite <-app_assoc, Nat.add_0_r. cbn [app].
      rewrite <-Nat.add_succ_comm. rewrite (imap_ext (λ i p, stored now (ids (S n + i)%nat) p)
        ((λ i p, stored now (ids (n + i)%nat) p) ∘ S)); [done|].
      intros i x _. unfold compose. by rewrite Nat.add_succ_comm.
    + simpl. intros q [Hin|Hin%list_elem_of_singleton]%elem_of_app.
      * destruct (Hq q Hin) as [H1 (i & Hi & H2)]. rewrite fmap_cons in H1. split; [set_solver|]. exists i.
        split; [lia|done].
      * subst q. split; [done|]. exists n. split; [lia|done].
Qed.

(** The engine on the seeded rows behaves as the engine on the shipped set. *)
Lemma seeded_evaluate now ids r t :
  Degraded r = false →
  Policy.Evaluate (NewEngine (active_policies (seeded now ids))) r t = Policy.Evaluate (NewEngine DefaultPolicies) r t.
Proof.
  intros Hd. apply evaluate_core; [done|]. unfold seeded, stored. generalize (pg_time now). intros c.
  vm_compute. reflexivity.
Qed.

(** C31: the system is safe on first boot.  On an empty policy table, with distinct
    row identifiers, [EnsureDefaults] stores the eight shipped policies in version
    1; from then on the engine built on the active policies decides every request
    as the shipped set does (so by the response table); and running it again
    changes nothing. *)
Theorem ensure_defaults_safe (now now' : Z) (ids : nat → uuid) (t : Tables) :
  Db.policies t = [] → (∀ i j, ids i = ids j → i = j) →
  let t' := set_policies (seeded now ids) t in
  EnsureDefaults now ids (calm t) = (inl 8, calm t') ∧
  EnsureDefaults now' ids (calm t') = (inl 0, calm t') ∧
  (∀ r k, Degraded r = false →
     Policy.Evaluate (NewEngine (active_policies (Db.policies t'))) r k
     = Policy.Evaluate (NewEngine DefaultPolicies) r k).
Proof.
  intros Ht Hinj. cbv zeta. split_and!.
  - unfold EnsureDefaults, All, query, bind. rewrite stmt_calm, Ht. cbn [sort_stable foldl is_nil negb].
    rewrite create_all_stores; [|by repeat constructor| |done|rewrite Ht; set_solver].
    + rewrite Ht. done.
    + apply (bool_decide_eq_true_1 (NoDup (PolicyID <$> DefaultPolicies))). vm_compute. reflexivity.
  - unfold EnsureDefaults, All, query, bind. rewrite stmt_calm.
    destruct (sort_stable _ _) as [|p l] eqn:E; [|done]. exfalso.
    assert (length (sort_stable newest_first (seeded now ids)) = 8%nat) as Hl
      by (rewrite sort_stable_length; done).
    change (Db.policies (set_policies (seeded now ids) t)) with (seeded now ids) in E. by rewrite E in Hl.
  - intros r k Hd. by apply seeded_evaluate.
Qed.
