(* ===== verification/TrustProps.v ===== *)
(** * The trust loop: explanations, enforcement, the fleet

    A displayed risk always has its explanation; an evaluation records what it
    decided and enforces it; a session without attestation is shut out by the
    shipped policies; the fleet counters partition the active devices. *)

From S2P Require Import Prelude GoStd Encode Risk Posture Policy Behaviour Db AuditLog Device Session.
From S2P Require Import Telemetry Incident RiskStore PolicyStore PostureStore BehaviourStore Trust System.
From S2P Require Import SystemProps PolicyProps.
Open Scope Z_scope.
Open Scope go_scope.

(** ** Reading the context *)

(** What [gather] puts in the inputs whatever the tables hold. *)
Definition gathered (session : sessionContext) (inp : Inputs) : Prop :=
  in_SessionID inp = sc_SessionID session ∧ anomaly_ok inp ∧
  in_SessionAttested inp = negb (str_eqb (sc_Attestation session) "none") ∧
  in_ResourceSensitivity inp ∈ [SensitivityPublic; SensitivityInternal; SensitivitySensitive; SensitivityCritical].

Section Gather.
Context (P : Tables → Prop).

Lemma peak_spec sid E : hoare P (peakSensitivity sid)
  (λ s t, P t ∧ s ∈ [SensitivityPublic; SensitivityInternal; SensitivitySensitive; SensitivityCritical]) E.
Proof using.
  unfold peakSensitivity. eapply hoare_bind; [apply hoare_try_keeps, keeps_query|].
  intros [s|e]; apply hoare_ret; intros t Ht; (split; [done|]); apply str_mem_elem; [|done].
  destruct (str_eqb s "4"), (str_eqb s "3"), (str_eqb s "1"); reflexivity.
Qed.
Lemma gather_spec now session E :
  hoare P (gather now session) (λ inp t, P t ∧ gathered session inp) E.
Proof using.
  unfold gather. eapply hoare_bind; [apply hoare_try_keeps; unfold PostureStore.Latest; keeps|].
  intros p. eapply hoare_bind with (Q := λ _, P).
  { unfold behavioural. eapply hoare_bind; [apply hoare_try_keeps; unfold Load; keeps|].
    intros [prof|e]; [|by apply hoare_ret].
    eapply hoare_bind; [apply hoare_try_keeps; unfold CountByType; keeps|]. intros c. by apply hoare_ret. }
  intros b. eapply hoare_bind; [apply peak_spec|]. intros sens. cbv zeta.
  do 3 (eapply hoare_bind;
    [apply hoare_try_keeps; unfold CountRecentIncidents, CountRecentDenials, prior_sessions; keeps|]; intros ?).
  apply hoare_ret. intros t [Ht Hs]. split; [done|]. split_and!; [done| |done|done].
  split; reflexivity.
Qed.
End Gather.

(** The part of [Evaluate] after the risk engine. *)
Definition decide_and_apply (now : Z) (fresh : Fresh) (sessionID : uuid) (session : sessionContext)
    (sensitivity : Sensitivity) (assessment : Risk.Assessment) : M Outcome :=
  riskScoreID <-- RiskStore.Record now (id_score fresh) (sc_UserID session) (sc_DeviceID session) assessment ;;
  active <-- PolicyStore.Active ;;
  let decision := Policy.Evaluate (Policy.NewEngine active) (mkRequest assessment sensitivity None false) now in
  incident <-- (if CreateIncident decision then
      r <-- try (OpenOrEscalate now (id_incident fresh) sessionID (sc_UserID session)
        (sc_DeviceID session) (ALevel assessment) (Risk.Score assessment)
        ("Elevated risk on session for " +:+ shortID sessionID)%stdpp (summarise assessment)) ;;
      ret (match r with inl created => Some (Incident.ID created) | inr _ => None end)
    else ret None) ;;
  RecordDecision (id_decision fresh) sessionID (sc_UserID session) (sc_DeviceID session)
    (Some riskScoreID) None decision incident ;;;
  applied <-- applyDecision now sessionID (RDecision decision) ;;
  recordDerivedEvents now fresh session assessment decision ;;;
  ret (mkOutcome assessment decision incident applied).

(** The assessment an evaluation of [sid] works with. *)
Definition assessed (engine : Risk.Engine) (sid : uuid) (trigger : string) (session : sessionContext)
    (sensitivity : Sensitivity) (a : Risk.Assessment) : Prop :=
  ∃ inp a0, gathered session inp ∧ Risk.Evaluate engine inp = Some a0 ∧ a = with_trigger a0 trigger ∧
    sensitivity = in_ResourceSensitivity inp ∧ SessionID a = sid.

Lemma evaluate_session_id e inp a : Risk.Evaluate e inp = Some a → SessionID a = in_SessionID inp.
Proof.
  unfold Risk.Evaluate. destruct (collect e inp); simpl; [|done].
  destruct (clamp_block _ _ _) as [[[? ?] ?]|]; simpl; [|done]. by intros [= <-].
Qed.

Lemma evaluate_rule engine now fresh sid trigger (P : Tables → Prop) Q E :
  (∀ session sensitivity a, assessed engine sid trigger session sensitivity a →
     hoare (λ t, P t ∧ ∃ s, s ∈ sessions t ∧ s_id s = sid ∧ sc_Attestation session = s_attestation s)
       (decide_and_apply now fresh sid session sensitivity a) Q E) →
  (∀ e t, P t → E e t) → hoare P (Trust.Evaluate engine now fresh sid trigger) Q E.
Proof.
  intros Hrest HE. unfold Trust.Evaluate. eapply hoare_bind.
  { apply hoare_query_row; auto. }
  intros session. eapply hoare_bind; [apply gather_spec|]. intros inp. cbv beta.
  destruct (Risk.Evaluate engine inp) as [a|] eqn:Ea; [|apply hoare_fail; naive_solver].
  intros w r w' [[Hw Hl] Hg] Hr.
  destruct (find _ _) as [s|] eqn:Ef; cbn [mbind option_bind] in Hl; [|done].
  apply find_some in Ef as [Hs Hid%N.eqb_eq].
  destruct (find _ _) as [d|]; cbn [mbind option_bind] in Hl; [|done]. injection Hl as <-.
  refine (Hrest _ _ _ _ w r w' _ Hr); [|split; [done|by exists s]].
  exists inp, a. split_and!; try done.
  change (SessionID a = sid). rewrite (evaluate_session_id _ _ _ Ea). destruct Hg as [-> _]. done.
Qed.

(** ** A displayed risk has its explanation *)

(** [r] explains the risk [x] shown for the session [s]: a recorded score of that
    session with that value and level, whose factors sum to it. *)
Definition explains (t : Tables) (s : session_row) (x : Z) (r : risk_row) : Prop :=
  r ∈ risk_scores t ∧ rs_session r = s_id s ∧ rs_score r = x ∧ s_current_level s = Some (rs_level r) ∧
  zsum (rf_contribution <$> List.filter (λ f, (rf_score f =? rs_id r)%N) (risk_factors t)) = x.
Definition explained (t : Tables) : Prop :=
  (∀ f, f ∈ risk_factors t → ∃ r, r ∈ risk_scores t ∧ rs_id r = rf_score f) ∧
  (∀ s x, s ∈ sessions t → s_current_risk s = Some x → ∃ r, explains t s x r).

(** Updates of sessions that leave the displayed risk alone. *)
Lemma explained_update (hit : session_row → bool) f t :
  (∀ s, s_id (f s) = s_id s) → (∀ s, s_current_risk (f s) = s_current_risk s) →
  (∀ s, s_current_level (f s) = s_current_level s) →
  explained t → explained (set_sessions (update hit f (sessions t)) t).
Proof.
  intros Hi Hr Hl [Hf He]. split; [exact Hf|]. simpl.
  intros s x (y & Hy & ->)%elem_of_update Hx.
  destruct (He y x Hy) as (r & H1 & H2 & H3 & H4 & H5).
  { destruct (hit y); [by rewrite Hr in Hx|done]. }
  exists r. unfold explains. simpl. destruct (hit y); [rewrite Hi, Hl|]; done.
Qed.
Lemma explained_insert s t :
  s_current_risk s = None → explained t → explained (set_sessions (sessions t ++ [s]) t).
Proof.
  intros Hs [Hf He]. split; [exact Hf|]. simpl.
  intros y x [Hy|Hy%list_elem_of_singleton]%elem_of_app Hx; [by apply He|]. subst y. congruence.
Qed.

Section Record.
Context (now : Z) (id userID deviceID : uuid) (a : Risk.Assessment).
Context (Hsum : total (Risk.Factors a) = Risk.Score a).

(** The score is inserted, its factors are not yet. *)
Definition scored (t : Tables) : Prop :=
  (∀ f, f ∈ risk_factors t → rf_score f ≠ id ∧ ∃ r, r ∈ risk_scores t ∧ rs_id r = rf_score f) ∧
  (∀ s x, s ∈ sessions t → s_current_risk s = Some x → ∃ r, explains t s x r ∧ rs_id r ≠ id) ∧
  score_row id userID deviceID a ∈ risk_scores t.
(** The factors are inserted too. *)
Definition itemised (t : Tables) : Prop :=
  explained t ∧ score_row id userID deviceID a ∈ risk_scores t ∧
  zsum (rf_contribution <$> List.filter (λ f, (rf_score f =? id)%N) (risk_factors t)) = Risk.Score a.

Lemma score_inserted t :
  has_score t id = false → explained t →
  scored (set_risk_scores (risk_scores t ++ [score_row id userID deviceID a]) t).
Proof using.
  intros Hn [Hf He]. unfold has_score in Hn.
  assert (∀ r, r ∈ risk_scores t → rs_id r ≠ id) as Hne.
  { intros r Hr E. pose proof (existsb_false _ _ _ Hn Hr) as Hc. simpl in Hc. by rewrite E, N.eqb_refl in Hc. }
  split_and!; simpl.
  - intros f Hff. destruct (Hf f Hff) as (r & Hr & Hri). split; [rewrite <-Hri; by apply Hne|].
    exists r. split; [apply elem_of_app; by left|done].
  - intros s x Hs Hx. destruct (He s x Hs Hx) as (r & Hr & Hrest). exists r. split; [|by apply Hne].
    split; [apply elem_of_app; by left|exact Hrest].
  - apply elem_of_app. right. by left.
Qed.
Lemma lfilter_factors :
  List.filter (λ f, (rf_score f =? id)%N) (factor_row_of id <$> Risk.Factors a) = factor_row_of id <$> Risk.Factors a.
Proof using.
  apply lfilter_all, Forall_forall. intros f (g & -> & _)%list_elem_of_fmap. simpl. apply N.eqb_refl.
Qed.
Lemma factors_inserted t :
  scored t → itemised (set_risk_factors (risk_factors t ++ (factor_row_of id <$> Risk.Factors a)) t).
Proof using Hsum.
  intros (Hf & He & Hrow). split_and!; simpl.
  - split; simpl.
    + intros f [Hff|(g & -> & _)%list_elem_of_fmap]%elem_of_app; [by apply Hf|].
      by exists (score_row id userID deviceID a).
    + intros s x Hs Hx. destruct (He s x Hs Hx) as (r & (H1 & H2 & H3 & H4 & H5) & Hne).
      exists r. split_and!; try done. simpl. rewrite List.filter_app, fmap_app, zsum_app, H5.
      rewrite (lfilter_none _ (factor_row_of id <$> _)), fmap_nil, zsum_nil; [lia|].
      apply Forall_forall. intros f (g & -> & _)%list_elem_of_fmap. simpl. apply N.eqb_neq. congruence.
  - done.
  - rewrite List.filter_app, lfilter_factors, lfilter_none.
    + rewrite app_nil_l, <-list_fmap_compose. exact Hsum.
    + apply Forall_forall. intros f Hff. apply N.eqb_neq. by apply Hf.
Qed.
Lemma session_updated t :
  itemised t → explained (set_sessions (update (λ s, (s_id s =? SessionID a)%N)
    (λ s, mkSession (s_id s) (s_user s) (s_device s) (s_status s) (s_auth_method s) (s_source_ip s)
       (s_attestation s) (Some (Risk.Score a)) (Some (ALevel a)) (s_started_at s) (pg_time now)
       (s_ended_at s)) (sessions t)) t).
Proof using.
  intros ((Hf & He) & Hrow & Hz). split; [exact Hf|]. simpl.
  intros s x (y & Hy & ->)%elem_of_update Hx.
  destruct (s_id y =? SessionID a)%N eqn:E; [|by apply He].
  apply N.eqb_eq in E. injection Hx as <-. exists (score_row id userID deviceID a).
  split_and!; done.
Qed.

Lemma record_explained : keeps explained (RiskStore.Record now id userID deviceID a).
Proof using Hsum.
  apply hoare_keeps. unfold RiskStore.Record. apply hoare_tx; try done.
  eapply hoare_bind with (Q := λ i t, i = id ∧ scored t).
  { unfold insert_score. eapply hoare_bind with (Q := λ _, scored); [|intros _; by apply hoare_ret].
    apply hoare_insert; [|done]. intros t Ht.
    destruct (has_score t id) eqn:E; [done|]. repeat (destruct (negb _); [done|]).
    split; [by apply score_inserted|done]. }
  intros i. eapply hoare_bind with (Q := λ _, itemised).
  { apply hoare_insert; [|done]. intros t [-> Ht]. destruct (existsb _ _); [done|].
    split; [by apply factors_inserted|done]. }
  intros _. eapply hoare_bind with (Q := λ _, explained); [|intros _; by apply hoare_ret].
  apply hoare_stmt; [|done]. intros t Ht. split; [by apply session_updated|done].
Qed.
End Record.

Lemma assessed_sum engine sid trigger session sens a :
  Risk.weights_ok (weights engine) → assessed engine sid trigger session sens a →
  total (Risk.Factors a) = Risk.Score a ∧ 0 <= Risk.Score a <= 100.
Proof.
  intros Hw (inp & a0 & (_ & Ha & _) & He & -> & _).
  destruct (evaluate_facts engine inp a0 Hw Ha He) as (_ & Hr & [Ht _] & _). done.
Qed.
Lemma evaluate_explained engine now fresh sid trigger :
  Risk.weights_ok (weights engine) → keeps explained (Trust.Evaluate engine now fresh sid trigger).
Proof.
  intros Hw. apply hoare_keeps, evaluate_rule; [|done]. intros session sens a Ha.
  eapply hoare_weaken with (P := explained); [apply keeps_hoare|by intros t [? _]|done|done].
  unfold decide_and_apply. apply keeps_bind.
  { apply record_explained. by eapply assessed_sum. }
  intros rid. frame; try (by intros t' Ht').
  all: apply keeps_exec; intros t Ht; by apply explained_update.
Qed.

Section ExplainedTraces.
Context `{Crypto} (parse_addr inet : string → option string) (engine : Risk.Engine).
Context (Hw : Risk.weights_ok (weights engine)).

Lemma explained_keeps now o : keeps explained (run parse_addr inet engine now o).
Proof using Hw.
  destruct o;
    try (unfold run, void, EvaluateDevice; keeps; by apply evaluate_explained);
    try (apply keeps_bind; [apply simulate_keeps; intros|]; [| | | | | | |by apply evaluate_explained|intros ?; apply keeps_ret]); frame.
  { apply keeps_stmt. intros t x t' Ht. destruct (existsb _ _); [done|]. destruct (negb _); [done|].
    destruct (parse_addr _) as [a'|]; [destruct (inet a') as [ip|]; [|done]|]; intros [= _ <-];
      by apply explained_insert. }
  all: lazymatch goal with
  | |- keeps _ (exec _) => apply keeps_exec; intros ? Ht; by apply explained_update
  | |- _ => apply keeps_stmt; intros ? ? ? Ht; destruct (existsb _ _); [done|]; destruct (negb _); [done|];
      destruct (inet ip); [|done]; intros [= _ <-]; by apply explained_insert
  end.
Qed.
End ExplainedTraces.

(** C21: a displayed risk always has its explanation.  Along every run, whatever
    statement, batch or commit fails, every session that shows a risk has a
    recorded score of that session with the same value and level, whose recorded
    factors sum to it (validated weights). *)
Theorem risk_always_explained {C : Crypto} (parse_addr inet : string → option string)
    (engine : Risk.Engine) (now now' : Z) (t t' : Tables) :
  Risk.weights_ok (weights engine) → explained t →
  steps parse_addr inet engine (λ _, True) now t now' t' → explained t'.
Proof.
  intros Hw He Hs. eapply steps_keeps; [|exact Hs|exact He]. intros n o _ _. by apply explained_keeps.
Qed.

(** ** An evaluation records and enforces what it decides *)

(** The stages of the tables during an evaluation of [sid] under the policies
    [ps]: the score is recorded and shown, the decision is recorded, the decision
    is enforced. *)
Definition shown (sid : uuid) (a : Risk.Assessment) (rid : uuid) (t : Tables) : Prop :=
  (∃ r, r ∈ risk_scores t ∧ rs_id r = rid ∧ rs_session r = sid ∧ rs_score r = Risk.Score a) ∧
  ∀ s, s ∈ sessions t → s_id s = sid →
    s_current_risk s = Some (Risk.Score a) ∧ s_current_level s = Some (ALevel a).
Definition decision_recorded (sid rid : uuid) (d : Policy.Result) (t : Tables) : Prop :=
  ∃ p, p ∈ decisions t ∧ pd_session p = sid ∧ pd_risk_score p = Some rid ∧
    pd_decision p = RDecision d ∧ pd_reason p = Reason d ∧ pd_policy p = nullif (RPolicyID d).
Definition enforced (sid : uuid) (d : Decision) (t : Tables) : Prop :=
  ∀ s, s ∈ sessions t → s_id s = sid →
    (d = DecisionRestrict → s_status s = RESTRICTED ∨ s_status s = ENDED) ∧
    (d = DecisionIsolate ∨ d = DecisionDeny → s_status s = ISOLATED ∨ s_status s = ENDED).

Lemma record_shows now id u d a E :
  (∀ e t, E e t) →
  hoare (λ _, True) (RiskStore.Record now id u d a) (λ rid t, rid = id ∧ shown (SessionID a) a id t) E.
Proof.
  intros HE. unfold RiskStore.Record. apply hoare_tx; auto.
  eapply hoare_bind with (Q := λ i t, i = id ∧ score_row id u d a ∈ risk_scores t).
  { unfold insert_score. eapply hoare_bind with (Q := λ _ t, score_row id u d a ∈ risk_scores t);
      [|intros _; by apply hoare_ret].
    apply hoare_insert; [|auto]. intros t _. destruct (has_score t id); [auto|].
    repeat (destruct (negb _); [auto|]). split; [|auto]. simpl. set_solver. }
  intros i. eapply hoare_bind with (Q := λ _ t, i = id ∧ score_row id u d a ∈ risk_scores t).
  { apply hoare_insert; [|auto]. intros t Ht. destruct (existsb _ _); [auto|]. split; [exact Ht|auto]. }
  intros _. eapply hoare_bind with (Q := λ _ t, i = id ∧ shown (SessionID a) a id t);
    [|intros _; by apply hoare_ret].
  apply hoare_stmt; [|auto]. intros t [Hi Hr]. split; [|auto]. split; [done|]. split.
  - by exists (score_row id u d a).
  - simpl. intros s (y & Hy & ->)%elem_of_update. destruct (s_id y =? SessionID a)%N eqn:E1; [done|].
    intros Hs. by rewrite Hs, N.eqb_refl in E1.
Qed.

Lemma apply_enforces now sid d (P : Tables → Prop) E :
  (∀ t st, P t → P (set_sessions (update (λ s, (s_id s =? sid)%N && negb (bool_decide (s_status s = ENDED)))
      (λ s, mkSession (s_id s) (s_user s) (s_device s) st (s_auth_method s) (s_source_ip s)
         (s_attestation s) (s_current_risk s) (s_current_level s) (s_started_at s) (pg_time now)
         (s_ended_at s)) (sessions t)) t)) →
  (∀ e t, E e t) → hoare P (applyDecision now sid d) (λ _ t, P t ∧ enforced sid d t) E.
Proof.
  intros HP HE. unfold applyDecision. cbv zeta.
  assert (∀ st, (d = DecisionRestrict → st = RESTRICTED) → (d = DecisionIsolate ∨ d = DecisionDeny → st = ISOLATED) →
    hoare P (exec (λ t, ((), set_sessions (update
      (λ s, (s_id s =? sid)%N && negb (bool_decide (s_status s = ENDED)))
      (λ s, mkSession (s_id s) (s_user s) (s_device s) st (s_auth_method s) (s_source_ip s)
         (s_attestation s) (s_current_risk s) (s_current_level s) (s_started_at s) (pg_time now)
         (s_ended_at s)) (sessions t)) t)) ;;; ret (status_text st)) (λ _ t, P t ∧ enforced sid d t) E) as Hst.
  { intros st Hr Hi. eapply hoare_bind with (Q := λ _ t, P t ∧ enforced sid d t); [|intros _; by apply hoare_ret].
    apply hoare_stmt; [|auto]. intros t Ht. split; [|auto]. split; [by apply HP|]. simpl.
    intros s (y & Hy & ->)%elem_of_update Hs.
    destruct (s_id y =? sid)%N eqn:E1; [|simpl in Hs; by rewrite Hs, N.eqb_refl in E1].
    destruct (bool_decide (s_status y = ENDED)) eqn:E2; simpl.
    - apply bool_decide_eq_true in E2. auto.
    - auto. }
  destruct (str_eqb d DecisionRestrict) eqn:E1.
  { apply str_eqb_eq in E1 as ->. apply Hst; [done|]. by intros [?|?]. }
  destruct (str_eqb d DecisionIsolate || str_eqb d DecisionDeny) eqn:E2.
  { apply Hst; [|done]. intros ->. done. }
  eapply hoare_weaken; [apply (hoare_query_row _ P E); auto|done| |done].
  intros x t [Ht _]. split; [done|]. intros s _ _. apply orb_false_iff in E2 as [E2 E3].
  split; [intros ->; done|intros [->| ->]; done].
Qed.

(** What a finished evaluation of [sid] leaves, with [ps] the stored policies. *)
Definition evaluated (ps : list Policy) (now : Z) (fresh : Fresh) (sid : uuid) (sens : Sensitivity)
    (o : Outcome) (t : Tables) : Prop :=
  ODecision o = Policy.Evaluate (Policy.NewEngine (active_policies ps))
    (mkRequest (OAssessment o) sens None false) now ∧
  shown sid (OAssessment o) (id_score fresh) t ∧
  decision_recorded sid (id_score fresh) (ODecision o) t ∧ enforced sid (RDecision (ODecision o)) t.

Lemma decide_spec ps now fresh sid session sens a :
  SessionID a = sid →
  hoare (λ t, Db.policies t = ps) (decide_and_apply now fresh sid session sens a)
    (λ o t, OAssessment o = a ∧ evaluated ps now fresh sid sens o t) (λ _ _, True).
Proof.
  intros Hsid. unfold decide_and_apply.
  eapply hoare_bind with (Q := λ rid t, Db.policies t = ps ∧ rid = id_score fresh ∧ shown sid a (id_score fresh) t).
  { intros w r w' Hw Hr.
    pose proof (record_shows now (id_score fresh) (sc_UserID session) (sc_DeviceID session) a
      (λ _ _, True) ltac:(done) w r w' I Hr) as Hs.
    destruct r as [rid|e]; [|done]. rewrite Hsid in Hs. split; [|exact Hs].
    assert (keeps (λ t, Db.policies t = ps) (RiskStore.Record now (id_score fresh) (sc_UserID session)
      (sc_DeviceID session) a)) as Hk by frame.
    by eapply Hk. }
  intros rid. eapply hoare_bind with (Q := λ active t, active = active_policies ps ∧ rid = id_score fresh ∧
    shown sid a (id_score fresh) t).
  { eapply hoare_weaken with (E := λ _ _, True); [by apply hoare_query|intros t Ht; exact Ht| |done].
    intros l t [(<- & -> & Hs) ->]. done. }
  intros active. cbv zeta. set (d := Policy.Evaluate _ _ now).
  set (J := λ t, active = active_policies ps ∧ rid = id_score fresh ∧ shown sid a (id_score fresh) t).
  eapply hoare_bind with (Q := λ _, J).
  { eapply hoare_weaken; [apply (keeps_hoare _ J)|done|done|done]. unfold J. frame. }
  intros inc. eapply hoare_bind with (Q := λ _ t, J t ∧ decision_recorded sid rid d t).
  { apply hoare_insert; [|done]. intros t Ht. destruct (existsb _ _); [done|].
    do 2 (destruct (negb _); [done|]). destruct (_ && _); [|done]. split; [|done]. split; [exact Ht|].
    eexists. simpl. rewrite elem_of_app, elem_of_cons. split; [right; left; reflexivity|]. done. }
  intros _. eapply hoare_bind.
  { apply (apply_enforces now sid (RDecision d) (λ t, J t ∧ decision_recorded sid rid d t)); [|done].
    intros t st [(H1 & H2 & H3 & H4) Hd]. split; [|exact Hd]. split_and!; try done. split; [exact H3|]. simpl.
    intros s (y & Hy & ->)%elem_of_update. intros Hs. destruct (_ && _); exact (H4 y Hy Hs). }
  intros applied. cbv beta. eapply hoare_bind with
    (Q := λ _ t, (J t ∧ decision_recorded sid rid d t) ∧ enforced sid (RDecision d) t).
  { eapply hoare_weaken; [apply (keeps_hoare _ (λ t, (J t ∧ decision_recorded sid rid d t) ∧
      enforced sid (RDecision d) t))|done|done|done]. frame. }
  intros _. apply hoare_ret. intros t [[(-> & -> & Hs) Hd] He]. split; [done|]. by split_and!.
Qed.

(** C2: an evaluation records and enforces what it decides.  Whenever [Evaluate]
    returns an outcome, its score is between 0 and 100; its decision is the one
    the policy engine makes on the highest enabled versions of the stored
    policies; the score is recorded and is what the session shows; the decision
    is recorded with its reason, its policy and that score; and the session is
    [RESTRICTED] after RESTRICT, [ISOLATED] after ISOLATE or DENY, unless it has
    ended. *)
Theorem evaluate_enforces (engine : Risk.Engine) (now : Z) (fresh : Fresh) (sid : uuid)
    (trigger : string) (w w' : World) (o : Outcome) :
  Risk.weights_ok (weights engine) →
  Trust.Evaluate engine now fresh sid trigger w = (inl o, w') →
  0 <= Risk.Score (OAssessment o) <= 100 ∧
  ∃ sens, evaluated (Db.policies (db w)) now fresh sid sens o (db w').
Proof.
  intros Hw Hr.
  assert (hoare (λ t, Db.policies t = Db.policies (db w)) (Trust.Evaluate engine now fresh sid trigger)
    (λ o t, 0 <= Risk.Score (OAssessment o) <= 100 ∧
       ∃ sens, evaluated (Db.policies (db w)) now fresh sid sens o t) (λ _ _, True)) as Hh.
  { apply evaluate_rule; [|done]. intros session sens a Ha.
    pose proof (assessed_sum _ _ _ _ _ _ Hw Ha) as [_ Hb]. destruct Ha as (inp & a0 & _ & _ & _ & _ & Hsid).
    eapply hoare_weaken; [by apply (decide_spec (Db.policies (db w)) now fresh sid session sens a)| | |done].
    - by intros t [? _].
    - intros o' t [<- He]. split; [done|by exists sens]. }
  exact (Hh w (inl o) w' eq_refl Hr).
Qed.

(** ** A session without attestation *)

Lemma level_in_all th s : Thresholds_Level th s ∈ all_levels.
Proof. apply str_mem_elem. unfold Thresholds_Level. repeat case_match; reflexivity. Qed.
Lemma assessed_level engine sid trigger session sens a :
  Risk.weights_ok (weights engine) → assessed engine sid trigger session sens a → ALevel a ∈ all_levels.
Proof.
  intros Hw (inp & a0 & (_ & Ha & _) & He & -> & _).
  destruct (evaluate_facts engine inp a0 Hw Ha He) as (_ & _ & _ & _ & Hl & _).
  change (ALevel a0 ∈ all_levels). rewrite Hl. apply level_in_all.
Qed.
(** The shipped policies deny it. *)
Lemma unattested_decision engine sid trigger session sens a now t :
  Risk.weights_ok (weights engine) → 0 < weighted (weights engine) DimIdentity (f64_of_int 30) →
  sc_Attestation session = "none" → assessed engine sid trigger session sens a →
  RDecision (Policy.Evaluate (NewEngine (active_policies t)) (mkRequest a sens None false) now)
  = RDecision (Policy.Evaluate (NewEngine DefaultPolicies) (mkRequest a sens None false) now) →
  RDecision (Policy.Evaluate (NewEngine (active_policies t)) (mkRequest a sens None false) now) = DecisionDeny.
Proof.
  intros Hw Hp Hn Ha ->. pose proof (assessed_level _ _ _ _ _ _ Hw Ha) as Hl.
  destruct Ha as (inp & a0 & (_ & _ & Hatt & Hs) & He & -> & -> & _).
  destruct (default_table (mkRequest (with_trigger a0 trigger) (in_ResourceSensitivity inp) None false) now)
    as [-> _]; [done|done| |].
  { revert Hs. unfold all_sensitivities. simpl. set_solver. }
  unfold default_decision. cbn [RAssessment].
  assert (str_mem "UNATTESTED_SESSION" (Codes (with_trigger a0 trigger)) = true) as ->; [|done].
  apply str_mem_elem. change ("UNATTESTED_SESSION" ∈ Codes a0).
  eapply unattested_code; [exact Hp| |exact He]. by rewrite Hatt, Hn.
Qed.

(** C25: a session without device attestation is shut out.  Let the weights be validated
    and leave the missing attestation at least a point (an identity weight of zero is
    validated too, and then it has none), and let the shipped policies be stored.  Then
    every evaluation of a session whose attestation is [none] that returns decides DENY, and
    leaves the session isolated or ended. *)
Theorem unattested_shut_out (engine : Risk.Engine) (now tseed : Z) (ids : nat → uuid) (fresh : Fresh)
    (sid : uuid) (trigger : string) (w w' : World) (o : Outcome) :
  Risk.weights_ok (weights engine) → 0 < weighted (weights engine) DimIdentity (f64_of_int 30) →
  Db.policies (db w) = seeded tseed ids →
  (∀ s, s ∈ sessions (db w) → s_id s = sid → s_attestation s = "none") →
  Trust.Evaluate engine now fresh sid trigger w = (inl o, w') →
  RDecision (ODecision o) = DecisionDeny ∧
  ∀ s, s ∈ sessions (db w') → s_id s = sid → s_status s = ISOLATED ∨ s_status s = ENDED.
Proof.
  intros Hw Hp Hps Hatt Hr.
  assert (hoare (λ t, t = db w) (Trust.Evaluate engine now fresh sid trigger)
    (λ o t, RDecision (ODecision o) = DecisionDeny ∧
       ∀ s, s ∈ sessions t → s_id s = sid → s_status s = ISOLATED ∨ s_status s = ENDED) (λ _ _, True)) as Hh.
  { apply evaluate_rule; [|done]. intros session sens a Ha. pose proof Ha as (inp & a0 & _ & _ & _ & _ & Hsid).
    intros w1 r w1' [Hw1 (s & Hs & Hi & Hat)] Hr1. rewrite Hw1 in Hs. rewrite (Hatt s Hs Hi) in Hat.
    assert (Db.policies (db w1) = seeded tseed ids) as Hps1 by by rewrite Hw1.
    pose proof (decide_spec _ now fresh sid session sens a Hsid w1 r w1' Hps1 Hr1) as Hd.
    destruct r as [o'|]; [|done]. destruct Hd as [<- (Hdec & _ & _ & Henf)].
    assert (RDecision (ODecision o') = DecisionDeny) as Hdeny.
    { rewrite Hdec. refine (unattested_decision engine sid trigger session sens _ now _ Hw Hp Hat Ha _).
      by rewrite seeded_evaluate. }
    split; [done|]. intros s' Hs' Hi'. apply (Henf s' Hs' Hi'). by right. }
  exact (Hh w (inl o) w' eq_refl Hr).
Qed.

(** ** The fleet *)

(** The fleet counters partition the active devices: every active endpoint is
    counted as trusted or as at risk and none as both (a device without posture
    is at risk), the distribution over levels sums to the number of live
    sessions, and high-risk sessions are among them. *)
Theorem fleet_partition (t : Tables) (f : FleetSummary) (w : World) :
  FleetSummary_ (calm t) = (inl f, w) →
  Trusted f + AtRisk f = Endpoints f ∧
  map_fold (λ _ n acc, n + acc) 0 (RiskDistribution f) = ActiveSessions f ∧
  0 <= HighRiskSessions f <= ActiveSessions f.
Proof.
  unfold FleetSummary_, query, bind. rewrite !stmt_calm. unfold ret. intros [= <- _]. simpl. split_and!.
  - unfold count. induction (devices t) as [|d l IH]; [done|]. cbn [List.filter].
    unfold is_trusted at 1, is_at_risk at 1. destruct (active_device d); cbn [andb]; [|exact IH].
    destruct (device_score t d) as [x|].
    + rewrite (Z.leb_antisym x TrustedThreshold). destruct (x <? TrustedThreshold); simpl; lia.
    + simpl. lia.
  - unfold count. induction (List.filter live_session (sessions t)) as [|s l IH]; [done|]. cbn [foldr length].
    set (m := foldr _ _ l) in *. set (k := level_or_unscored s).
    assert (∀ (k : string) (x : Z) (m : gmap string Z),
      map_fold (λ _ n acc, n + acc) 0 (<[k := x]> m)
      = x + map_fold (λ _ n acc, n + acc) 0 (delete k m)) as Hins.
    { clear. intros k x m. rewrite <-insert_delete_eq. apply map_fold_insert_L; [intros; lia|].
      apply lookup_delete_eq. }
    rewrite Hins. destruct (m !! k) as [x|] eqn:E; cbn [default from_option].
    + rewrite <-(insert_delete_id m k x E), Hins in IH. rewrite delete_delete_eq in IH. unfold id. lia.
    + rewrite delete_id by done. unfold id. lia.
  - unfold count. lia.
  - unfold count. apply inj_le. induction (sessions t) as [|s l IH]; [done|]. cbn [List.filter].
    destruct (live_session s); cbn [andb]; [|exact IH].
    destruct (s_current_level s) as [lv|]; [destruct (_ || _)|]; cbn [length]; lia.
Qed.
