(* ===== verification/EventProps.v ===== *)
(** * Telemetry and incidents

    What normalisation guarantees about an event, the accounting and the
    idempotence of ingestion, and the correlation of escalations. *)

From S2P Require Import Prelude GoStd Encode Risk Db AuditLog Device Session Telemetry Incident RiskStore.
From S2P Require Import PolicyStore PostureStore BehaviourStore Trust System SystemProps.
Open Scope Z_scope.
Open Scope go_scope.

(** ** Normalisation *)

(** The time the endpoint claims. *)
Definition claimed (ev : Inbound) (now : Z) : Z :=
  if in_OccurredAtMs ev >? 0 then time_unixMilli (in_OccurredAtMs ev) else now.

Lemma claimed_sane ev now : sane_time now → int64_range (in_OccurredAtMs ev) → sane_time (claimed ev now).
Proof.
  unfold claimed, sane_time, int64_range, minInt64, maxInt64, time_unixMilli.
  intros Hn Hr. destruct (_ >? 0) eqn:E; [|done]. zbool. change millisecond with 1000000.
  change second with 1000000000 in *. lia.
Qed.
Lemma drift_window now c : sane_time c →
  (time_sub now c >? MaxClockDrift) || (time_sub now c <? - MaxClockDrift) = true ↔ 24 * hour < Z.abs (now - c).
Proof.
  intros Hc. rewrite time_sub_sane by done. rewrite orb_true_iff, Z.gtb_ltb, !Z.ltb_lt.
  unfold MaxClockDrift. change (24 * hour) with 86400000000000.
  case_bool_decide as Hr; [lia|]. unfold int64_range, minInt64, maxInt64 in *.
  destruct (now <? c) eqn:E; zbool; lia.
Qed.

(** A stored event can be trusted where it must be.  When an event is accepted,
    it is attributed to the device that signed the batch and to no user or session
    of the sender's choosing, its reception time is the server's, its type and
    severity are known, and its occurrence is within 24 hours of the server's
    clock: the claimed time if that is within 24 hours, and otherwise the server's
    time, with the claim kept in the metadata. *)
Theorem normalize_trustworthy (ev : Inbound) (deviceID : uuid) (now : Z) (e : Event) :
  sane_time now → int64_range (in_OccurredAtMs ev) → Inbound_Normalize ev deviceID now = inl e →
  EDeviceID e = Some deviceID ∧ EUserID e = None ∧ ESessionID e = None ∧ ReceivedAt e = now ∧
  EType e ∈ knownTypes ∧ ESeverity e ∈ knownSeverities ∧ ESource e = SourceAgent ∧
  Z.abs (now - OccurredAt e) <= 24 * hour ∧
  (Z.abs (now - claimed ev now) <= 24 * hour → OccurredAt e = claimed ev now ∧ Metadata e = in_Metadata ev) ∧
  (24 * hour < Z.abs (now - claimed ev now) → OccurredAt e = now ∧
     Metadata e !! "netra.reported_occurred_at" = Some (rfc3339 (claimed ev now))).
Proof.
  intros Hn Hr. pose proof (claimed_sane ev now Hn Hr) as Hc. unfold Inbound_Normalize. fold (claimed ev now).
  destruct (str_mem (in_Type ev) knownTypes) eqn:Et; cbn [negb]; [|done]. cbv zeta.
  set (sev := if str_eqb (in_Severity ev) "" then SeverityInfo else in_Severity ev).
  destruct (str_mem sev knownSeverities) eqn:Es; cbn [negb]; [|done].
  destruct (_ >? MaxEventIDLen); [done|]. destruct (_ >? MaxMetadataEntries); [done|].
  destruct (metadata_ok _) as [[]|]; [|done]. unfold rbind. intros [= <-]. simpl.
  apply str_mem_elem in Et, Es. pose proof (drift_window now (claimed ev now) Hc) as Hd.
  destruct (_ || _) eqn:Ed; split_and!; try done.
  - rewrite Z.sub_diag. done.
  - intros H. destruct Hd as [Hd _]. specialize (Hd eq_refl). lia.
  - intros _. split; [done|]. rewrite lookup_insert_ne by done. apply lookup_insert_eq.
  - destruct Hd as [_ Hd]. destruct (Z_lt_le_dec (24 * hour) (Z.abs (now - claimed ev now))) as [H|H]; [|done].
    specialize (Hd H). done.
  - intros H. destruct Hd as [_ Hd]. specialize (Hd H). done.
Qed.

(** ** Ingestion *)

Lemma normalize_batch_length dev now i inbound :
  (length (normalize_batch dev now i inbound).1 + length (normalize_batch dev now i inbound).2
   = length inbound)%nat.
Proof.
  revert i. induction inbound as [|ev l IH]; intros i; [done|]. cbn [normalize_batch]. specialize (IH (i + 1)).
  destruct (normalize_batch dev now (i + 1) l) as [rows rej]. simpl in IH.
  destruct (Inbound_Normalize ev dev now); simpl; lia.
Qed.
(** A batch appends one row per event it accepts. *)
Lemma insert_events_appends rows t n t' :
  insert_events t rows = inl (n, t') →
  ∃ l, events t' = events t ++ l ∧ n = Z.of_nat (length l) ∧ l `sublist_of` rows.
Proof.
  revert t n. induction rows as [|r rows IH]; intros t n; cbn [insert_events].
  - intros [= <- <-]. exists []. by rewrite app_nil_r.
  - unfold insert_event. destruct (existsb _ _).
    + destruct (insert_events t rows) as [[m t1]|] eqn:E; [|done]. intros [= <- <-].
      destruct (IH _ _ E) as (l & H1 & -> & H3). exists l. split_and!; [done|done|by constructor].
    + destruct (event_check t r); [done|].
      destruct (insert_events _ rows) as [[m t1]|] eqn:E; [|done]. intros [= <- <-].
      destruct (IH _ _ E) as (l & H1 & -> & H3). exists (r :: l). simpl in H1.
      rewrite H1, <-app_assoc. split_and!; [done|simpl; lia|by constructor].
Qed.

(** A row carries its agent's identifier. *)
Definition keyed (r : event_row) : Prop := ∃ d i, e_device r = Some d ∧ e_agent_event_id r = Some i.
Definition same_key (r r' : event_row) : Prop :=
  e_device r = e_device r' ∧ e_agent_event_id r = e_agent_event_id r'.
Definition present (t : Tables) (r : event_row) : Prop := existsb (same_agent_event r) (events t) = true.

Lemma same_agent_event_key r r' x : same_key r r' → same_agent_event r x = same_agent_event r' x.
Proof. intros [H1 H2]. unfold same_agent_event. by rewrite H1, H2. Qed.
Lemma present_key t r r' : same_key r r' → present t r → present t r'.
Proof.
  unfold present. rewrite !existsb_elem. intros Hk (x & Hx & Hs). exists x. split; [done|].
  by rewrite <-(same_agent_event_key r r' x Hk).
Qed.
Lemma present_grows t t' r l : events t' = events t ++ l → present t r → present t' r.
Proof. unfold present. intros ->. rewrite existsb_app. by intros ->. Qed.
Lemma insert_events_present rows t n t' :
  insert_events t rows = inl (n, t') → Forall keyed rows → Forall (present t') rows.
Proof.
  revert t n. induction rows as [|r rows IH]; intros t n H Hk; [constructor|].
  apply Forall_cons in Hk as [(d & i & Hd & Hi) Hk]. cbn [insert_events] in H. unfold insert_event in H.
  destruct (existsb _ _) eqn:Ee.
  - destruct (insert_events t rows) as [[m t1]|] eqn:E; [|done]. injection H as <- <-.
    destruct (insert_events_appends _ _ _ _ E) as (l & Hl & _).
    constructor; [by eapply present_grows|]. by eapply IH.
  - destruct (event_check t r); [done|].
    destruct (insert_events _ rows) as [[m t1]|] eqn:E; [|done]. injection H as <- <-.
    destruct (insert_events_appends _ _ _ _ E) as (l & Hl & _).
    constructor; [|by eapply IH]. eapply present_grows; [exact Hl|].
    unfold present. simpl. rewrite existsb_app. simpl.
    assert (same_agent_event r r = true) as ->; [|by rewrite orb_true_r].
    unfold same_agent_event. rewrite Hd, Hi, N.eqb_refl. apply str_eqb_refl.
Qed.
Lemma insert_events_dup rows t : Forall (present t) rows → insert_events t rows = inl (0, t).
Proof. induction 1 as [|r rows Hr _ IH]; [done|]. cbn [insert_events]. unfold insert_event. by rewrite Hr, IH. Qed.

(** Whether an event is accepted, and under which key, does not depend on the
    clock. *)
Lemma normalize_clock ev dev now now' :
  match Inbound_Normalize ev dev now, Inbound_Normalize ev dev now' with
  | inl e, inl e' => AgentEventID e = trim_space (in_EventID ev) ∧ AgentEventID e' = AgentEventID e ∧
      EDeviceID e = Some dev ∧ EDeviceID e' = Some dev
  | inr x, inr y => x = y
  | _, _ => False
  end.
Proof.
  unfold Inbound_Normalize. destruct (negb _); [done|]. cbv zeta. destruct (negb _); [done|].
  destruct (_ >? MaxEventIDLen); [done|]. destruct (_ >? MaxMetadataEntries); [done|].
  by destruct (metadata_ok _) as [[]|].
Qed.
Definition same_event (dev : uuid) (e e' : Event) : Prop :=
  AgentEventID e' = AgentEventID e ∧ EDeviceID e = Some dev ∧ EDeviceID e' = Some dev.
Lemma normalize_batch_clock dev now now' i inbound :
  (normalize_batch dev now' i inbound).2 = (normalize_batch dev now i inbound).2 ∧
  Forall2 (same_event dev) (normalize_batch dev now i inbound).1 (normalize_batch dev now' i inbound).1 ∧
  (Forall (λ ev, trim_space (in_EventID ev) ≠ "") inbound →
   Forall (λ e, AgentEventID e ≠ "") (normalize_batch dev now i inbound).1).
Proof.
  revert i. induction inbound as [|ev l IH]; intros i; [split_and!; [done|constructor|constructor]|].
  cbn [normalize_batch]. specialize (IH (i + 1)). pose proof (normalize_clock ev dev now now') as Hc.
  destruct (normalize_batch dev now (i + 1) l) as [rows rej], (normalize_batch dev now' (i + 1) l) as [rows' rej'].
  destruct IH as (H1 & H2 & H3). simpl in *.
  destruct (Inbound_Normalize ev dev now), (Inbound_Normalize ev dev now'); try done.
  - destruct Hc as (Ht & Ha & Hd & Hd'). split_and!; [done|by constructor|].
    intros [Hb Hl]%Forall_cons. constructor; [by rewrite Ht|auto].
  - simpl. split_and!; [by rewrite H1, Hc|done|]. intros [_ Hl]%Forall_cons. auto.
Qed.

Lemma same_event_device dev l l' : Forall2 (same_event dev) l l' → Forall (λ e, EDeviceID e = Some dev) l.
Proof. induction 1 as [|x y l1 l2 (_ & Hx & _) _ IH]; by constructor. Qed.

(** The rows [Ingest] sends. *)
Definition batch_rows (ids : nat → uuid) (evs : list Event) (user session batch : option uuid) : list event_row :=
  imap (λ i e, event_row_of (ids i) e user session batch) evs.
Lemma batch_rows_keyed ids evs u s b dev :
  Forall (λ e, EDeviceID e = Some dev ∧ AgentEventID e ≠ "") evs → Forall keyed (batch_rows ids evs u s b).
Proof.
  intros H. apply Forall_forall. intros r (i & e & -> & He)%elem_of_lookup_imap.
  rewrite Forall_forall in H. apply list_elem_of_lookup_2 in He. destruct (H e He) as [Hd Ha].
  exists dev, (AgentEventID e). split; [done|]. simpl. unfold nullif.
  destruct (str_eqb (AgentEventID e) "") eqn:E; [|done]. by apply str_eqb_eq in E.
Qed.
Lemma batch_rows_present t dev ids ids' evs evs' u s b u' s' b' :
  Forall2 (same_event dev) evs evs' →
  Forall (present t) (batch_rows ids evs u s b) → Forall (present t) (batch_rows ids' evs' u' s' b').
Proof.
  unfold batch_rows. rewrite !Forall_lookup. intros H2 H i r. rewrite list_lookup_imap.
  destruct (evs' !! i) as [e'|] eqn:E'; [|done]. intros [= <-].
  destruct (Forall2_lookup_r _ _ _ _ _ H2 E') as (e & E & Ha & Hd & Hd').
  eapply present_key; [|apply (H i); rewrite list_lookup_imap, E; reflexivity].
  split; simpl; [congruence|by rewrite Ha].
Qed.

(** The session a batch is attributed to, with its user: a session of the device that has
    not ended, or none. *)
Definition attributed (t : Tables) (dev : uuid) (user session : option uuid) : Prop :=
  (user = None ∧ session = None) ∨
  ∃ s, s ∈ sessions t ∧ s_device s = dev ∧ s_status s ≠ ENDED ∧ user = Some (s_user s) ∧ session = Some (s_id s).
Lemma active_attributed dev w a w1 :
  activeSession dev w = (a, w1) → db w1 = db w ∧
  attributed (db w) dev (match a with inl (_, u) => Some u | inr _ => None end) (match a with inl (s, _) => Some s | inr _ => None end).
Proof.
  unfold activeSession, query_row, stmt. destruct (next_fault w) as [x w2] eqn:En. apply next_fault_db in En. rewrite <-En. intros Ea.
  destruct (latest _ _) as [s|] eqn:El; cbn [mbind option_bind] in Ea.
  - apply latest_elem, elem_of_lfilter in El as [Hs [Hd%N.eqb_eq He%negb_true_iff]%andb_true_iff]. apply bool_decide_eq_false in He.
    assert (attributed (db w2) dev (Some (s_user s)) (Some (s_id s))) by (right; by exists s).
    destruct x; injection Ea as <- <-; (split; [done|]); first [done|by left].
  - destruct x; injection Ea as <- <-; (split; [done|]); by left.
Qed.
(** What a successful [Ingest] did. *)
Lemma ingest_inv now b ids dev inbound w r w' :
  Ingest now b ids dev inbound w = (inl r, w') →
  Z.of_nat (length inbound) <= MaxBatchSize ∧
  ir_Rejected r = (normalize_batch dev now 0 inbound).2 ∧
  ∃ user session n, attributed (db w) dev user session ∧ ir_SessionID r = session ∧ insert_events (db w)
      (batch_rows ids (normalize_batch dev now 0 inbound).1 user session (Some b)) = inl (n, db w') ∧
    ir_Accepted r = n ∧ ir_Duplicates r = Z.of_nat (length (normalize_batch dev now 0 inbound).1) - n.
Proof.
  unfold Ingest. destruct (_ >? MaxBatchSize) eqn:El; [done|]. unfold bind at 1, try at 1.
  destruct (activeSession dev w) as [a w1] eqn:Ea. destruct (active_attributed _ _ _ _ Ea) as [Hdb Hatt].
  destruct (normalize_batch dev now 0 inbound) as [evs rej]. cbn [fst snd]. cbv zeta.
  set (user := match a with inl (_, u) => Some u | inr _ => None end) in *.
  set (session := match a with inl (s, _) => Some s | inr _ => None end) in *.
  destruct evs as [|e evs]; cbn [is_nil].
  - intros [= <- <-]. split; [zlia|]. split; [done|]. exists user, session, 0. split_and!; [done|done| |done..].
    simpl. by rewrite Hdb.
  - unfold bind at 1. unfold Telemetry.insert, tx.
    destruct (next_fault w1) as [x w2] eqn:E2. apply next_fault_db in E2. destruct x; [|done..].
    unfold stmt. destruct (next_fault w2) as [y w3] eqn:E3. apply next_fault_db in E3.
    fold (batch_rows ids (e :: evs) user session (Some b)).
    destruct (insert_events (db w3) _) as [[n t1]|e1] eqn:Ei; [|by destruct y].
    destruct y; [|done..]. destruct (next_fault (mkWorld t1 _)) as [z w4] eqn:E4.
    apply next_fault_db in E4. destruct z; [|done..]. intros [= <- <-].
    split; [zlia|]. split; [done|]. simpl in E4. exists user, session, n. split_and!; [done|done| |done|done].
    rewrite <-Hdb, <-E2, <-E3, E4. exact Ei.
Qed.

(** *** The specification of ingestion *)

(** The events of a batch that are well formed, and the others with their positions and
    the reasons. *)
Definition well_formed (dev : uuid) (now : Z) (inbound : list Inbound) : list Event :=
  omap (λ ev, match Inbound_Normalize ev dev now with inl e => Some e | inr _ => None end) inbound.
Definition ill_formed (dev : uuid) (now : Z) (inbound : list Inbound) : list Rejection :=
  omap id (imap (λ i ev, match Inbound_Normalize ev dev now with
    | inl _ => None | inr why => Some (mkRejection (in_EventID ev) (Z.of_nat i) why) end) inbound).
(** The rows of a batch that are new: no row that was stored before, and none before it in
    the batch, has the same device and agent identifier. *)
Definition arrivals (old rows : list event_row) : list event_row :=
  omap id (imap (λ i r, if existsb (same_agent_event r) (old ++ take i rows) then None else Some r) rows).

Lemma normalize_batch_spec dev now k inbound :
  normalize_batch dev now (Z.of_nat k) inbound =
  (well_formed dev now inbound,
   omap id (imap (λ i ev, match Inbound_Normalize ev dev now with
     | inl _ => None | inr why => Some (mkRejection (in_EventID ev) (Z.of_nat (k + i)) why) end) inbound)).
Proof.
  revert k. induction inbound as [|ev l IH]; intros k; [done|]. cbn [normalize_batch].
  replace (Z.of_nat k + 1) with (Z.of_nat (S k)) by lia. rewrite IH. unfold well_formed. cbn [imap omap list_omap].
  assert (∀ A (f : nat → Inbound → option A), imap (λ i, f (S k + i)%nat) l = imap ((λ i, f (k + i)%nat) ∘ S) l) as Hshift.
  { intros A f. apply imap_ext. intros i x _. simpl. by rewrite Nat.add_succ_r. }
  rewrite (Hshift _ (λ i ev, match Inbound_Normalize ev dev now with
    | inl _ => None | inr why => Some (mkRejection (in_EventID ev) (Z.of_nat i) why) end)).
  destruct (Inbound_Normalize ev dev now); simpl; by rewrite ?Nat.add_0_r.
Qed.
Lemma same_agent_event_trans r x y : same_agent_event r x = true → same_agent_event x y = true → same_agent_event r y = true.
Proof.
  unfold same_agent_event. intros H1 H2. repeat case_match; try done.
  apply andb_true_iff in H1 as [->%N.eqb_eq ->%str_eqb_eq]. done.
Qed.
Lemma insert_events_arrivals rows : ∀ old seen t n t',
  (∀ r, existsb (same_agent_event r) (events t) = existsb (same_agent_event r) (old ++ seen)) →
  insert_events t rows = inl (n, t') →
  events t' = events t ++ omap id (imap (λ i r, if existsb (same_agent_event r) (old ++ seen ++ take i rows) then None else Some r) rows).
Proof.
  induction rows as [|r rows IH]; intros old seen t n t' Hs; cbn [insert_events]; [intros [= <- <-]; by rewrite app_nil_r|].
  unfold insert_event. cbn [imap omap list_omap]. rewrite (take_0 (r :: rows)), app_nil_r, <-Hs.
  destruct (existsb (same_agent_event r) (events t)) eqn:Er.
  - destruct (insert_events t rows) as [[m t1]|] eqn:E; [|done]. intros [= <- <-]. simpl.
    rewrite (IH old (seen ++ [r]) t m t1); [|intros r'|done].
    + f_equal. f_equal. apply imap_ext. intros i x _. simpl. by rewrite <-app_assoc.
    + rewrite (app_assoc old), existsb_app, <-Hs. simpl. rewrite orb_false_r.
      destruct (same_agent_event r' r) eqn:E'; [|by rewrite orb_false_r]. rewrite orb_true_r.
      apply existsb_elem in Er as (x & Hx & Hrx). apply existsb_elem. exists x. split; [done|]. by eapply same_agent_event_trans.
  - destruct (event_check t r); [done|]. destruct (insert_events _ rows) as [[m t1]|] eqn:E; [|done]. intros [= <- <-]. simpl.
    rewrite (IH old (seen ++ [r]) (set_events (events t ++ [r]) t) m t1); [|intros r'|done]; simpl.
    + rewrite <-app_assoc. simpl. do 2 f_equal. f_equal. apply imap_ext. intros i x _. simpl. by rewrite <-app_assoc.
    + rewrite (app_assoc old seen), (existsb_app _ (events t)), (existsb_app _ (old ++ seen)). by rewrite Hs.
Qed.

(** C30: ingestion accounts for every event.  When a batch is acknowledged, it had at most
    500 events.  Those that are ill formed are reported as rejected, each with its position
    and the reason.  The others become rows, in the order of the batch, attributed to the
    signing device and to a session of it that has not ended, if there is one, and its user.
    Appended to the stream are exactly the rows whose device and agent identifier are
    neither stored already nor earlier in the batch; as many are counted as accepted and the
    other rows as duplicates, so that accepted, duplicate and rejected add up to the batch;
    and nothing else changes. *)
Theorem ingest_accounts (now : Z) (b : uuid) (ids : nat → uuid) (dev : uuid) (inbound : list Inbound)
    (w w' : World) (r : IngestResult) :
  Ingest now b ids dev inbound w = (inl r, w') →
  (length inbound <= 500)%nat ∧
  ir_Accepted r + ir_Duplicates r + Z.of_nat (length (ir_Rejected r)) = Z.of_nat (length inbound) ∧
  ir_Rejected r = ill_formed dev now inbound ∧
  ∃ user, attributed (db w) dev user (ir_SessionID r) ∧
    let rows := batch_rows ids (well_formed dev now inbound) user (ir_SessionID r) (Some b) in
    let l := arrivals (events (db w)) rows in
    db w' = set_events (events (db w) ++ l) (db w) ∧
    ir_Accepted r = Z.of_nat (length l) ∧ ir_Duplicates r = Z.of_nat (length rows) - Z.of_nat (length l) ∧
    Forall (λ e, e_device e = Some dev) l.
Proof.
  intros (Hl & Hrej & user & session & n & Hatt & <- & Hi & Ha & Hd)%ingest_inv. unfold MaxBatchSize in Hl.
  pose proof (normalize_batch_length dev now 0 inbound) as Hb.
  pose proof (normalize_batch_spec dev now 0 inbound) as Hspec. change (Z.of_nat 0) with 0 in Hspec. rewrite Hspec in *. cbn [fst snd] in *.
  destruct (insert_events_appends _ _ _ _ Hi) as (l & He & Hn & Hsub).
  destruct (insert_events_frame _ _ _ _ Hi) as [l' Hl'].
  pose proof (insert_events_arrivals _ (events (db w)) [] _ _ _ ltac:(intros; by rewrite app_nil_r) Hi) as Harr.
  change (events (db w') = events (db w) ++
    arrivals (events (db w)) (batch_rows ids (well_formed dev now inbound) user (ir_SessionID r) (Some b))) in Harr.
  rewrite He in Harr. apply app_inv_head in Harr.
  split_and!; [lia|rewrite Hrej, Ha, Hd; lia|done|]. exists user. split; [done|]. cbv zeta. rewrite <-Harr. split_and!.
  - rewrite Hl' in He |- *. simpl in He. by rewrite He.
  - lia.
  - rewrite Hd. unfold batch_rows. rewrite length_imap. lia.
  - apply Forall_forall. intros e Hel. eapply sublist_subseteq in Hel; [|exact Hsub].
    apply elem_of_lookup_imap in Hel as (i & ev & -> & Hev%list_elem_of_lookup_2). simpl.
    destruct (normalize_batch_clock dev now now 0 inbound) as (_ & H2 & _). rewrite Hspec in H2.
    apply same_event_device in H2. rewrite Forall_forall in H2. by apply H2.
Qed.

(** Events are never removed or changed. *)
Lemma events_grow {C : Crypto} parse_addr inet engine now now' t t' :
  steps parse_addr inet engine (λ _, True) now t now' t' → ∃ l, events t' = events t ++ l.
Proof.
  intros Hs. apply (steps_keeps parse_addr inet engine (λ _, True) (λ t', ∃ l, events t' = events t ++ l) now t now' t');
    [|done|exists []; by rewrite app_nil_r].
  intros n o _ _. destruct o; frame.
  1: { apply keeps_stmt. intros x a0 t1 [k Hk] Hi. destruct (insert_events_appends _ _ _ _ Hi) as (l_ & -> & _).
       rewrite Hk, <-app_assoc. by eexists. }
  all: apply keeps_insert; intros x [k Hk] _; simpl; rewrite Hk, <-app_assoc; by eexists.
Qed.

(** C29: a retried batch is idempotent.  Once a batch whose events all carry an
    identifier has been acknowledged, sending it again, after any operations and
    any time, stores nothing: every event that was stored or was a duplicate is
    now a duplicate, the same events are rejected, and no table changes. *)
Theorem ingest_idempotent {C : Crypto} (parse_addr inet : string → option string) (engine : Risk.Engine)
    (now now' : Z) (b b' : uuid) (ids ids' : nat → uuid) (dev : uuid) (inbound : list Inbound)
    (w w' : World) (t' : Tables) (r : IngestResult) :
  Forall (λ ev, trim_space (in_EventID ev) ≠ "") inbound →
  Ingest now b ids dev inbound w = (inl r, w') →
  steps parse_addr inet engine (λ _, True) now (db w') now' t' →
  ∃ r', Ingest now' b' ids' dev inbound (calm t') = (inl r', calm t') ∧ ir_Accepted r' = 0 ∧
    ir_Duplicates r' = ir_Accepted r + ir_Duplicates r ∧ ir_Rejected r' = ir_Rejected r.
Proof.
  intros Hb (Hl & Hrej & user & session & n & _ & _ & Hi & Ha & Hd)%ingest_inv Hs.
  destruct (normalize_batch_clock dev now now' 0 inbound) as (Hr2 & H2 & Hk). specialize (Hk Hb).
  assert (Forall (λ e, EDeviceID e = Some dev ∧ AgentEventID e ≠ "") (normalize_batch dev now 0 inbound).1) as Hkd.
  { apply Forall_and. split; [by eapply same_event_device|done]. }
  assert (Forall (present t') (batch_rows ids (normalize_batch dev now 0 inbound).1 user session (Some b))) as Hp.
  { pose proof (insert_events_present _ _ _ _ Hi (batch_rows_keyed ids _ user session (Some b) dev Hkd)) as Hp.
    destruct (events_grow parse_addr inet engine now now' (db w') t' Hs) as [l Hgrow].
    eapply Forall_impl; [exact Hp|]. intros x. by apply (present_grows _ _ _ l). }
  set (u' := match activeSession dev (calm t') with (inl (_, u), _) => Some u | _ => None end).
  set (s' := match activeSession dev (calm t') with (inl (s, _), _) => Some s | _ => None end).
  assert (Forall (present t') (batch_rows ids' (normalize_batch dev now' 0 inbound).1 u' s' (Some b'))) as Hp'
    by (by eapply batch_rows_present).
  apply insert_events_dup in Hp'. pose proof (Forall2_length _ _ _ H2) as Hlen.
  unfold Ingest. replace (_ >? MaxBatchSize) with false by (symmetry; rewrite Z.gtb_ltb; apply Z.ltb_ge; lia).
  unfold bind at 1, try at 1.
  assert ((activeSession dev (calm t')).2 = calm t') as Hcalm.
  { unfold activeSession, query_row. rewrite stmt_calm. by destruct (latest _ _). }
  destruct (activeSession dev (calm t')) as [a w1]. simpl in Hcalm. subst w1.
  destruct (normalize_batch dev now' 0 inbound) as [evs rej]. cbn [fst snd] in *. cbv zeta.
  destruct evs as [|e evs]; cbn [is_nil].
  - eexists. split; [reflexivity|]. simpl in *. split_and!; [done|lia|congruence].
  - unfold bind at 1. unfold Telemetry.insert. rewrite tx_calm, stmt_calm.
    fold (batch_rows ids' (e :: evs) (match a with inl (_, u) => Some u | inr _ => None end)
      (match a with inl (s, _) => Some s | inr _ => None end) (Some b')).
    unfold u', s' in Hp'. destruct a as [[sx ux]|err]; rewrite Hp'; eexists; (split; [reflexivity|]);
      simpl in *; (split_and!; [done|lia|congruence]).
Qed.

(** ** Incidents *)

Definition incidents_ok (t : Tables) : Prop := NoDup (i_key <$> incidents t).
Definition incident_of (t : Tables) (sid : uuid) : option incident_row :=
  find (λ i, str_eqb (i_key i) (incident_key sid)) (incidents t).

Lemma find_update {A} (p : A → bool) f l :
  (∀ x, p (f x) = p x) → find p (update p f l) = f <$> find p l.
Proof.
  intros Hp. induction l as [|x l IH]; [done|]. unfold find, update. cbn [fmap list_fmap List.find].
  destruct (p x) eqn:E; [by rewrite Hp, E|]. rewrite E. exact IH.
Qed.
Lemma find_app_none {A} (p : A → bool) l x : find p l = None → p x = true → find p (l ++ [x]) = Some x.
Proof.
  intros Hn Hx. induction l as [|y l IH]; unfold find in *; simpl in *; [by rewrite Hx|].
  destruct (p y); [done|auto].
Qed.

(** Escalations on a session are correlated into one incident.  When
    [OpenOrEscalate] returns an incident, it is the only stored incident of that
    session's key; its peak is the highest risk seen so far and its severity the
    one reported with a strict new peak; a first escalation opens it as [OPEN],
    and a later one keeps its identifier, status, opening time and people. *)
Theorem incident_correlates (now : Z) (id sid uid did : uuid) (severity title summary : string) (risk : Z)
    (w w' : World) (i : Incident.Incident) :
  incidents_ok (db w) → OpenOrEscalate now id sid uid did severity risk title summary w = (inl i, w') →
  incidents_ok (db w') ∧
  ∃ row, incident_of (db w') sid = Some row ∧ i = scanIncident row ∧
    match incident_of (db w) sid with
    | Some old =>
        i_peak_risk row = Z.max (i_peak_risk old) risk ∧
        i_severity row = (if i_peak_risk old <? risk then severity else i_severity old) ∧
        i_id row = i_id old ∧ i_status row = i_status old ∧ i_opened_at row = i_opened_at old ∧
        i_closed_at row = i_closed_at old ∧ i_user row = i_user old ∧ i_session row = i_session old
    | None =>
        i_peak_risk row = risk ∧ i_severity row = severity ∧ i_id row = id ∧ i_status row = StatusOpen ∧
        i_closed_at row = None ∧ i_user row = Some uid ∧ i_session row = Some sid
    end.
Proof.
  intros Hok. unfold OpenOrEscalate, stmt. cbv zeta. destruct (next_fault w) as [x w1] eqn:En.
  apply next_fault_db in En. rewrite En. fold (incident_of (db w) sid).
  destruct (negb (int2 risk)); [by destruct x|]. destruct (negb (severity_known severity)); [by destruct x|].
  destruct (incident_of (db w) sid) as [old|] eqn:Eo.
  - destruct x; [|done..]. intros [= <- <-]. simpl. split; [unfold incidents_ok; simpl; by rewrite update_keys|].
    exists (escalate now severity risk summary old). split; [|done].
    unfold incident_of in *. simpl. rewrite find_update by done. by rewrite Eo.
  - destruct (has_incident _ _); [by destruct x|]. destruct (negb _); [by destruct x|].
    destruct x; [|done..]. intros [= <- <-]. split.
    + unfold incidents_ok. simpl. rewrite fmap_app. apply NoDup_snoc; [done|].
      intros (y & Hy & Hin)%list_elem_of_fmap. pose proof (find_none _ _ y Eo Hin) as Hf. cbv beta in Hf.
      simpl in Hy. by rewrite <-Hy, str_eqb_refl in Hf.
    + eexists. split; [unfold incident_of; apply find_app_none; [exact Eo|apply str_eqb_refl]|]. done.
Qed.

(** An incident an analyst has closed absorbs later escalations without being
    opened again, and no second incident is opened for the session. *)
Lemma closed_incident_absorbs (now : Z) (id sid uid did : uuid) (severity title summary : string) (risk : Z)
    (t : Tables) (old : incident_row) :
  incident_of t sid = Some old → i_status old = StatusResolved → int2 risk = true →
  severity_known severity = true →
  ∃ i w', OpenOrEscalate now id sid uid did severity risk title summary (calm t) = (inl i, w') ∧
    Incident.Status i = StatusResolved ∧ length (incidents (db w')) = length (incidents t).
Proof.
  intros Hf Hs Hr Hv. unfold OpenOrEscalate. rewrite stmt_calm. cbv zeta. rewrite Hr, Hv. cbn [negb].
  unfold incident_of in Hf. rewrite Hf. eexists _, _. split; [reflexivity|]. split; [exact Hs|].
  simpl. unfold update. by rewrite length_fmap.
Qed.
(** The key holds only the first 64 bits of the session identifier. *)
Lemma incident_key_prefix : incident_key 1 = incident_key 2.
Proof. vm_compute. reflexivity. Qed.
