(* ===== verification/HttpProps.v ===== *)
(** * The HTTP surface against the transition system

    Whatever a request does to the tables is done by operations of the transition
    system of System.v, so its invariants hold under HTTP traffic; and what
    authority each change of the tables takes. *)

From S2P Require Import Prelude GoStd Encode Identity Risk Posture Policy Behaviour Db AuditLog Device.
From S2P Require Import User Session Telemetry Incident RiskStore PolicyStore PostureStore BehaviourStore.
From S2P Require Import Trust Simulator RateLimit Web SessionApi DeviceApi TrustApi AdminApi Router System.
From S2P Require Import SystemProps.
Open Scope Z_scope.
Open Scope go_scope.

(** ** Rules for the combinators of the handlers *)

Lemma keeps_void {A} P (m : M A) : keeps P (void m) → keeps P m.
Proof.
  intros H w r w' HP Hm. specialize (H w (match r with inl _ => inl () | inr e => inr e end) w' HP).
  apply H. unfold void, bind. rewrite Hm. by destruct r.
Qed.
Lemma keeps_attempt {A} P (m : M A) : keeps P m → keeps P (attempt m).
Proof. intros H. unfold attempt. apply keeps_bind; [by apply keeps_try|]. intros x. keeps. Qed.
Lemma keeps_recoverer {A} P r (m : M (reply A)) : keeps P m → keeps P (Recoverer r m).
Proof. intros H. unfold Recoverer, internal, refuse. apply keeps_bind; [by apply keeps_try|]. intros x. keeps. Qed.
Lemma keeps_as {A} P (f : A → payload) m : keeps P m → keeps P (as_ f m).
Proof. intros H. unfold as_. apply keeps_bind; [done|]. intros x. apply keeps_ret. Qed.
Lemma keeps_verify P sha256 : keeps P (AuditLog.Verify sha256).
Proof.
  assert (∀ fuel after prev, keeps P (verify_pages sha256 fuel after prev)) as Hv.
  { induction fuel as [|fuel IH]; intros after prev; simpl; [apply keeps_fail|].
    apply keeps_bind; [apply keeps_query|]. intros l. destruct (last l); [|apply keeps_ret].
    apply keeps_bind; [apply keeps_lift|]. intros _. apply IH. }
  intros w r w'. apply Hv.
Qed.

Ltac unfold_reads :=
  unfold Session.List, Session.ByID, Device.List, Device.ByID, Device.ByUID, PostureStore.LatestScores,
    PostureStore.Latest, PostureStore.History, AuditLog.List, RiskStore.Latest, RiskStore.History,
    RiskStore.factors, All, Active, Decisions, Incident.List, Incident.ByID, Notes, Counts, Load,
    FleetSummary_.
Lemma keeps_read_query P f : keeps P (Query f).
Proof. unfold Query. apply keeps_stmt. intros t a t' HP. case_match; [done|]. by intros [= _ <-]. Qed.

(** The operations a request to an endpoint may issue: resolving the caller, the
    device signature, audit entries (without an address, or with the peer's), and
    the endpoint's own. *)
Definition effects (r : Req) (ep : endpoint) (o : op) : Prop :=
  match o with
  | OpAudit _ e => SourceIP e = "" ∨ SourceIP e = clientIP r ∨ SourceIP e = auth_clientIP r
  | OpResolve _ _ | OpRequest _ => True
  | OpIssueToken _ _ _ _ _ => ep = EpIssueToken
  | OpEnroll _ _ _ => ep = EpEnroll
  | OpHeartbeat _ _ => ep = EpHeartbeat
  | OpRevoke _ _ => ep = EpRevoke
  | OpIssueNonce _ _ => ep = EpNonce
  | OpBegin _ _ => ep = EpBegin
  | OpEnd _ _ => ep = EpEnd
  | OpIngest _ _ _ _ | OpEvaluateDevice _ _ _ => ep = EpIngest
  | OpIncidentStatus _ _ => ep = EpIncidentStatus
  | OpNote _ _ _ _ => ep = EpIncidentNote
  | OpCreatePolicy _ _ _ => ep = EpCreatePolicy
  | OpPosture _ _ _ _ => ep = EpPosture
  | OpRebuild _ _ => ep = EpRebuild
  | OpEvaluate _ _ _ => ep = EpEvaluate
  | OpSimulate _ _ _ _ _ => ep = EpRunScenario
  | OpPrune | OpTouch _ | OpEvent _ _ | OpAttach _ _ | OpEnsureDefaults _ => False
  end.

Section Preserved.
Context `{Crypto} (parse_addr inet : string → option string) {Lib : Libs} {V : Verifier} {J : Jwt}.
Context (engine : Risk.Engine) (cfg : Config) (P : Tables → Prop) (r : Req).

Context (ep : endpoint) (HP : ∀ now o, effects r ep o → keeps P (run parse_addr inet engine now o)).

Lemma keeps_op_issue now raw id u l t : ep = EpIssueToken → keeps P (IssueEnrollmentToken now raw id u l t).
Proof using HP. intros E. apply keeps_void, (HP now (OpIssueToken raw id u l t)). exact E. Qed.
Lemma keeps_op_enroll now id t q : ep = EpEnroll → keeps P (Enroll now id t q).
Proof using HP. intros E. apply keeps_void, (HP now (OpEnroll id t q)). exact E. Qed.
Lemma keeps_op_request now q : keeps P (RequireDeviceSignature now q).
Proof using HP. apply keeps_void, (HP now (OpRequest q)). done. Qed.
Lemma keeps_op_heartbeat now id v : ep = EpHeartbeat → keeps P (Heartbeat now id v).
Proof using HP. intros E. apply (HP now (OpHeartbeat id v)). exact E. Qed.
Lemma keeps_op_revoke now id v : ep = EpRevoke → keeps P (Revoke now id v).
Proof using HP. intros E. apply (HP now (OpRevoke id v)). exact E. Qed.
Lemma keeps_op_nonce now raw u : ep = EpNonce → keeps P (IssueNonce now raw u).
Proof using HP. intros E. apply keeps_void, (HP now (OpIssueNonce raw u)). exact E. Qed.
Lemma keeps_op_begin now id q : ep = EpBegin → keeps P (Begin parse_addr inet now id q).
Proof using HP. intros E. apply keeps_void, (HP now (OpBegin id q)). exact E. Qed.
Lemma keeps_op_end now s u : ep = EpEnd → keeps P (End now s u).
Proof using HP. intros E. apply (HP now (OpEnd s u)). exact E. Qed.
Lemma keeps_op_ingest now b ids d l : ep = EpIngest → keeps P (Ingest now b ids d l).
Proof using HP. intros E. apply keeps_void, (HP now (OpIngest b ids d l)). exact E. Qed.
Lemma keeps_op_status now i s : ep = EpIncidentStatus → keeps P (SetStatus now i s).
Proof using HP. intros E. apply (HP now (OpIncidentStatus i s)). exact E. Qed.
Lemma keeps_op_note now id i a b : ep = EpIncidentNote → keeps P (AddNote now id i a b).
Proof using HP. intros E. apply (HP now (OpNote id i a b)). exact E. Qed.
Lemma keeps_op_policy now id p u : ep = EpCreatePolicy → keeps P (PolicyStore.Create now id p u).
Proof using HP. intros E. apply keeps_void, (HP now (OpCreatePolicy id p u)). exact E. Qed.
Lemma keeps_op_posture now id d s a : ep = EpPosture → keeps P (PostureStore.Record now id d s a).
Proof using HP. intros E. apply keeps_void, (HP now (OpPosture id d s a)). exact E. Qed.
Lemma keeps_op_rebuild now u n : ep = EpRebuild → keeps P (Rebuild now u n).
Proof using HP. intros E. apply keeps_void, (HP now (OpRebuild u n)). exact E. Qed.
Lemma keeps_op_evaluate now f s t : ep = EpEvaluate → keeps P (Trust.Evaluate engine now f s t).
Proof using HP. intros E. apply keeps_void, (HP now (OpEvaluate f s t)). exact E. Qed.
Lemma keeps_op_device now f d t : ep = EpIngest → keeps P (EvaluateDevice engine now f d t).
Proof using HP. intros E. apply keeps_void, (HP now (OpEvaluateDevice f d t)). exact E. Qed.
Lemma keeps_op_simulate now ids keys sfx f s : ep = EpRunScenario → keeps P (Run inet engine now ids keys sfx f s).
Proof using HP. intros E. apply keeps_void, (HP now (OpSimulate s ids keys sfx f)). exact E. Qed.
Lemma keeps_op_resolve now id c : keeps P (ResolveFromClaims now id c).
Proof using HP. apply keeps_void, (HP now (OpResolve id c)). done. Qed.
Lemma keeps_op_audit env e :
  SourceIP e = "" ∨ SourceIP e = clientIP r ∨ SourceIP e = auth_clientIP r → keeps P (audit inet env e).
Proof using HP.
  intros He. unfold audit, Log. apply keeps_bind; [|intros ?; apply keeps_ret].
  apply keeps_try, (HP (e_now env) (OpAudit (e_gap env) e)). done.
Qed.

Ltac http_op := lazymatch goal with
  | |- keeps _ (attempt _) => apply keeps_attempt
  | |- keeps _ (as_ _ _) => apply keeps_as
  | |- keeps _ (Recoverer _ _) => apply keeps_recoverer
  | |- keeps _ (audit _ _ _) => apply keeps_op_audit; simpl; tauto
  | |- keeps _ (AuditLog.Verify _) => apply keeps_verify
  | |- keeps _ (Query _) => apply keeps_read_query
  | |- keeps _ (IssueEnrollmentToken _ _ _ _ _ _) => apply keeps_op_issue; congruence
  | |- keeps _ (Enroll _ _ _ _) => apply keeps_op_enroll; congruence
  | |- keeps _ (RequireDeviceSignature _ _) => apply keeps_op_request
  | |- keeps _ (Heartbeat _ _ _) => apply keeps_op_heartbeat; congruence
  | |- keeps _ (Revoke _ _ _) => apply keeps_op_revoke; congruence
  | |- keeps _ (IssueNonce _ _ _) => apply keeps_op_nonce; congruence
  | |- keeps _ (Begin _ _ _ _ _) => apply keeps_op_begin; congruence
  | |- keeps _ (End _ _ _) => apply keeps_op_end; congruence
  | |- keeps _ (Ingest _ _ _ _ _) => apply keeps_op_ingest; congruence
  | |- keeps _ (SetStatus _ _ _) => apply keeps_op_status; congruence
  | |- keeps _ (AddNote _ _ _ _ _) => apply keeps_op_note; congruence
  | |- keeps _ (PolicyStore.Create _ _ _ _) => apply keeps_op_policy; congruence
  | |- keeps _ (PostureStore.Record _ _ _ _ _) => apply keeps_op_posture; congruence
  | |- keeps _ (Rebuild _ _ _) => apply keeps_op_rebuild; congruence
  | |- keeps _ (Trust.Evaluate _ _ _ _ _) => apply keeps_op_evaluate; congruence
  | |- keeps _ (EvaluateDevice _ _ _ _ _) => apply keeps_op_device; congruence
  | |- keeps _ (ResolveFromClaims _ _ _) => apply keeps_op_resolve
  | |- keeps _ (Run _ _ _ _ _ _ _ _) => apply keeps_op_simulate; congruence
  end.
Ltac http := repeat (cbv zeta; first [keeps_step | http_op | progress unfold_reads]).

Lemma keeps_auth env : keeps P (RequireAuth inet env r).
Proof using HP. unfold RequireAuth. http. Qed.
Lemma keeps_role env roles p : keeps P (RequireRole inet env roles r p).
Proof using HP. unfold RequireRole. http. Qed.
Lemma keeps_gate env ls pl : keeps P (gate inet env ls r pl).
Proof using HP. unfold gate, limited, RateLimited. destruct pl; http; first [apply keeps_auth|apply keeps_role]. Qed.

Lemma keeps_handle env ep' p d : ep' = ep → keeps P (handle parse_addr inet engine cfg env r ep' p d).
Proof using HP.
  intros Hep. destruct ep'; unfold handle; cbv [Live Ready mint enroll heartbeat submit auditRejection ingest handleMe issueNonce
    begin end_ listAudit listEvents sessionRisk listPolicies listDecisions listIncidents getIncident overview
    getBaseline setIncidentStatus addIncidentNote evaluate rebuildBaseline createPolicy evaluatePolicy
    listSessions getSession listDevices getDevice latest history issueEnrollmentToken revokeDevice
    listScenarios runScenario no_device no_principal bad_body bad_id internal refuse]; http.
Qed.
Lemma keeps_serve env ls rt : rt_endpoint rt = ep → keeps P (serve parse_addr inet engine cfg env ls r rt).
Proof using HP.
  intros Hep. unfold serve. apply keeps_bind; [apply keeps_gate|]. intros [v ls']. destruct v; [|apply keeps_ret].
  apply keeps_bind; [|intros ?; apply keeps_ret]. by apply keeps_recoverer, keeps_handle.
Qed.
End Preserved.

Lemma keeps_respond `{Crypto} (parse_addr inet : string → option string) {Lib : Libs} {V : Verifier} {J : Jwt}
    (engine : Risk.Engine) (cfg : Config) (P : Tables → Prop) env ls r m :
  (∀ now o, match m with Matched rt => effects r (rt_endpoint rt) o | _ => False end →
     keeps P (run parse_addr inet engine now o)) →
  keeps P (respond parse_addr inet engine cfg env ls r m).
Proof.
  intros HP. unfold respond. destruct (CORS _ _) as [cors preflight].
  apply keeps_if; [apply keeps_ret|]. destruct m as [rt| |]; [|apply keeps_ret..].
  apply keeps_bind; [|intros ?; apply keeps_ret]. by apply (keeps_serve parse_addr inet engine cfg P r (rt_endpoint rt)).
Qed.

(** C15: the HTTP surface does only what the transition system does.  Any property
    of the tables that is preserved by the operations an endpoint is allowed
    (resolving the caller, checking a device signature, audit entries with the
    peer's address or none, and the endpoint's own operation) is preserved by
    every request to it, whatever the request holds, whoever sends it and whatever
    round trips fail. *)
Theorem http_refines_operations `{Crypto} (parse_addr inet : string → option string) {Lib : Libs}
    {V : Verifier} {J : Jwt} (engine : Risk.Engine) (cfg : Config) (P : Tables → Prop) (env : Env)
    (ls : Limiters) (r : Req) (m : matching) :
  (∀ now o, match m with Matched rt => effects r (rt_endpoint rt) o | _ => False end →
     keeps P (run parse_addr inet engine now o)) →
  keeps P (respond parse_addr inet engine cfg env ls r m).
Proof. apply keeps_respond. Qed.


(** ** Authority *)

(** The bearer token of the request verifies at that instant, with one of the
    roles. *)
Definition bears {V : Verifier} (env : Env) (r : Req) (roles : list Role) : Prop :=
  ∃ raw claims, bearerToken r = Some raw ∧ Identity.Verify (e_now env) raw = inl claims ∧
    Claims_Validate claims = inl () ∧ existsb (HasRole (c_Roles claims)) roles = true.
Definition revoked_ids (t : Tables) : list uuid :=
  d_id <$> List.filter (λ d, bool_decide (d_state d = REVOKED)) (devices t).
(** The token [k] after it was spent, and what may become of a token without the
    administrator. *)
Definition spent (k : token_row) (at_ : Z) (dev : uuid) : token_row :=
  mkToken (t_id k) (t_hash k) (t_label k) (t_created_by k) (t_created_at k) (t_expires_at k) (Some at_) (Some dev).
Definition token_moves (k k' : token_row) : Prop :=
  k' = k ∨ (t_used_at k = None ∧ ∃ at_ dev, k' = spent k at_ dev).
(** What [t] has of the administration of [t0]; tokens are spent only when [enrolling]. *)
Definition authority (enrolling : bool) (t0 t : Tables) : Prop :=
  policies t = policies t0 ∧ revoked_ids t = revoked_ids t0 ∧ Forall2 token_moves (tokens t0) (tokens t) ∧
  NoDup (t_id <$> tokens t) ∧ (enrolling = false → tokens t = tokens t0).
Definition administers (ep : endpoint) : bool :=
  match ep with EpIssueToken | EpRevoke | EpCreatePolicy => true | _ => false end.
Definition at_enrol (ep : endpoint) : bool := match ep with EpEnroll => true | _ => false end.

Lemma authority_now enrolling t : NoDup (t_id <$> tokens t) → authority enrolling t t.
Proof. intros Hn. split_and!; try done. apply Forall_Forall2_diag, Forall_forall. intros k _. by left. Qed.
Lemma token_moves_step k0 k k' : token_moves k0 k → token_moves k k' → token_moves k0 k'.
Proof.
  intros [->|(Hn & at_ & dev & ->)] [->|(Hn' & H)]; [by left|by right|right; eauto|done].
Qed.
Lemma revoked_ids_app t d : d_state d ≠ REVOKED → revoked_ids (set_devices (devices t ++ [d]) t) = revoked_ids t.
Proof.
  intros Hd. unfold revoked_ids. simpl. rewrite List.filter_app. simpl.
  rewrite bool_decide_eq_false_2 by done. by rewrite app_nil_r.
Qed.
Lemma revoked_ids_update t hit f :
  (∀ d, d_id (f d) = d_id d ∧ d_state (f d) = d_state d) →
  revoked_ids (set_devices (update hit f (devices t)) t) = revoked_ids t.
Proof.
  intros Hf. unfold revoked_ids, update. simpl. induction (devices t) as [|d l IH]; [done|].
  destruct (Hf d) as [Hi Hs]. rewrite fmap_cons. cbn [List.filter].
  assert (d_state (if hit d then f d else d) = d_state d) as -> by by destruct (hit d).
  destruct (bool_decide _); [|exact IH]. rewrite !fmap_cons, IH. f_equal. by destruct (hit d).
Qed.
(** Rows of devices that come and go without a revocation. *)
Lemma authority_devices enrolling t0 t l :
  revoked_ids (set_devices l t) = revoked_ids t → authority enrolling t0 t → authority enrolling t0 (set_devices l t).
Proof. intros Hr (H1 & H2 & H3 & H4 & H5). split_and!; try done. by rewrite Hr. Qed.
(** [spend_token] on a token that was read unspent. *)
Lemma authority_spend t0 t k at_ dev :
  authority true t0 t → k ∈ tokens t → t_used_at k = None →
  authority true t0 (set_tokens (update (λ x, (t_id x =? t_id k)%N) (λ x, spent x at_ dev) (tokens t)) t).
Proof.
  intros (H1 & H2 & H3 & H4 & H5) Hk Hu. split_and!; simpl; try done.
  - apply Forall2_fmap_r, Forall2_same_length_lookup_2; [by eapply Forall2_length|]. intros i k0 x Hi Hx.
    pose proof (Forall2_lookup_lr _ _ _ _ _ _ H3 Hi Hx) as Hm. apply list_elem_of_lookup_2 in Hx.
    eapply token_moves_step; [exact Hm|]. simpl. destruct (t_id x =? t_id k)%N eqn:E; [|by left].
    apply N.eqb_eq in E. assert (x = k) as -> by by apply (unique_key t_id (tokens t)). right. eauto.
  - by rewrite update_keys.
Qed.
Lemma enroll_authority `{Crypto} t0 now id token req : keeps (authority true t0) (Enroll now id token req).
Proof.
  apply hoare_keeps. unfold Enroll. eapply hoare_bind with (Q := λ _, authority true t0).
  { apply hoare_lift. intros t Ht. by destruct (EnrollRequest_Validate req). }
  intros _. cbv zeta. apply hoare_tx; [|done..]. eapply hoare_bind; [apply hoare_try_row|]. intros r.
  eapply hoare_bind with (Q := λ k t, authority true t0 t ∧ k ∈ tokens t).
  { destruct r as [k|[]]; try (apply hoare_fail; done). apply hoare_ret.
    intros t [Ht [Hin _]%find_some]. done. }
  intros k. destruct (bool_decide (t_used_at k = None)) eqn:Hu; [|apply hoare_fail; done].
  apply bool_decide_eq_true in Hu. destruct (_ || _); [apply hoare_fail; done|].
  eapply hoare_bind with (Q := λ _ t, authority true t0 t ∧ k ∈ tokens t).
  { apply hoare_try_keeps, keeps_stmt. intros t a t' [Ht Hk]. destruct (existsb _ _); [done|].
    intros [= _ <-]. split; [|exact Hk]. apply authority_devices; [by apply revoked_ids_app|done]. }
  intros c. eapply hoare_bind with (Q := λ _ t, authority true t0 t ∧ k ∈ tokens t).
  { destruct c as [d|[]]; try (apply hoare_fail; done). by apply hoare_ret. }
  intros d. eapply hoare_bind with (Q := λ _, authority true t0).
  { apply hoare_stmt; [|done]. intros t (Ht & Hk). split; [|done]. by apply authority_spend. }
  intros _. by apply hoare_ret.
Qed.
Lemma authority_keeps `{Crypto} parse_addr inet engine t0 r ep now o :
  administers ep = false → effects r ep o → keeps (authority (at_enrol ep) t0) (run parse_addr inet engine now o).
Proof.
  intros Hep Ho. destruct o; simpl in Ho; subst; try done.
  1: { unfold run, void. apply keeps_bind; [apply enroll_authority|]. intros ?. apply keeps_ret. }
  all: frame.
  - apply keeps_exec. intros t Ht. apply authority_devices; [by apply revoked_ids_update|done].
  - apply keeps_stmt. intros t x t' Ht. cbv zeta. destruct (find _ (devices t)).
    + intros [= _ <-]. apply authority_devices; [by apply revoked_ids_update|done].
    + destruct (existsb _ _); [done|]. intros [= _ <-]. apply authority_devices; [by apply revoked_ids_app|done].
Qed.

Section Gates.
Context `{Crypto} (parse_addr inet : string → option string) {Lib : Libs} {V : Verifier} {J : Jwt}.
Context (engine : Risk.Engine) (cfg : Config).

(** Who passes [RequireAuth] holds the roles of a valid token. *)
Lemma auth_pass env r w p w' :
  RequireAuth inet env r w = (inl (inl p), w') →
  ∃ raw claims, bearerToken r = Some raw ∧ Identity.Verify (e_now env) raw = inl claims ∧
    Claims_Validate claims = inl () ∧ pr_Roles p = c_Roles claims ∧ pr_Subject p = c_Subject claims.
Proof.
  unfold RequireAuth. destruct (bearerToken r) as [raw|]; [|done].
  destruct (Identity.Verify _ raw) as [claims|e] eqn:Ev; [|done].
  destruct (Claims_Validate claims) as [[]|e] eqn:Ec; [|done]. cbn [is_ok negb].
  unfold bind at 1. destruct (attempt _ w) as [[[u|e]|e] w1]; [|unfold bind; destruct (audit _ _ _ _) as [[] ?]; done|done].
  intros [= <- <-]. eauto 10.
Qed.
Lemma role_pass env roles r p w w' :
  RequireRole inet env roles r p w = (inl None, w') → HasAnyRole p roles = true.
Proof.
  unfold RequireRole. destruct (HasAnyRole p roles); [done|]. unfold bind.
  destruct (audit _ _ _ _) as [[] ?]; done.
Qed.
(** Who passes the gate of a role plane bears one of its roles. *)
Lemma gate_pass env ls r roles w p d ls' w' :
  gate inet env ls r (RolesOf roles) w = (inl (Pass p d, ls'), w') → bears env r roles.
Proof.
  unfold gate, bind. destruct (RequireAuth inet env r w) as [[[q|x]|e] w1] eqn:Ea; [|done..].
  destruct (RequireRole inet env roles r q w1) as [[[x|]|e] w2] eqn:Er; [done| |done]. intros _.
  apply auth_pass in Ea as (raw & claims & H1 & H2 & H3 & H4 & _). apply role_pass in Er.
  exists raw, claims. split_and!; [done..|]. unfold HasAnyRole in Er. by rewrite <-H4.
Qed.
(** A request either got through the gate of its route, or did nothing else. *)
Lemma serve_split env ls r rt w res w' :
  serve parse_addr inet engine cfg env ls r rt w = (res, w') →
  (∃ p d ls' w1, gate inet env ls r (rt_plane rt) w = (inl (Pass p d, ls'), w1)) ∨
  (∃ x, gate inet env ls r (rt_plane rt) w = (x, w') ∧
     match x with inl (Stop p, ls') => res = inl (Refused p, ls') | inl (Pass _ _, _) => False | inr e => res = inr e end).
Proof.
  unfold serve, bind. destruct (gate _ _ _ _ _ w) as [[[v ls']|e] w1]; [|intros [= <- <-]; right; by eexists].
  destruct v; [left; by repeat eexists|]. intros [= <- <-]. right. by eexists.
Qed.
End Gates.

(** C14: administration takes the administrator's role.  While any route is served,
    whatever the request and whatever fails, unless the request carries a bearer token that
    verifies at that instant with the role ADMIN: the policies stay as they are; the same
    devices are revoked as before; and the enrolment tokens stay as they are, row by row,
    but that POST /agent/enroll may mark unused ones as spent on a device.  (The identifiers
    of tokens are distinct, their primary key.) *)
Theorem admin_authority `{Crypto} (parse_addr inet : string → option string) {Lib : Libs}
    {V : Verifier} {J : Jwt} (engine : Risk.Engine) (cfg : Config) (env : Env) (ls : Limiters)
    (r : Req) (dev : bool) (rt : route) (w w' : World) (res : reply payload * Limiters + error) :
  NoDup (t_id <$> tokens (db w)) →
  rt ∈ routes dev → serve parse_addr inet engine cfg env ls r rt w = (res, w') →
  bears env r [RoleAdmin] ∨
  (policies (db w') = policies (db w) ∧ revoked_ids (db w') = revoked_ids (db w) ∧
   Forall2 token_moves (tokens (db w)) (tokens (db w')) ∧
   (rt_endpoint rt ≠ EpEnroll → tokens (db w') = tokens (db w))).
Proof.
  intros Hn Hrt Hs. pose proof (authority_now (at_enrol (rt_endpoint rt)) (db w) Hn) as H0.
  assert (bears env r [RoleAdmin] ∨ authority (at_enrol (rt_endpoint rt)) (db w) (db w')) as [Hb|(H1 & H2 & H3 & _ & H5)].
  - destruct (administers (rt_endpoint rt)) eqn:Ea.
    + assert (rt_plane rt = admin) as Hp.
      { revert Ea. clear Hs H0. unfold routes in Hrt. destruct dev; simpl in Hrt;
          repeat (apply elem_of_cons in Hrt as [->|Hrt]; [try done|]); by apply elem_of_nil in Hrt. }
      apply serve_split in Hs as [(p & d & ls' & w1 & Hg)|(x & Hg & _)]; rewrite Hp in Hg.
      * left. by eapply gate_pass.
      * right. replace (at_enrol (rt_endpoint rt)) with (at_enrol EpLive) in H0 |- * by by destruct (rt_endpoint rt).
        eapply (keeps_gate parse_addr inet engine _ r EpLive); [|exact H0|exact Hg].
        intros now o. by apply authority_keeps.
    + right. eapply (keeps_serve parse_addr inet engine cfg _ r (rt_endpoint rt)); [|done|exact H0|exact Hs].
      intros now o. by apply authority_keeps.
  - by left.
  - right. split_and!; [done..|]. intros He. apply H5. by destruct (rt_endpoint rt).
Qed.

(** What a request that is turned away may leave behind: the record of the account that its
    token names, created or refreshed (the identifier, the subject, the date of creation
    and the date it was disabled are kept), and one denial in the audit log. *)
Definition same_but_users_audit (t0 t : Tables) : Prop :=
  set_audit_logs [] (set_users [] t) = set_audit_logs [] (set_users [] t0).
Definition refreshed (subject : string) (u u' : user_row) : Prop :=
  u' = u ∨ (u_subject u = subject ∧ u_id u' = u_id u ∧ u_subject u' = u_subject u ∧
            u_created_at u' = u_created_at u ∧ u_disabled_at u' = u_disabled_at u).
Definition own_record (subject : string) (us us' : list user_row) : Prop :=
  Forall2 (refreshed subject) us us' ∨
  ((subject ∉ u_subject <$> us) ∧ ∃ u, us' = us ++ [u] ∧ u_subject u = subject).
Definition denial (a : audit_row) : Prop :=
  a_result a = ResultDenied ∧ (a_action a = "auth.authenticate" ∨ a_action a = "auth.authorization_denied").
Definition one_denial (t0 t : Tables) : Prop :=
  ∃ l, audit_logs t = audit_logs t0 ++ l ∧ (length l <= 1)%nat ∧ Forall denial l.
Definition named_by {V : Verifier} (env : Env) (r : Req) (subject : string) : Prop :=
  ∃ raw claims, bearerToken r = Some raw ∧ Identity.Verify (e_now env) raw = inl claims ∧
    Claims_Validate claims = inl () ∧ c_Subject claims = subject.
Definition turned_back {V : Verifier} (env : Env) (r : Req) (t0 t : Tables) : Prop :=
  same_but_users_audit t0 t ∧ one_denial t0 t ∧
  (users t = users t0 ∨ ∃ subject, named_by env r subject ∧ own_record subject (users t0) (users t)).

Section RoleGate.
Context `{Crypto} (inet : string → option string) {Lib : Libs} {V : Verifier}.

(** Appending to the log appends a row of the entry or nothing. *)
Definition appended (e : AuditLog.Entry) (t0 t : Tables) : Prop :=
  t = t0 ∨ ∃ row, t = set_audit_logs (audit_logs t0 ++ [row]) t0 ∧ a_action row = Action e ∧
    a_result row = (if str_eqb (EResult e) "" then ResultSuccess else EResult e).
Lemma audit_appends env e t0 : hoare (λ t, t = t0) (audit inet env e) (λ _, appended e t0) (λ _, appended e t0).
Proof.
  assert (hoare (λ t, t = t0) (AuditLog.Record sha256sum inet (e_now env) (e_gap env) e)
    (λ _, appended e t0) (λ _, appended e t0)) as Hr.
  { unfold AuditLog.Record. cbv zeta. fold (stamped (e_now env) e). destruct (_ || _); [apply hoare_fail; by left|].
    apply hoare_tx; [|done|by left..]. eapply hoare_bind; [apply hoare_query; by left|]. intros u.
    eapply hoare_bind with (Q := λ _ t, t = t0).
    { eapply hoare_weaken; [apply (hoare_try_row _ (λ t, t = t0) (λ _ _, False))|by intros ? [? _]|by intros ? ? [? _]|done]. }
    intros x. eapply hoare_bind with (Q := λ _ t, t = t0).
    { destruct x as [h|[]]; first [by apply hoare_ret|apply hoare_fail; intros; by left]. }
    intros h. apply hoare_insert; [|by left]. intros t ->. destruct (negb _); [by left|].
    assert (∀ row, a_action row = Action (stamped (e_now env) e) → a_result row = EResult (stamped (e_now env) e) →
      appended e t0 (set_audit_logs (audit_logs t0 ++ [row]) t0)) as Ha.
    { intros row H1 H2. right. exists row. split; [done|]. rewrite H1, H2. unfold stamped. by destruct (time_isZero _). }
    destruct (nullable _) as [ip|]; [destruct (inet ip)|]; try (by intros; left); (split; [by apply Ha|intros; by left]). }
  unfold audit, Log. eapply hoare_bind; [apply hoare_try, Hr|]. intros [?|?]; by apply hoare_ret.
Qed.
Lemma and_dup (P : Prop) : P → P ∧ P.
Proof. done. Qed.
(** Resolving the caller touches the record of the token's subject. *)
Lemma resolve_touches now id claims t0 :
  let own t := ∃ us, t = set_users us t0 ∧ (us = users t0 ∨ own_record (c_Subject claims) (users t0) us) in
  hoare (λ t, t = t0) (attempt (ResolveFromClaims now id claims)) (λ _, own) (λ _, own).
Proof.
  intros own. assert (∀ t, t = t0 → own t) as H0.
  { intros t ->. exists (users t0). split; [by destruct t0|by left]. }
  assert (hoare (λ t, t = t0) (ResolveFromClaims now id claims) (λ _, own) (λ _, own)) as Hr.
  { unfold ResolveFromClaims. destruct (str_eqb _ _); [by apply hoare_fail|]. cbv zeta.
    eapply hoare_bind with (Q := λ _, own); [eapply hoare_weaken; [apply (hoare_try _ (λ t, t = t0) (λ _, own) (λ _, own) (λ _ _, False))|..]|].
    - apply hoare_stmt; [|by intros; apply H0]. intros t ->. destruct (role_cast _) as [role|]; [|by apply H0].
      cbv zeta. destruct (find (λ u, str_eqb (u_subject u) (c_Subject claims)) (users t0)) as [old|] eqn:Ef.
      + destruct (existsb _ _); [by apply H0|]. apply and_dup. eexists. split; [done|]. right. left.
        apply Forall2_fmap_r, Forall_Forall2_diag, Forall_forall. intros u _. simpl.
        destruct (str_eqb _ _) eqn:E; [right; by apply str_eqb_eq in E|by left].
      + destruct (existsb _ _ || existsb _ _); [by apply H0|]. apply and_dup. eexists. split; [done|]. right. right.
        split; [|by eexists]. intros (u & Hu & Hin)%list_elem_of_fmap.
        pose proof (find_none _ _ _ Ef Hin) as Hn. simpl in Hn. by rewrite Hu, str_eqb_refl in Hn.
    - done.
    - by intros [] ?.
    - done.
    - intros [row|e]; [|by apply hoare_fail]. destruct (Disabled _); [by apply hoare_fail|by apply hoare_ret]. }
  unfold attempt. eapply hoare_bind; [apply hoare_try, Hr|].
  intros [u|[]]; try (by apply hoare_ret); by apply hoare_fail.
Qed.

Lemma turned_back_now env r t0 : turned_back env r t0 t0.
Proof. split_and!; [done| |by left]. exists []. split_and!; [by rewrite app_nil_r|simpl; lia|constructor]. Qed.
(** A denial logged after the caller was resolved. *)
Lemma denial_turns_back env r e t0 us subject t :
  EResult e = ResultDenied → (Action e = "auth.authenticate" ∨ Action e = "auth.authorization_denied") →
  named_by env r subject → (us = users t0 ∨ own_record subject (users t0) us) →
  appended e (set_users us t0) t → turned_back env r t0 t.
Proof.
  intros He Ha Hn Hus [->|(row & -> & H1 & H2)]; (split_and!; [done| |simpl; destruct Hus; [by left|right; eauto]]).
  - exists []. split_and!; [by rewrite app_nil_r|simpl; lia|constructor].
  - exists [row]. split_and!; [done|simpl; lia|]. constructor; [|constructor]. split; [by rewrite H2, He|by rewrite H1].
Qed.
Lemma gate_turns_back env ls r roles t0 :
  hoare (λ t, t = t0) (gate inet env ls r (RolesOf roles))
    (λ x t, match x.1 with Stop p => turned_back env r t0 t ∧ (pb_Status p = 401 → t = t0) | Pass _ _ => True end)
    (λ _ _, True).
Proof.
  unfold gate. eapply hoare_bind with (Q := λ a t, match a with
    | inl _ => ∃ subject us, named_by env r subject ∧ t = set_users us t0 ∧ (us = users t0 ∨ own_record subject (users t0) us)
    | inr p => turned_back env r t0 t ∧ (pb_Status p = 401 → t = t0) end).
  - unfold RequireAuth. pose proof (turned_back_now env r t0).
    destruct (bearerToken r) as [raw|] eqn:Eb; [|apply hoare_ret; by intros t ->]. cbv zeta.
    destruct (Identity.Verify _ raw) as [claims|] eqn:Ev; [|apply hoare_ret; by intros t ->].
    destruct (Claims_Validate claims) as [[]|] eqn:Ec; cbn [is_ok negb]; [|apply hoare_ret; by intros t ->].
    assert (named_by env r (c_Subject claims)) as Hn by (exists raw, claims; done).
    eapply hoare_bind; [eapply hoare_weaken; [apply (resolve_touches (e_now env) (e_ids env 0) claims t0)|done|intros ? ? Hq; exact Hq|done]|].
    intros [u|e]; [apply hoare_ret; intros t (us & -> & Hus); eauto 10|].
    eapply hoare_bind with (Q := λ _, turned_back env r t0); [|intros _; apply hoare_ret; done].
    intros w x w' (us & Hw & Hus) Ha. pose proof (audit_appends env _ (set_users us t0) w x w' Hw Ha) as Hx.
    destruct x; [|done]. by eapply denial_turns_back; [..|exact Hx]; eauto.
  - intros [p|p]; [|by apply hoare_ret]. unfold RequireRole.
    destruct (HasAnyRole p roles); [intros w x w' _ [= <- <-]; done|].
    intros w x w' (subject & us & Hn & Hw & Hus). unfold bind at 1 2.
    match goal with |- context [audit inet env ?e w] => destruct (audit inet env e w) as [[[]|er] w1] eqn:Ea;
      pose proof (audit_appends env _ (set_users us t0) w _ w1 Hw Ea) as Hx end; [|by intros [= <- <-]].
    intros [= <- <-]. split; [|done]. by eapply denial_turns_back; [..|exact Hx]; eauto.
Qed.

Lemma resolve_no_panic now id claims w msg w' : ResolveFromClaims now id claims w ≠ (inr (ErrPanic msg), w').
Proof.
  unfold ResolveFromClaims. destruct (str_eqb _ _); [done|]. cbv zeta. unfold bind, try.
  destruct (upsert_user _ _ _ _ _ _ _ w) as [[row|e] w1]; [|done]. by destruct (Disabled _).
Qed.
Lemma audit_total env e w : ∃ w', audit inet env e w = (inl (), w').
Proof. unfold audit, Log, bind, try. destruct (AuditLog.Record sha256sum inet (e_now env) (e_gap env) e w) as [x w1]. by eexists. Qed.
(** [RequireAuth] always answers, with a principal or a 401 or 403. *)
Lemma auth_total env r w :
  ∃ a w', RequireAuth inet env r w = (inl a, w') ∧
    match a with inl _ => True | inr p => pb_Status p = 401 ∨ pb_Status p = 403 end.
Proof.
  unfold RequireAuth. destruct (bearerToken r) as [raw|]; [|eexists _, _; split; [done|simpl; by auto]].
  destruct (Identity.Verify _ raw) as [claims|e]; [|eexists _, _; split; [done|simpl; by auto]].
  destruct (negb _); [eexists _, _; split; [done|simpl; by auto]|]. unfold bind at 1, attempt, bind at 1, try.
  destruct (ResolveFromClaims _ _ _ w) as [[u|e] w1] eqn:E; [eexists _, _; split; [done|simpl; by auto]|].
  destruct e; try (by apply resolve_no_panic in E);
    (unfold ret at 1, bind; match goal with |- context [audit ?i ?v ?e ?w] => destruct (audit_total v e w) as [w2 ->] end;
     eexists _, _; split; [done|simpl; by auto]).
Qed.
Lemma gate_total env ls r roles w :
  ∃ v w', gate inet env ls r (RolesOf roles) w = (inl (v, ls), w') ∧
    match v with Pass _ _ => True | Stop p => pb_Status p = 401 ∨ pb_Status p = 403 end.
Proof.
  unfold gate, bind at 1. destruct (auth_total env r w) as (a & w1 & -> & Ha).
  destruct a as [p|p]; [|eexists _, _; split; [done|simpl; by auto]]. unfold RequireRole. unfold bind at 1.
  destruct (HasAnyRole p roles); [eexists _, _; split; [done|simpl; by auto]|]. unfold bind.
  match goal with |- context [audit ?i ?v ?e ?w] => destruct (audit_total v e w) as [w2 ->] end.
  eexists _, _. split; [done|simpl; by auto].
Qed.
End RoleGate.

(** C19: the role gate.  On a route reserved to some roles, whatever fails, unless its
    bearer token verifies at that instant with one of those roles a request is answered with
    401 or 403.  With 401 it changes nothing.  With 403 it appends at most one denial to the
    audit log; of the accounts it touches at most the one that its verified token names,
    creating it when there was none, or refreshing it with its identifier, subject and
    disablement kept; and it changes nothing else. *)
Theorem role_gate `{Crypto} (parse_addr inet : string → option string) {Lib : Libs}
    {V : Verifier} {J : Jwt} (engine : Risk.Engine) (cfg : Config) (env : Env) (ls : Limiters)
    (r : Req) (rt : route) (roles : list Role) (w : World) :
  rt_plane rt = RolesOf roles →
  bears env r roles ∨
  ∃ p w', serve parse_addr inet engine cfg env ls r rt w = (inl (Refused p, ls), w') ∧
    (pb_Status p = 401 ∧ db w' = db w ∨ pb_Status p = 403 ∧ turned_back env r (db w) (db w')).
Proof.
  intros Hp. destruct (gate_total inet env ls r roles w) as (v & w1 & Hg & Hv).
  destruct v as [p d|p]; [left; by eapply gate_pass|]. right. exists p, w1.
  unfold serve, bind. rewrite Hp, Hg. split; [done|].
  destruct (gate_turns_back inet env ls r roles (db w) w _ w1 eq_refl Hg) as [Ht H401]. destruct Hv as [Hv|Hv]; [left|right]; auto.
Qed.
