(* ===== verification/UserProps.v ===== *)
(** * Accounts

    One row per subject of the identity provider, for ever: what every run of the
    control plane keeps of the table of users, and who is let in. *)

From S2P Require Import Prelude GoStd Encode Identity Risk Posture Policy Behaviour Db AuditLog Device.
From S2P Require Import User Session Telemetry Incident RiskStore PolicyStore PostureStore BehaviourStore.
From S2P Require Import Trust Simulator RateLimit Web System SystemProps HttpProps.
Open Scope Z_scope.
Open Scope go_scope.

(** Rewriting the only row that [p] selects to a key nobody else has keeps the key
    unique. *)
Lemma NoDup_update_key {A K} (key : A → K) (p : A → bool) f l k0 :
  (∀ x, x ∈ l → p x = true → key (f x) = k0) → (∀ x, x ∈ l → p x = false → key x ≠ k0) →
  (∀ x y, x ∈ l → y ∈ l → p x = true → p y = true → x = y) →
  NoDup (key <$> l) → NoDup (key <$> update p f l).
Proof.
  induction l as [|x l IH]; intros Hf Hk Hu; [done|]. unfold update. rewrite !fmap_cons, !NoDup_cons.
  intros [Hx Hl]. split; [|apply IH; [set_solver..|done]].
  intros (y & Hy & (z & Hz & ->)%elem_of_update)%list_elem_of_fmap. destruct (p x) eqn:Ex, (p z) eqn:Ez.
  - assert (x = z) as -> by (apply Hu; set_solver). destruct Hx. by apply list_elem_of_fmap_2.
  - apply (Hk z); [set_solver|done|]. rewrite <-Hy. apply Hf; [left|done].
  - apply (Hk x); [left|done|]. rewrite Hy. apply Hf; [by right|done].
  - destruct Hx. rewrite Hy. by apply list_elem_of_fmap_2.
Qed.

Section Accounts.
Context `{Crypto}.

Definition users_ok (t : Tables) : Prop :=
  NoDup (u_id <$> users t) ∧ NoDup (u_subject <$> users t) ∧ NoDup ((λ u, pg_lower (u_email u)) <$> users t).
(** The subject has the account [id], with [G] true of its row. *)
Definition account (id : uuid) (subject : string) (G : user_row → Prop) (t : Tables) : Prop :=
  users_ok t ∧ ∃ u, u ∈ users t ∧ u_id u = id ∧ u_subject u = subject ∧ G u.
Definition disabled (u : user_row) : Prop := u_disabled_at u ≠ None.

Definition same (subject : string) (u : user_row) : bool := str_eqb (u_subject u) subject.
Definition refreshed (now : Z) (email name department : string) (role : user_role) (u : user_row) : user_row :=
  mkUser (u_id u) (u_subject u) email name (nullif department) role (u_created_at u) (pg_time now)
    (u_disabled_at u).
(** What the upsert does to the table. *)
Lemma upsert_cases now id subject email name department role P Q E :
  (∀ t u role, P t → u ∈ users t → u_subject u = subject →
     existsb (λ u, negb (same subject u) && str_eqb (pg_lower (u_email u)) (pg_lower email)) (users t) = false →
     let t' := set_users (update (same subject) (refreshed now email name department role) (users t)) t in
     Q (refreshed now email name department role u) t' ∧ E (ErrDB "connection") t') →
  (∀ t role, P t → (∀ u, u ∈ users t → u_subject u ≠ subject ∧ u_id u ≠ id ∧ pg_lower (u_email u) ≠ pg_lower email) →
     let u := mkUser id subject email name (nullif department) role (pg_time now) (pg_time now) None in
     let t' := set_users (users t ++ [u]) t in Q u t' ∧ E (ErrDB "connection") t') →
  (∀ e t, P t → E e t) →
  hoare P (upsert_user now id subject email name department role) Q E.
Proof.
  intros Hu Hi He. unfold upsert_user. apply hoare_stmt; [|auto]. intros t Ht.
  destruct (role_cast role) as [rl|]; [|auto]. cbv zeta. destruct (find _ (users t)) as [old|] eqn:Ef.
  - destruct (existsb _ _) eqn:Ex; [auto|]. apply find_some in Ef as [Hin Hs%str_eqb_eq].
    exact (Hu t old rl Ht Hin Hs Ex).
  - destruct (existsb (λ u, negb false && _) _) eqn:Ex; [simpl; auto|].
    destruct (existsb (λ u, (u_id u =? id)%N) _) eqn:Ei; [simpl; auto|]. apply (Hi t rl Ht).
    intros u Hin. pose proof (find_none _ _ _ Ef Hin) as H1. pose proof (existsb_false _ _ _ Ex Hin) as H2.
    pose proof (existsb_false _ _ _ Ei Hin) as H3. simpl in H1, H2, H3. split_and!.
    + intros Hs. by rewrite Hs, str_eqb_refl in H1.
    + by apply N.eqb_neq.
    + intros Hs. by rewrite Hs, str_eqb_refl in H2.
Qed.

Lemma users_refresh t now subject email name department role :
  existsb (λ u, negb (same subject u) && str_eqb (pg_lower (u_email u)) (pg_lower email)) (users t) = false →
  users_ok t → users_ok (set_users (update (same subject) (refreshed now email name department role) (users t)) t).
Proof.
  intros Hx (H1 & H2 & H3). split_and!; simpl; [by rewrite update_keys..|].
  apply (NoDup_update_key _ _ _ _ (pg_lower email)); [done| |  |done].
  - intros u Hu Hs Heq. pose proof (existsb_false _ _ _ Hx Hu) as Hf. simpl in Hf.
    by rewrite Hs, Heq, str_eqb_refl in Hf.
  - intros u v Hu Hv Hsu%str_eqb_eq Hsv%str_eqb_eq. apply (unique_key u_subject (users t)); [done..|congruence].
Qed.
Lemma users_insert t u :
  (∀ v, v ∈ users t → u_subject v ≠ u_subject u ∧ u_id v ≠ u_id u ∧ pg_lower (u_email v) ≠ pg_lower (u_email u)) →
  users_ok t → users_ok (set_users (users t ++ [u]) t).
Proof.
  intros Hn (H1 & H2 & H3). split_and!; simpl; rewrite fmap_app; (apply NoDup_snoc; [done|]);
    intros (v & Hv & Hin)%list_elem_of_fmap; destruct (Hn v Hin) as (? & ? & ?); by auto.
Qed.
Lemma account_refresh id s G t now subject email name department role :
  (∀ u, G u → G (refreshed now email name department role u)) →
  existsb (λ u, negb (same subject u) && str_eqb (pg_lower (u_email u)) (pg_lower email)) (users t) = false →
  account id s G t →
  account id s G (set_users (update (same subject) (refreshed now email name department role) (users t)) t).
Proof.
  intros HG Hx [Hok (u & Hu & Hi & Hs & Hg)]. split; [by apply users_refresh|].
  eexists. simpl. rewrite elem_of_update. split; [by exists u|]. by destruct (same subject u); auto.
Qed.
Lemma account_insert id s G t u :
  (∀ v, v ∈ users t → u_subject v ≠ u_subject u ∧ u_id v ≠ u_id u ∧ pg_lower (u_email v) ≠ pg_lower (u_email u)) →
  account id s G t → account id s G (set_users (users t ++ [u]) t).
Proof.
  intros Hn [Hok (v & Hv & Hg)]. split; [by apply users_insert|]. exists v. simpl. set_solver.
Qed.

(** Facts about an account that a fresh token does not change. *)
Definition kept (G : user_row → Prop) : Prop :=
  ∀ u u', u_disabled_at u' = u_disabled_at u → G u → G u'.
Lemma kept_disabled : kept disabled.
Proof. unfold kept, disabled. by intros u u' ->. Qed.
Lemma upsert_account id s G now nid subject email name department role :
  kept G → keeps (account id s G) (upsert_user now nid subject email name department role).
Proof.
  intros HG. apply hoare_keeps, upsert_cases; [| |done].
  - intros t u rl Ht Hu Hs Hx t'. assert (account id s G t'); [|done]. apply account_refresh; [|done..]. intros v Hv. by eapply HG; [|exact Hv].
  - intros t rl Ht Hn u t'. assert (account id s G t'); [|done]. by apply account_insert.
Qed.
Lemma upsert_users_ok now nid subject email name department role :
  keeps users_ok (upsert_user now nid subject email name department role).
Proof.
  apply hoare_keeps, upsert_cases; [| |done].
  - intros t u rl Ht Hu Hs Hx t'. assert (users_ok t'); [|done]. by apply users_refresh.
  - intros t rl Ht Hn u t'. assert (users_ok t'); [|done]. by apply users_insert.
Qed.
(** The account of the simulated user is a row like the others. *)
Lemma sim_user_account id s G now nid :
  kept G → keeps (account id s G) (sim_user now nid).
Proof.
  intros HG. apply keeps_stmt. intros t x t' [(H1 & H2 & H3) (u & Hu & Hi & Hs & Hg)]. cbv zeta.
  destruct (find _ (users t)) eqn:Ef.
  - intros [= _ <-]. split; [split_and!; simpl; by rewrite update_keys|].
    eexists. simpl. rewrite elem_of_update. split; [by exists u|]. destruct (str_eqb _ _); [|done].
    split_and!; [done..|by eapply HG; [|exact Hg]].
  - destruct (existsb _ _) eqn:Ee; [done|]. intros [= _ <-]. apply account_insert; [|split; [by split_and!|by exists u]].
    intros v Hv. pose proof (find_none _ _ _ Ef Hv) as Hf. pose proof (existsb_false _ _ _ Ee Hv) as Hx.
    apply orb_false_iff in Hx as [Hx1 Hx2%N.eqb_neq]. simpl in Hf. split_and!; [|done|].
    + intros E. by rewrite E in Hf.
    + intros E. by rewrite E, str_eqb_refl in Hx1.
Qed.
Lemma account_keeps parse_addr inet engine id s G now o :
  kept G → keeps (account id s G) (run parse_addr inet engine now o).
Proof.
  intros HG. destruct o; lazymatch goal with
  | |- keeps _ (run _ _ _ _ (OpResolve _ _)) =>
      unfold run, void, ResolveFromClaims; keeps; by apply upsert_account
  | |- keeps _ (run _ _ _ _ (OpSimulate _ _ _ _ _)) =>
      unfold run, void; keeps; apply simulate_keeps; intros; [by apply sim_user_account|frame..]
  | |- _ => frame end.
Qed.
Lemma keeps_audit_account (parse_addr inet : string → option string) (engine : Risk.Engine) id s G env e :
  kept G → keeps (account id s G) (audit inet env e).
Proof.
  intros HG. unfold audit, Log. apply keeps_bind; [|intros ?; apply keeps_ret].
  apply keeps_try, (account_keeps parse_addr inet engine id s G (e_now env) (OpAudit (e_gap env) e) HG).
Qed.

(** A successful resolution returns the account of the subject, which is not
    disabled. *)
Lemma resolve_account now nid claims :
  hoare users_ok (ResolveFromClaims now nid claims)
    (λ u, account (usr_ID u) (c_Subject claims) (λ r, ¬ disabled r)) (λ _ _, True).
Proof.
  unfold ResolveFromClaims. destruct (str_eqb _ _); [by apply hoare_fail|]. cbv zeta.
  eapply hoare_bind with (Q := λ r t, match r with
    | inl row => users_ok t ∧ row ∈ users t ∧ u_subject row = c_Subject claims | inr _ => True end).
  { apply (hoare_try _ _ (λ row t, users_ok t ∧ row ∈ users t ∧ u_subject row = c_Subject claims) (λ _ _, True)).
    apply upsert_cases; [| |done].
    - intros t u rl Ht Hu Hs Hx t'. split; [|done]. split_and!; [by apply users_refresh| |done].
      simpl. rewrite elem_of_update. exists u. split; [done|]. unfold same. by rewrite Hs, str_eqb_refl.
    - intros t rl Ht Hn u t'. split; [|done]. split_and!; [by apply users_insert| |done]. simpl. set_solver. }
  intros [row|e]; [|by apply hoare_fail]. unfold scanUser. simpl.
  destruct (bool_decide (u_disabled_at row = None)) eqn:Ed; [|by apply hoare_fail].
  apply hoare_ret. intros t (Ht & Hin & Hs). split; [done|]. exists row. split_and!; [done..|].
  apply bool_decide_eq_true in Ed. by intros [].
Qed.
(** The account of a subject is unique. *)
Lemma account_unique id id' s s' G G' t :
  account id s G t → account id' s' G' t → (id = id' ↔ s = s') ∧ (s = s' → ∃ u, G u ∧ G' u).
Proof.
  intros [(H1 & H2 & _) (u & Hu & <- & <- & Hg)] [_ (v & Hv & <- & <- & Hg')]. split; [split|]; intros Heq.
  - by rewrite (unique_key u_id (users t) u v).
  - by rewrite (unique_key u_subject (users t) u v).
  - exists u. split; [done|]. by rewrite (unique_key u_subject (users t) u v).
Qed.
End Accounts.

(** C40: a subject is one account, for ever.  With unique accounts, once a token of a subject has been
    resolved to an account, every later successful resolution, after any
    operations with any failures and whatever the token says of e-mail, name or
    roles, yields that account exactly when it is of the same subject. *)
Theorem subject_keeps_account {C : Crypto} (parse_addr inet : string → option string)
    (engine : Risk.Engine) (now now' : Z) (id id' : uuid) (claims claims' : Claims)
    (w w' w2 : World) (t' : Tables) (fs : list fault) (u u' : User.User) :
  users_ok (db w) → ResolveFromClaims now id claims w = (inl u, w') →
  steps parse_addr inet engine (λ _, True) now (db w') now' t' →
  ResolveFromClaims now' id' claims' (mkWorld t' fs) = (inl u', w2) →
  usr_ID u' = usr_ID u ↔ c_Subject claims' = c_Subject claims.
Proof.
  intros Hok H1 Hs H2. pose proof (resolve_account now id claims w _ w' Hok H1) as A1. simpl in A1.
  assert (account (usr_ID u) (c_Subject claims) (λ _, True) t') as A2.
  { eapply steps_keeps; [|exact Hs|]; [intros n o _ _; by apply account_keeps|].
    destruct A1 as [? (r & ? & ? & ? & _)]. split; [done|]. by exists r. }
  pose proof (resolve_account now' id' claims' (mkWorld t' fs) _ w2 (proj1 A2) H2) as A3. simpl in A3.
  assert (account (usr_ID u) (c_Subject claims) (λ _, True) (db w2)) as A4.
  { refine (account_keeps parse_addr inet engine _ _ _ now' (OpResolve id' claims') _ (mkWorld t' fs) (inl ()) w2 A2 _).
    - done.
    - unfold run, void, bind. by rewrite H2. }
  by apply (account_unique _ _ _ _ _ _ _ A3 A4).
Qed.

(** C20: a disabled account is shut out.  Once the account of a subject is disabled,
    whatever operations run in between, a request bearing a valid token of that
    subject is answered with 403, whatever roles the token claims and whatever
    fails, and leaves the account disabled. *)
Theorem disabled_shut_out {C : Crypto} {Lib : Libs} {V : Verifier} (parse_addr inet : string → option string)
    (engine : Risk.Engine) (now : Z) (env : Env) (r : Req) (id : uuid) (raw : string) (claims : Claims)
    (t t' : Tables) (fs : list fault) :
  account id (c_Subject claims) disabled t →
  steps parse_addr inet engine (λ _, True) now t (e_now env) t' →
  bearerToken r = Some raw → Identity.Verify (e_now env) raw = inl claims → Claims_Validate claims = inl () →
  ∃ p w, RequireAuth inet env r (mkWorld t' fs) = (inl (inr p), w) ∧ pb_Status p = 403 ∧
    account id (c_Subject claims) disabled (db w).
Proof.
  intros Ha Hs Hb Hv Hc.
  assert (account id (c_Subject claims) disabled t') as Ht.
  { eapply steps_keeps; [|exact Hs|exact Ha]. intros n o _ _. apply account_keeps, kept_disabled. }
  unfold RequireAuth. rewrite Hb, Hv, Hc. cbn [is_ok negb]. unfold bind at 1, attempt, bind at 1, try.
  destruct (ResolveFromClaims (e_now env) (e_ids env 0) claims (mkWorld t' fs)) as [x w1] eqn:E.
  assert (account id (c_Subject claims) disabled (db w1)) as H1.
  { refine (account_keeps parse_addr inet engine _ _ _ (e_now env) (OpResolve (e_ids env 0) claims) _
      (mkWorld t' fs) (match x with inl _ => inl () | inr e => inr e end) w1 Ht _); [apply kept_disabled|].
    unfold run, void, bind. rewrite E. by destruct x. }
  destruct x as [u|e].
  - pose proof (resolve_account _ _ _ (mkWorld t' fs) _ _ (proj1 Ht) E) as H2. simpl in H2.
    destruct (proj2 (account_unique _ _ _ _ _ _ _ H1 H2) eq_refl) as (row & Hd & Hn). done.
  - destruct e; try (by apply resolve_no_panic in E); unfold ret at 1, bind;
    (match goal with |- context [audit ?i ?v ?e ?w] => destruct (audit_total i v e w) as [w2 E2]; rewrite E2 end;
     eexists _, w2; split; [reflexivity|split; [reflexivity|]]);
    (eapply (keeps_audit_account parse_addr inet engine); [apply kept_disabled|exact H1|exact E2]).
Qed.
