(* ===== verification/Schema.v ===== *)
(** * The schema holds along every run

    Most constraints of [migrations/*.sql]: primary keys and unique indexes, foreign
    keys, enumerations and range checks, table by table.  Every operation preserves
    them, so a constraint that a statement of the stores does not test (the score a
    factor belongs to, the session a spent challenge names, the range of a displayed
    risk) is never violated, and no row that something refers to disappears.  What the
    statements of the stores do test holds by that test.

    [schema_ok] leaves out: the generated primary key of [risk_factors], which the rows of the
    model do not carry; the widths of the integers of [behaviour_profiles],
    [policy_decisions] and [incident_events.ordinal]; and the constraints inside
    [applications] and [resources], which nothing but a migration writes. *)

From S2P Require Import Prelude GoStd Encode Risk Posture Policy Behaviour Db AuditLog Device Session.
From S2P Require Import Identity User Telemetry Incident RiskStore PolicyStore PostureStore BehaviourStore Trust.
From S2P Require Import Simulator System SystemProps UserProps.
Open Scope Z_scope.
Open Scope go_scope.

(** ** Tables *)

Inductive ref :=
  | RUser (i : uuid) | RDevice (i : uuid) | RSession (i : uuid) | REvent (i : uuid)
  | RScore (i : uuid) | RIncident (i : uuid) | RResource (i : uuid).
Definition resolves (t : Tables) (r : ref) : Prop :=
  match r with
  | RUser i => has_user t i = true
  | RDevice i => has_device t i = true
  | RSession i => has_session t i = true
  | REvent i => has_event t i = true
  | RScore i => has_score t i = true
  | RIncident i => has_incident t i = true
  | RResource i => has_resource t i = true
  end.
(** Nothing that can be referred to has gone. *)
Definition grows (t t' : Tables) : Prop := ∀ r, resolves t r → resolves t' r.

(** The rows of a table: its unique keys, what each row refers to, and its checks. *)
Record fine {A} (uniq : list A → Prop) (refs : A → list ref) (check : A → Prop) (t : Tables) (l : list A) : Prop :=
  mkFine {
  f_uniq : uniq l;
  f_refs : ∀ x r, x ∈ l → r ∈ refs x → resolves t r;
  f_check : ∀ x, x ∈ l → check x }.
Arguments mkFine {A uniq refs check t l}.

Definition ref_opt (R : uuid → ref) (v : option uuid) : list ref := match v with None => [] | Some i => [R i] end.
Definition unique {A K} (key : A → K) (l : list A) : Prop := NoDup (key <$> l).
Definition none {A} (_ : A) : list ref := [].
Definition any {A} (_ : A) : Prop := True.

Definition token_uniq (l : list token_row) : Prop := unique t_id l ∧ unique t_hash l.
Definition token_refs (k : token_row) : list ref := ref_opt RUser (t_created_by k) ++ ref_opt RDevice (t_device_id k).
Definition device_uniq (l : list device_row) : Prop := unique d_id l ∧ unique d_uid l.
Definition device_check (d : device_row) : Prop :=
  d_key_algorithm d = "ed25519" ∧
  d_key_protection d ∈ [KeyProtectionSoftware; KeyProtectionTPM; KeyProtectionWindowsCertStore].
Definition replay_refs (r : replay_row) : list ref := [RDevice (rn_device r)].
Definition nonce_refs (n : nonce_row) : list ref := RUser (n_user n) :: ref_opt RSession (n_session n).
Definition session_refs (s : session_row) : list ref := [RUser (s_user s); RDevice (s_device s)].
Definition session_check (s : session_row) : Prop :=
  (∀ r, s_current_risk s = Some r → 0 <= r <= 100) ∧
  s_attestation s ∈ [AttestationNone; AttestationDeviceSignature; AttestationMTLS].
(** The partial unique index on the events of an agent. *)
Definition event_uniq (l : list event_row) : Prop :=
  unique e_id l ∧ ∀ i j x y, l !! i = Some x → l !! j = Some y → same_agent_event x y = true → i = j.
Definition event_refs (e : event_row) : list ref :=
  ref_opt RDevice (e_device e) ++ ref_opt RUser (e_user e) ++ ref_opt RSession (e_session e) ++
  ref_opt RResource (e_resource e).
Definition event_row_check (e : event_row) : Prop :=
  e_type e ∈ knownTypes ∧ e_severity e ∈ knownSeverities ∧ e_source e ∈ knownSources.
Definition score_refs (r : risk_row) : list ref := [RSession (rs_session r); RUser (rs_user r); RDevice (rs_device r)].
Definition score_check (r : risk_row) : Prop := 0 <= rs_score r <= 100 ∧ level_known (rs_level r) = true.
Definition factor_refs (f : factor_row) : list ref := [RScore (rf_score f)].
Definition profile_refs (p : Profile) : list ref := [RUser (UserID p)].
Definition policy_uniq (l : list Policy.Policy) : Prop :=
  unique Policy.ID l ∧ unique (λ p, (PolicyID p, Version p)) l.
Definition policy_refs (p : Policy.Policy) : list ref := ref_opt RUser (CreatedBy p).
Definition policy_check (p : Policy.Policy) : Prop :=
  PFailMode p ∈ [FailOpen; FailClosed; FailSafe] ∧ int2 (Priority p) = true ∧ int4 (Version p) = true.
Definition decision_refs (d : decision_row) : list ref :=
  [RSession (pd_session d); RUser (pd_user d); RDevice (pd_device d)] ++ ref_opt RScore (pd_risk_score d) ++
  ref_opt RResource (pd_resource d) ++ ref_opt RIncident (pd_incident d).
Definition decision_check (d : decision_row) : Prop := knownDecisions (pd_decision d) = true.
Definition incident_uniq (l : list incident_row) : Prop := unique i_id l ∧ unique i_key l.
Definition incident_refs (i : incident_row) : list ref :=
  ref_opt RUser (i_user i) ++ ref_opt RDevice (i_device i) ++ ref_opt RSession (i_session i).
Definition incident_check (i : incident_row) : Prop :=
  severity_known (i_severity i) = true ∧ i_status i ∈ knownStatuses ∧ int2 (i_peak_risk i) = true.
Definition timeline_refs (x : incident_event_row) : list ref := [RIncident (ie_incident x); REvent (ie_event x)].
Definition note_refs (n : note_row) : list ref := RIncident (nt_incident n) :: ref_opt RUser (nt_author n).
Definition posture_refs (p : posture_row) : list ref := [RDevice (p_device p)].
Definition posture_check (p : posture_row) : Prop := 0 <= p_trust_score p <= 100.
Definition audit_check (a : audit_row) : Prop :=
  a_actor_type a ∈ [ActorUser; ActorDevice; ActorSystem; ActorSimulator].

(** The constraints, but for those named at the top of this file. *)
Record schema_ok `{Crypto} (t : Tables) : Prop := mkSchemaOk {
  so_users : users_ok t;
  so_devices : fine device_uniq none device_check t (devices t);
  so_tokens : fine token_uniq token_refs any t (tokens t);
  so_replays : fine (unique (λ r, (rn_device r, rn_nonce r))) replay_refs any t (replay_nonces t);
  so_nonces : fine (unique n_nonce) nonce_refs any t (session_nonces t);
  so_sessions : fine (unique s_id) session_refs session_check t (sessions t);
  so_events : fine event_uniq event_refs event_row_check t (events t);
  so_scores : fine (unique rs_id) score_refs score_check t (risk_scores t);
  so_factors : fine (λ _, True) factor_refs (λ f, int2 (rf_contribution f) = true) t (risk_factors t);
  so_profiles : fine (unique UserID) profile_refs any t (profiles t);
  so_policies : fine policy_uniq policy_refs policy_check t (policies t);
  so_decisions : fine (unique pd_id) decision_refs decision_check t (decisions t);
  so_incidents : fine incident_uniq incident_refs incident_check t (incidents t);
  so_timeline : fine (unique (λ x, (ie_incident x, ie_event x))) timeline_refs any t (incident_events t);
  so_notes : fine (unique nt_id) note_refs any t (notes t);
  so_postures : fine (unique p_id) posture_refs posture_check t (postures t);
  so_audit : fine (unique a_seq) none audit_check t (audit_logs t) }.

(** ** Preservation, table by table *)

Lemma existsb_ids {A} (id : A → uuid) (l : list A) i :
  existsb (λ r, (id r =? i)%N) l = true ↔ i ∈ (id <$> l).
Proof.
  rewrite existsb_exists, list_elem_of_fmap. split.
  - intros (x & Hx%list_elem_of_In & Hi%N.eqb_eq). eauto.
  - intros (x & -> & Hx). exists x. split; [by apply list_elem_of_In|apply N.eqb_refl].
Qed.
Lemma grows_refl t : grows t t.
Proof. by intros r. Qed.
Lemma grows_trans t1 t2 t3 : grows t1 t2 → grows t2 t3 → grows t1 t3.
Proof. unfold grows. auto. Qed.

(** A table of referents that keeps its identifiers. *)
Ltac by_ids := intros Hs [] Hr; try exact Hr; apply existsb_ids, Hs, existsb_ids; exact Hr.
Lemma grows_users l t : u_id <$> users t ⊆ u_id <$> l → grows t (set_users l t).
Proof. by_ids. Qed.
Lemma grows_devices l t : d_id <$> devices t ⊆ d_id <$> l → grows t (set_devices l t).
Proof. by_ids. Qed.
Lemma grows_sessions l t : s_id <$> sessions t ⊆ s_id <$> l → grows t (set_sessions l t).
Proof. by_ids. Qed.
Lemma grows_events l t : e_id <$> events t ⊆ e_id <$> l → grows t (set_events l t).
Proof. by_ids. Qed.
Lemma grows_scores l t : rs_id <$> risk_scores t ⊆ rs_id <$> l → grows t (set_risk_scores l t).
Proof. by_ids. Qed.
Lemma grows_incidents l t : i_id <$> incidents t ⊆ i_id <$> l → grows t (set_incidents l t).
Proof. by_ids. Qed.
Lemma ids_app {A} (id : A → uuid) (l k : list A) : id <$> l ⊆ id <$> (l ++ k).
Proof. rewrite fmap_app. intros x Hx. apply elem_of_app. by left. Qed.
Lemma ids_update {A} (id : A → uuid) (p : A → bool) f (l : list A) :
  (∀ x, id (f x) = id x) → id <$> l ⊆ id <$> update p f l.
Proof. intros Hf. by rewrite update_keys. Qed.

Section Fine.
Context {A} (uniq : list A → Prop) (refs : A → list ref) (check : A → Prop).

Lemma fine_mono t t' l : grows t t' → fine uniq refs check t l → fine uniq refs check t' l.
Proof using. intros Hg [H1 H2 H3]. split; [done| |done]. intros x r Hx Hr. apply Hg. by eapply H2. Qed.
Lemma fine_app t l k :
  (uniq l → uniq (l ++ k)) → (∀ x r, x ∈ k → r ∈ refs x → resolves t r) → (∀ x, x ∈ k → check x) →
  fine uniq refs check t l → fine uniq refs check t (l ++ k).
Proof using.
  intros Hu Hr Hc [H1 H2 H3]. split; [auto|..].
  - intros y r [Hy|Hy]%elem_of_app; [by apply H2|by apply Hr].
  - intros y [Hy|Hy]%elem_of_app; auto.
Qed.
Lemma fine_snoc t l x :
  (uniq l → uniq (l ++ [x])) → (∀ r, r ∈ refs x → resolves t r) → check x →
  fine uniq refs check t l → fine uniq refs check t (l ++ [x]).
Proof using.
  intros Hu Hr Hc. apply fine_app; [done|..].
  - intros y r ->%list_elem_of_singleton. apply Hr.
  - by intros y ->%list_elem_of_singleton.
Qed.
Lemma fine_update t l p f :
  (uniq l → uniq (update p f l)) →
  (∀ x, x ∈ l → p x = true → (∀ r, r ∈ refs x → resolves t r) → check x →
     (∀ r, r ∈ refs (f x) → resolves t r) ∧ check (f x)) →
  fine uniq refs check t l → fine uniq refs check t (update p f l).
Proof using.
  intros Hu Hf [H1 H2 H3]. split; [auto|..].
  - intros y r (x & Hx & ->)%elem_of_update. destruct (p x) eqn:E; [|by apply H2].
    apply (Hf x Hx E); [|auto]. intros q. by apply H2.
  - intros y (x & Hx & ->)%elem_of_update. destruct (p x) eqn:E; [|by apply H3].
    apply (Hf x Hx E); [|auto]. intros q. by apply H2.
Qed.
Lemma fine_filter t l p :
  (uniq l → uniq (List.filter p l)) → fine uniq refs check t l → fine uniq refs check t (List.filter p l).
Proof using.
  intros Hu [H1 H2 H3]. split; [auto|..].
  - intros x r [Hx _]%elem_of_lfilter. by apply H2.
  - intros x [Hx _]%elem_of_lfilter. by apply H3.
Qed.
End Fine.

Lemma unique_snoc {A K} (key : A → K) l x : (∀ y, y ∈ l → key y ≠ key x) → unique key l → unique key (l ++ [x]).
Proof.
  intros Hn Hu. unfold unique. rewrite fmap_app. apply NoDup_snoc; [done|].
  intros (y & Hy & Hin)%list_elem_of_fmap. by apply (Hn y).
Qed.
Lemma unique_update {A K} (key : A → K) p f l :
  (∀ x, p x = true → key (f x) = key x) → unique key l → unique key (update p f l).
Proof.
  intros Hf Hu. unfold unique, update. rewrite <-list_fmap_compose.
  replace (key ∘ (λ r, if p r then f r else r) <$> l) with (key <$> l); [done|].
  apply list_fmap_ext. intros i x _. simpl. destruct (p x) eqn:E; [by rewrite Hf|done].
Qed.
Lemma unique_filter {A K} (key : A → K) p l : unique key l → unique key (List.filter p l).
Proof. apply NoDup_lfilter. Qed.
Lemma existsb_id_neq {A} (id : A → uuid) l x :
  existsb (λ y, (id y =? id x)%N) l = false → ∀ y, y ∈ l → id y ≠ id x.
Proof. intros He y Hy. apply N.eqb_neq. exact (existsb_false _ _ _ He Hy). Qed.
Lemma existsb_str_neq {A} (key : A → string) l s :
  existsb (λ y, str_eqb (key y) s) l = false → ∀ y, y ∈ l → key y ≠ s.
Proof. intros He y Hy E. pose proof (existsb_false _ _ _ He Hy) as Hf. simpl in Hf. by rewrite E, str_eqb_refl in Hf. Qed.
Lemma ref_opt_elem (R : uuid → ref) v r : r ∈ ref_opt R v ↔ ∃ i, v = Some i ∧ r = R i.
Proof. destruct v as [i|]; simpl; set_solver. Qed.
Lemma fk_opt_ref (t : Tables) (R : uuid → ref) (has : uuid → bool) v r :
  (∀ i, has i = true → resolves t (R i)) → fk_opt has v = true → r ∈ ref_opt R v → resolves t r.
Proof. intros Hh Hf (i & -> & ->)%ref_opt_elem. by apply Hh. Qed.

(** ** Replacing one table *)

Section Setters.
Context `{Crypto}.

Ltac other_tables Hg :=
  intros [] ; constructor; lazymatch goal with
  | |- users_ok _ => assumption
  | |- _ => eapply fine_mono; [exact Hg|assumption]
  end.
Lemma schema_users l t :
  u_id <$> users t ⊆ u_id <$> l → users_ok (set_users l t) → schema_ok t → schema_ok (set_users l t).
Proof. intros Hs Hf. pose proof (grows_users l t Hs) as Hg. other_tables Hg. Qed.
Lemma schema_devices l t :
  d_id <$> devices t ⊆ d_id <$> l → fine device_uniq none device_check t l → schema_ok t → schema_ok (set_devices l t).
Proof. intros Hs Hf. pose proof (grows_devices l t Hs) as Hg. other_tables Hg. Qed.
Lemma schema_sessions l t :
  s_id <$> sessions t ⊆ s_id <$> l → fine (unique s_id) session_refs session_check t l →
  schema_ok t → schema_ok (set_sessions l t).
Proof. intros Hs Hf. pose proof (grows_sessions l t Hs) as Hg. other_tables Hg. Qed.
Lemma schema_events l t :
  e_id <$> events t ⊆ e_id <$> l → fine event_uniq event_refs event_row_check t l →
  schema_ok t → schema_ok (set_events l t).
Proof. intros Hs Hf. pose proof (grows_events l t Hs) as Hg. other_tables Hg. Qed.
Lemma schema_scores l t :
  rs_id <$> risk_scores t ⊆ rs_id <$> l → fine (unique rs_id) score_refs score_check t l →
  schema_ok t → schema_ok (set_risk_scores l t).
Proof. intros Hs Hf. pose proof (grows_scores l t Hs) as Hg. other_tables Hg. Qed.
Lemma schema_incidents l t :
  i_id <$> incidents t ⊆ i_id <$> l → fine incident_uniq incident_refs incident_check t l →
  schema_ok t → schema_ok (set_incidents l t).
Proof. intros Hs Hf. pose proof (grows_incidents l t Hs) as Hg. other_tables Hg. Qed.

Ltac plain_table := intros Hf; let Hg := fresh in
  lazymatch goal with |- schema_ok ?t → _ => pose proof (grows_refl t) as Hg end; other_tables Hg.
Lemma schema_tokens l t : fine token_uniq token_refs any t l → schema_ok t → schema_ok (set_tokens l t).
Proof. plain_table. Qed.
Lemma schema_replays l t :
  fine (unique (λ r, (rn_device r, rn_nonce r))) replay_refs any t l → schema_ok t → schema_ok (set_replay_nonces l t).
Proof. plain_table. Qed.
Lemma schema_nonces l t : fine (unique n_nonce) nonce_refs any t l → schema_ok t → schema_ok (set_session_nonces l t).
Proof. plain_table. Qed.
Lemma schema_factors l t :
  fine (λ _, True) factor_refs (λ f, int2 (rf_contribution f) = true) t l →
  schema_ok t → schema_ok (set_risk_factors l t).
Proof. plain_table. Qed.
Lemma schema_profiles l t : fine (unique UserID) profile_refs any t l → schema_ok t → schema_ok (set_profiles l t).
Proof. plain_table. Qed.
Lemma schema_policies l t : fine policy_uniq policy_refs policy_check t l → schema_ok t → schema_ok (set_policies l t).
Proof. plain_table. Qed.
Lemma schema_decisions l t :
  fine (unique pd_id) decision_refs decision_check t l → schema_ok t → schema_ok (set_decisions l t).
Proof. plain_table. Qed.
Lemma schema_timeline l t :
  fine (unique (λ x, (ie_incident x, ie_event x))) timeline_refs any t l →
  schema_ok t → schema_ok (set_incident_events l t).
Proof. plain_table. Qed.
Lemma schema_notes l t : fine (unique nt_id) note_refs any t l → schema_ok t → schema_ok (set_notes l t).
Proof. plain_table. Qed.
Lemma schema_postures l t :
  fine (unique p_id) posture_refs posture_check t l → schema_ok t → schema_ok (set_postures l t).
Proof. plain_table. Qed.
Lemma schema_audit l t : fine (unique a_seq) none audit_check t l → schema_ok t → schema_ok (set_audit_logs l t).
Proof. plain_table. Qed.
End Setters.

(** ** Operation by operation *)

Section Operations.
Context `{Crypto} (parse_addr inet : string → option string).

(** What a passed test says. *)
Ltac tests := repeat match goal with
  | H : (if ?b then _ else _) = None |- _ => destruct b eqn:?; try discriminate H
  | H : negb _ = false |- _ => apply negb_false_iff in H
  | H : (_ && _)%bool = true |- _ => apply andb_true_iff in H as [? ?]
  | H : (_ || _)%bool = false |- _ => apply orb_false_iff in H as [? ?]
  end.
(** Pass the tests of a statement. *)
Ltac guards := repeat (match goal with |- context [if ?b then _ else _] => destruct b eqn:?; [done|] end); tests.
Ltac refs := repeat match goal with
  | H : _ ∈ _ ++ _ |- _ => apply elem_of_app in H as [H|H]
  | H : _ ∈ _ :: _ |- _ => apply elem_of_cons in H as [->|H]
  | H : _ ∈ [] |- _ => by apply elem_of_nil in H
  | H : _ ∈ ref_opt _ None |- _ => by apply elem_of_nil in H
  | H : _ ∈ ref_opt _ (Some _) |- _ => apply list_elem_of_singleton in H as ->
  end; try done;
  try match goal with Hq : _ ∈ ref_opt _ ?v, Hf : fk_opt _ ?v = true |- _ =>
    solve [eapply fk_opt_ref; [|exact Hf|exact Hq]; done] end.

(** A row whose key was looked for and not found. *)
Ltac fresh_key :=
  let y := fresh "y" in let Hy := fresh "Hy" in let E := fresh "E" in intros y Hy E;
  repeat match goal with
  | H : existsb _ _ = false |- _ =>
      let Hf := fresh "Hf" in pose proof (existsb_false _ _ _ H Hy) as Hf; clear H; cbv beta in Hf
  end; cbn in E; tests; rewrite ?E, ?N.eqb_refl, ?str_eqb_refl in *; discriminate.

Lemma issue_token_schema now raw id by_ label ttl :
  keeps schema_ok (IssueEnrollmentToken now raw id by_ label ttl).
Proof.
  unfold IssueEnrollmentToken. keeps. apply keeps_insert. intros t Hok Ht. tests.
  apply schema_tokens; [|done]. apply fine_snoc; [| |done|apply Hok].
  - intros [Hu1 Hu2]. split; (apply unique_snoc; [fresh_key|done]).
  - intros r Hr. unfold token_refs in Hr. simpl in Hr. refs.
Qed.
Lemma schema_insert_device t d :
  (∀ x, x ∈ devices t → d_uid x ≠ d_uid d ∧ d_id x ≠ d_id d) → device_check d →
  schema_ok t → schema_ok (set_devices (devices t ++ [d]) t).
Proof.
  intros Hn Hc Hok. apply schema_devices; [apply ids_app| |done]. apply fine_snoc; [|by intros r ?%elem_of_nil|done|apply Hok].
  intros [Hu1 Hu2]. split; (apply unique_snoc; [|done]); intros y Hy; by apply Hn.
Qed.
Lemma schema_update_device t (p : device_row → bool) f :
  (∀ d, d_id (f d) = d_id d) → (∀ d, d_uid (f d) = d_uid d) → (∀ d, device_check d → device_check (f d)) →
  schema_ok t → schema_ok (set_devices (update p f (devices t)) t).
Proof.
  intros Hi Hu Hc Hok. apply schema_devices; [by apply ids_update| |done]. apply fine_update; [| |apply Hok].
  - intros [Hu1 Hu2]. split; by apply unique_update.
  - intros d _ _ _ Hd. split; [by intros r ?%elem_of_nil|auto].
Qed.
Lemma heartbeat_schema now id v : keeps schema_ok (Heartbeat now id v).
Proof. unfold Heartbeat. keeps. apply keeps_exec. intros t Hok. by apply schema_update_device. Qed.
Lemma revoke_schema now id reason : keeps schema_ok (Revoke now id reason).
Proof. unfold Revoke. keeps. apply keeps_exec. intros t Hok. by apply schema_update_device. Qed.
Lemma validated_protection req :
  EnrollRequest_Validate req = inl () →
  rq_KeyProtection req ∈ [KeyProtectionSoftware; KeyProtectionTPM; KeyProtectionWindowsCertStore].
Proof.
  unfold EnrollRequest_Validate. cbv zeta. destruct (_ || _); [done|]. destruct (_ || _); [done|].
  destruct (negb (len _ =? _)); [done|]. destruct (negb (str_mem _ _)) eqn:E; [done|]. intros _.
  by apply str_mem_elem, negb_false_iff.
Qed.
Lemma insert_device_schema now id req :
  EnrollRequest_Validate req = inl () →
  hoare schema_ok (insert_device now id req) (λ d t, schema_ok t ∧ has_device t (Device.ID d) = true) (λ _, schema_ok).
Proof.
  intros Hv. apply hoare_stmt; [|done]. intros t Hok. destruct (existsb _ _) eqn:E; [done|].
  assert (schema_ok (set_devices (devices t ++ [device_of now id req]) t)) as Hn; [|split; [split; [done|]|done]].
  - apply schema_insert_device; [|split; [done|by apply validated_protection]|done].
    intros x Hx. split; revert x Hx; fresh_key.
  - apply existsb_ids. simpl. rewrite fmap_app. apply elem_of_app. right. left.
Qed.
Lemma spend_token_schema now dev tokenID P E :
  (∀ t, P t → schema_ok t ∧ has_device t dev = true) → (∀ e t, schema_ok t → E e t) →
  hoare P (spend_token now dev tokenID) (λ _, schema_ok) E.
Proof.
  intros HP HE. apply hoare_stmt; [|intros t [Ht _]%HP; auto]. intros t [Hok Hd]%HP.
  assert (schema_ok (set_tokens (update (λ k, (t_id k =? tokenID)%N)
    (λ k, mkToken (t_id k) (t_hash k) (t_label k) (t_created_by k) (t_created_at k) (t_expires_at k)
       (Some (pg_time now)) (Some dev)) (tokens t)) t)) as Hn; [|by auto].
  apply schema_tokens; [|done]. apply fine_update; [| |apply Hok].
  - intros [Hu1 Hu2]. split; by apply unique_update.
  - intros k _ _ Hr _. split; [|done]. intros r. unfold token_refs. simpl. intros Hq. refs.
    apply Hr. unfold token_refs. apply elem_of_app. by left.
Qed.
Lemma enroll_schema now id token req : keeps schema_ok (Enroll now id token req).
Proof.
  unfold Enroll. destruct (EnrollRequest_Validate req) as [[]|e] eqn:Hv;
    [|intros w r w' Ht Hr; unfold bind, lift in Hr; by injection Hr as <- <-]. apply hoare_keeps.
  apply hoare_bind with (Q := λ _, schema_ok); [by apply hoare_lift|]. intros _. cbv zeta.
  apply hoare_tx; try done. eapply hoare_bind; [apply hoare_try_keeps, keeps_query_row|]. intros r.
  eapply hoare_bind with (Q := λ _, schema_ok); [destruct r as [|[]]; first [by apply hoare_ret|by apply hoare_fail]|].
  intros tok. destruct (_ || _); [by apply hoare_fail|].
  eapply hoare_bind; [apply hoare_try, insert_device_schema; done|]. intros c.
  eapply hoare_bind with (Q := λ d t, schema_ok t ∧ has_device t (Device.ID d) = true).
  { destruct c as [d|[]]; first [by apply hoare_ret|by apply hoare_fail]. }
  intros d. eapply hoare_bind; [by apply (spend_token_schema now (Device.ID d) (t_id tok))|].
  intros ?. by apply hoare_ret.
Qed.
Lemma consume_schema d n ts : keeps schema_ok (ConsumeNonce d n ts).
Proof.
  unfold ConsumeNonce. keeps. apply keeps_stmt. intros t x t' Hok.
  destruct (timestamptz _) as [at_|]; [|done]. destruct (existsb _ _) eqn:E; [done|].
  destruct (has_device t _) eqn:Ed; [|done]. intros [= _ <-]. apply schema_replays; [|done].
  apply fine_snoc; [| |done|apply Hok].
  - apply unique_snoc. intros y Hy. pose proof (existsb_false _ _ _ E Hy) as Hf. unfold same_nonce in Hf.
    simpl. intros [= E1 E2]. by rewrite E1, E2, N.eqb_refl, str_eqb_refl in Hf.
  - intros q Hq. unfold replay_refs in Hq. simpl in Hq. refs.
Qed.
Lemma request_schema now r : keeps schema_ok (RequireDeviceSignature now r).
Proof. unfold RequireDeviceSignature, ByUID. keeps; apply consume_schema. Qed.
Lemma prune_replays_schema before : keeps schema_ok (Device.PruneNonces before).
Proof.
  unfold Device.PruneNonces. keeps; apply keeps_exec; intros t Hok; simpl.
  apply schema_replays; [|done]. apply fine_filter; [apply unique_filter|apply Hok].
Qed.
Lemma prune_nonces_schema before : keeps schema_ok (Session.PruneNonces before).
Proof.
  unfold Session.PruneNonces. keeps; apply keeps_exec; intros t Hok; simpl.
  apply schema_nonces; [|done]. apply fine_filter; [apply unique_filter|apply Hok].
Qed.
Lemma prune_schema now : keeps schema_ok (prune_tick now).
Proof. unfold prune_tick. keeps; auto using prune_replays_schema, prune_nonces_schema. Qed.
Lemma issue_nonce_schema now raw user : keeps schema_ok (IssueNonce now raw user).
Proof.
  unfold IssueNonce. keeps. apply keeps_insert. intros t Hok Ht. tests. apply schema_nonces; [|done].
  apply fine_snoc; [|intros r Hr; unfold nonce_refs in Hr; simpl in Hr; refs|done|apply Hok].
  apply unique_snoc. fresh_key.
Qed.

(** A session row that is new, and its later versions. *)
Lemma schema_insert_session t s :
  existsb (λ x, (s_id x =? s_id s)%N) (sessions t) = false → has_user t (s_user s) = true →
  has_device t (s_device s) = true → session_check s →
  schema_ok t → schema_ok (set_sessions (sessions t ++ [s]) t).
Proof.
  intros He Hu Hd Hc Hok. apply schema_sessions; [apply ids_app| |done].
  apply fine_snoc; [|intros r Hr; unfold session_refs in Hr; refs|done|apply Hok].
  apply unique_snoc. by apply existsb_id_neq.
Qed.
Lemma schema_update_session t (p : session_row → bool) f :
  (∀ s, s_id (f s) = s_id s) → (∀ s, session_refs (f s) = session_refs s) →
  (∀ s, session_check s → session_check (f s)) →
  schema_ok t → schema_ok (set_sessions (update p f (sessions t)) t).
Proof.
  intros Hi Hr Hc Hok. apply schema_sessions; [by apply ids_update| |done]. apply fine_update; [| |apply Hok].
  - by apply unique_update.
  - intros s _ _ H1 H2. rewrite Hr. auto.
Qed.
Lemma session_of_check now id u d ip : session_check (session_of now id u d ip).
Proof. split; [done|]. right. left. Qed.
Lemma insert_session_schema now id u d src :
  hoare schema_ok (insert_session inet now id u d src)
    (λ s t, schema_ok t ∧ has_session t (s_id s) = true) (λ _, schema_ok).
Proof.
  assert (∀ t ip, existsb (λ s, (s_id s =? id)%N) (sessions t) = false → has_user t u = true →
    has_device t d = true → schema_ok t →
    let s := session_of now id u d ip in let t' := set_sessions (sessions t ++ [s]) t in
    (schema_ok t' ∧ has_session t' (s_id s) = true) ∧ schema_ok t') as Hins.
  { intros t ip He Hu Hd Hok s t'. assert (schema_ok t') as Hn.
    { apply schema_insert_session; [done..|apply session_of_check|done]. }
    split; [split; [done|]|done]. apply existsb_ids. subst t'. simpl. rewrite fmap_app. apply elem_of_app.
    right. left. }
  apply hoare_stmt; [|done]. intros t Hok. destruct (existsb _ _) eqn:E; [done|].
  destruct (negb _) eqn:En; [done|]. apply negb_false_iff, andb_true_iff in En as [Hu Hd].
  destruct src as [a|]; [destruct (inet a) as [ip|]; [|done]|]; by apply Hins.
Qed.
Lemma spend_nonce_schema now sid nonce P E :
  (∀ t, P t → schema_ok t ∧ has_session t sid = true) → (∀ e t, schema_ok t → E e t) →
  hoare P (spend_nonce now sid nonce) (λ _, schema_ok) E.
Proof.
  intros HP HE. apply hoare_stmt; [|intros t [Ht _]%HP; auto]. intros t [Hok Hs]%HP.
  assert (schema_ok (set_session_nonces (update (λ n, str_eqb (n_nonce n) nonce)
    (λ n, mkNonce (n_nonce n) (n_user n) (n_issued_at n) (n_expires_at n) (Some (pg_time now)) (Some sid))
    (session_nonces t)) t)) as Hn; [|by auto].
  apply schema_nonces; [|done]. apply fine_update; [by apply unique_update| |apply Hok].
  intros n _ _ Hr _. split; [|done]. intros r Hq. unfold nonce_refs in Hq. simpl in Hq. refs.
  apply Hr. left.
Qed.
Lemma open_schema now id req d : keeps schema_ok (open_session parse_addr inet now id req d).
Proof.
  unfold open_session. apply hoare_keeps, hoare_tx; try done. eapply hoare_bind; [apply hoare_try_keeps, keeps_query_row|]. intros r.
  eapply hoare_bind with (Q := λ _, schema_ok); [destruct r as [|[]]; first [by apply hoare_ret|by apply hoare_fail]|].
  intros n. destruct (_ || _); [by apply hoare_fail|]. cbv zeta.
  eapply hoare_bind; [eapply hoare_weaken; [apply insert_session_schema|done|intros a t Ha; exact Ha|done]|].
  intros s. eapply hoare_bind; [by apply (spend_nonce_schema now (s_id s) (bq_Nonce req))|].
  intros ?. by apply hoare_ret.
Qed.
Lemma begin_schema now id req : keeps schema_ok (Begin parse_addr inet now id req).
Proof.
  unfold Begin. apply keeps_bind; [apply keeps_lift|]. intros _. apply keeps_bind.
  { unfold ByUID. keeps. }
  intros [d|e]; [|apply keeps_fail]. apply keeps_if; [apply keeps_fail|]. apply keeps_if; [apply keeps_fail|].
  apply keeps_bind; [apply keeps_lift|]. intros _. apply keeps_bind; [apply open_schema|intros; apply keeps_ret].
Qed.
Lemma end_schema now s u : keeps schema_ok (End now s u).
Proof. unfold End. keeps. apply keeps_exec. intros t Hok. by apply schema_update_session. Qed.
Lemma touch_schema now s : keeps schema_ok (Touch now s).
Proof. unfold Touch. keeps. apply keeps_exec. intros t Hok. by apply schema_update_session. Qed.

(** *** Events *)

Lemma event_uniq_snoc l x :
  existsb (λ y, (e_id y =? e_id x)%N) l = false → existsb (same_agent_event x) l = false →
  event_uniq l → event_uniq (l ++ [x]).
Proof.
  intros He Ha [H1 H2]. split; [by apply unique_snoc; [apply existsb_id_neq|]|].
  assert (∀ y, y ∈ l → same_agent_event x y = false ∧ same_agent_event y x = false) as Hx.
  { intros y Hy. pose proof (existsb_false _ _ _ Ha Hy) as Hf. split; [done|]. revert Hf. unfold same_agent_event.
    destruct (e_device x), (e_agent_event_id x), (e_device y), (e_agent_event_id y); try done.
    rewrite N.eqb_sym, !andb_false_iff. intros [?|Hs]; [by left|]. right.
    apply not_true_iff_false. intros ->%str_eqb_eq. by rewrite str_eqb_refl in Hs. }
  intros i j y z [Hi|(Hi & Hy)]%lookup_app_Some [Hj|(Hj & Hz)]%lookup_app_Some Hs.
  - by eapply H2.
  - apply list_elem_of_lookup_2 in Hi. apply list_lookup_singleton_Some in Hz as [_ <-].
    by destruct (Hx y Hi) as [_ E]; rewrite E in Hs.
  - apply list_elem_of_lookup_2 in Hj. apply list_lookup_singleton_Some in Hy as [_ <-].
    by destruct (Hx z Hj) as [E _]; rewrite E in Hs.
  - apply list_lookup_singleton_Some in Hy as [E1 _], Hz as [E2 _]. lia.
Qed.
Lemma schema_insert_event t x :
  event_check t x = None → fk_opt (has_resource t) (e_resource x) = true →
  existsb (same_agent_event x) (events t) = false → schema_ok t → schema_ok (set_events (events t ++ [x]) t).
Proof.
  unfold event_check. intros Hc Hr Ha Hok. tests. apply schema_events; [apply ids_app| |done].
  apply fine_snoc; [| | |apply Hok].
  - by apply event_uniq_snoc.
  - intros r Hq. unfold event_refs in Hq. refs.
  - split_and!; by apply str_mem_elem.
Qed.
Lemma insert_events_schema rows t n t' :
  Forall (λ x, e_resource x = None) rows → insert_events t rows = inl (n, t') → schema_ok t → schema_ok t'.
Proof.
  revert t n. induction rows as [|x rows IH]; intros t n Hf; simpl; [by intros [= _ <-]|].
  apply Forall_cons in Hf as [Hx Hf]. unfold insert_event. destruct (existsb _ _) eqn:Ea.
  - destruct (insert_events t rows) as [[m t1]|] eqn:E; [|done]. intros [= _ <-]. by eapply IH.
  - destruct (event_check t x) eqn:Ec; [done|].
    destruct (insert_events _ rows) as [[m t1]|] eqn:E; [|done]. intros [= _ <-] Hok. eapply IH; [done|exact E|].
    apply schema_insert_event; [done| |done|done]. by rewrite Hx.
Qed.
Lemma insert_schema rows : Forall (λ r, e_resource r = None) rows → keeps schema_ok (Telemetry.insert rows).
Proof.
  intros Hr. apply keeps_tx, keeps_stmt. intros t n t' Hok Hi. by eapply insert_events_schema.
Qed.
Lemma ingest_schema now b ids d inb : keeps schema_ok (Ingest now b ids d inb).
Proof.
  unfold Ingest, activeSession. destruct (normalize_batch _ _ _ _) as [evs rej]. keeps. apply insert_schema.
  apply Forall_forall. intros x (i & e & -> & _)%elem_of_lookup_imap. done.
Qed.
Lemma no_agent_event x l : e_agent_event_id x = None → existsb (same_agent_event x) l = false.
Proof.
  intros Hx. apply not_true_iff_false. intros (y & _ & Hy)%existsb_exists. revert Hy. unfold same_agent_event.
  rewrite Hx. by destruct (e_device x).
Qed.
Lemma backend_event_schema now id e : keeps schema_ok (RecordBackendEvent now id e).
Proof.
  unfold RecordBackendEvent. apply keeps_insert. intros t Hok Hc. apply schema_insert_event; [done..| |done].
  by apply no_agent_event.
Qed.
Lemma resource_event_schema now id e r : keeps schema_ok (recordWithResource now id e r).
Proof.
  unfold recordWithResource. cbv zeta. apply keeps_insert. intros t Hok Hc.
  destruct (event_check t _) eqn:E; [done|]. tests.
  apply schema_insert_event; [done..| |done]. by apply no_agent_event.
Qed.

(** *** Incidents *)

Lemma escalate_schema now id sid u d sev risk title summary :
  keeps schema_ok (OpenOrEscalate now id sid u d sev risk title summary).
Proof.
  unfold OpenOrEscalate. cbv zeta. apply keeps_stmt. intros t x t' Hok. destruct (negb (int2 risk)) eqn:E1; [done|].
  destruct (negb (severity_known sev)) eqn:E2; [done|]. tests. destruct (find _ _) as [i|] eqn:Ef.
  - intros [= _ <-]. apply schema_incidents; [by apply ids_update| |done]. apply fine_update; [| |apply Hok].
    + intros [Hu1 Hu2]. split; by apply unique_update.
    + intros y _ _ Hr (Hs & Hst & Hp). split; [exact Hr|]. split_and!; simpl; [by destruct (_ <? _)|done|].
      destruct (Z.max_spec (i_peak_risk y) risk) as [[_ ->]|[_ ->]]; done.
  - destruct (has_incident t id) eqn:Ei; [done|]. destruct (negb _) eqn:En; [done|]. tests. intros [= _ <-].
    apply schema_incidents; [apply ids_app| |done]. apply fine_snoc; [| | |apply Hok].
    + intros [Hu1 Hu2]. split; (apply unique_snoc; [|done]).
      * intros y Hy E. simpl in E. pose proof (existsb_false _ _ _ Ei Hy) as Hf. simpl in Hf.
        by rewrite E, N.eqb_refl in Hf.
      * intros y Hy E. simpl in E. pose proof (find_none _ _ _ Ef Hy) as Hf. simpl in Hf.
        by rewrite E, str_eqb_refl in Hf.
    + intros r Hr. unfold incident_refs in Hr. simpl in Hr. refs.
    + split_and!; [done|left|done].
Qed.
Lemma attach_all_schema i ids t n t' :
  attach_all i t n ids = inl ((), t') → schema_ok t → schema_ok t'.
Proof.
  revert t n. induction ids as [|e ids IH]; intros t n; simpl; [by intros [= <-]|]. unfold attach_one.
  destruct (existsb _ _) eqn:E; [apply IH|]. destruct (_ && _) eqn:Eh; [|done]. tests. intros Ha Hok.
  apply IH in Ha; [done|]. apply schema_timeline; [|done]. apply fine_snoc; [| |done|apply Hok].
  - apply unique_snoc. intros y Hy [= E1 E2]. pose proof (existsb_false _ _ _ E Hy) as Hf. simpl in Hf.
    by rewrite E1, E2, !N.eqb_refl in Hf.
  - intros r Hr. unfold timeline_refs in Hr. simpl in Hr. refs.
Qed.
Lemma attach_schema i ids : keeps schema_ok (AttachEvents i ids).
Proof.
  unfold AttachEvents. keeps. apply keeps_stmt. intros t [] t' Hok Ha. by eapply attach_all_schema.
Qed.
Lemma status_schema now i st : keeps schema_ok (SetStatus now i st).
Proof.
  unfold SetStatus. keeps. apply keeps_stmt. intros t n t' Hok. cbv zeta.
  destruct (_ && _) eqn:E; [done|]. intros [= _ <-]. apply schema_incidents; [by apply ids_update| |done].
  apply fine_update; [| |apply Hok].
  - intros [Hu1 Hu2]. split; by apply unique_update.
  - intros y Hy Hi Hr (Hs & _ & Hp). split; [exact Hr|]. split_and!; [done| |done]. simpl.
    apply andb_false_iff in E as [E|E]; [|by apply str_mem_elem, negb_false_iff].
    apply Z.ltb_ge in E. assert (0 < count (λ i0, (i_id i0 =? i)%N) (incidents t)); [|lia]. apply count_pos. eauto.
Qed.
Lemma note_schema now id i a b : keeps schema_ok (AddNote now id i a b).
Proof.
  unfold AddNote. apply keeps_insert. intros t Hok Ht. tests. apply schema_notes; [|done].
  apply fine_snoc; [|intros r Hr; unfold note_refs in Hr; simpl in Hr; refs|done|apply Hok].
  apply unique_snoc. fresh_key.
Qed.

(** *** Scores, policies, decisions, posture, baselines *)

Lemma score_schema now id u d a : keeps schema_ok (RiskStore.Record now id u d a).
Proof.
  apply hoare_keeps. unfold RiskStore.Record. apply hoare_tx; try done.
  eapply hoare_bind with (Q := λ i t, (schema_ok t ∧ has_score t i = true) ∧ 0 <= Risk.Score a <= 100).
  { unfold insert_score. eapply hoare_bind with (Q := λ _ t, (schema_ok t ∧ has_score t id = true) ∧ 0 <= Risk.Score a <= 100);
      [|intros _; by apply hoare_ret].
    apply hoare_insert; [|done]. intros t Hok. destruct (has_score t id) eqn:Es; [done|].
    guards.
    split; [|done]. cbv beta. split; [|zlia]. split.
    - apply schema_scores; [apply ids_app| |done]. apply fine_snoc; [| | |apply Hok].
      + apply unique_snoc. by apply (existsb_id_neq rs_id).
      + intros r Hr. unfold score_refs in Hr. simpl in Hr. refs.
      + split; [simpl; zlia|done].
    - apply existsb_ids. simpl. rewrite fmap_app. apply elem_of_app. right. left. }
  intros i. eapply hoare_bind with (Q := λ _ t, schema_ok t ∧ 0 <= Risk.Score a <= 100).
  { apply hoare_insert; [|done]. intros t [[Hok Hs] Hr]. destruct (existsb _ _) eqn:E; [done|]. split; [|done].
    split; [|done]. apply schema_factors; [|done]. apply fine_app; [done| | |apply Hok].
    - intros x r (f & -> & _)%list_elem_of_fmap Hq. unfold factor_refs in Hq. simpl in Hq. refs.
    - intros x (f & -> & Hf)%list_elem_of_fmap. pose proof (existsb_false _ _ _ E Hf) as Hn. simpl in Hn. tests. done. }
  intros ?. eapply hoare_bind with (Q := λ _, schema_ok); [|intros ?; by apply hoare_ret].
  apply hoare_stmt; [|done]. intros t [Hok Hr]. split; [|done]. apply schema_update_session; [done..| |done].
  intros s [_ Ha]. split; [|done]. simpl. by intros r [= <-].
Qed.
Lemma create_schema now id p by_ : keeps schema_ok (PolicyStore.Create now id p by_).
Proof.
  unfold PolicyStore.Create. apply keeps_bind; [apply keeps_lift|]. intros _. apply keeps_stmt. intros t x t' Hok.
  cbv zeta. destruct (negb (int4 _)) eqn:E1; [done|]. destruct (negb (int2 _)) eqn:E2; [done|].
  destruct (negb (str_mem _ _)) eqn:E3; [done|]. destruct (existsb _ _) eqn:E4; [done|].
  destruct (negb (fk_opt _ _)) eqn:E5; [done|]. tests. intros [= _ <-]. apply schema_policies; [|done].
  apply fine_snoc; [| | |apply Hok].
  - intros [Hu1 Hu2]. split; (apply unique_snoc; [|done]).
    + fresh_key.
    + intros y Hy. simpl. intros [= Ey1 Ey2]. pose proof (existsb_false _ _ _ E4 Hy) as Hf. simpl in Hf.
      by rewrite Ey1, Ey2, str_eqb_refl, Z.eqb_refl, orb_true_r in Hf.
  - intros r Hr. unfold policy_refs in Hr. simpl in Hr. refs.
  - split_and!; [by apply str_mem_elem|done..].
Qed.
Lemma defaults_schema now ids : keeps schema_ok (EnsureDefaults now ids).
Proof.
  unfold EnsureDefaults, All. keeps. apply create_all_keeps. intros. apply create_schema.
Qed.
Lemma decision_schema id sid u d rs rr res inc : keeps schema_ok (RecordDecision id sid u d rs rr res inc).
Proof.
  unfold RecordDecision. apply keeps_insert. intros t Hok Ht. tests. apply schema_decisions; [|done].
  apply fine_snoc; [| |done|apply Hok].
  - apply unique_snoc. fresh_key.
  - intros r Hr. unfold decision_refs in Hr. simpl in Hr. refs.
Qed.
Lemma posture_schema now id d s a : keeps schema_ok (PostureStore.Record now id d s a).
Proof.
  unfold PostureStore.Record. cbv zeta. apply keeps_stmt. intros t x t' Hok. guards. intros [= _ <-].
  apply schema_postures; [|done]. apply fine_snoc; [| | |apply Hok].
  - apply unique_snoc. fresh_key.
  - intros r Hr. unfold posture_refs in Hr. simpl in Hr. refs.
  - unfold posture_check. simpl. zlia.
Qed.
Lemma save_schema p : keeps schema_ok (Save p).
Proof.
  unfold Save. cbv zeta. apply keeps_insert. intros t Hok Ht. tests. destruct (existsb _ _) eqn:E.
  - apply schema_profiles; [|done]. apply fine_update; [| |apply Hok].
    + apply unique_update. intros x Hx%N.eqb_eq. by rewrite Hx.
    + intros x _ _ _ _. split; [|done]. intros r Hr. unfold profile_refs in Hr. simpl in Hr. refs.
  - apply schema_profiles; [|done]. apply fine_snoc; [| |done|apply Hok].
    + apply unique_snoc. fresh_key.
    + intros r Hr. unfold profile_refs in Hr. simpl in Hr. refs.
Qed.
Lemma rebuild_schema now u n : keeps schema_ok (Rebuild now u n).
Proof. unfold Rebuild. keeps. apply save_schema. Qed.
Lemma apply_schema now sid d : keeps schema_ok (applyDecision now sid d).
Proof.
  unfold applyDecision. keeps; apply keeps_exec; intros t Hok; by apply schema_update_session.
Qed.
Lemma evaluate_schema engine now fresh sid trigger : keeps schema_ok (Trust.Evaluate engine now fresh sid trigger).
Proof.
  unfold Trust.Evaluate, loadSession, gather, behavioural, peakSensitivity, prior_sessions, PostureStore.Latest, Load, CountByType,
    CountRecentIncidents, CountRecentDenials, Active, recordDerivedEvents.
  keeps; auto using apply_schema, score_schema, escalate_schema, decision_schema, backend_event_schema.
Qed.
Lemma audit_schema sha now gap e : keeps schema_ok (AuditLog.Record sha inet now gap e).
Proof.
  unfold AuditLog.Record. keeps. apply keeps_insert. intros t Hok Ht. tests. apply schema_audit; [|done].
  apply fine_snoc; [|by intros r ?%elem_of_nil|by apply str_mem_elem|apply Hok].
  apply unique_snoc. intros y Hy E. simpl in E.
  assert (a_seq y <= last_seq t); [|lia]. by apply last_seq_ge.
Qed.

(** *** People and the simulator *)

Lemma schema_users_with t t' :
  (∃ l, t' = set_users l t ∧ u_id <$> users t ⊆ u_id <$> l) → users_ok t' → schema_ok t → schema_ok t'.
Proof. intros (l & -> & Hs) Hu. by apply schema_users. Qed.
Lemma resolve_schema now id claims : keeps schema_ok (ResolveFromClaims now id claims).
Proof.
  unfold ResolveFromClaims. keeps. apply hoare_keeps, upsert_cases; [| |done].
  - intros t u rl Hok Hu Hs Hx t'. assert (schema_ok t'); [|done].
    eapply schema_users_with; [|apply users_refresh; [done|apply Hok]|done].
    eexists. split; [done|]. by apply ids_update.
  - intros t rl Hok Hn u t'. assert (schema_ok t'); [|done].
    eapply schema_users_with; [|apply users_insert; [done|apply Hok]|done].
    eexists. split; [done|]. apply ids_app.
Qed.
Lemma sim_user_schema now id : keeps schema_ok (sim_user now id).
Proof.
  apply keeps_stmt. intros t x t' Hok Hr. eapply schema_users_with; [| |done].
  - revert Hr. cbv zeta. destruct (find _ _); [|destruct (existsb _ _); [done|]]; intros [= _ <-];
      (eexists; split; [done|]); [by apply ids_update|apply ids_app].
  - revert Hr. cbv zeta. destruct Hok as [[H1 [H2 H3]]]. destruct (find _ (users t)) eqn:Ef.
    + intros [= _ <-]. split_and!; simpl; by rewrite update_keys.
    + destruct (existsb _ _) eqn:Ee; [done|]. intros [= _ <-]. apply users_insert; [|done].
      intros v Hv. pose proof (find_none _ _ _ Ef Hv) as Hf. pose proof (existsb_false _ _ _ Ee Hv) as Hx.
      apply orb_false_iff in Hx as [Hx1 Hx2%N.eqb_neq]. simpl in Hf. split_and!; [|done|].
      * intros E. by rewrite E in Hf.
      * intros E. by rewrite E, str_eqb_refl in Hx1.
Qed.
Lemma sim_device_schema now id uid hostname key : keeps schema_ok (sim_device now id uid hostname key).
Proof.
  apply keeps_stmt. intros t x t' Hok. cbv zeta. destruct (find _ (devices t)) eqn:Ef.
  - intros [= _ <-]. by apply schema_update_device.
  - destruct (existsb _ _) eqn:Ee; [done|]. intros [= _ <-]. apply schema_insert_device; [|split; [done|left]|done].
    intros d Hd. split.
    + intros Hu. pose proof (find_none _ _ _ Ef Hd) as Hf. simpl in Hf, Hu. by rewrite Hu, str_eqb_refl in Hf.
    + pose proof (existsb_false _ _ _ Ee Hd) as Hf. by apply N.eqb_neq.
Qed.
Lemma sim_session_schema id u d st ip started seen ended :
  keeps schema_ok (sim_session inet id u d st ip started seen ended).
Proof.
  apply keeps_stmt. intros t x t' Hok. guards. destruct (inet ip) as [a|]; [|done]. intros [= _ <-].
  apply schema_insert_session; [done..| |done]. split; [done|]. right. left.
Qed.

Lemma run_schema engine now o : keeps schema_ok (run parse_addr inet engine now o).
Proof.
  destruct o; unfold run, void; try (apply keeps_bind; [|intros ?; apply keeps_ret]);
    auto using issue_token_schema, enroll_schema, request_schema, heartbeat_schema, revoke_schema, prune_schema,
      issue_nonce_schema, begin_schema, end_schema, touch_schema, ingest_schema, backend_event_schema, attach_schema,
      status_schema, note_schema, create_schema, defaults_schema, posture_schema, rebuild_schema, evaluate_schema,
      audit_schema, resolve_schema.
  - unfold EvaluateDevice. keeps. apply evaluate_schema.
  - apply simulate_keeps; intros; auto using sim_user_schema, sim_device_schema, sim_session_schema, posture_schema,
      backend_event_schema, resource_event_schema, rebuild_schema, evaluate_schema.
Qed.
End Operations.

(** ** Nothing that is referred to disappears *)

Lemma grows_appended_events rows t n t' : insert_events t rows = inl (n, t') → grows t t'.
Proof.
  revert t n. induction rows as [|x rows IH]; intros t n; simpl; [intros [= _ <-]; apply grows_refl|]. unfold insert_event.
  destruct (existsb _ _).
  - destruct (insert_events t rows) as [[m t1]|] eqn:E; [|done]. intros [= _ <-]. by eapply IH.
  - destruct (event_check t x); [done|]. destruct (insert_events _ rows) as [[m t1]|] eqn:E; [|done].
    intros [= _ <-]. eapply grows_trans; [|by eapply IH]. apply grows_events, ids_app.
Qed.
Ltac grown := first
  [apply grows_users|apply grows_devices|apply grows_sessions|apply grows_events|apply grows_scores|apply grows_incidents];
  first [apply ids_app|apply ids_update; reflexivity].
Lemma grows_keeps `{Crypto} parse_addr inet engine t0 now o : keeps (grows t0) (run parse_addr inet engine now o).
Proof.
  destruct o; frame;
  lazymatch goal with
  | |- keeps _ (exec _) => apply keeps_exec; intros ? Ht; eapply grows_trans; [exact Ht|]; simpl; grown
  | |- keeps _ (insert_if _ _) => apply keeps_insert; intros ? Ht _; eapply grows_trans; [exact Ht|]; grown
  | |- keeps _ (stmt (λ t, insert_events _ _)) =>
      apply keeps_stmt; intros ? ? ? Ht Hi; eapply grows_trans; [exact Ht|eapply grows_appended_events; exact Hi]
  | |- keeps _ (stmt _) => apply keeps_stmt; intros ? ? ? Ht Hr; eapply grows_trans; [exact Ht|];
      cbv zeta in Hr; repeat case_match; simplify_eq; grown
  end.
Qed.

(** The tables keep the schema.  Along every run, whatever fails, tables that
    satisfy the constraints that [schema_ok] lists (primary keys and unique indexes,
    foreign keys, enumerations and ranges) still satisfy them, and every user,
    device, session, event, score, incident and resource that could be referred to
    still can. *)
Theorem schema_respected {C : Crypto} (parse_addr inet : string → option string) (engine : Risk.Engine)
    (now now' : Z) (t t' : Tables) :
  schema_ok t → steps parse_addr inet engine (λ _, True) now t now' t' → schema_ok t' ∧ grows t t'.
Proof.
  intros Hok Hs. split; (eapply steps_keeps; [|exact Hs|]); [|exact Hok| |apply grows_refl].
  - intros n o _ _. apply run_schema.
  - intros n o _ _. apply grows_keeps.
Qed.

(** The tables right after the migrations: only the catalogue has rows. *)
Lemma schema_migrated `{Crypto} (catalogue : list resource_row) :
  schema_ok (mkTables [] [] [] [] [] [] [] catalogue [] [] [] [] [] [] [] [] [] []).
Proof.
  split; [|split; [|by intros x r ?%elem_of_nil|by intros x ?%elem_of_nil]..];
    repeat split; try apply NoDup_nil_2; done.
Qed.
