(* ===== verification/Concurrency.v ===== *)
(** * Concurrent transactions

    The rest of the library runs one operation at a time.  Three operations read
    before they write and rely on a lock to do so: the append to the audit log (an
    advisory lock), enrolment (the token row is read FOR UPDATE) and the opening of a
    session (the challenge row is read FOR UPDATE).  Here their transactions run
    statement by statement, interleaved in any order with each other and with every
    other operation, and can be cut off at any point.

    The database is PostgreSQL at READ COMMITTED: a statement sees what is committed
    when it runs and what its own transaction wrote; the writes of a transaction
    appear when it commits; locks are kept until it ends.  The insertion of a key into
    a unique index excludes another insertion of that key until the transaction ends.
    Every other operation is one step here, also where the code makes it of several
    statements ([Interleave] cuts those); it waits while it would change what a lock protects.  A row that does
    not exist cannot be locked: the transaction that looks for it ends at once, so
    holding its key changes nothing. *)

From S2P Require Import Prelude GoStd Encode Risk Posture Policy Behaviour Db AuditLog Device Session.
From S2P Require Import Telemetry Incident RiskStore PolicyStore PostureStore BehaviourStore Trust.
From S2P Require Import System SystemProps SessionProps HttpProps UserProps Schema.
Open Scope Z_scope.
Open Scope go_scope.

(** ** Locks *)

Inductive key :=
  | KAudit                      (* pg_advisory_xact_lock(chainLockID) *)
  | KToken (hash : string)      (* the row of a token *)
  | KNonce (nonce : string)     (* the row of a challenge *)
  | KDeviceUid (uid : string)   (* an entry of an index *)
  | KDeviceId (id : uuid)
  | KSession (id : uuid).
#[export] Instance key_eq : EqDecision key.
Proof. solve_decision. Defined.

(** What a lock keeps others from changing. *)
Definition protects (k : key) (t t' : Tables) : Prop :=
  match k with
  | KAudit => audit_logs t' = audit_logs t
  | KToken h => List.filter (λ x, str_eqb (t_hash x) h) (tokens t') = List.filter (λ x, str_eqb (t_hash x) h) (tokens t)
  | KNonce n => List.filter (λ x, str_eqb (n_nonce x) n) (session_nonces t') =
                List.filter (λ x, str_eqb (n_nonce x) n) (session_nonces t)
  | KDeviceUid u => existsb (λ d, str_eqb (d_uid d) u) (devices t') = existsb (λ d, str_eqb (d_uid d) u) (devices t)
  | KDeviceId i => has_device t' i = has_device t i
  | KSession i => has_session t' i = has_session t i
  end.

(** ** Transactions as sequences of statements *)

(** A statement reads the tables and yields a value and a write, or fails, which ends
    the transaction with the error the code makes of it. *)
Inductive prog (A : Type) : Type :=
  | Done (a : A)
  | Abort (e : error)
  | Take (k : key) (p : prog A)
  | Stmt (B : Type) (f : Tables → (B * (Tables → Tables)) + error) (onerr : error → error) (p : B → prog A).
Arguments Done {A}. Arguments Abort {A}. Arguments Take {A}. Arguments Stmt {A B}.

(** The transaction run alone. *)
Fixpoint denote {A} (p : prog A) : M A :=
  match p with
  | Done a => ret a
  | Abort e => fail e
  | Take _ p => denote p
  | Stmt f onerr p =>
      r <-- try (stmt (λ t, match f t with inl (b, write) => inl (b, write t) | inr e => inr e end)) ;;
      match r with inl b => denote (p b) | inr e => fail (onerr e) end
  end.

Inductive result_ := RRecorded | REnrolled (d : Device.Device) | ROpened (s : session_row).
Inductive job :=
  | JRecord (now : Z) (gap : N) (e : Entry)
  | JEnroll (now : Z) (id : uuid) (token : string) (req : EnrollRequest)
  | JOpen (now : Z) (id : uuid) (req : BeginRequest) (device : uuid).

Section Programs.
Context `{Crypto} (parse_addr inet : string → option string).

(** The constraints of [audit_logs]. *)
Definition audit_refused (e : Entry) : option error :=
  if negb (str_mem (EActorType e) [ActorUser; ActorDevice; ActorSystem; ActorSimulator])
  then Some (ErrDB "audit_logs_actor_type_known")
  else match nullable (SourceIP e) with
       | Some ip => match inet ip with None => Some (ErrDB "invalid inet") | Some _ => None end
       | None => None end.
Definition record_prog (now : Z) (gap : N) (e : Entry) : prog result_ :=
  let entry := stamped now e in
  if str_eqb (Action entry) "" || str_eqb (EActorType entry) "" then Abort ErrAuditEntry else
  Take KAudit (Stmt (λ _, inl ((), λ t', t')) (λ e, e) (λ _,
  Stmt (λ t, inl (head_hash t, λ t', t')) (λ _, ErrDB "read audit chain head") (λ head,
  let prevHash := default "" head in
  Stmt (λ t,
    match audit_refused entry with
    | Some e => inr e
    | None => let row := new_row sha256sum inet t gap prevHash entry in
        inl ((), λ t', set_audit_logs (audit_logs t' ++ [row]) t')
    end) (λ e, e) (λ _, Done RRecorded)))).

(** [SELECT ... FROM enrollment_tokens WHERE token_hash = $1 FOR UPDATE]. *)
Definition read_token (sum : string) (t : Tables) : (option token_row * (Tables → Tables)) + error :=
  inl (find (λ k, str_eqb (t_hash k) sum) (tokens t), λ t', t').
Definition create_device (now : Z) (id : uuid) (req : EnrollRequest) (t : Tables) :
    (Device.Device * (Tables → Tables)) + error :=
  if existsb (λ d, str_eqb (d_uid d) (rq_DeviceUID req) || (d_id d =? id)%N) (devices t) then inr ErrUnique
  else inl (scanDevice (device_of now id req), λ t', set_devices (devices t' ++ [device_of now id req]) t').
Definition enroll_prog (now : Z) (id : uuid) (token : string) (req : EnrollRequest) : prog result_ :=
  match EnrollRequest_Validate req with
  | inr e => Abort e
  | inl _ =>
      let sum := sha256sum (trim_space token) in
      Take (KToken sum) (Stmt (read_token sum) (λ _, ErrDB "look up enrollment token") (λ r,
      match r with
      | None => Abort ErrEnrollmentToken
      | Some tok =>
          if negb (bool_decide (t_used_at tok = None)) || time_after now (t_expires_at tok)
          then Abort ErrEnrollmentToken else
          Take (KDeviceUid (rq_DeviceUID req)) (Take (KDeviceId id) (Stmt (create_device now id req)
            (λ e, match e with ErrUnique => ErrDeviceExists | _ => ErrDB "create device" end) (λ created,
          Stmt (λ _, inl ((), λ t', set_tokens (update (λ k, (t_id k =? t_id tok)%N)
             (λ k, mkToken (t_id k) (t_hash k) (t_label k) (t_created_by k) (t_created_at k)
                (t_expires_at k) (Some (pg_time now)) (Some (Device.ID created))) (tokens t')) t')) (λ e, e)
            (λ _, Done (REnrolled created)))))
      end))
  end.

(** [SELECT ... FROM session_nonces WHERE nonce = $1 FOR UPDATE]. *)
Definition read_nonce (nonce : string) (t : Tables) : (option nonce_row * (Tables → Tables)) + error :=
  inl (find (λ n, str_eqb (n_nonce n) nonce) (session_nonces t), λ t', t').
Definition create_session (now : Z) (id : uuid) (req : BeginRequest) (device : uuid) (t : Tables) :
    (session_row * (Tables → Tables)) + error :=
  if existsb (λ s, (s_id s =? id)%N) (sessions t) then inr ErrUnique
  else if negb (has_user t (bq_UserID req) && has_device t device) then inr (ErrDB "foreign key")
  else match parse_addr (bq_SourceIP req) with
    | None => let s := session_of now id (bq_UserID req) device None in
        inl (s, λ t', set_sessions (sessions t' ++ [s]) t')
    | Some a => match inet a with
        | None => inr (ErrDB "invalid inet")
        | Some ip => let s := session_of now id (bq_UserID req) device (Some ip) in
            inl (s, λ t', set_sessions (sessions t' ++ [s]) t')
        end
    end.
Definition open_prog (now : Z) (id : uuid) (req : BeginRequest) (device : uuid) : prog result_ :=
  Take (KNonce (bq_Nonce req)) (Stmt (read_nonce (bq_Nonce req)) (λ _, ErrDB "look up attestation nonce") (λ r,
  match r with
  | None => Abort ErrNonce
  | Some n =>
      if negb (bool_decide (n_used_at n = None)) || time_after now (n_expires_at n)
         || negb (n_user n =? bq_UserID req)%N then Abort ErrNonce else
      Take (KSession id) (Stmt (create_session now id req device) (λ e, e) (λ created,
      Stmt (λ _, inl ((), λ t', set_session_nonces (update (λ n, str_eqb (n_nonce n) (bq_Nonce req))
        (λ n, mkNonce (n_nonce n) (n_user n) (n_issued_at n) (n_expires_at n) (Some (pg_time now))
           (Some (s_id created))) (session_nonces t')) t')) (λ e, e) (λ _, Done (ROpened created))))
  end)).

Definition program (j : job) : prog result_ :=
  match j with
  | JRecord now gap e => record_prog now gap e
  | JEnroll now id token req => enroll_prog now id token req
  | JOpen now id req device => open_prog now id req device
  end.
(** The operation of the stores it is. *)
Definition operation (j : job) : M result_ :=
  match j with
  | JRecord now gap e => AuditLog.Record sha256sum inet now gap e ;;; ret RRecorded
  | JEnroll now id token req => d <-- Enroll now id token req ;; ret (REnrolled d)
  | JOpen now id req device => s <-- open_session parse_addr inet now id req device ;; ret (ROpened s)
  end.

(** Alone, the sequences of statements are the operations. *)
Lemma denote_stmt {A B} (f : Tables → (B * (Tables → Tables)) + error) onerr (p : B → prog A) t :
  denote (Stmt f onerr p) (calm t) =
  match f t with inl (b, write) => denote (p b) (calm (write t)) | inr e => (inr (onerr e), calm t) end.
Proof. cbn. unfold bind, try. rewrite stmt_calm. by destruct (f t) as [[b w]|e]. Qed.

Lemma denote_take {A} k (p : prog A) : denote (Take k p) = denote p.
Proof. done. Qed.

Lemma program_faithful j t : tx (denote (program j)) (calm t) = operation j (calm t).
Proof.
  destruct j as [now gap e|now id token req|now id req dev]; cbn [program operation].
  - unfold record_prog, AuditLog.Record. cbv zeta. fold (stamped now e). destruct (_ || _); [done|].
    unfold bind at 1. rewrite !tx_calm, ?denote_take, !denote_stmt. cbv beta iota zeta.
    unfold audit_refused, new_row, bind, try, query, query_row, insert_if. rewrite !stmt_calm.
    destruct (head_hash t) as [h|]; cbv beta iota zeta; rewrite ?stmt_calm; (destruct (negb _); [done|]);
      (destruct (nullable (SourceIP _)) as [ip|]; [cbn [mbind option_bind]; destruct (inet ip)|]); done.
  - unfold enroll_prog, Enroll. cbv zeta. destruct (EnrollRequest_Validate req) as [[]|e]; [|done].
    unfold bind at 1 2, lift. rewrite !tx_calm, ?denote_take, denote_stmt.
    unfold read_token, insert_device, bind, try, query, query_row, exec. rewrite !stmt_calm.
    destruct (find _ (tokens t)) as [tok|]; [|done]. unfold ret at 1. cbv beta iota. destruct (_ || _); [done|]. cbv beta iota.
    rewrite ?denote_take, denote_stmt, stmt_calm. unfold create_device. by destruct (existsb _ _).
  - unfold open_prog, open_session. cbv zeta. unfold bind at 1. rewrite !tx_calm, ?denote_take, denote_stmt.
    unfold read_nonce, insert_session, bind, try, query, query_row, exec. rewrite !stmt_calm.
    destruct (find _ (session_nonces t)) as [n|]; [|done]. unfold ret at 1. cbv beta iota. destruct (_ || _); [done|]. cbv beta iota.
    rewrite ?denote_take, denote_stmt, stmt_calm. unfold create_session.
    destruct (existsb _ _); [done|]. destruct (negb _); [done|].
    destruct (parse_addr _) as [a|]; [destruct (inet a)|]; done.
Qed.

(** ** Threads *)

(** [held] are the locks of a running transaction, [own] what it has written: it sees
    [own] of the committed tables. *)
Inductive thread :=
  | Idle (j : job)
  | Running (j : job) (held : list key) (own : Tables → Tables) (p : prog result_)
  | Committed (j : job) (r : result_)
  | Aborted (j : job).
Definition holds (th : thread) (k : key) : Prop :=
  match th with Running _ held _ _ => k ∈ held | _ => False end.

(** What took effect, in the order in which it did. *)
Inductive event := EvTx (j : job) (r : result_) | EvOp (now : Z) (o : op).
Record config := mkConfig { committed : Tables; threads : list thread; history : list event }.
Definition start (t : Tables) (js : list job) : config := mkConfig t (Idle <$> js) [].
(** The replies of the transactions that committed. *)
Definition reply (th : thread) : option (job * result_) :=
  match th with Committed j r => Some (j, r) | _ => None end.
Definition replies (c : config) : list (job * result_) := omap reply (threads c).
Definition tx_of (e : event) : option (job * result_) := match e with EvTx j r => Some (j, r) | EvOp _ _ => None end.
Definition becomes (i : nat) (th : thread) (c : config) : config :=
  mkConfig (committed c) (<[i := th]> (threads c)) (history c).

Context (engine : Risk.Engine).

Inductive step (c : config) : config → Prop :=
  | step_begin i j :
      threads c !! i = Some (Idle j) → step c (becomes i (Running j [] id (program j)) c)
  | step_take i j held own k p :
      threads c !! i = Some (Running j held own (Take k p)) →
      (∀ i' th, threads c !! i' = Some th → i' ≠ i → ¬ holds th k) →
      step c (becomes i (Running j (k :: held) own p) c)
  | step_stmt i j held own B (f : Tables → (B * (Tables → Tables)) + error) onerr p b write :
      threads c !! i = Some (Running j held own (Stmt f onerr p)) →
      f (own (committed c)) = inl (b, write) →
      step c (becomes i (Running j held (λ t, write (own t)) (p b)) c)
  | step_refused i j held own B (f : Tables → (B * (Tables → Tables)) + error) onerr p e :
      threads c !! i = Some (Running j held own (Stmt f onerr p)) →
      f (own (committed c)) = inr e → step c (becomes i (Aborted j) c)
  | step_abort i j held own p :   (* a lost connection, a deadlock, or the code gives up *)
      threads c !! i = Some (Running j held own p) → step c (becomes i (Aborted j) c)
  | step_commit i j held own r :
      threads c !! i = Some (Running j held own (Done r)) →
      step c (mkConfig (own (committed c)) (<[i := Committed j r]> (threads c)) (history c ++ [EvTx j r]))
  | step_operation now o w x w' :
      db w = committed c → run parse_addr inet engine now o w = (x, w') →
      (∀ i th k, threads c !! i = Some th → holds th k → protects k (committed c) (db w')) →
      step c (mkConfig (db w') (threads c) (history c ++ [EvOp now o])).

(** The same effects one after the other: the transactions whole, with the results
    they gave. *)
Inductive replay (t : Tables) : list event → Tables → Prop :=
  | replay_nil : replay t [] t
  | replay_tx h t1 t2 j r :
      replay t h t1 → operation j (calm t1) = (inl r, calm t2) → replay t (h ++ [EvTx j r]) t2
  | replay_op h w x w' now o :
      replay t h (db w) → run parse_addr inet engine now o w = (x, w') → replay t (h ++ [EvOp now o]) (db w').

(** An executable scheduler: a thread does its next step, is cut off, or an operation
    runs while no transaction does. *)
Inductive choice := Go (i : nat) | Cut (i : nat) | Do (now : Z) (o : op).
Definition held_by (th : thread) : list key := match th with Running _ held _ _ => held | _ => [] end.
Definition advance (i : nat) (c : config) : option config :=
  match threads c !! i with
  | Some (Idle j) => Some (becomes i (Running j [] id (program j)) c)
  | Some (Running j held own (Take k p)) =>
      if existsb (λ th, bool_decide (k ∈ held_by th)) (delete i (threads c)) then None
      else Some (becomes i (Running j (k :: held) own p) c)
  | Some (Running j held own (Stmt f onerr p)) =>
      match f (own (committed c)) with
      | inl (b, write) => Some (becomes i (Running j held (λ t, write (own t)) (p b)) c)
      | inr _ => Some (becomes i (Aborted j) c)
      end
  | Some (Running j _ _ (Abort _)) => Some (becomes i (Aborted j) c)
  | Some (Running j _ own (Done r)) =>
      Some (mkConfig (own (committed c)) (<[i := Committed j r]> (threads c)) (history c ++ [EvTx j r]))
  | _ => None
  end.
Definition choose (x : choice) (c : config) : option config :=
  match x with
  | Go i => advance i c
  | Cut i => match threads c !! i with Some (Running j _ _ _) => Some (becomes i (Aborted j) c) | _ => None end
  | Do now o =>
      if existsb (λ th, negb (bool_decide (held_by th = []))) (threads c) then None
      else Some (mkConfig (db (run parse_addr inet engine now o (calm (committed c))).2) (threads c)
                   (history c ++ [EvOp now o]))
  end.
Fixpoint schedule (xs : list choice) (c : config) : option config :=
  match xs with [] => Some c | x :: xs => c' ← choose x c; schedule xs c' end.

Lemma holds_held th k : holds th k ↔ k ∈ held_by th.
Proof. destruct th; simpl; rewrite ?elem_of_nil; done. Qed.
Lemma advance_step i c c' : advance i c = Some c' → step c c'.
Proof.
  unfold advance. destruct (threads c !! i) as [[j|j held own [r|e|k p|B f onerr p]|j r|j]|] eqn:El; try done.
  - intros [= <-]. by apply step_begin.
  - intros [= <-]. by eapply step_commit.
  - intros [= <-]. by eapply step_abort.
  - destruct (existsb _ _) eqn:E; [done|]. intros [= <-]. eapply step_take; [done|].
    intros i' th Hl Hne Hh%holds_held. assert (th ∈ delete i (threads c)) as Hin.
    { apply list_elem_of_lookup. exists (if decide (i' < i)%nat then i' else pred i').
      destruct (decide (i' < i)%nat); [by rewrite list_lookup_delete_lt|].
      rewrite list_lookup_delete_ge by lia. by replace (S (pred i')) with i' by lia. }
    pose proof (existsb_false _ _ _ E Hin) as Hf. by apply bool_decide_eq_false in Hf.
  - destruct (f _) as [[b write]|e] eqn:Ef; intros [= <-]; [by eapply step_stmt|by eapply step_refused].
Qed.
Lemma choose_step x c c' : choose x c = Some c' → step c c'.
Proof.
  destruct x as [i|i|now o]; cbn [choose]; [apply advance_step|..].
  - destruct (threads c !! i) as [[]|] eqn:El; try done. intros [= <-]. by eapply step_abort.
  - destruct (existsb _ _) eqn:E; [done|]. intros [= <-]. eapply step_operation; [|apply surjective_pairing|]; [done|].
    intros i th k Hl Hh%holds_held. pose proof (existsb_false _ _ _ E (list_elem_of_lookup_2 _ _ _ Hl)) as Hf.
    apply negb_false_iff, bool_decide_eq_true in Hf. rewrite Hf in Hh. by apply elem_of_nil in Hh.
Qed.
Lemma schedule_steps xs c c' : schedule xs c = Some c' → rtc step c c'.
Proof.
  revert c. induction xs as [|x xs IH]; intros c; simpl; [by intros [= <-]|].
  destruct (choose x c) as [c1|] eqn:E; simpl; [|done]. intros Hs. eapply rtc_l; [by eapply choose_step|by apply IH].
Qed.

(** ** Why it is serialisable *)

(** A change of the committed tables that the holder of [held] can live through. *)
Definition respects (held : list key) (t t' : Tables) : Prop :=
  schema_ok t ∧ schema_ok t' ∧ grows t t' ∧ ∀ k, k ∈ held → protects k t t'.
Definition stable (held : list key) (K : Tables → Prop) : Prop := ∀ t t', respects held t t' → K t → K t'.
(** What a transaction has read ([K]) stays so while it holds its locks, and in the
    end it has only changed what its locks cover. *)
Fixpoint good {A} (K : Tables → Prop) (held : list key) (own : Tables → Tables) (p : prog A) : Prop :=
  match p with
  | Done _ => ∀ t k, schema_ok t → K t → k ∉ held → protects k t (own t)
  | Abort _ => True
  | Take k p => good K (k :: held) own p
  | @Stmt _ B f _ p => ∀ (b : B) (write : Tables → Tables),
      let K' t := K t ∧ f (own t) = inl (b, write) in
      (∃ t, schema_ok t ∧ K' t) → stable held K' ∧ good K' held (λ t, write (own t)) (p b)
  end.

Lemma str_eqb_differs s t : s ≠ t → str_eqb s t = false.
Proof. intros Hn. apply not_true_iff_false. by rewrite str_eqb_eq. Qed.
Lemma find_filter {A} (p : A → bool) l : find p l = head (List.filter p l).
Proof. induction l as [|x l IH]; simpl; [done|]. by destruct (p x). Qed.
Lemma find_same {A} (p : A → bool) l l' : List.filter p l' = List.filter p l → find p l' = find p l.
Proof. intros E. by rewrite !find_filter, E. Qed.
Lemma existsb_or {A} (p q : A → bool) l : existsb (λ x, p x || q x) l = existsb p l || existsb q l.
Proof. induction l as [|x l IH]; simpl; [done|]. rewrite IH. by destruct (p x), (q x), (existsb p l). Qed.
(** Rows outside a filter can be rewritten. *)
Lemma filter_update {A} (p q : A → bool) f l :
  (∀ x, x ∈ l → q x = true → p x = false ∧ p (f x) = false) → List.filter p (update q f l) = List.filter p l.
Proof.
  induction l as [|x l IH]; intros Hx; [done|]. unfold update in *. cbn [fmap list_fmap List.filter].
  rewrite IH by (intros y Hy; apply Hx; by right).
  destruct (q x) eqn:Eq; [|done]. destruct (Hx x ltac:(left) Eq) as [-> ->]. done.
Qed.

Lemma record_good now gap e : good (λ _, True) [] id (record_prog now gap e).
Proof.
  unfold record_prog. destruct (_ || _); [done|]. cbn [good].
  assert (∀ t t', respects [KAudit] t t' → audit_logs t' = audit_logs t) as Hlog.
  { intros t t' (_ & _ & _ & Hk). apply (Hk KAudit). left. }
  intros [] w (_ & _ & _ & [= <-]). split; [by intros t t' _ H1|]. intros h w (_ & _ & _ & [= _ <-]). split.
  { intros t t' Hr [H1 H2]. split; [done|]. unfold head_hash, id in *. by rewrite (Hlog t t' Hr). }
  intros [] w (t0 & _ & _ & Ew). destruct (audit_refused _); [done|]. injection Ew as <-. split.
  - intros t t' Hr [[H1 H2] H3]. unfold new_row, last_seq, head_hash, id in *. by rewrite (Hlog t t' Hr).
  - intros t k _ _ Hk. by destruct k; [destruct Hk; left|..].
Qed.

(** The rows that a token or a challenge is. *)
Lemma tokens_apart (f : token_row → token_row) t tok h h' :
  schema_ok t → find (λ k, str_eqb (t_hash k) h) (tokens t) = Some tok → h' ≠ h → (∀ x, t_hash (f x) = t_hash x) →
  List.filter (λ k, str_eqb (t_hash k) h') (update (λ k, (t_id k =? t_id tok)%N) f (tokens t)) =
  List.filter (λ k, str_eqb (t_hash k) h') (tokens t).
Proof.
  intros Hok [Hin Hh%str_eqb_eq]%find_some Hne Hf. apply filter_update. intros x Hx Hi%N.eqb_eq.
  assert (x = tok) as -> by (eapply (unique_key t_id); [apply (so_tokens t Hok)|done..]).
  rewrite Hf, Hh. split; apply str_eqb_differs; congruence.
Qed.
Lemma stable_more held held' K : held ⊆ held' → stable held K → stable held' K.
Proof. intros Hs HK t t' (H1 & H2 & H3 & H4). apply HK. split_and!; auto. Qed.
Lemma stable_and {B} held K (f : Tables → B) (own : Tables → Tables) (r : B) :
  stable held K → (∀ t t', respects held t t' → f (own t) = r → f (own t') = r) →
  stable held (λ t, K t ∧ f (own t) = r).
Proof. intros HK Hf t t' Hr [H1 H2]. split; [by eapply HK|by eapply Hf]. Qed.
Lemma stable_true held : stable held (λ _, True).
Proof. done. Qed.

Lemma enroll_good now id_ token req : good (λ _, True) [] id (enroll_prog now id_ token req).
Proof.
  unfold enroll_prog. destruct (EnrollRequest_Validate req); [|done]. cbv zeta. set (sum := sha256sum _). cbn [good].
  intros r w (_ & _ & _ & [= _ <-]).
  assert (stable [KToken sum] (λ t, True ∧ read_token sum (id t) = inl (r, λ t', t'))) as Hread.
  { apply stable_and; [done|]. intros t t' (_ & _ & _ & Hk) <-. unfold read_token, id. do 2 f_equal.
    apply find_same. apply (Hk (KToken sum)). left. }
  split; [exact Hread|]. destruct r as [tok|]; [|done]. destruct (_ || _); [done|]. cbn [good].
  set (held := [_; _; _]).
  intros d w Hw. 
  assert (stable held (λ t, (True ∧ read_token sum (id t) = inl (Some tok, λ t', t')) ∧ create_device now id_ req (id t) = inl (d, w))) as Hins.
  { apply stable_and; [eapply stable_more; [|exact Hread]; set_solver|].
    intros t t' (_ & _ & _ & Hk) <-. unfold create_device, id. rewrite !existsb_or.
    pose proof (Hk (KDeviceUid (rq_DeviceUID req)) ltac:(set_solver)) as ->.
    pose proof (Hk (KDeviceId id_) ltac:(set_solver)) as Hi. unfold protects, has_device in Hi. by rewrite Hi. }
  split; [exact Hins|]. destruct Hw as (t0 & _ & _ & Ew). unfold create_device in Ew. destruct (existsb _ _); [done|].
  injection Ew as <- <-. intros [] w (_ & _ & _ & [= <-]). split; [intros t t' Hr [H1 H2]; split; [by eapply Hins|done]|].
  intros t k Hok [[[_ Hf] H2] _] Hk. destruct k as [|h|n|uid|i|i]; try done; cbn.
  - injection Hf as Hf. apply (tokens_apart _ t tok sum h); [done..| |done]. intros ->. apply Hk. set_solver.
  - unfold id. rewrite existsb_app. simpl. rewrite str_eqb_differs; [by rewrite orb_false_r|].
    intros <-. apply Hk. unfold held. set_solver.
  - unfold has_device. simpl. unfold id. rewrite existsb_app. simpl. 
    rewrite (proj2 (N.eqb_neq _ _)); [by rewrite orb_false_r|]. intros <-. apply Hk. unfold held. set_solver.
Qed.
Lemma open_good now id_ req dev : good (λ _, True) [] id (open_prog now id_ req dev).
Proof.
  unfold open_prog. cbv zeta. set (nonce := bq_Nonce req). cbn [good].
  intros r w (_ & _ & _ & [= _ <-]).
  assert (stable [KNonce nonce] (λ t, True ∧ read_nonce nonce (id t) = inl (r, λ t', t'))) as Hread.
  { apply stable_and; [done|]. intros t t' (_ & _ & _ & Hk) <-. unfold read_nonce, id. do 2 f_equal.
    apply find_same. apply (Hk (KNonce nonce)). left. }
  split; [exact Hread|]. destruct r as [n|]; [|done]. destruct (_ || _); [done|]. cbn [good].
  set (held := [_; _]).
  intros s w Hw.
  assert (stable held (λ t, (True ∧ read_nonce nonce (id t) = inl (Some n, λ t', t')) ∧ create_session now id_ req dev (id t) = inl (s, w))) as Hins.
  { apply stable_and; [eapply stable_more; [|exact Hread]; set_solver|].
    intros t t' (_ & _ & Hg & Hk). unfold create_session, id.
    pose proof (Hk (KSession id_) ltac:(set_solver)) as Hi. unfold protects, has_session in Hi. rewrite Hi.
    destruct (existsb _ (sessions t)); [intros [=]|].
    destruct (has_user t _ && has_device t _) eqn:E; cbn [negb]; [|intros [=]].
    apply andb_true_iff in E as [E1 E2]. pose proof (Hg (RUser _) E1) as E3. pose proof (Hg (RDevice _) E2) as E4.
    simpl in E3, E4. by rewrite E3, E4. }
  split; [exact Hins|]. destruct Hw as (t0 & _ & _ & Ew).
  assert (s_id s = id_ ∧ w = λ t', set_sessions (sessions t' ++ [s]) t') as [Hs ->].
  { revert Ew. unfold create_session. destruct (existsb _ _); [done|]. destruct (negb _); [done|].
    destruct (parse_addr _) as [a|]; [destruct (inet a)|]; intros [= <- <-]; done. }
  intros [] w (_ & _ & _ & [= <-]). split; [intros t t' Hr [H1 H2]; split; [by eapply Hins|done]|].
  intros t k Hok _ Hk. destruct k as [|h|m|uid|i|i]; try done; cbn.
  - apply filter_update. intros x _ Hx%str_eqb_eq. cbn [n_nonce]. rewrite Hx, str_eqb_differs; [done|]. intros <-. apply Hk. unfold held. set_solver.
  - unfold has_session. simpl. unfold id. rewrite existsb_app. simpl.
    rewrite (proj2 (N.eqb_neq _ _)); [by rewrite orb_false_r|]. rewrite Hs. intros <-. apply Hk. unfold held. set_solver.
Qed.
Lemma good_program j : good (λ _, True) [] id (program j).
Proof. destruct j; [apply record_good|apply enroll_good|apply open_good]. Qed.

Lemma operation_schema j t : keeps schema_ok (operation j) ∧ keeps (grows t) (operation j).
Proof.
  destruct j as [now gap e|now id_ token req|now id_ req dev]; cbn [operation]; split;
    (apply keeps_bind; [|intros; apply keeps_ret]).
  - apply audit_schema.
  - exact (grows_keeps parse_addr inet engine t now (OpAudit gap e)).
  - apply enroll_schema.
  - unfold Enroll. keeps.
    + apply keeps_stmt. intros t1 x t2 Ht. destruct (existsb _ _); [done|]. intros [= _ <-].
      eapply grows_trans; [exact Ht|]. apply grows_devices, ids_app.
    + apply keeps_exec. by intros t1 Ht.
  - apply open_schema.
  - unfold open_session. keeps.
    + unfold insert_session. apply keeps_stmt. intros t1 x t2 Ht Hr.
      assert (∃ s, t2 = set_sessions (sessions t1 ++ [s]) t1) as [s ->].
      { revert Hr. destruct (existsb _ _); [done|]. destruct (negb _); [done|]. destruct (parse_addr _) as [addr|]; [destruct (inet addr); [|done]|]; intros [= _ <-]; eauto. }
      eapply grows_trans; [exact Ht|]. apply grows_sessions, ids_app.
    + apply keeps_exec. by intros t1 Ht.
Qed.

(** What holds of a thread at the committed tables [t]. *)
Definition thread_ok (t : Tables) (th : thread) : Prop :=
  match th with
  | Running j held own p => ∃ K, K t ∧ stable held K ∧ good K held own p ∧
      ∀ t', K t' → denote (program j) (calm t') = denote p (calm (own t'))
  | _ => True
  end.
Definition exclusive (l : list thread) : Prop :=
  ∀ i i' th th' k, l !! i = Some th → l !! i' = Some th' → holds th k → holds th' k → i = i'.
Record inv (t0 : Tables) (c : config) : Prop := mkInv {
  iv_schema : schema_ok (committed c);
  iv_replay : replay t0 (history c) (committed c);
  iv_threads : ∀ i th, threads c !! i = Some th → thread_ok (committed c) th;
  iv_exclusive : exclusive (threads c);
  iv_replies : replies c ≡ₚ omap tx_of (history c) }.

Lemma thread_respects t t' th :
  schema_ok t → schema_ok t' → grows t t' → (∀ k, holds th k → protects k t t') → thread_ok t th → thread_ok t' th.
Proof.
  intros H1 H2 H3 H4. destruct th as [|j held own p| |]; [done| |done|done]. intros (K & HK & Hs & Hg & Hd).
  exists K. split_and!; [|done..]. apply (Hs t t'); [|done]. by split_and!.
Qed.

Lemma omap_middle {A B} (f : A → option B) l x k : omap f (l ++ x :: k) = omap f l ++ option_list (f x) ++ omap f k.
Proof. rewrite omap_app. f_equal. simpl. by destruct (f x). Qed.
Lemma replies_insert (l : list thread) i th th' :
  l !! i = Some th → reply th = None →
  omap reply (<[i := th']> l) ≡ₚ option_list (reply th') ++ omap reply l.
Proof.
  intros Hl Hn. pose proof (lookup_lt_Some _ _ _ Hl). rewrite insert_take_drop by done.
  rewrite <-(take_drop_middle l i th Hl) at 3. rewrite !omap_middle, Hn. simpl. apply Permutation_app_swap_app.
Qed.

(** A thread moves on: nothing is committed, and it holds no more locks than are free. *)
Lemma inv_becomes t0 c i th0 th :
  inv t0 c → threads c !! i = Some th0 → reply th0 = None → thread_ok (committed c) th → reply th = None →
  (∀ k, holds th k → ∀ i' th', threads c !! i' = Some th' → i' ≠ i → ¬ holds th' k) → inv t0 (becomes i th c).
Proof.
  intros [H1 H2 H3 H4 H5] Hl0 Hn0 Hth Hn Hf. split; simpl; [done..| | |].
  - intros i' th' [(<- & <- & _)|[_ Hl]]%list_lookup_insert_Some; eauto.
  - intros i1 i2 th1 th2 k [(<- & <- & _)|[N1 L1]]%list_lookup_insert_Some
      [(<- & <- & _)|[N2 L2]]%list_lookup_insert_Some K1 K2; [done| | |by eapply H4].
    + by destruct (Hf k K1 i2 th2 L2 (not_eq_sym N2)).
    + by destruct (Hf k K2 i1 th1 L1 (not_eq_sym N1)).
  - unfold replies. simpl. by rewrite (replies_insert _ _ _ _ Hl0 Hn0), Hn.
Qed.
(** The locks it has already are its own. *)
Lemma own_locks t0 c i th k :
  inv t0 c → threads c !! i = Some th → holds th k →
  ∀ i' th', threads c !! i' = Some th' → i' ≠ i → ¬ holds th' k.
Proof. intros Hi Hl Hk i' th' Hl' Hne Hk'. apply Hne. by eapply (iv_exclusive _ _ Hi). Qed.

Lemma inv_commit t0 c i j held own r :
  inv t0 c → threads c !! i = Some (Running j held own (Done r)) →
  inv t0 (mkConfig (own (committed c)) (<[i := Committed j r]> (threads c)) (history c ++ [EvTx j r])).
Proof.
  intros Hi Hl. pose proof (iv_threads _ _ Hi _ _ Hl) as (K & HK & _ & Hg & Hd). destruct Hi as [H1 H2 H3 H4 H5].
  pose proof (program_faithful j (committed c)) as Hp. rewrite tx_calm, (Hd _ HK) in Hp. cbn in Hp. symmetry in Hp.
  change (mkWorld (own (committed c)) []) with (calm (own (committed c))) in Hp.
  destruct (operation_schema j (committed c)) as [Hs Hgr].
  pose proof (Hs (calm _) _ _ H1 Hp) as Hok. pose proof (Hgr (calm _) _ _ (grows_refl _) Hp) as Hgrow. simpl in Hok, Hgrow.
  split; simpl; [done|by eapply replay_tx| | |].
  - intros i' th [(<- & <- & _)|[N L]]%list_lookup_insert_Some; [done|].
    eapply thread_respects; [exact H1|done..| |by eapply H3].
    intros k Hk. apply Hg; [done..|]. intros Hin. apply N. by eapply H4.
  - intros i1 i2 th1 th2 k [(<- & <- & _)|[N1 L1]]%list_lookup_insert_Some
      [(<- & <- & _)|[N2 L2]]%list_lookup_insert_Some K1 K2; [done..|by eapply H4].
  - unfold replies in *. simpl. rewrite (replies_insert _ _ _ _ Hl) by done. rewrite omap_app, H5. simpl.
    apply Permutation_cons_append.
Qed.

Lemma inv_step t0 c c' : step c c' → inv t0 c → inv t0 c'.
Proof.
  intros Hs Hi. destruct Hs as [i j Hl|i j held own k p Hl Hfree|i j held own B f onerr p b write Hl Hf
    |i j held own B f onerr p e Hl Hf|i j held own p Hl|i j held own r Hl|now o w x w' Hw Hr Hk].
  - eapply inv_becomes; [done..| |done|by intros k ?%elem_of_nil]. exists (λ _, True).
    split_and!; [done..|apply good_program|done].
  - pose proof (iv_threads _ _ Hi _ _ Hl) as (K & HK & Hst & Hg & Hd).
    eapply inv_becomes; [done..| |done|].
    + exists K. split_and!; [done| |done|done]. eapply stable_more; [|exact Hst]. set_solver.
    + intros k' [->|Hk]%elem_of_cons; [exact Hfree|by eapply own_locks].
  - pose proof (iv_threads _ _ Hi _ _ Hl) as (K & HK & Hst & Hg & Hd).
    eapply inv_becomes; [done..| |done|intros k Hk; by eapply own_locks].
    destruct (Hg b write) as [Hst' Hg']; [exists (committed c); split_and!; [apply Hi|done..]|].
    eexists. split_and!; [|exact Hst'|exact Hg'|]; [done|].
    intros t' [Ht1 Ht2]. rewrite (Hd t' Ht1), denote_stmt, Ht2. done.
  - by eapply inv_becomes.
  - by eapply inv_becomes.
  - by eapply inv_commit.
  - destruct Hi as [H1 H2 H3 H4 H5]. rewrite <-Hw in *.
    pose proof (run_schema parse_addr inet engine now o _ _ _ H1 Hr) as Hok.
    pose proof (grows_keeps parse_addr inet engine (db w) now o _ _ _ (grows_refl _) Hr) as Hg.
    split; simpl; [done| |  |done|].
    + eapply replay_op; [exact H2|exact Hr].
    + intros i th Hl. eapply thread_respects; [exact H1|done..|intros k Hh; by eapply Hk|by eapply H3].
    + rewrite omap_app. simpl. by rewrite app_nil_r.
Qed.
Lemma inv_start t js : schema_ok t → inv t (start t js).
Proof.
  intros Hok. split; simpl; [done|constructor| | |].
  - intros i th Hl. apply list_lookup_fmap_Some in Hl as (j & -> & _). done.
  - intros i i' th th' k Hl _ Hk. apply list_lookup_fmap_Some in Hl as (j & -> & _). done.
  - unfold replies. simpl. by induction js.
Qed.
Lemma inv_reachable t js c : schema_ok t → rtc step (start t js) c → inv t c.
Proof.
  intros Hok Hr. pose proof (inv_start t js Hok) as Hi. induction Hr as [|c1 c2 c3 Hs _ IH]; [done|].
  apply IH. by eapply inv_step.
Qed.

(** ** Single use *)

(** What every operation preserves, and the opening of a session does, transactions do. *)
Lemma operation_keeps P j :
  (∀ now o, match o with OpAudit _ _ | OpEnroll _ _ _ => True | _ => False end →
     keeps P (run parse_addr inet engine now o)) →
  (∀ now id_ req dev, keeps P (open_session parse_addr inet now id_ req dev)) → keeps P (operation j).
Proof.
  intros Hr Ho. destruct j as [now gap e|now id_ token req|now id_ req dev]; cbn [operation];
    (apply keeps_bind; [|intros; apply keeps_ret]); [| |apply Ho].
  - by apply (Hr now (OpAudit gap e)).
  - apply HttpProps.keeps_void. by apply (Hr now (OpEnroll id_ token req)).
Qed.

Lemma count_app {A} (p : A → bool) l k : count p (l ++ k) = count p l + count p k.
Proof. unfold count. rewrite List.filter_app, length_app. lia. Qed.
Lemma count_permutation {A} (p : A → bool) l k : l ≡ₚ k → count p l = count p k.
Proof.
  unfold count. intros Hp. f_equal. induction Hp as [|x l l' _ IH|x y l|l1 l2 l3 _ IH1 _ IH2]; simpl; [done| | |lia].
  - destruct (p x); simpl; lia.
  - by destruct (p x), (p y).
Qed.

(** A thing that a transaction needs unspent and leaves spent is used by one at most. *)
Lemma replay_once (uses : job → bool) (spent : Tables → Prop) (allowed : op → Prop) t h t' :
  (∀ j t1 r t2, schema_ok t1 → uses j = true → operation j (calm t1) = (inl r, calm t2) → ¬ spent t1 ∧ spent t2) →
  (∀ j, keeps spent (operation j)) →
  (∀ now o, allowed o → keeps spent (run parse_addr inet engine now o)) →
  schema_ok t → replay t h t' → (∀ now o, EvOp now o ∈ h → allowed o) →
  schema_ok t' ∧ count (λ x, uses x.1) (omap tx_of h) <= 1 ∧
  (0 < count (λ x, uses x.1) (omap tx_of h) → spent t').
Proof.
  intros Hu Hj Ho Hok Hr. induction Hr as [|h t1 t2 j r Hr IH Hop|h w x w' now o Hr IH Hop]; intros Ha.
  - split; [done|]. unfold count. simpl. lia.
  - destruct IH as (Hok1 & Hle & Hsp); [intros now o Hin; apply (Ha now); set_solver|].
    destruct (operation_schema j t1) as [Hs _]. rewrite omap_app, count_app.
    split; [exact (Hs (calm t1) _ _ Hok1 Hop)|]. unfold count at 2 4. simpl. destruct (uses j) eqn:Euse.
    + destruct (Hu j t1 r t2 Hok1 Euse Hop) as [Hno Hyes]. split; [|done].
      destruct (decide (0 < count (λ x, uses x.1) (omap tx_of h))); [by destruct (Hno (Hsp l))|simpl; lia].
    + rewrite Z.add_0_r. split; [done|]. intros Hc. exact (Hj j (calm t1) _ _ (Hsp Hc) Hop).
  - destruct IH as (Hok1 & Hle & Hsp); [intros n o' Hin; apply (Ha n); set_solver|].
    rewrite omap_app, count_app. unfold count at 2 4. simpl. rewrite Z.add_0_r.
    split; [by apply (run_schema parse_addr inet engine now o _ _ _ Hok1 Hop)|]. split; [done|].
    intros Hc. apply (Ho now o) with w x; [apply (Ha now); set_solver|auto|done].
Qed.

Lemma open_token_spent h now id_ req dev : keeps (token_spent h) (open_session parse_addr inet now id_ req dev).
Proof. unfold open_session. frame. Qed.
Lemma open_nonce_spent n now id_ req dev : keeps (nonce_spent n) (open_session parse_addr inet now id_ req dev).
Proof.
  unfold open_session. frame. apply keeps_exec. intros t [Hok Hn]. split.
  - unfold nonces_ok. simpl. by rewrite update_keys.
  - simpl. intros x (y & Hy & ->)%elem_of_update. destruct (str_eqb _ _); [done|]. by apply Hn.
Qed.
(** The opening of a session finds its challenge unspent and spends it. *)
Lemma open_uses_nonce now id_ req dev t s t' :
  nonces_ok t → open_session parse_addr inet now id_ req dev (calm t) = (inl s, calm t') →
  ¬ nonce_spent (bq_Nonce req) t ∧ nonce_spent (bq_Nonce req) t'.
Proof.
  intros Hok. unfold open_session. rewrite tx_calm. unfold insert_session, spend_nonce, exec, bind, try, query_row.
  rewrite stmt_calm. destruct (find _ _) as [n|] eqn:Ef; [|done]. unfold ret at 1. cbv beta iota.
  destruct (_ || _) eqn:E; [done|]. apply orb_false_iff in E as [[E1 _]%orb_false_iff _].
  apply negb_false_iff, bool_decide_eq_true in E1. apply find_some in Ef as [Hin Hn%str_eqb_eq].
  intros Hr. split; [intros [_ Hsp]; by apply (Hsp n)|]. revert Hr. cbv zeta. rewrite stmt_calm.
  destruct (existsb _ _); [done|]. destruct (negb _); [done|].
  assert (∀ s0, nonce_spent (bq_Nonce req) (set_session_nonces (update (λ n, str_eqb (n_nonce n) (bq_Nonce req))
    (λ n, mkNonce (n_nonce n) (n_user n) (n_issued_at n) (n_expires_at n) (Some (pg_time now)) (Some (s_id s0)))
    (session_nonces t)) (set_sessions (sessions t ++ [s0]) t))) as Hs.
  { intros s0. split; [unfold nonces_ok; simpl; by rewrite update_keys|]. simpl.
    intros x (y & _ & ->)%elem_of_update. destruct (str_eqb (n_nonce y) _) eqn:E; [done|].
    intros Hy. by rewrite Hy, str_eqb_refl in E. }
  destruct (parse_addr _) as [a|]; [destruct (inet a); [|done]|]; intros [= _ <-]; apply Hs.
Qed.
Lemma enroll_uses_token now id_ token req t d t' :
  tokens_ok t → Enroll now id_ token req (calm t) = (inl d, calm t') →
  ¬ token_spent (sha256sum (trim_space token)) t ∧ token_spent (sha256sum (trim_space token)) t'.
Proof.
  intros Hok He. split; [|exact (enroll_spends now id_ token req (calm t) _ _ Hok He)].
  intros Hsp. by destruct (proj1 (spent_token_refused now id_ token req t [] _ _ Hsp He) d).
Qed.

(** The transactions that use a token, or a challenge. *)
Definition enrols (token : string) (j : job) : bool :=
  match j with JEnroll _ _ token' _ => str_eqb (trim_space token') (trim_space token) | _ => false end.
Definition opens (nonce : string) (j : job) : bool :=
  match j with JOpen _ _ req _ => str_eqb (bq_Nonce req) nonce | _ => false end.

Lemma tokens_once token t h t' :
  schema_ok t → replay t h t' → count (λ x, enrols token x.1) (omap tx_of h) <= 1.
Proof.
  intros Hok Hr. eapply (replay_once (enrols token) (token_spent (sha256sum (trim_space token))) (λ _, True));
    [| | |exact Hok|exact Hr|done].
  - intros j t1 r t2 Hok1 Hj Hop. destruct j as [| ? ? token' ? |]; [done| |done]. apply str_eqb_eq in Hj.
    cbn [operation] in Hop. unfold bind in Hop. destruct (Enroll _ _ _ _ _) as [[d|e] w] eqn:E; [|done].
    injection Hop as _ ->. rewrite <-Hj. eapply enroll_uses_token; [|exact E]. apply (so_tokens t1 Hok1).
  - intros j. apply operation_keeps; [intros; apply token_spent_keeps|intros; apply open_token_spent].
  - intros. apply token_spent_keeps.
Qed.
Lemma nonces_once nonce t h t' :
  schema_ok t → replay t h t' → (∀ now o, EvOp now o ∈ h → other_nonce nonce o) →
  count (λ x, opens nonce x.1) (omap tx_of h) <= 1.
Proof.
  intros Hok Hr Ho. eapply (replay_once (opens nonce) (nonce_spent nonce) (other_nonce nonce));
    [| | |exact Hok|exact Hr|exact Ho].
  - intros j t1 r t2 Hok1 Hj Hop. destruct j as [| |? ? req ?]; [done|done|]. apply str_eqb_eq in Hj.
    cbn [operation] in Hop. unfold bind in Hop. destruct (open_session _ _ _ _ _ _ _) as [[d|e] w] eqn:E; [|done].
    injection Hop as _ ->. rewrite <-Hj. eapply open_uses_nonce; [|exact E]. apply (so_nonces t1 Hok1).
  - intros j. apply operation_keeps; [intros n o Hm; apply nonce_spent_keeps; by destruct o|].
    intros. apply open_nonce_spent.
  - intros. by apply nonce_spent_keeps.
Qed.

(** Entries that the log gives back as they were hashed ([entry_plain]). *)
Definition canonical_event (e : event) : Prop :=
  match e with
  | EvTx (JRecord _ _ e) _ => entry_plain inet e
  | EvTx _ _ => True
  | EvOp _ o => canonical_entries inet o
  end.
Lemma audit_replay t h t' :
  audit_ok sha256sum t → replay t h t' → (∀ e, e ∈ h → canonical_event e) →
  audit_ok sha256sum t' ∧ ∃ l, audit_logs t' = audit_logs t ++ l.
Proof.
  intros Hok Hr. induction Hr as [|h t1 t2 j r Hr IH Hop|h w x w' now o Hr IH Hop]; intros Ha.
  - split; [done|]. exists []. by rewrite app_nil_r.
  - destruct IH as [Ha1 Hp]; [intros e He; apply Ha; set_solver|].
    pose proof (Ha (EvTx j r) ltac:(set_solver)) as Hc. split.
    + assert (keeps (audit_ok sha256sum) (operation j)) as Hk; [|exact (Hk (calm t1) _ _ Ha1 Hop)].
      destruct j as [n gap e|n i tok req|n i req dev]; cbn [operation];
        (apply keeps_bind; [|intros; apply keeps_ret]); [by apply record_keeps|..].
      * apply HttpProps.keeps_void. by apply (audit_run_keeps parse_addr inet engine n (OpEnroll i tok req)).
      * unfold open_session. frame.
    + assert (keeps (λ t', ∃ l, audit_logs t' = audit_logs t ++ l) (operation j)) as Hk;
        [|exact (Hk (calm t1) _ _ Hp Hop)].
      apply operation_keeps; [intros; apply audit_prefix_keeps|]. intros. unfold open_session. frame.
  - destruct IH as [Ha1 Hp]; [intros e He; apply Ha; set_solver|]. split.
    + eapply audit_run_keeps; [|exact Ha1|exact Hop]. apply (Ha (EvOp now o)). set_solver.
    + exact (audit_prefix_keeps parse_addr inet engine _ now o _ _ _ Hp Hop).
Qed.
End Programs.

(** C5: concurrent transactions are serialisable.  Let any number of appends to the
    audit log, enrolments and openings of sessions run statement by statement,
    interleaved in any order with each other and with all other operations, each
    cut off anywhere.  What is committed is what the same effects give one after the
    other in the order of their commits, each transaction whole and with the result
    its caller was given; those results are exactly the transactions of that order;
    and the schema holds. *)
Theorem concurrent_serialisable {C : Crypto} (parse_addr inet : string → option string) (engine : Risk.Engine)
    (t : Tables) (jobs : list job) (c : config) :
  schema_ok t → rtc (step parse_addr inet engine) (start t jobs) c →
  replay parse_addr inet engine t (history c) (committed c) ∧
  replies c ≡ₚ omap tx_of (history c) ∧ schema_ok (committed c).
Proof. intros Hok Hr. destruct (inv_reachable parse_addr inet engine t jobs c Hok Hr). done. Qed.

(** C26: a race spends nothing twice.  However enrolments and openings of sessions
    overlap, at most one enrolment succeeds with a token, and at most one session is
    opened with a challenge, unless that challenge is drawn at random again; and
    concurrent appends of entries that the log gives back as they were hashed (addresses
    that PostgreSQL prints as given, details of UTF-8 text and integers of at most 53 bits)
    leave an audit log that verifies and has kept its records. *)
Theorem concurrent_single_use {C : Crypto} (parse_addr inet : string → option string) (engine : Risk.Engine)
    (t : Tables) (jobs : list job) (c : config) :
  schema_ok t → rtc (step parse_addr inet engine) (start t jobs) c →
  (∀ token, count (λ x, enrols token x.1) (replies c) <= 1) ∧
  (∀ nonce, (∀ now o, EvOp now o ∈ history c → other_nonce nonce o) → count (λ x, opens nonce x.1) (replies c) <= 1) ∧
  (audit_ok sha256sum t → (∀ e, e ∈ history c → canonical_event inet e) →
     audit_ok sha256sum (committed c) ∧ ∃ l, audit_logs (committed c) = audit_logs t ++ l).
Proof.
  intros Hok Hr. destruct (inv_reachable parse_addr inet engine t jobs c Hok Hr) as [_ Hrep _ _ Hp]. split_and!.
  - intros token. rewrite (count_permutation _ _ _ Hp). by eapply tokens_once.
  - intros nonce Ho. rewrite (count_permutation _ _ _ Hp). by eapply nonces_once.
  - intros Ha Hc. by eapply audit_replay.
Qed.

(** The device is looked up before the transaction that opens the session, and the
    transaction does not look again: a revocation in between is not noticed. *)
Lemma revocation_race `{Crypto} (parse_addr inet : string → option string) now now' id_ req d reason t s t1 t' :
  open_session parse_addr inet now id_ req d (calm t) = (inl s, t1) →
  Revoke now' d reason (calm t) = (inl (), calm t') →
  ∃ t2, open_session parse_addr inet now id_ req d (calm t') = (inl s, t2).
Proof.
  unfold Revoke, bind at 1, exec. rewrite stmt_calm. set (f := λ d, mkDevice _ _ _ _ _ _ _ _ _ REVOKED _ _ _ _ _ _).
  intros Ho Hr. destruct (_ =? 0); [done|]. injection Hr as Hr. rewrite <-Hr in *. clear Hr t'.
  set (hit := λ d0, _ && _). assert (∀ i, has_device (set_devices (update hit f (devices t)) t) i = has_device t i) as Hd.
  { intros i. apply eq_true_iff_eq. unfold has_device. rewrite !existsb_ids. simpl. by rewrite update_keys. }
  revert Ho. unfold open_session. rewrite !tx_calm. unfold insert_session, spend_nonce, exec, bind, try, query_row.
  rewrite !stmt_calm. cbn [session_nonces set_devices]. destruct (find _ _) as [n|]; [|done]. unfold ret. cbv beta iota.
  destruct (_ || _); [done|]. cbv beta iota zeta. rewrite !stmt_calm, Hd. cbn [sessions set_devices has_user].
  destruct (existsb _ (sessions t)); [done|].
  change (has_user (set_devices _ t) (bq_UserID req)) with (has_user t (bq_UserID req)). destruct (negb _); [done|].
  destruct (parse_addr _) as [a|]; [destruct (inet a); [|done]|]; intros [= <- _]; by eexists.
Qed.
