(* ===== verification/Interleave.v ===== *)
(** * Interleaved operations

    An operation of the control plane that makes several round trips (the trust
    evaluation, the device-signature middleware, the beginning of a session, the
    ingestion of a batch, the rebuilding of a baseline, the seeding of the policies,
    the pruner) is not isolated: between two of its round trips other requests run.
    Here such an operation is a tree of atomic pieces, each one autocommit statement
    or one transaction, and any number of operations run piece by piece in any order,
    with any faults, each cut off anywhere.  [alone_code] shows that a tree run without
    interference is the operation of [System]; the invariants of the other files are
    carried over to the interleaved system, and replay protection is proved again,
    against requests that race each other and the pruner.

    A piece that is a transaction appears at its commit ([Concurrency] proves it for
    the transactions that read before they write).  A scenario of the simulator, which
    is a tool for demonstrations, is one piece. *)

From S2P Require Import Prelude GoStd Encode Risk Posture Policy Behaviour Db AuditLog Device Session.
From S2P Require Import Telemetry Incident RiskStore PolicyStore PostureStore BehaviourStore Trust System.
From S2P Require Import SystemProps SessionProps TrustProps HttpProps UserProps Schema Concurrency.
Open Scope Z_scope.
Open Scope go_scope.

(** ** Trees of atomic pieces *)

Inductive act (A : Type) : Type :=
  | Ret (r : A + error)
  | Atom (B : Type) (m : M B) (k : B + error → act A).
Arguments Ret {A}. Arguments Atom {A B}.

(** [x <~ m ! k]: the piece [m], its result or error handled by [k]. *)
Notation "x <~ m ! k" := (Atom m (λ x, k))
  (at level 100, m at next level, right associativity, only parsing) : go_scope.
(** [x <- m ! k]: the piece [m]; its error ends the operation. *)
Definition must {A B} (m : M B) (k : B → act A) : act A :=
  Atom m (λ r, match r with inl b => k b | inr e => Ret (inr e) end).
Notation "x <- m ! k" := (must m (λ x, k))
  (at level 100, m at next level, right associativity, only parsing) : go_scope.
(** A call: the tree of the callee, then the caller. *)
Fixpoint call {A B} (c : act B) (k : B + error → act A) : act A :=
  match c with Ret r => k r | Atom m c => Atom m (λ r, call (c r) k) end.
Definition returns {A} (a : A) : act A := Ret (inl a).
Definition fails {A} (e : error) : act A := Ret (inr e).
Definition after {A B} (c : act B) (k : B → act A) : act A :=
  call c (λ r, match r with inl b => k b | inr e => fails e end).

(** A tree run without interference. *)
Fixpoint alone {A} (c : act A) : M A :=
  match c with Ret r => lift r | Atom m k => r <-- try m ;; alone (k r) end.

Lemma alone_atom {A B} (m : M B) (k : B + error → act A) w :
  alone (Atom m k) w = let '(r, w') := m w in alone (k r) w'.
Proof. cbn [alone]. unfold bind, try. by destruct (m w). Qed.
Lemma alone_must {A B} (m : M B) (k : B → act A) w : alone (must m k) w = bind m (λ b, alone (k b)) w.
Proof. unfold must. rewrite alone_atom. unfold bind. by destruct (m w) as [[b|e] w']. Qed.
Lemma alone_call {A B} (c : act B) (k : B + error → act A) w :
  alone (call c k) w = let '(r, w') := alone c w in alone (k r) w'.
Proof.
  revert w. induction c as [r|D m c IH]; intros w; [done|]. cbn [call]. rewrite !alone_atom.
  destruct (m w) as [r w']. apply IH.
Qed.
Lemma alone_after {A B} (c : act B) (k : B → act A) w : alone (after c k) w = bind (alone c) (λ b, alone (k b)) w.
Proof. unfold after. rewrite alone_call. unfold bind. by destruct (alone c w) as [[b|e] w']. Qed.

Section Code.
Context `{Crypto} (parse_addr inet : string → option string) (engine : Risk.Engine).

(** [RequireDeviceSignature]: the device is read; the nonce is inserted. *)
Definition code_consume (enrolled : Device) (nonce body : string) (timestamp : Z) : act outcome :=
  c <~ ConsumeNonce (Device.ID enrolled) nonce timestamp !
  match c with
  | inl _ => returns (Forward enrolled body)
  | inr ErrReplayedNonce => returns (Reject StatusUnauthorized)
  | inr _ => returns (Reject StatusInternalServerError)
  end.
Definition code_request (now : Z) (r : HttpRequest) : act outcome :=
  if str_eqb (h_device r) "" || str_eqb (h_nonce r) "" || str_eqb (h_signature r) ""
     || str_eqb (h_timestamp r) "" then returns (Reject StatusUnauthorized) else
  if negb (is_ok (ValidateNonce (h_nonce r))) then returns (Reject StatusUnauthorized) else
  match parse_int64 (h_timestamp r) with
  | None => returns (Reject StatusUnauthorized)
  | Some seconds =>
      let timestamp := time_unix seconds in
      if negb (is_ok (CheckClockSkew timestamp now)) then returns (Reject StatusUnauthorized) else
      match read_body (h_body r) with
      | None => returns (Reject StatusUnauthorized)
      | Some body =>
          e <~ Device.ByUID (h_device r) !
          match e with
          | inr _ => returns (Reject StatusUnauthorized)
          | inl enrolled =>
              if negb (bool_decide (State enrolled = DEV_ACTIVE)) then returns (Reject StatusUnauthorized) else
              let input := mkSigningInput (h_method r) (h_path r) timestamp (h_nonce r) body in
              if negb (is_ok (VerifySignature (PublicKey enrolled) input (h_signature r)))
              then returns (Reject StatusUnauthorized) else
              code_consume enrolled (h_nonce r) body timestamp
          end
      end
  end.

(** [Begin]: the device is read; the session is opened in one transaction. *)
Definition code_begin (now : Z) (id : uuid) (req : BeginRequest) : act session_row :=
  match BeginRequest_Validate req with
  | inr e => fails e
  | inl _ =>
      e <~ Device.ByUID (bq_DeviceUID req) !
      match e with
      | inr _ => fails ErrDeviceUnusable
      | inl enrolled =>
          if negb (bool_decide (State enrolled = DEV_ACTIVE)) then fails ErrDeviceUnusable else
          if match LastHeartbeatAt enrolled with
             | None => true
             | Some hb => time_sub now hb >? HeartbeatFreshness
             end then fails ErrDeviceUnusable else
          match verifyAttestation (PublicKey enrolled) (bq_Nonce req) (bq_Subject req) (bq_Signature req) with
          | inr e => fails e
          | inl _ => created <- open_session parse_addr inet now id req (Device.ID enrolled) ! returns created
          end
      end
  end.

(** [Ingest]: the active session is read; the rows are inserted in one transaction. *)
Definition code_ingest (now : Z) (batchID : uuid) (ids : nat → uuid) (deviceID : uuid)
    (inbound : list Inbound) : act IngestResult :=
  if Z.of_nat (length inbound) >? MaxBatchSize then fails (ErrInvalidEvent "batch size") else
  a <~ activeSession deviceID !
  let session := match a with inl (s, _) => Some s | inr _ => None end in
  let user := match a with inl (_, u) => Some u | inr _ => None end in
  let '(evs, rejected) := normalize_batch deviceID now 0 inbound in
  if is_nil evs then returns (mkIngest batchID 0 0 rejected session) else
  let rows := imap (λ i e, event_row_of (ids i) e user session (Some batchID)) evs in
  inserted <- Telemetry.insert rows !
  returns (mkIngest batchID inserted (Z.of_nat (length evs) - inserted) rejected session).

(** [Rebuild]: the sessions of the window are read; the profile is saved. *)
Definition window_sessions (now : Z) (userID : uuid) (windowDays : Z) : M (list Observation) :=
  let since := now - windowDays * (24 * hour) in
  query (λ t, observation_of t <$> order_asc s_started_at
    (List.filter (λ s, (s_user s =? userID)%N && (pg_time since <=? s_started_at s)) (sessions t))).
Definition code_rebuild (now : Z) (userID : uuid) (windowDays : Z) : act Profile :=
  let windowDays := if windowDays <=? 0 then DefaultWindowDays else windowDays in
  observations <- window_sessions now userID windowDays !
  let profile := Build userID windowDays observations now in
  _ <- Save profile ! returns profile.

(** [EnsureDefaults]: the policies are read; each default is created on its own. *)
Fixpoint code_create_all (now : Z) (ids : nat → uuid) (created : nat) (ps : list Policy) : act Z :=
  match ps with
  | [] => returns (Z.of_nat created)
  | p :: rest => _ <- PolicyStore.Create now (ids created) p None ! code_create_all now ids (S created) rest
  end.
Definition code_defaults (now : Z) (ids : nat → uuid) : act Z :=
  existing <- All !
  if negb (is_nil existing) then returns 0 else code_create_all now ids 0 DefaultPolicies.

(** A tick of the pruner: two deletions. *)
Definition code_prune (now : Z) : act unit :=
  _ <~ Device.PruneNonces (time_add now (-2 * MaxClockSkew)) !
  _ <~ Session.PruneNonces now ! returns ().

(** [gather]: every source is asked on its own. *)
Definition code_behavioural (session : sessionContext) : act Behavioural :=
  p <~ BehaviourStore.Load (sc_UserID session) !
  match p with
  | inr _ => returns no_baseline
  | inl profile => c <~ CountByType (sc_SessionID session) ! returns (measure session profile c)
  end.
Definition code_gather (now : Z) (session : sessionContext) : act Inputs :=
  p <~ PostureStore.Latest (sc_DeviceID session) !
  after (code_behavioural session) (λ b,
  sensitivity <- peakSensitivity (sc_SessionID session) !
  let sinceWeek := now - 7 * (24 * hour) in
  i <~ CountRecentIncidents (sc_UserID session) sinceWeek !
  d <~ CountRecentDenials (sc_UserID session) sinceWeek !
  prior <~ prior_sessions session !
  returns (inputs_of now session p b sensitivity i d prior)).

(** [Evaluate] from the risk assessment on: the score is recorded in one transaction;
    the policies are read; the incident, the decision, the enforcement and the two
    derived events are a statement each. *)
Definition code_incident (now : Z) (fresh : Fresh) (sessionID : uuid) (session : sessionContext)
    (assessment : Risk.Assessment) (decision : Policy.Result) : act (option uuid) :=
  if CreateIncident decision then
    r <~ OpenOrEscalate now (id_incident fresh) sessionID (sc_UserID session)
        (sc_DeviceID session) (ALevel assessment) (Risk.Score assessment)
        ("Elevated risk on session for " +:+ shortID sessionID)%stdpp (summarise assessment) !
    returns (match r with inl created => Some (Incident.ID created) | inr _ => None end)
  else returns None.
Definition code_decide (now : Z) (fresh : Fresh) (sessionID : uuid) (session : sessionContext)
    (sensitivity : Sensitivity) (assessment : Risk.Assessment) : act Outcome :=
  riskScoreID <- RiskStore.Record now (id_score fresh) (sc_UserID session) (sc_DeviceID session) assessment !
  active <- PolicyStore.Active !
  let decision := Policy.Evaluate (Policy.NewEngine active) (mkRequest assessment sensitivity None false) now in
  after (code_incident now fresh sessionID session assessment decision) (λ incident,
  _ <- RecordDecision (id_decision fresh) sessionID (sc_UserID session) (sc_DeviceID session)
         (Some riskScoreID) None decision incident !
  applied <- applyDecision now sessionID (RDecision decision) !
  _ <~ RecordBackendEvent now (id_event1 fresh) (risk_event session assessment) !
  _ <~ RecordBackendEvent now (id_event2 fresh) (decision_event session assessment decision) !
  returns (mkOutcome assessment decision incident applied)).
Definition code_evaluate (now : Z) (fresh : Fresh) (sessionID : uuid) (trigger : string) : act Outcome :=
  session <- loadSession sessionID !
  after (code_gather now session) (λ inputs,
  match Risk.Evaluate engine inputs with
  | None => fails (ErrPanic "risk engine")
  | Some a => code_decide now fresh sessionID session (in_ResourceSensitivity inputs) (with_trigger a trigger)
  end).
Definition device_session (deviceID : uuid) : M uuid :=
  query_row (λ t, s_id <$> latest s_started_at (List.filter
    (λ s, (s_device s =? deviceID)%N && negb (bool_decide (s_status s = ENDED))) (sessions t))).
Definition code_evaluate_device (now : Z) (fresh : Fresh) (deviceID : uuid) (trigger : string) : act (option Outcome) :=
  r <~ device_session deviceID !
  match r with
  | inr _ => returns None
  | inl sessionID => after (code_evaluate now fresh sessionID trigger) (λ o, returns (Some o))
  end.

(** An operation of [System]; the answer is that of the middleware, for a request. *)
Definition quiet {A} (c : act A) : act (option outcome) := after c (λ _, returns None).
Definition code (now : Z) (o : op) : act (option outcome) :=
  match o with
  | OpRequest r => after (code_request now r) (λ x, returns (Some x))
  | OpBegin id req => quiet (code_begin now id req)
  | OpIngest batch ids device inbound => quiet (code_ingest now batch ids device inbound)
  | OpRebuild user days => quiet (code_rebuild now user days)
  | OpEnsureDefaults ids => quiet (code_defaults now ids)
  | OpPrune => quiet (code_prune now)
  | OpEvaluate fresh session trigger => quiet (code_evaluate now fresh session trigger)
  | OpEvaluateDevice fresh device trigger => quiet (code_evaluate_device now fresh device trigger)
  | _ => _ <- run parse_addr inet engine now o ! returns None
  end.

(** ** A tree run alone is the operation *)

Lemma same_must {A B} (m : M B) (k : B → act A) (k' : B → M A) w :
  (∀ b w', alone (k b) w' = k' b w') → alone (must m k) w = bind m k' w.
Proof. intros Hk. rewrite alone_must. unfold bind. destruct (m w) as [[b|e] w']; [apply Hk|done]. Qed.
Lemma same_try {A B} (m : M B) (k : B + error → act A) (k' : B + error → M A) w :
  (∀ b w', alone (k b) w' = k' b w') → alone (Atom m k) w = bind (try m) k' w.
Proof. intros Hk. rewrite alone_atom. unfold bind, try. destruct (m w) as [r w']. apply Hk. Qed.
Lemma same_after {A B} (c : act B) (m : M B) (k : B → act A) (k' : B → M A) w :
  (∀ w', alone c w' = m w') → (∀ b w', alone (k b) w' = k' b w') → alone (after c k) w = bind m k' w.
Proof. intros Hc Hk. rewrite alone_after. unfold bind. rewrite Hc. destruct (m w) as [[b|e] w']; [apply Hk|done]. Qed.
Ltac same_step := match goal with
  | |- alone (must _ _) _ = _ => apply same_must; intros ? ?
  | |- alone (Atom _ _) _ = bind (try _) _ _ => apply same_try; intros ? ?
  | |- alone (Ret _) _ = _ => reflexivity
  | |- alone (returns _) _ = _ => reflexivity
  | |- alone (fails _) _ = _ => reflexivity
  | |- alone (if ?b then _ else _) _ = _ => destruct b
  | |- alone (match ?x with _ => _ end) _ = _ => destruct x
  end.
Ltac same := repeat (cbv zeta; same_step).

Lemma alone_request now r w : alone (code_request now r) w = RequireDeviceSignature now r w.
Proof. unfold code_request, RequireDeviceSignature, code_consume. same. Qed.
Lemma alone_begin now id req w :
  alone (quiet (code_begin now id req)) w = (Begin parse_addr inet now id req ;;; ret None) w.
Proof.
  unfold quiet. rewrite alone_after. unfold Begin, code_begin.
  destruct (BeginRequest_Validate req) as [[]|e]; [|done]. unfold bind at 1 2. rewrite alone_atom.
  unfold bind at 1 2, lift at 1, try at 1. destruct (Device.ByUID (bq_DeviceUID req) w) as [[d|e] w1]; [|done].
  destruct (negb _); [done|]. destruct (match LastHeartbeatAt d with Some _ => _ | None => true end); [done|].
  destruct (verifyAttestation _ _ _ _) as [[]|e]; [|done]. rewrite alone_must. unfold bind, lift.
  by destruct (open_session _ _ _ _ _ _ w1) as [[s|e] w2].
Qed.
Lemma alone_ingest now batch ids device inbound w :
  alone (code_ingest now batch ids device inbound) w = Ingest now batch ids device inbound w.
Proof. unfold code_ingest, Ingest. same. Qed.
Lemma alone_rebuild now user days w : alone (code_rebuild now user days) w = Rebuild now user days w.
Proof. unfold code_rebuild, Rebuild, window_sessions. same. Qed.
Lemma alone_create_all now ids n ps w : alone (code_create_all now ids n ps) w = create_all now ids n ps w.
Proof. revert n w. induction ps as [|p ps IH]; intros n w; [done|]. apply same_must. intros. apply IH. Qed.
Lemma alone_defaults now ids w : alone (code_defaults now ids) w = EnsureDefaults now ids w.
Proof. unfold code_defaults, EnsureDefaults. same. apply alone_create_all. Qed.
Lemma alone_prune now w : alone (code_prune now) w = prune_tick now w.
Proof. unfold code_prune, prune_tick. same. Qed.
Lemma alone_gather now session w : alone (code_gather now session) w = gather now session w.
Proof.
  unfold code_gather, gather. same. apply same_after; [|intros; same].
  intros. unfold code_behavioural, behavioural. same.
Qed.
Lemma alone_evaluate now fresh sid trigger w :
  alone (code_evaluate now fresh sid trigger) w = Trust.Evaluate engine now fresh sid trigger w.
Proof.
  unfold code_evaluate, Trust.Evaluate. same. apply same_after; [intros; apply alone_gather|]. intros. same.
  unfold code_decide, code_incident. same. apply same_after; [intros; same|]. intros. same.
  unfold recordDerivedEvents, bind, try. rewrite !alone_atom.
  destruct (RecordBackendEvent _ _ _ _) as [r1 w1]. rewrite alone_atom. by destruct (RecordBackendEvent _ _ _ _).
Qed.
Lemma alone_evaluate_device now fresh device trigger w :
  alone (code_evaluate_device now fresh device trigger) w = EvaluateDevice engine now fresh device trigger w.
Proof.
  unfold code_evaluate_device, EvaluateDevice. apply same_try. intros [sid|e] w'; [|done].
  apply same_after; [intros; apply alone_evaluate|done].
Qed.
Lemma quiet_void {A} (c : act A) (m : M A) w :
  (∀ w', alone c w' = m w') → bind (alone (quiet c)) (λ _, ret ()) w = void m w.
Proof.
  intros Hc. unfold quiet, void, bind at 1. rewrite alone_after. unfold bind. rewrite Hc. by destruct (m w) as [[a|e] w'].
Qed.
(** Run without interference, a tree does what the operation of [System] does. *)
Lemma alone_code now o w : bind (alone (code now o)) (λ _, ret ()) w = run parse_addr inet engine now o w.
Proof.
  destruct o; cbn [code];
    try (unfold bind at 1; rewrite alone_must; unfold bind;
         destruct (run parse_addr inet engine now _ w) as [[[]|?] ?]; reflexivity);
    cbn [run].
  - unfold bind at 1, void. rewrite alone_after. unfold bind. rewrite alone_request.
    by destruct (RequireDeviceSignature now r w) as [[x|e] w'].
  - rewrite (quiet_void (code_prune now) (prune_tick now)) by apply alone_prune.
    unfold void, bind. by destruct (prune_tick now w) as [[[]|e] w'].
  - unfold bind at 1. rewrite alone_begin. unfold void, bind. by destruct (Begin _ _ _ _ _ w) as [[s|e] w'].
  - apply quiet_void, alone_ingest.
  - apply quiet_void, alone_defaults.
  - apply quiet_void, alone_rebuild.
  - apply quiet_void, alone_evaluate.
  - apply quiet_void, alone_evaluate_device.
Qed.
End Code.

(** ** What every piece of a tree preserves *)

(** Every piece preserves [P], and a result satisfies [Q]; a piece answers what it can
    answer on some tables, since others may have changed them. *)
Fixpoint steady {A} (P : Tables → Prop) (Q : A → Prop) (c : act A) : Prop :=
  match c with
  | Ret r => match r with inl a => Q a | inr _ => True end
  | Atom m k => keeps P m ∧ ∀ w r w', m w = (r, w') → steady P Q (k r)
  end.
(** What a piece can answer. *)
Definition answers {B} (m : M B) (Q : B → Prop) : Prop := ∀ w b w', m w = (inl b, w') → Q b.

Section Steady.
Context (P : Tables → Prop).

Lemma steady_atom {A B} (m : M B) (k : B + error → act A) Q :
  keeps P m → (∀ r, steady P Q (k r)) → steady P Q (Atom m k).
Proof using. intros Hm Hk. split; [done|]. intros w r w' _. apply Hk. Qed.
Lemma steady_must_with {A B} (m : M B) (k : B → act A) (R : B → Prop) Q :
  keeps P m → answers m R → (∀ b, R b → steady P Q (k b)) → steady P Q (must m k).
Proof using. intros Hm Hr Hk. split; [done|]. intros w [b|e] w' E; [|done]. apply Hk. by eapply Hr. Qed.
Lemma steady_must {A B} (m : M B) (k : B → act A) Q :
  keeps P m → (∀ b, steady P Q (k b)) → steady P Q (must m k).
Proof using. intros Hm Hk. apply (steady_must_with _ _ (λ _, True)); [done..|]. auto. Qed.
Lemma steady_call {A B} (c : act B) (k : B + error → act A) R Q :
  steady P R c → (∀ b, R b → steady P Q (k (inl b))) → (∀ e, steady P Q (k (inr e))) → steady P Q (call c k).
Proof using.
  intros Hc Hk He. induction c as [[b|e]|D m c IH]; [by apply Hk|by apply He|]. destruct Hc as [Hm Hc].
  split; [done|]. intros w r w' E. by eapply IH, Hc.
Qed.
Lemma steady_after {A B} (c : act B) (k : B → act A) R Q :
  steady P R c → (∀ b, R b → steady P Q (k b)) → steady P Q (after c k).
Proof using. intros Hc Hk. by eapply steady_call. Qed.
Lemma steady_quiet {A} (c : act A) R : steady P R c → steady P (λ _, True) (quiet c).
Proof using. intros Hc. by eapply steady_after. Qed.
End Steady.
Ltac steady_step := match goal with
  | |- steady _ _ (must _ _) => apply steady_must; [|intros ?]
  | |- steady _ _ (Atom _ _) => apply steady_atom; [|intros ?]
  | |- steady _ _ (Ret _) => exact I
  | |- steady _ _ (returns _) => exact I
  | |- steady _ _ (fails _) => exact I
  | |- steady _ _ (if ?b then _ else _) => destruct b
  | |- steady _ _ (match ?x with _ => _ end) => destruct x
  end.
Ltac steady := repeat (cbv zeta; steady_step).

(** An operation is steady when [P] is preserved by it and by each piece of the
    operations that have several. *)
Section SteadyCode.
Context `{Crypto} (parse_addr inet : string → option string) (engine : Risk.Engine) (P : Tables → Prop) (now : Z).
Context (Hconsume : ∀ d n ts, keeps P (ConsumeNonce d n ts)).
Context (Hopen : ∀ id req dev, keeps P (open_session parse_addr inet now id req dev)).
Context (Hinsert : ∀ rows, Forall (λ r, e_resource r = None) rows → keeps P (Telemetry.insert rows)).
Context (Hsave : ∀ p, keeps P (Save p)).
Context (Hcreate : ∀ id p, keeps P (PolicyStore.Create now id p None)).
Context (Hreplays : keeps P (Device.PruneNonces (time_add now (-2 * MaxClockSkew)))).
Context (Hnonces : keeps P (Session.PruneNonces now)).
Context (Hrecord : ∀ sid trigger session sens a id u d, assessed engine sid trigger session sens a →
  keeps P (RiskStore.Record now id u d a)).
Context (Hescalate : ∀ id sid u d sev risk title summary, keeps P (OpenOrEscalate now id sid u d sev risk title summary)).
Context (Hdecision : ∀ id sid u d rs rr res inc, keeps P (RecordDecision id sid u d rs rr res inc)).
Context (Happly : ∀ sid d, keeps P (applyDecision now sid d)).
Context (Hevent : ∀ id e, keeps P (RecordBackendEvent now id e)).

Lemma byuid_keeps uid : keeps P (Device.ByUID uid).
Proof using. unfold Device.ByUID. keeps. Qed.
Lemma steady_request r : steady P (λ _, True) (code_request now r).
Proof using Hconsume. unfold code_request, code_consume. steady; auto using byuid_keeps. Qed.
Lemma steady_begin id req : steady P (λ _, True) (code_begin parse_addr inet now id req).
Proof using Hopen. unfold code_begin. steady; auto using byuid_keeps. Qed.
Lemma steady_ingest batch ids device inbound : steady P (λ _, True) (code_ingest now batch ids device inbound).
Proof using Hinsert. 
  unfold code_ingest. steady; [unfold activeSession; keeps|]. apply Hinsert, Forall_forall.
  by intros x (i & e & -> & _)%elem_of_lookup_imap.
Qed.
Lemma steady_rebuild user days : steady P (λ _, True) (code_rebuild now user days).
Proof using Hsave. unfold code_rebuild, window_sessions. steady; auto. keeps. Qed.
Lemma steady_create_all ids n ps : steady P (λ _, True) (code_create_all now ids n ps).
Proof using Hcreate. revert n. induction ps as [|p ps IH]; intros n; [done|]. by apply steady_must. Qed.
Lemma steady_defaults ids : steady P (λ _, True) (code_defaults now ids).
Proof using Hcreate. unfold code_defaults, All. steady; auto using steady_create_all. keeps. Qed.
Lemma steady_prune : steady P (λ _, True) (code_prune now).
Proof using Hreplays Hnonces. unfold code_prune. steady; auto. Qed.
Lemma answers_peak sid : answers (peakSensitivity sid)
  (λ s, s ∈ [SensitivityPublic; SensitivityInternal; SensitivitySensitive; SensitivityCritical]).
Proof using. intros w s w' E. exact (proj2 (peak_spec (λ _, True) sid (λ _ _, True) w (inl s) w' I E)). Qed.
Lemma steady_gather session : steady P (gathered session) (code_gather now session).
Proof using.
  unfold code_gather. apply steady_atom; [unfold PostureStore.Latest; keeps|]. intros p.
  apply (steady_after _ _ _ (λ _, True)).
  { unfold code_behavioural. steady; unfold Load, CountByType; keeps. }
  intros b _. eapply steady_must_with; [unfold peakSensitivity; keeps|apply answers_peak|].
  intros s Hs. cbv zeta. do 3 (apply steady_atom;
    [unfold CountRecentIncidents, CountRecentDenials, prior_sessions; keeps|intros ?]).
  split_and!; [done|split; reflexivity|done|done].
Qed.
Lemma steady_decide fresh sid trigger session sens a :
  assessed engine sid trigger session sens a → steady P (λ _, True) (code_decide now fresh sid session sens a).
Proof using Hrecord Hescalate Hdecision Happly Hevent.
  intros Ha. unfold code_decide. steady; [by eapply Hrecord|unfold Active; keeps|].
  apply (steady_after _ _ _ (λ _, True)).
  { unfold code_incident. steady. apply Hescalate. }
  intros incident _. steady; auto.
Qed.
Lemma steady_evaluate fresh sid trigger : steady P (λ _, True) (code_evaluate engine now fresh sid trigger).
Proof using Hrecord Hescalate Hdecision Happly Hevent.
  unfold code_evaluate.
  apply (steady_must_with _ _ _ (λ s, sc_SessionID s = sid)); [unfold loadSession; keeps| |].
  { intros w s w' E. unfold loadSession in E.
    pose proof (hoare_query_row _ (λ _, True) (λ _ _, True) (λ _ _, I) (λ _ _ _, I) w _ w' I E) as [_ Hl].
    destruct (find _ _) as [x|] eqn:Ef; cbn [mbind option_bind] in Hl; [|done].
    apply find_some in Ef as [_ Hid%N.eqb_eq]. destruct (find _ _); cbn [mbind option_bind] in Hl; [|done].
    by injection Hl as <-. }
  intros session Hsid. apply (steady_after _ _ _ (gathered session)); [apply steady_gather|].
  intros inp Hg. destruct (Risk.Evaluate engine inp) as [a|] eqn:Ea; [|done].
  apply (steady_decide fresh sid trigger). exists inp, a. split_and!; try done.
  change (SessionID a = sid). rewrite (evaluate_session_id _ _ _ Ea), <-Hsid. apply Hg.
Qed.
Lemma steady_code o :
  keeps P (run parse_addr inet engine now o) → steady P (λ _, True) (code parse_addr inet engine now o).
Proof using Hconsume Hopen Hinsert Hsave Hcreate Hreplays Hnonces Hrecord Hescalate Hdecision Happly Hevent.
  intros Ho. destruct o; cbn [code]; try (by apply steady_must; [exact Ho|]);
    try (eapply steady_quiet; eauto using steady_begin, steady_ingest, steady_rebuild, steady_defaults, steady_prune,
           steady_evaluate; fail).
  - by apply (steady_after _ _ _ (λ _, True)); [apply steady_request|].
  - apply (steady_quiet _ _ (λ _, True)). unfold code_evaluate_device.
    apply steady_atom; [unfold device_session; keeps|]. intros [sid|e]; [|done].
    by apply (steady_after _ _ _ (λ _, True)); [apply steady_evaluate|].
Qed.
End SteadyCode.

(** ** The invariants of the other files, piece by piece *)

Section Pieces.
Context `{Crypto} (parse_addr inet : string → option string) (engine : Risk.Engine) (now : Z) (o : op).
Abbreviation code := (code parse_addr inet engine).

Lemma schema_pieces : steady schema_ok (λ _, True) (code now o).
Proof using.
  apply steady_code; intros; auto using consume_schema, open_schema, insert_schema, save_schema, create_schema,
    prune_replays_schema, prune_nonces_schema, score_schema, escalate_schema, decision_schema, apply_schema,
    backend_event_schema, run_schema.
Qed.
Lemma grows_pieces t0 : steady (grows t0) (λ _, True) (code now o).
Proof using.
  apply steady_code; intros; try apply grows_keeps; frame;
  lazymatch goal with
  | |- keeps _ (exec _) => apply keeps_exec; intros ? Ht; eapply grows_trans; [exact Ht|]; simpl; grown
  | |- keeps _ (insert_if _ _) => apply keeps_insert; intros ? Ht _; eapply grows_trans; [exact Ht|]; grown
  | |- keeps _ (stmt (λ t, insert_events _ _)) =>
      apply keeps_stmt; intros ? ? ? Ht Hi; eapply grows_trans; [exact Ht|eapply grows_appended_events; exact Hi]
  | |- keeps _ (stmt _) => apply keeps_stmt; intros ? ? ? Ht Hr; eapply grows_trans; [exact Ht|];
      cbv zeta in Hr; repeat case_match; simplify_eq; grown
  end.
Qed.
Lemma token_pieces h : steady (token_spent h) (λ _, True) (code now o).
Proof using. apply steady_code; intros; try apply token_spent_keeps; frame. Qed.
Lemma device_pieces id uid G : lasting G → steady (device_is id uid G) (λ _, True) (code now o).
Proof using. intros HG. apply steady_code; intros; try (by apply device_is_keeps); frame. Qed.
Lemma session_pieces sid G : session_lasting G → steady (session_is sid G) (λ _, True) (code now o).
Proof using.
  intros HG. apply steady_code; intros; try (by apply session_is_keeps); frame;
    try (apply keeps_exec; intros ? HP; apply session_update; [done|moves|done]).
  apply keeps_stmt. intros t x t' HP. destruct (existsb _ _) eqn:E; [done|]. destruct (negb _); [done|].
  destruct (parse_addr _) as [a'|]; [destruct (inet a') as [ip|]; [|done]|]; intros [= _ <-]; by apply session_insert.
Qed.
Lemma explained_pieces : Risk.weights_ok (weights engine) → steady explained (λ _, True) (code now o).
Proof using.
  intros Hw. apply steady_code; intros; try (by apply explained_keeps);
    try (by apply record_explained; eapply assessed_sum); frame;
    try (apply keeps_exec; intros ? Ht; by apply explained_update).
  apply keeps_stmt. intros t x t' Ht. destruct (existsb _ _); [done|]. destruct (negb _); [done|].
  destruct (parse_addr _) as [a'|]; [destruct (inet a') as [ip|]; [|done]|]; intros [= _ <-]; by apply explained_insert.
Qed.
Lemma audit_pieces : canonical_entries inet o → steady (audit_ok sha256sum) (λ _, True) (code now o).
Proof using. intros Ho. apply steady_code; intros; try (by apply audit_run_keeps); frame. Qed.
Lemma prefix_pieces l : steady (λ t, ∃ k, audit_logs t = l ++ k) (λ _, True) (code now o).
Proof using. apply steady_code; intros; try apply audit_prefix_keeps; frame. Qed.
Lemma challenge_pieces n : other_nonce n o → steady (nonce_spent n) (λ _, True) (code now o).
Proof using.
  intros Ho. apply steady_code; intros; try (by apply nonce_spent_keeps); try apply open_nonce_spent; frame.
  apply keeps_exec. intros t [Hok Hn]. split.
  - unfold nonces_ok. simpl. by apply NoDup_lfilter.
  - simpl. intros x [Hx _]%elem_of_lfilter. by apply Hn.
Qed.
Lemma consume_seen id uid nonce ts d n s : keeps (nonce_seen id uid nonce ts) (ConsumeNonce d n s).
Proof using.
  unfold ConsumeNonce. keeps. apply keeps_stmt. intros t x t' [HP (y & Hy)]. destruct (timestamptz _); [|done].
  destruct (existsb _ _); [done|]. destruct (has_device _ _); [|done]. intros [= _ <-].
  split; [exact HP|]. exists y. simpl. split; [apply elem_of_app; left; apply Hy|apply Hy].
Qed.
Lemma prune_seen id uid nonce ts :
  sane_time now → now - 2 * MaxClockSkew <= ts →
  keeps (nonce_seen id uid nonce ts) (Device.PruneNonces (time_add now (-2 * MaxClockSkew))).
Proof using.
  intros Hs Hle. apply keeps_exec. intros t [HP (y & Hy & Hd & Hn & Ha)]. split; [exact HP|]. exists y. simpl.
  split_and!; try done. apply elem_of_lfilter. split; [done|]. apply negb_true_iff, Z.ltb_ge.
  rewrite Ha, time_add_sane; [apply pg_time_mono; lia|done|].
  unfold int64_range, minInt64, maxInt64, MaxClockSkew. change minute with 60000000000. lia.
Qed.
Lemma seen_pieces id uid nonce ts :
  sane_time now → now - 2 * MaxClockSkew <= ts → steady (nonce_seen id uid nonce ts) (λ _, True) (code now o).
Proof using.
  intros Hs Hle. apply steady_code; intros; try (by apply nonce_seen_keeps); try apply consume_seen;
    try (by apply prune_seen); frame.
Qed.
End Pieces.

(** ** The system *)

(** An operation under way: when it began, and what is left of it. *)
Record running := mkRunning { ro_op : op; ro_since : Z; ro_code : act (option outcome) }.
Record system := mkSystem { sys_clock : Z; sys_tables : Tables; sys_running : list running }.

Section System.
Context `{Crypto} (parse_addr inet : string → option string) (engine : Risk.Engine).
Context (allowed : op → Prop) (prompt : op → Z → Z → Prop).

(** Time passes; an operation begins; a piece of an operation runs, with any faults.
    [prompt o since now]: an operation that began at [since] may still write at [now]. *)
Inductive moves : system → system → Prop :=
  | move_wait clk clk' t l : clk <= clk' → moves (mkSystem clk t l) (mkSystem clk' t l)
  | move_begin clk t l o : allowed o →
      moves (mkSystem clk t l) (mkSystem clk t (l ++ [mkRunning o clk (code parse_addr inet engine clk o)]))
  | move_piece clk t l i o since B (m : M B) k fs r w :
      l !! i = Some (mkRunning o since (Atom m k)) → m (mkWorld t fs) = (r, w) →
      (db w = t ∨ prompt o since clk) →
      moves (mkSystem clk t l) (mkSystem clk (db w) (<[i := mkRunning o since (k r)]> l)).
Definition opening (clk : Z) (t : Tables) : system := mkSystem clk t [].

(** All pieces of what is running preserve [P]. *)
Definition calmly (P : Tables → Prop) (c : system) : Prop :=
  ∀ i th, sys_running c !! i = Some th → steady P (λ _, True) (ro_code th).
Definition all_steady (P : Tables → Prop) : Prop :=
  ∀ now o, allowed o → steady P (λ _, True) (code parse_addr inet engine now o).

Lemma moves_calmly P c c' : all_steady P → moves c c' → calmly P c → calmly P c'.
Proof using.
  intros HP Hm Hc. destruct Hm as [|clk t l o Ho|clk t l i o since B m k fs r w Hl Hr _]; [exact Hc|..]; intros j th; simpl.
  - intros [Hj|[_ Hj]]%lookup_app_Some; [by eapply Hc|]. apply list_lookup_singleton_Some in Hj as [_ <-]. by apply HP.
  - intros [(<- & <- & _)|[_ Hj]]%list_lookup_insert_Some; [|by eapply Hc].
    destruct (Hc i _ Hl) as [_ Hk]. exact (Hk _ _ _ Hr).
Qed.
Lemma moves_keeps P c c' : moves c c' → calmly P c → P (sys_tables c) → P (sys_tables c').
Proof using.
  intros Hm Hc Ht. destruct Hm as [|clk t l o Ho|clk t l i o since B m k fs r w Hl Hr _]; [done..|].
  destruct (Hc i _ Hl) as [Hk _]. exact (Hk (mkWorld t fs) _ _ Ht Hr).
Qed.
Lemma reaches_calmly P c c' : all_steady P → rtc moves c c' → calmly P c → calmly P c'.
Proof using. intros HP Hr. induction Hr; eauto using moves_calmly. Qed.
(** Rule induction: what every piece preserves holds of what is committed. *)
Lemma reaches_keeps P c c' :
  all_steady P → rtc moves c c' → calmly P c → P (sys_tables c) → P (sys_tables c').
Proof using.
  intros HP Hr. induction Hr as [|x y z Hm _ IH]; [done|]. intros Hc Ht.
  apply IH; [by eapply moves_calmly|by eapply (moves_keeps P)].
Qed.
Lemma opening_calmly P clk t : calmly P (opening clk t).
Proof using. by intros i th. Qed.
(** A scheduler: [None] when the choice is not a move. *)
Inductive turn := Pass (d : N) | Begins (o : op) | Runs (i : nat) (fs : list fault).
Definition take_turn (on_time : op → Z → Z → bool) (c : system) (x : turn) : option system :=
  let '(mkSystem clk t l) := c in
  match x with
  | Pass d => Some (mkSystem (clk + Z.of_N d) t l)
  | Begins o => Some (mkSystem clk t (l ++ [mkRunning o clk (code parse_addr inet engine clk o)]))
  | Runs i fs =>
      match l !! i with
      | Some (mkRunning o since (Atom m k)) =>
          if on_time o since clk then
            let '(r, w) := m (mkWorld t fs) in Some (mkSystem clk (db w) (<[i := mkRunning o since (k r)]> l))
          else None
      | _ => None
      end
  end.
Fixpoint take_turns (on_time : op → Z → Z → bool) (c : system) (xs : list turn) : option system :=
  match xs with [] => Some c | x :: xs => c' ← take_turn on_time c x; take_turns on_time c' xs end.
Lemma turns_reach on_time c xs c' :
  (∀ o since clk, on_time o since clk = true → prompt o since clk) →
  Forall (λ x, match x with Begins o => allowed o | _ => True end) xs →
  take_turns on_time c xs = Some c' → rtc moves c c'.
Proof using.
  intros Hp Hf. revert c. induction Hf as [|x xs Hx _ IH]; intros c; simpl; [by intros [= <-]|].
  destruct (take_turn on_time c x) as [c1|] eqn:E; simpl; [|done]. intros Hs. eapply rtc_l; [|by apply IH].
  destruct c as [clk t l], x as [d|o|i fs]; simpl in E.
  - injection E as <-. apply move_wait. lia.
  - injection E as <-. by apply move_begin.
  - destruct (l !! i) as [[o since [r|B m k]]|] eqn:El; [done| |done]. destruct (on_time o since clk) eqn:Eo; [|done].
    destruct (m (mkWorld t fs)) as [r w] eqn:Em. injection E as <-. eapply move_piece; [done|exact Em|right; auto].
Qed.
Lemma moves_clock c c' : moves c c' → sys_clock c <= sys_clock c'.
Proof using. destruct 1; simpl; lia. Qed.
Lemma reaches_clock c c' : rtc moves c c' → sys_clock c <= sys_clock c'.
Proof using. induction 1 as [|x y z Hm _ IH]; [lia|]. apply moves_clock in Hm. lia. Qed.
End System.

(** ** Replay under interleaving *)

Section Races.
Context {C : Crypto} {L : CryptoLaws C} (parse_addr inet : string → option string) (engine : Risk.Engine).
Context (uid nonce stamp : string) (seconds : Z).
Context (Hstamp : parse_int64 stamp = Some seconds) (Hyears : pg_years (time_unix seconds)).
Abbreviation code := (code parse_addr inet engine).
Abbreviation enrolled := (λ id, device_is id uid (λ _, True)).
Abbreviation seen := (λ id, nonce_seen id uid nonce (time_unix seconds)).

(** The copies of one captured request. *)
Definition captured (o : op) : Prop :=
  match o with OpRequest r => h_device r = uid ∧ h_nonce r = nonce ∧ h_timestamp r = stamp | _ => False end.
Definition forwarded (c : act (option outcome)) : Prop := ∃ d body, c = Ret (inl (Some (Forward d body))).
(** A request writes its nonce within five minutes of the check of its timestamp. *)
Definition within_skew (o : op) (since now : Z) : Prop :=
  match o with OpRequest _ => now <= since + MaxClockSkew | _ => True end.

(** What others may do meanwhile. *)
Definition future (t t' : Tables) : Prop := ∀ id, enrolled id t → enrolled id t'.
(** The piece that makes a request pass: its timestamp was fresh, its nonce was not
    stored and is. *)
Definition spends (since : Z) (t t' : Tables) : Prop :=
  CheckClockSkew (time_unix seconds) since = inl () ∧ t' ≠ t ∧ (∀ id, ¬ seen id t) ∧ ∃ id, seen id t'.
(** From [t] on, whatever others do, only such a piece makes the request pass. *)
Fixpoint guarded (since : Z) (t : Tables) (c : act (option outcome)) : Prop :=
  match c with
  | Ret r => ∀ d body, r ≠ inl (Some (Forward d body))
  | Atom m k => ∀ t1 fs r w, schema_ok t1 → future t t1 → m (mkWorld t1 fs) = (r, w) →
      guarded since (db w) (k r) ∨ spends since t1 (db w) ∧ forwarded (k r)
  end.

Lemma guarded_future since t t' c : future t t' → guarded since t c → guarded since t' c.
Proof using. intros Hf. destruct c as [r|B m k]; [done|]. intros Hg t1 fs r w Hok Hf1. apply Hg; [done|]. intros id Hi. auto. Qed.

Lemma enrolled_unique t id id' : enrolled id t → enrolled id' t → id = id'.
Proof using.
  intros [[_ Hu] (d & Hd & <- & Hud & _)] [_ (d' & Hd' & <- & Hud' & _)].
  by rewrite (unique_key d_uid (devices t) d d' Hu Hd Hd') by congruence.
Qed.
Lemma byuid_found t fs d w :
  schema_ok t → Device.ByUID uid (mkWorld t fs) = (inl d, w) → enrolled (Device.ID d) t ∧ db w = t.
Proof using.
  intros Hok. unfold Device.ByUID, bind, try, query_row, stmt. destruct (next_fault _) as [y w1] eqn:En.
  apply next_fault_db in En. simpl in En. rewrite En. destruct (find _ _) as [row|] eqn:Ef; destruct y; simpl; try done.
  intros [= <- <-]. split; [|done]. apply find_some in Ef as [Hin Hu%str_eqb_eq].
  split; [exact (f_uniq _ _ _ _ _ (so_devices t Hok))|]. by exists row.
Qed.
Lemma consumed id t fs u w :
  enrolled id t → ConsumeNonce id nonce (time_unix seconds) (mkWorld t fs) = (inl u, w) →
  db w ≠ t ∧ (∀ i, ¬ seen i t) ∧ seen id (db w).
Proof using L Hyears.
  intros Hd Hr.
  refine (ConsumeNonce_rule (λ x, x = t) id nonce (time_unix seconds) (λ x, x ≠ t ∧ (∀ i, ¬ seen i t) ∧ seen id x)
    (λ _ _, True) _ (λ _ _, I) (mkWorld t fs) _ w eq_refl Hr).
  intros ? at_ -> Ha He. rewrite timestamptz_ok in Ha by done. injection Ha as <-. split_and!.
  - intros E%(f_equal (length ∘ replay_nonces)). simpl in E. rewrite length_app in E. simpl in E. lia.
  - intros i [Hi (x & Hx & Hdx & Hn & _)]. pose proof (existsb_false _ _ _ He Hx) as Hf. unfold same_nonce in Hf.
    by rewrite Hdx, Hn, (enrolled_unique t i id Hi Hd), N.eqb_refl, str_eqb_refl in Hf.
  - split; [exact Hd|]. eexists. simpl. rewrite elem_of_app, elem_of_cons. split; [right; left; reflexivity|done].
Qed.
Lemma request_guarded since t o : captured o → guarded since t (code since o).
Proof using L Hyears Hstamp.
  destruct o; try done. intros (Hd & Hn & Ht). cbn [Interleave.code]. unfold code_request. rewrite Hd, Hn, Ht, Hstamp.
  destruct (_ || _); [done|]. destruct (negb _); [done|]. cbv zeta.
  destruct (CheckClockSkew (time_unix seconds) since) as [[]|e] eqn:Ec; [|done]. cbn [is_ok negb].
  destruct (read_body _) as [body|]; [|done]. intros t1 fs x w Hok _ Hr. left. destruct x as [d|e]; [|done].
  apply byuid_found in Hr as [He ->]; [|done]. destruct (negb _); [done|]. destruct (negb _); [done|].
  intros t2 fs2 x w2 _ Hf Hc. destruct x as [u|e].
  - right. split; [|by exists d, body]. destruct (consumed _ _ _ _ _ (Hf _ He) Hc) as (H1 & H2 & H3).
    split_and!; try done. by eexists.
  - left. by destruct e.
Qed.

(** The state of the race: [first] is the time of the beginning. *)
Record race (first : Z) (c : system) : Prop := mkRace {
  ra_clock : first <= sys_clock c;
  ra_since : ∀ i th, sys_running c !! i = Some th → first <= ro_since th <= sys_clock c;
  ra_schema : schema_ok (sys_tables c) ∧ calmly schema_ok c;
  ra_device : ∀ id, calmly (enrolled id) c;
  ra_seen : ∀ id i th, sys_running c !! i = Some th → sane_time (ro_since th) →
    ro_since th - 2 * MaxClockSkew <= time_unix seconds → steady (seen id) (λ _, True) (ro_code th);
  ra_request : ∀ i th, sys_running c !! i = Some th → captured (ro_op th) →
    guarded (ro_since th) (sys_tables c) (ro_code th) ∨ forwarded (ro_code th);
  ra_once : ∀ i j th th', sys_running c !! i = Some th → sys_running c !! j = Some th' →
    captured (ro_op th) → captured (ro_op th') → forwarded (ro_code th) → forwarded (ro_code th') → i = j;
  ra_spent : ∀ i th, sys_running c !! i = Some th → captured (ro_op th) → forwarded (ro_code th) →
    sys_clock c - 2 * MaxClockSkew <= time_unix seconds → ∃ id, seen id (sys_tables c) }.

Lemma code_not_forwarded now o : captured o → ¬ forwarded (code now o).
Proof using L Hyears Hstamp.
  intros Ho (d & body & E). pose proof (request_guarded now (mkTables [] [] [] [] [] [] [] [] [] [] [] [] [] [] [] [] [] []) o Ho) as Hg.
  rewrite E in Hg. by apply (Hg d body).
Qed.
Lemma race_begin first clk t l o :
  race first (mkSystem clk t l) → race first (mkSystem clk t (l ++ [mkRunning o clk (code clk o)])).
Proof using L Hyears Hstamp.
  intros [H1 H2 [H3 H3'] H4 H5 H6 H7 H8]. simpl in *.
  assert (∀ i th, (l ++ [mkRunning o clk (code clk o)]) !! i = Some th →
    l !! i = Some th ∨ th = mkRunning o clk (code clk o)) as Hl.
  { intros i th [Hi|[_ Hi]]%lookup_app_Some; [by left|]. apply list_lookup_singleton_Some in Hi as [_ <-]. by right. }
  assert (∀ i th, (l ++ [mkRunning o clk (code clk o)]) !! i = Some th → captured (ro_op th) →
    forwarded (ro_code th) → l !! i = Some th) as Hold.
  { intros i th [Hi| ->]%Hl Hc Hf; [done|]. by apply code_not_forwarded in Hf. }
  split; simpl; [done|..].
  - intros i th [Hi| ->]%Hl; [by eapply H2|simpl; lia].
  - split; [done|]. intros i th [Hi| ->]%Hl; [by eapply H3'|apply schema_pieces].
  - intros id i th [Hi| ->]%Hl; [by eapply H4|by apply device_pieces].
  - intros id i th [Hi| ->]%Hl; [by eapply H5|]. intros Hs Hle. by apply seen_pieces.
  - intros i th [Hi| ->]%Hl Hc; [by eapply H6|]. left. by apply request_guarded.
  - intros i j th th' Hi Hj Hc Hc' Hf Hf'. eapply H7; eauto.
  - intros i th Hi Hc Hf. eapply H8; eauto.
Qed.
Lemma race_wait first clk clk' t l : clk <= clk' → race first (mkSystem clk t l) → race first (mkSystem clk' t l).
Proof using.
  intros Hle [H1 H2 H3 H4 H5 H6 H7 H8]. simpl in *. split; simpl; [lia| |done..|].
  - intros i th Hi. destruct (H2 i th Hi). lia.
  - intros i th Hi Hc Hf Hs. eapply H8; [done..|lia].
Qed.
(** The clock check of a request that writes in time rules out that its nonce has
    been forgotten. *)
Lemma in_time since clk :
  CheckClockSkew (time_unix seconds) since = inl () → clk <= since + MaxClockSkew →
  clk - 2 * MaxClockSkew <= time_unix seconds.
Proof using Hyears. intros Hc Hle. apply skew_not_old in Hc; [lia|by apply pg_years_sane]. Qed.
Lemma race_piece first clk t l i o since B (m : M B) k fs r w :
  sane_time first → sane_time clk → l !! i = Some (mkRunning o since (Atom m k)) → m (mkWorld t fs) = (r, w) →
  (db w = t ∨ within_skew o since clk) → race first (mkSystem clk t l) →
  race first (mkSystem clk (db w) (<[i := mkRunning o since (k r)]> l)).
Proof using L Hyears.
  intros Hsf Hsc Hl Hr Hp [H1 H2 [H3 H3'] H4 H5 H6 H7 H8]. simpl in *.
  assert (Hsince : first <= since <= clk) by exact (H2 i _ Hl).
  assert (future t (db w)) as Hf. { intros id. destruct (H4 id i _ Hl) as [Hk _]. intros Hi. exact (Hk (mkWorld t fs) _ _ Hi Hr). }
  assert (∀ id, clk - 2 * MaxClockSkew <= time_unix seconds → seen id t → seen id (db w)) as Hseen.
  { intros id Hle Hs. destruct (H5 id i _ Hl) as [Hk _]; [unfold sane_time in *; simpl; lia|simpl; lia|].
    exact (Hk (mkWorld t fs) _ _ Hs Hr). }
  assert (captured o → guarded since (db w) (k r) ∨ spends since t (db w) ∧ forwarded (k r)) as Hmine.
  { intros Hc. destruct (H6 i _ Hl Hc) as [Hg|(d & b & E)]; [|done]. apply (Hg t fs r w H3 (λ _ x, x) Hr). }
  assert (captured o → forwarded (k r) → spends since t (db w) ∧ clk - 2 * MaxClockSkew <= time_unix seconds) as Hspend.
  { intros Hc Hfw. destruct (Hmine Hc) as [Hg|[Hsp _]].
    - destruct Hfw as (d & b & E). rewrite E in Hg. by destruct (Hg d b).
    - split; [done|]. destruct Hsp as (Hck & Hne & _). destruct Hp as [?|Hp]; [done|].
      destruct o; try done. by eapply in_time. }
  assert (∀ j th, l !! j = Some th → captured (ro_op th) → forwarded (ro_code th) → captured o → ¬ forwarded (k r)) as Hfirst.
  { intros j th Hj Hc Hfw Hco [(_ & _ & Hno & _) Hle]%Hspend; [|done].
    destruct (H8 j th Hj Hc Hfw Hle) as [id Hid]. by destruct (Hno id). }
  split; simpl; [done|..].
  - intros j th [(<- & <- & _)|[_ Hj]]%list_lookup_insert_Some; [done|by eapply H2].
  - destruct (H3' i _ Hl) as [Hk Hn]. split; [exact (Hk (mkWorld t fs) _ _ H3 Hr)|].
    intros j th [(<- & <- & _)|[_ Hj]]%list_lookup_insert_Some; [exact (Hn _ _ _ Hr)|by eapply H3'].
  - intros id j th [(<- & <- & _)|[_ Hj]]%list_lookup_insert_Some; [|by eapply H4].
    destruct (H4 id i _ Hl) as [_ Hn]. exact (Hn _ _ _ Hr).
  - intros id j th [(<- & <- & _)|[_ Hj]]%list_lookup_insert_Some Hs Hle; [|by eapply H5].
    destruct (H5 id i _ Hl Hs Hle) as [_ Hn]. exact (Hn _ _ _ Hr).
  - intros j th [(<- & <- & _)|[_ Hj]]%list_lookup_insert_Some Hc.
    + destruct (Hmine Hc) as [Hg|[_ Hfw]]; [by left|by right].
    + destruct (H6 j th Hj Hc) as [Hg|Hfw]; [left; by eapply guarded_future|by right].
  - intros j j' th th' [(<- & <- & _)|[Nj Hj]]%list_lookup_insert_Some
      [(<- & <- & _)|[Nj' Hj']]%list_lookup_insert_Some Hc Hc' Hfw Hfw'; simpl in *; [done|..|by eapply H7].
    + by destruct (Hfirst j' th' Hj' Hc' Hfw' Hc).
    + by destruct (Hfirst j th Hj Hc Hfw Hc').
  - intros j th [(<- & <- & _)|[_ Hj]]%list_lookup_insert_Some Hc Hfw Hle.
    + by destruct (Hspend Hc Hfw) as [(_ & _ & _ & Hs) _].
    + destruct (H8 j th Hj Hc Hfw Hle) as [id Hid]. exists id. by apply Hseen.
Qed.
Lemma race_reaches first c c' :
  sane_time first → sane_time (sys_clock c') → rtc (moves parse_addr inet engine (λ _, True) within_skew) c c' →
  race first c → race first c'.
Proof using L Hyears Hstamp.
  intros Hsf Hs Hr. induction Hr as [|x y z Hm Hr IH]; [done|]. intros Hrace. apply IH; [done|].
  apply reaches_clock in Hr. destruct Hm as [clk clk' t l Hle|clk t l o _|clk t l i o since B m k fs r w Hl Hrun Hp].
  - by apply race_wait with clk.
  - by apply race_begin.
  - eapply race_piece; [done| |done..]. destruct Hrace as [H1 _ _ _ _ _ _ _]. unfold sane_time in *. simpl in *. lia.
Qed.
End Races.

(** C9: no captured request is accepted twice, in a race either.  Let copies of one
    request (same device, nonce and timestamp headers) arrive at any times and be
    processed in any interleaving, with each other, with the nonce pruner and with all
    other operations, with any faults.  At most one of them is accepted, if a request
    writes its nonce within five minutes of the check of its timestamp. *)
Theorem interleaved_replay {C : Crypto} {L : CryptoLaws C} (parse_addr inet : string → option string)
    (engine : Risk.Engine) (uid nonce stamp : string) (seconds now : Z) (t : Tables) (c : system) (i j : nat)
    (th th' : running) :
  parse_int64 stamp = Some seconds → pg_years (time_unix seconds) → schema_ok t →
  sane_time now → sane_time (sys_clock c) →
  rtc (moves parse_addr inet engine (λ _, True) within_skew) (opening now t) c →
  sys_running c !! i = Some th → sys_running c !! j = Some th' →
  captured uid nonce stamp (ro_op th) → captured uid nonce stamp (ro_op th') →
  forwarded (ro_code th) → forwarded (ro_code th') → i = j.
Proof.
  intros Hst Hy Hok Hn Hc Hr. eapply ra_once, race_reaches; [exact Hst|exact Hy|exact Hn|exact Hc|exact Hr|].
  by split; simpl.
Qed.

Lemma session_unchanged `{Crypto} t s : schema_ok t → s ∈ sessions t → session_is (s_id s) (session_moves s) t.
Proof.
  intros Hok Hs. split; [by exists s|]. intros x Hx Hi.
  rewrite (unique_key s_id (sessions t) x s (f_uniq _ _ _ _ _ (so_sessions t Hok)) Hx Hs Hi).
  unfold session_moves. naive_solver.
Qed.
(** C10: the invariants hold under interleaving.  Operations run piece by piece, in any
    interleaving, with any faults and each cut off anywhere; their audit entries have
    addresses that PostgreSQL prints back as they were given and details of UTF-8 text and
    integers of at most 53 bits, and the risk weights were validated.  What is committed then
    satisfies the keys, references and checks that [schema_ok] lists and keeps all that can
    be referred to, every displayed risk has its explanation, the audit log still verifies
    and has kept its records, spent enrolment tokens stay spent, and a session keeps its
    user, device and attestation and only closes. *)
Theorem interleaved_invariants {C : Crypto} (parse_addr inet : string → option string) (engine : Risk.Engine)
    (now : Z) (t : Tables) (c : system) :
  schema_ok t → explained t → audit_ok sha256sum t → Risk.weights_ok (weights engine) →
  rtc (moves parse_addr inet engine (canonical_entries inet) (λ _ _ _, True)) (opening now t) c →
  schema_ok (sys_tables c) ∧ grows t (sys_tables c) ∧ explained (sys_tables c) ∧
  audit_ok sha256sum (sys_tables c) ∧ (∃ l, audit_logs (sys_tables c) = audit_logs t ++ l) ∧
  (∀ h, token_spent h t → token_spent h (sys_tables c)) ∧
  (∀ s s', s ∈ sessions t → s' ∈ sessions (sys_tables c) → s_id s' = s_id s → session_moves s s').
Proof.
  intros Hok He Ha Hw Hr.
  assert (∀ P, (∀ n o, canonical_entries inet o → steady P (λ _, True) (code parse_addr inet engine n o)) →
    P t → P (sys_tables c)) as Hk.
  { intros P HP Ht. eapply reaches_keeps; [exact HP|exact Hr|apply opening_calmly|exact Ht]. }
  split_and!.
  - apply Hk; [intros; apply schema_pieces|done].
  - apply (Hk (grows t)); [intros; apply grows_pieces|apply grows_refl].
  - apply Hk; [intros; by apply explained_pieces|done].
  - apply Hk; [intros; by apply audit_pieces|done].
  - apply (Hk (λ t', ∃ l, audit_logs t' = audit_logs t ++ l)); [intros; apply prefix_pieces|].
    exists []. by rewrite app_nil_r.
  - intros h. apply Hk. intros. apply token_pieces.
  - intros s s' Hs Hs' Hi. apply (Hk (session_is (s_id s) (session_moves s))); [|by apply session_unchanged|done|done].
    intros. apply session_pieces. intros x y Hxy Hx. by eapply session_moves_trans.
Qed.

(** ** Revocation under interleaving *)

(** What a tree answers while [I] holds of the tables. *)
Fixpoint guided {A} (I : Tables → Prop) (Q : A → Prop) (c : act A) : Prop :=
  match c with
  | Ret r => ∀ a, r = inl a → Q a
  | Atom m k => ∀ w r w', I (db w) → m w = (r, w') → guided I Q (k r)
  end.
(** What a device that is turned away gets. *)
Definition turned_away (o : op) (x : option outcome) : Prop :=
  match o with OpRequest _ => x = Some (Reject StatusUnauthorized) | _ => False end.
Definition speaks_for (uid : string) (o : op) : Prop :=
  match o with OpRequest r => h_device r = uid | OpBegin _ req => bq_DeviceUID req = uid | _ => False end.

Section Revoked.
Context {C : Crypto} (parse_addr inet : string → option string) (engine : Risk.Engine) (id : uuid) (uid : string).
Abbreviation revoked := (device_is id uid (λ d, d_state d = REVOKED)).

Lemma byuid_revoked w d w' : revoked (db w) → Device.ByUID uid w = (inl d, w') → State d = REVOKED.
Proof using.
  intros Hd Hr. pose proof (ByUID_spec id uid (λ d, d_state d = REVOKED) revoked (λ _ _, True) (λ _ x, x) w) as Hs.
  unfold try in Hs. rewrite Hr in Hs. destruct (Hs _ w' Hd eq_refl) as [_ (row & _ & -> & _ & _ & HG)]. exact HG.
Qed.
Lemma revoked_guided now o :
  speaks_for uid o → guided revoked (turned_away o) (code parse_addr inet engine now o).
Proof using.
  destruct o; try done; simpl; intros Hu.
  - unfold code_request. rewrite Hu. destruct (_ || _); [by intros a [= <-]|]. destruct (negb _); [by intros a [= <-]|].
    destruct (parse_int64 _) as [s|]; [|by intros a [= <-]]. cbv zeta. destruct (negb _); [by intros a [= <-]|].
    destruct (read_body _) as [body|]; [|by intros a [= <-]]. intros w [d|e] w' Hi Hr; [|by intros a [= <-]].
    rewrite (byuid_revoked w d w' Hi Hr). by intros a [= <-].
  - unfold code_begin. rewrite Hu. destruct (BeginRequest_Validate req); [|done].
    intros w [d|e] w' Hi Hr; [|done]. by rewrite (byuid_revoked w d w' Hi Hr).
Qed.

(** A tree that succeeds only by a piece that establishes [J]. *)
Fixpoint until {A} (I J : Tables → Prop) (c : act A) : Prop :=
  match c with
  | Ret r => ∀ a, r ≠ inl a
  | Atom m k => ∀ w r w', I (db w) → m w = (r, w') → until I J (k r) ∨ J (db w')
  end.
Abbreviation enrolled := (device_is id uid (λ _, True)).
Abbreviation moves := (moves parse_addr inet engine (λ _, True) (λ _ _ _, True)).
Lemma revoke_until now reason : until enrolled revoked (code parse_addr inet engine now (OpRevoke id reason)).
Proof using.
  intros w [[]|e] w' Hi Hr; [right|left; done]. exact (revoke_revokes now id uid reason w _ w' Hi Hr).
Qed.
Lemma revoked_lasting : lasting (λ d, d_state d = REVOKED).
Proof using. intros d d' _ [E|E] Hg; congruence. Qed.
Lemma calmly_reaches G c c' : lasting G → rtc moves c c' → calmly (device_is id uid G) c → calmly (device_is id uid G) c'.
Proof using. intros HG Hr. eapply reaches_calmly; [|exact Hr]. intros n o _. by apply device_pieces. Qed.

(** Once a revocation has been answered, the device is revoked. *)
Lemma revocation_effective reason c c' :
  rtc moves c c' → calmly enrolled c → enrolled (sys_tables c) →
  calmly revoked c →
  (∀ i th, sys_running c !! i = Some th → ro_op th = OpRevoke id reason →
     until enrolled revoked (ro_code th) ∨ revoked (sys_tables c)) →
  ∀ i th, sys_running c' !! i = Some th → ro_op th = OpRevoke id reason →
     until enrolled revoked (ro_code th) ∨ revoked (sys_tables c').
Proof using.
  intros Hr. induction Hr as [|x y z Hm Hr IH]; [done|]. intros Hc Ht Hv Hu.
  pose proof (moves_calmly _ _ _ _ _ _ _ _ (λ n o _, device_pieces parse_addr inet engine n o id uid _ revoked_lasting) Hm Hv) as Hv'.
  assert (all_steady parse_addr inet engine (λ _, True) enrolled) as Hs by (intros n o _; by apply device_pieces).
  apply IH; [by eapply moves_calmly|by eapply (moves_keeps _ _ _ _ _ enrolled)|done|].
  assert (revoked (sys_tables x) → revoked (sys_tables y)) as Hkeep by by eapply moves_keeps.
  destruct Hm as [clk clk' t l _|clk t l o _|clk t l i o since B m k fs r w Hl Hrun _]; [exact Hu|..]; intros j th; simpl in *.
  - intros [Hj|[_ Hj]]%lookup_app_Some Ho; [by eapply Hu|]. apply list_lookup_singleton_Some in Hj as [_ <-].
    simpl in Ho. subst o. left. apply revoke_until.
  - intros [(<- & <- & _)|[_ Hj]]%list_lookup_insert_Some Ho.
    + destruct (Hu i _ Hl Ho) as [Hun|Hrev]; [|right; auto]. exact (Hun (mkWorld t fs) _ _ Ht Hrun).
    + destruct (Hu j th Hj Ho) as [Hun|Hrev]; [by left|right; auto].
Qed.
(** What begins on a revoked device is turned away. *)
Lemma revoked_refuses n c c' :
  rtc moves c c' → calmly revoked c → revoked (sys_tables c) →
  (∀ i th, (n <= i)%nat → sys_running c !! i = Some th → speaks_for uid (ro_op th) →
     guided revoked (turned_away (ro_op th)) (ro_code th)) →
  ∀ i th, (n <= i)%nat → sys_running c' !! i = Some th → speaks_for uid (ro_op th) →
     guided revoked (turned_away (ro_op th)) (ro_code th).
Proof using.
  intros Hr. induction Hr as [|x y z Hm Hr IH]; [done|]. intros Hc Ht Hg.
  assert (all_steady parse_addr inet engine (λ _, True) revoked) as Hs by (intros k o _; apply device_pieces, revoked_lasting).
  apply IH; [by eapply moves_calmly|by eapply (moves_keeps _ _ _ _ _ revoked)|].
  destruct Hm as [clk clk' t l _|clk t l o _|clk t l i o since B m k fs r w Hl Hrun _]; [exact Hg|..]; intros j th Hn; simpl in *.
  - intros [Hj|[_ Hj]]%lookup_app_Some Ho; [by eapply Hg|]. apply list_lookup_singleton_Some in Hj as [_ <-].
    by apply revoked_guided.
  - intros [(<- & <- & _)|[_ Hj]]%list_lookup_insert_Some Ho; [|by eapply Hg].
    exact (Hg i _ Hn Hl Ho (mkWorld t fs) _ _ Ht Hrun).
Qed.
End Revoked.

(** C12: revocation takes effect when it is answered.  Let operations run in any
    interleaving.  Once a revocation of an enrolled device has been answered, every request
    signed as that device that starts afterwards is answered 401, and no attempt to begin a
    session on it that starts afterwards succeeds, whatever else is still running and
    whatever fails.  (What was already past its check of the device may still go through:
    Concurrency.revocation_race.) *)
Theorem interleaved_revocation {C : Crypto} (parse_addr inet : string → option string) (engine : Risk.Engine)
    (now since : Z) (id : uuid) (uid reason : string) (t : Tables) (c c' : system) (k i : nat)
    (x a : option outcome) (th : running) :
  device_is id uid (λ _, True) t →
  rtc (moves parse_addr inet engine (λ _, True) (λ _ _ _, True)) (opening now t) c →
  sys_running c !! k = Some (mkRunning (OpRevoke id reason) since (Ret (inl x))) →
  rtc (moves parse_addr inet engine (λ _, True) (λ _ _ _, True)) c c' →
  (length (sys_running c) <= i)%nat → sys_running c' !! i = Some th → speaks_for uid (ro_op th) →
  ro_code th = Ret (inl a) → turned_away (ro_op th) a.
Proof.
  intros Hd Hr Hk Hr' Hi Hth Hsp Ha.
  assert (device_is id uid (λ d, d_state d = REVOKED) (sys_tables c)) as Hrev.
  { destruct (revocation_effective parse_addr inet engine id uid reason _ _ Hr (opening_calmly _ _ _) Hd
      (opening_calmly _ _ _) ltac:(by intros ? ?) k _ Hk eq_refl) as [Hu|?]; [|done]. by destruct (Hu x). }
  pose proof (calmly_reaches parse_addr inet engine id uid _ _ _ revoked_lasting Hr (opening_calmly _ _ _)) as Hc.
  pose proof (revoked_refuses parse_addr inet engine id uid (length (sys_running c)) _ _ Hr' Hc Hrev
    ltac:(intros j ? Hj Hl; apply lookup_lt_Some in Hl; lia) i th Hi Hth Hsp) as Hg.
  rewrite Ha in Hg. by apply Hg.
Qed.
