(* ===== verification/Liveness.v ===== *)
(** * The honest are let in

    The safety theorems would hold of a server that refuses everyone.  Here: when
    the database answers, a well-formed request signed by an active device is
    forwarded (and only such a request is), and a user who was given a challenge
    begins a session with it on a reporting device within the two minutes it lasts,
    whatever else the system does meanwhile. *)

From S2P Require Import Prelude GoStd Encode Risk Posture Policy Behaviour Db AuditLog Device Session.
From S2P Require Import User Telemetry Incident RiskStore PolicyStore PostureStore BehaviourStore Trust.
From S2P Require Import Simulator System DeviceProps SystemProps SessionProps UserProps.
Open Scope Z_scope.
Open Scope go_scope.

(** ** Signed requests *)

Section Admission.
Context `{Crypto}.

(** What an agent request has to satisfy, in the tables it meets; [timely] is what is asked
    of its timestamp. *)
Record admissible (timely : Z → Prop) (r : HttpRequest) (body : string) (row : device_row) (t : Tables) : Prop :=
  mkAdmissible {
  ad_headers : h_device r ≠ "" ∧ h_signature r ≠ "";
  ad_nonce : ValidateNonce (h_nonce r) = inl ();
  ad_time : ∃ seconds, parse_int64 (h_timestamp r) = Some seconds ∧
    timely (time_unix seconds) ∧ timestamptz (time_unix seconds) ≠ None ∧
    VerifySignature (d_public_key row)
      (mkSigningInput (h_method r) (h_path r) (time_unix seconds) (h_nonce r) body) (h_signature r) = inl ();
  ad_body : h_body r = Some body ∧ len body <= MaxSignedBodyBytes;
  ad_device : row ∈ devices t ∧ d_uid row = h_device r ∧ d_state row = DEV_ACTIVE;
  ad_fresh : ∀ x, x ∈ replay_nonces t → rn_device x = d_id row → rn_nonce x ≠ h_nonce r }.
(** The check of the code, and what it stands for. *)
Definition skew_passes (now timestamp : Z) : Prop := CheckClockSkew timestamp now = inl ().
Definition within_five_minutes (now timestamp : Z) : Prop := Z.abs (now - timestamp) <= 5 * minute.
(** The timestamp of the request, when it is a number, is within 292 years of the clock:
    the difference is a [Duration]. *)
Definition same_era (now : Z) (r : HttpRequest) : Prop :=
  ∀ seconds, parse_int64 (h_timestamp r) = Some seconds →
    sane_time (time_unix seconds) ∧ - 2 ^ 63 < now - time_unix seconds < 2 ^ 63.
Lemma admissible_window now r body row t :
  same_era now r → admissible (skew_passes now) r body row t ↔ admissible (within_five_minutes now) r body row t.
Proof.
  intros He. split; intros [H1 H2 (seconds & Hp & Ht & H3) H4 H5 H6]; (split; [done|done| |done..]); exists seconds;
    (split_and!; [done| |apply H3..]); destruct (He seconds Hp) as [Hs Hr]; by apply (clock_skew_window _ now Hs Hr).
Qed.

Lemma ByUID_calm t uid row :
  devices_ok t → row ∈ devices t → d_uid row = uid → ByUID uid (calm t) = (inl (scanDevice row), calm t).
Proof.
  intros [_ Hu] Hin <-. unfold ByUID, bind, try, query_row. rewrite stmt_calm.
  rewrite (find_unique _ _ row Hin); [done|apply str_eqb_refl|].
  intros y Hy Hy2%str_eqb_eq. by apply (unique_key d_uid (devices t)).
Qed.
Lemma has_device_elem t row : row ∈ devices t → has_device t (d_id row) = true.
Proof.
  intros Hin. apply existsb_exists. exists row. split; [by apply list_elem_of_In|apply N.eqb_refl].
Qed.
Lemma nonce_nonempty n : ValidateNonce n = inl () → n ≠ "".
Proof. by intros Hv ->. Qed.
Lemma seen_iff t id nonce :
  existsb (same_nonce id nonce) (replay_nonces t) = false ↔
  ∀ x, x ∈ replay_nonces t → rn_device x = id → rn_nonce x ≠ nonce.
Proof.
  split.
  - intros He x Hx Hd Hn. pose proof (existsb_false _ _ _ He Hx) as Hf. unfold same_nonce in Hf.
    by rewrite Hd, Hn, N.eqb_refl, str_eqb_refl in Hf.
  - intros Hx. apply not_true_iff_false. intros (x & Hin%list_elem_of_In & Hs)%existsb_exists.
    apply andb_true_iff in Hs as [Hd%N.eqb_eq Hn%str_eqb_eq]. by apply (Hx x).
Qed.
Lemma str_neqb s s' : s ≠ s' → str_eqb s s' = false.
Proof. intros Hn. apply not_true_iff_false. by intros ?%str_eqb_eq. Qed.

Lemma ConsumeNonce_calm t id nonce ts at_ :
  timestamptz ts = Some at_ → existsb (same_nonce id nonce) (replay_nonces t) = false →
  has_device t id = true →
  ConsumeNonce id nonce ts (calm t) =
    (inl (), calm (set_replay_nonces (replay_nonces t ++ [mkReplay nonce id at_]) t)).
Proof.
  intros Ht He Hd. unfold ConsumeNonce, bind, try. rewrite stmt_calm, Ht, He, Hd. done.
Qed.
Lemma admissible_forwarded now r body row t :
  devices_ok t → admissible (skew_passes now) r body row t →
  ∃ t', RequireDeviceSignature now r (calm t) = (inl (Forward (scanDevice row) body), calm t').
Proof.
  intros Hok [[Hd Hs] Hn (seconds & Hp & Hc & Ht & Hv) [Hb Hl] (Hin & Hu & Ha) Hf].
  unfold skew_passes in Hc. unfold RequireDeviceSignature. rewrite (str_neqb _ _ Hd), (str_neqb _ _ Hs), (str_neqb _ _ (nonce_nonempty _ Hn)).
  destruct (str_eqb (h_timestamp r) "") eqn:Et; [apply str_eqb_eq in Et; by rewrite Et in Hp|].
  rewrite Hn, Hp. cbn [orb is_ok negb]. cbv zeta. rewrite Hc. cbn [is_ok negb].
  unfold read_body. rewrite Hb. destruct (len body >? MaxSignedBodyBytes) eqn:El; [zlia|].
  unfold bind at 1, try at 1. rewrite (ByUID_calm t _ row Hok Hin Hu).
  rewrite bool_decide_eq_true_2 by done. cbn [negb]. change (PublicKey (scanDevice row)) with (d_public_key row). rewrite Hv. cbn [is_ok negb].
  destruct (timestamptz (time_unix seconds)) as [at_|] eqn:Ets; [|done].
  eexists. unfold bind, try. cbn [Device.ID scanDevice].
  rewrite (ConsumeNonce_calm t _ _ _ at_ Ets); [done| |by apply has_device_elem]. by apply seen_iff.
Qed.

(** The middleware on tables that answer, up to the point where it looks the device
    up: every earlier refusal is a 401. *)
Lemma request_cases now r t o w :
  RequireDeviceSignature now r (calm t) = (o, w) →
  (∃ st, o = inl (Reject st) ∧ w = calm t) ∨
  (∃ row body, o = inl (Forward (scanDevice row) body) ∧ admissible (skew_passes now) r body row t).
Proof.
  unfold RequireDeviceSignature.
  destruct (_ || _) eqn:Eh; [intros [= <- <-]; eauto|].
  apply orb_false_iff in Eh as [[[Ed _]%orb_false_iff Es]%orb_false_iff _].
  destruct (ValidateNonce (h_nonce r)) as [[]|] eqn:En; cbn [is_ok negb]; [|intros [= <- <-]; eauto].
  destruct (parse_int64 _) as [seconds|] eqn:Ep; [|intros [= <- <-]; eauto]. cbv zeta.
  destruct (CheckClockSkew _ now) as [[]|] eqn:Ec; cbn [is_ok negb]; [|intros [= <- <-]; eauto].
  destruct (read_body _) as [body|] eqn:Eb; [|intros [= <- <-]; eauto].
  unfold ByUID, bind at 1, try at 1, bind at 1, try at 1, query_row. rewrite stmt_calm.
  destruct (find _ _) as [row|] eqn:Ef; [|intros [= <- <-]; eauto]. apply find_some in Ef as [Hin Hu%str_eqb_eq].
  cbn [fmap option_fmap option_map ret].
  destruct (bool_decide _) eqn:Ea; cbn [negb]; [|intros [= <- <-]; eauto]. apply bool_decide_eq_true in Ea.
  destruct (VerifySignature _ _ _) as [[]|] eqn:Ev; cbn [is_ok negb]; [|intros [= <- <-]; eauto].
  unfold ConsumeNonce, bind, try. rewrite stmt_calm. destruct (timestamptz _) as [at_|] eqn:Et;
    [|intros [= <- <-]; eauto]. destruct (existsb _ _) eqn:Ex; [intros [= <- <-]; eauto|].
  destruct (has_device _ _); [|intros [= <- <-]; eauto]. intros [= <- <-]. right. exists row, body.
  split; [done|]. unfold read_body in Eb. destruct (h_body r) as [b|] eqn:Ehb; [|done].
  destruct (len b >? _) eqn:El; [done|]. injection Eb as ->. split.
  - split; intros E; [by rewrite E in Ed|by rewrite E in Es].
  - done.
  - exists seconds. split_and!; try done. by rewrite Et.
  - split; [done|zlia].
  - done.
  - by apply seen_iff.
Qed.
End Admission.

(** C8: exactly the admissible requests are admitted.  Take a request whose timestamp, when
    it is a number, is within 292 years of the server's clock (a later one passes the
    check: DeviceProps.clock_skew_far_future).  While the database answers, the device
    middleware forwards it to its handler if and only if it is complete and well formed,
    its nonce is new for the device, its timestamp is within five minutes of the clock, its
    body within four megabytes, and the device it names is enrolled, active and has signed
    it.  Every other request is refused, and a refusal changes nothing. *)
Theorem request_admission {C : Crypto} (now : Z) (r : HttpRequest) (t : Tables) :
  devices_ok t → same_era now r →
  (∀ body row, row ∈ devices t →
     (∃ w, RequireDeviceSignature now r (calm t) = (inl (Forward (scanDevice row) body), w)) ↔
     admissible (within_five_minutes now) r body row t) ∧
  (∀ o w, RequireDeviceSignature now r (calm t) = (o, w) →
     (∃ row body, o = inl (Forward (scanDevice row) body) ∧ row ∈ devices t) ∨
     (∃ status, o = inl (Reject status) ∧ w = calm t)).
Proof.
  intros Hok He. split.
  - intros body row Hin. rewrite <-admissible_window by done. split.
    + intros [w [(? & ? & _)|(row' & b & E & Ha)]%request_cases]; [done|].
      assert (Forward (scanDevice row) body = Forward (scanDevice row') b) as E' by congruence.
      assert (scanDevice row = scanDevice row' ∧ body = b) as [Hs ->] by (split; congruence).
      apply (f_equal Device.ID) in Hs. assert (row' = row) as ->; [|done].
      destruct Hok as [Hi _], Ha as [_ _ _ _ (Hin' & _) _]. by apply (unique_key d_id (devices t)).
    + intros [t' Ht]%admissible_forwarded; [by exists (calm t')|done].
  - intros o w [|(row & b & -> & Ha)]%request_cases; [by right|]. left. exists row, b. split; [done|apply Ha].
Qed.

(** ** Sessions *)

(** The operations that leave a user to it: nobody revokes the device, and nobody
    else presents the challenge. *)
Definition undisturbed (nonce : string) (id : uuid) (o : op) : Prop :=
  match o with
  | OpRevoke id' _ => id' ≠ id
  | OpBegin _ req => bq_Nonce req ≠ nonce
  | _ => True
  end.
(** The challenge is stored for the user, unspent, until [exp]. *)
Definition challenge_open (nonce : string) (user : uuid) (exp : Z) (t : Tables) : Prop :=
  nonces_ok t ∧ ∃ x, x ∈ session_nonces t ∧ n_nonce x = nonce ∧ n_user x = user ∧ n_used_at x = None ∧
    n_expires_at x = exp.
(** The device is active with that key, and has reported between [since] and [until]. *)
Definition ready (key : string) (since until : Z) (d : device_row) : Prop :=
  d_state d = DEV_ACTIVE ∧ d_public_key d = key ∧
  ∃ hb, d_last_heartbeat_at d = Some hb ∧ since <= hb <= until.

Section Undisturbed.
Context `{Crypto} (parse_addr inet : string → option string) (engine : Risk.Engine).
Abbreviation run := (run parse_addr inet engine).

Lemma pg_time_le t : pg_time t <= t.
Proof. unfold pg_time. change microsecond with 1000. pose proof (Z.mul_div_le t 1000). lia. Qed.

Lemma challenge_open_keeps nonce user exp id now o :
  undisturbed nonce id o → now <= exp → keeps (challenge_open nonce user exp) (run now o).
Proof.
  intros Ho Hle. destruct o; frame.
  - apply keeps_exec. intros t [Hok (x & Hx & Hn)]. split.
    + unfold nonces_ok. simpl. by apply NoDup_lfilter.
    + exists x. split; [|done]. simpl. apply elem_of_lfilter. split; [done|].
      apply negb_true_iff, Z.ltb_ge. pose proof (pg_time_le now). destruct Hn as (_ & _ & _ & ->). lia.
  - apply keeps_insert. intros t [Hok (x & Hx & Hn)]. destruct (existsb _ _) eqn:E; [done|]. intros _. split.
    + by apply (nonce_insert (mkNonce (GenerateNonce raw) _ _ _ _ _)).
    + exists x. split; [|done]. simpl. apply elem_of_app. by left.
  - apply keeps_exec. intros t [Hok (x & Hx & Hn)]. split.
    + unfold nonces_ok. simpl. by rewrite update_keys.
    + exists x. split; [|done]. simpl. apply elem_of_update. exists x. split; [done|].
      destruct Hn as (Hn & _). simpl in Ho. by rewrite Hn, (str_neqb nonce (bq_Nonce _)).
Qed.

Lemma ready_reported key since until now v u d :
  since <= pg_time now → now <= until → ready key since until d → ready key since until (reported now v u d).
Proof.
  intros H1 H2 (Ha & Hk & hb & _ & _). split_and!; [done..|]. exists (pg_time now). split; [done|].
  pose proof (pg_time_le now). lia.
Qed.
Lemma ready_keeps nonce key since until id uid now o :
  undisturbed nonce id o → since <= pg_time now → now <= until →
  keeps (device_is id uid (ready key since until)) (run now o).
Proof.
  intros Ho H1 H2. destruct o; frame.
  - apply keeps_stmt. intros t x t' HP. destruct (existsb _ _) eqn:E; [done|].
    intros [= _ <-]. by apply device_insert.
  - apply keeps_exec. intros t HP. simpl. apply device_rewrite; [done..| |exact HP].
    intros d _ _. by apply (ready_reported _ _ _ now _ (pg_time now)).
  - apply keeps_exec. intros t HP. simpl. apply device_rewrite; [done..| |exact HP].
    intros d Hd Hh. apply andb_true_iff in Hh as [Hh%N.eqb_eq _]. simpl in Ho. congruence.
  - apply sim_device_is. intros d v u. by apply ready_reported.
Qed.

Lemma heartbeat_fresh now hb :
  sane_time hb → hb <= now → now - hb <= HeartbeatFreshness → (time_sub now hb >? HeartbeatFreshness) = false.
Proof.
  intros Hs H1 H2. rewrite time_sub_exact; [zlia|done|].
  unfold HeartbeatFreshness in H2. unfold int64_range, minInt64, maxInt64. change minute with 60000000000 in *. lia.
Qed.
Lemma insert_session_calm now sid user dev src t :
  existsb (λ s, (s_id s =? sid)%N) (sessions t) = false → has_user t user = true → has_device t dev = true →
  (∀ a, src = Some a → inet a ≠ None) →
  ∃ ip, let s := session_of now sid user dev ip in
    insert_session inet now sid user dev src (calm t) = (inl s, calm (set_sessions (sessions t ++ [s]) t)).
Proof.
  intros Hf Hu Hd Hi. unfold insert_session. rewrite stmt_calm, Hf, Hu, Hd. cbn [negb andb].
  destruct src as [a|]; [|by exists None]. destruct (inet a) as [ip|] eqn:E; [by exists (Some ip)|].
  by destruct (Hi a eq_refl).
Qed.
(** A begin request that meets its conditions succeeds. *)
Lemma begin_succeeds now sid req id key since exp t :
  BeginRequest_Validate req = inl () →
  challenge_open (bq_Nonce req) (bq_UserID req) exp t → now <= exp →
  device_is id (bq_DeviceUID req) (ready key since now) t →
  sane_time since → sane_time now → now - since <= HeartbeatFreshness →
  verifyAttestation key (bq_Nonce req) (bq_Subject req) (bq_Signature req) = inl () →
  has_user t (bq_UserID req) = true → (∀ a, parse_addr (bq_SourceIP req) = Some a → inet a ≠ None) →
  existsb (λ s, (s_id s =? sid)%N) (sessions t) = false →
  ∃ s t', Begin parse_addr inet now sid req (calm t) = (inl s, calm t') ∧
    SID s = sid ∧ SUserID s = bq_UserID req ∧ SDeviceID s = id ∧ SStatus s = ACTIVE.
Proof.
  intros Hv [Hno (x & Hx & Hn & Hxu & Hus & He)] Hle [Hok (d & Hd & Hi & Hu & Hst & Hk & hb & Hb & Hr)].
  intros Hs1 Hs2 Hfr Hsig Huser Hinet Hnew.
  destruct (insert_session_calm now sid (bq_UserID req) (d_id d) (parse_addr (bq_SourceIP req)) t Hnew Huser
    (has_device_elem t d Hd) Hinet) as [ip Hins]. cbv zeta in Hins.
  unfold Begin, open_session, bind at 1, lift at 1. rewrite Hv. unfold bind at 1, try at 1.
  rewrite (ByUID_calm t _ d Hok Hd Hu). rewrite bool_decide_eq_true_2 by done. cbn [negb].
  change (LastHeartbeatAt (scanDevice d)) with (d_last_heartbeat_at d). rewrite Hb, heartbeat_fresh; [|unfold sane_time in *; lia..].
  change (PublicKey (scanDevice d)) with (d_public_key d). rewrite Hk, Hsig. unfold bind at 1, lift.
  unfold bind at 1. rewrite tx_calm. unfold bind at 1, try, query_row at 1. rewrite stmt_calm.
  rewrite (find_unique _ _ x Hx); [|rewrite Hn; apply str_eqb_refl|].
  2:{ intros y Hy Hy2%str_eqb_eq. apply (unique_key n_nonce (session_nonces t)); [done..|congruence]. }
  unfold bind at 1, ret at 1. rewrite bool_decide_eq_true_2 by done. rewrite Hxu, N.eqb_refl.
  unfold time_after. destruct (n_expires_at x <? now) eqn:El; [zlia|]. cbn [negb orb]. cbv zeta.
  unfold bind at 1. change (Device.ID (scanDevice d)) with (d_id d). rewrite Hins.
  unfold bind, spend_nonce, exec. rewrite stmt_calm. cbn [ret next_fault calm faults].
  eexists _, _. split; [reflexivity|]. by rewrite <-Hi.
Qed.
End Undisturbed.

Lemma nonce_format raw : String.length raw = 32%nat → ValidateNonceFormat (GenerateNonce raw) = inl ().
Proof.
  intros Hl. unfold ValidateNonceFormat, GenerateNonce, len. rewrite hex_encode_length, Hl, hex_encode_hex. done.
Qed.
Lemma device_is_weaken id uid (G G' : device_row → Prop) t :
  (∀ d, G d → G' d) → device_is id uid G t → device_is id uid G' t.
Proof. intros HG [Hok (d & Hd & Hi & Hu & Hg)]. split; [done|]. exists d. auto. Qed.
Lemma account_has_user `{Crypto} id s G t : account id s G t → has_user t id = true.
Proof.
  intros [_ (u & Hu & <- & _)]. apply existsb_exists. exists u.
  split; [by apply list_elem_of_In|apply N.eqb_refl].
Qed.
Lemma issue_nonce_calm now raw user t :
  nonces_ok t → (∀ x, x ∈ session_nonces t → n_nonce x ≠ GenerateNonce raw) → has_user t user = true →
  let t1 := set_session_nonces (session_nonces t ++ [mkNonce (GenerateNonce raw) user (pg_time now)
    (pg_time (time_add now NonceTTL)) None None]) t in
  IssueNonce now raw user (calm t) = (inl (GenerateNonce raw, time_add now NonceTTL), calm t1) ∧
  challenge_open (GenerateNonce raw) user (pg_time (time_add now NonceTTL)) t1.
Proof.
  intros Hok Hf Hu t1.
  assert (existsb (λ n, str_eqb (n_nonce n) (GenerateNonce raw)) (session_nonces t) = false) as He.
  { apply not_true_iff_false. intros (x & Hx%list_elem_of_In & Hn%str_eqb_eq)%existsb_exists. by apply (Hf x). }
  split.
  - unfold IssueNonce, insert_if, bind. rewrite stmt_calm, He, Hu. done.
  - split; [by apply (nonce_insert (mkNonce (GenerateNonce raw) _ _ _ _ _))|].
    eexists. simpl. rewrite elem_of_app. split; [right; by left|done].
Qed.

(** C7: an honest user gets a session.  Let a user with an account hold a device that
    is active and has reported recently, and let the database answer.  Then asking
    for a challenge yields one, and signing it begins an active session for that
    user on that device at any instant of the next two minutes (as long as the
    agent's report is not older than fifteen), whatever operations others run in
    between and whatever faults those meet, unless somebody revokes the device or
    presents the challenge first. *)
Theorem honest_session_begins {C : Crypto} (parse_addr inet : string → option string) (engine : Risk.Engine)
    (now now' : Z) (raw : string) (user id : uuid) (subject uid key sig source : string) (since : Z) (t : Tables) :
  String.length raw = 32%nat → (∀ x, x ∈ session_nonces t → n_nonce x ≠ GenerateNonce raw) → nonces_ok t →
  account user subject (λ _, True) t → device_is id uid (ready key since now) t →
  sane_time since → sane_time now' → since <= pg_time now →
  now <= now' <= pg_time (time_add now NonceTTL) → now' - since <= HeartbeatFreshness →
  trim_space uid ≠ "" → len uid <= 128 → trim_space sig ≠ "" → len sig <= 512 →
  verifyAttestation key (GenerateNonce raw) subject sig = inl () →
  (∀ a, parse_addr source = Some a → inet a ≠ None) →
  ∃ t1, IssueNonce now raw user (calm t) = (inl (GenerateNonce raw, time_add now NonceTTL), calm t1) ∧
    ∀ t' sid, steps parse_addr inet engine (undisturbed (GenerateNonce raw) id) now t1 now' t' →
      existsb (λ s, (s_id s =? sid)%N) (sessions t') = false →
      ∃ s t2, Begin parse_addr inet now' sid (mkBegin user subject uid (GenerateNonce raw) sig source) (calm t')
          = (inl s, calm t2) ∧
        SID s = sid ∧ SUserID s = user ∧ SDeviceID s = id ∧ SStatus s = ACTIVE.
Proof.
  intros Hraw Hfresh Hno Hacc Hdev Hs1 Hs2 Hsince Hnow Hhb Hu1 Hu2 Hg1 Hg2 Hsig Hinet.
  destruct (issue_nonce_calm now raw user t Hno Hfresh (account_has_user _ _ _ _ Hacc)) as [Hissue Hopen].
  eexists. split; [exact Hissue|]. intros t' sid Hsteps Hsid.
  apply (begin_succeeds parse_addr inet now' sid (mkBegin user subject uid (GenerateNonce raw) sig source) id key
    since (pg_time (time_add now NonceTTL))); simpl; try done.
  - unfold BeginRequest_Validate. cbn [bq_Nonce bq_DeviceUID bq_Signature].
    rewrite nonce_format by done. rewrite (str_neqb _ _ Hu1), (str_neqb _ _ Hg1).
    destruct (len uid >? 128) eqn:?; [zlia|]. destruct (len sig >? 512) eqn:?; [zlia|]. done.
  - eapply steps_keeps; [|exact Hsteps|exact Hopen]. intros clk o Hclk Ho.
    eapply challenge_open_keeps; [exact Ho|lia].
  - lia.
  - eapply steps_keeps; [|exact Hsteps|].
    + intros clk o Hclk Ho. eapply ready_keeps; [exact Ho| |lia].
      pose proof (pg_time_mono now clk). lia.
    + eapply device_is_weaken; [|exact Hdev]. intros d (Ha & Hk & hb & Hb & Hr). split_and!; [done..|].
      exists hb. split; [done|lia].
  - apply (account_has_user user subject (λ _, True)). eapply steps_keeps; [|exact Hsteps|exact Hacc].
    intros clk o _ _. by apply account_keeps.
Qed.
