(* ===== verification/AuditProps.v ===== *)
(** * Privileged actions leave an audit record

    While the database works, every successful reply of a privileged endpoint
    appends exactly one record to the audit log, naming the action. *)

From S2P Require Import Prelude GoStd Encode Identity Risk Posture Policy Behaviour Db AuditLog Device.
From S2P Require Import User Session Telemetry Incident RiskStore PolicyStore PostureStore BehaviourStore.
From S2P Require Import Trust Simulator RateLimit Web SessionApi DeviceApi TrustApi AdminApi Router System.
From S2P Require Import SystemProps HttpProps.
Open Scope Z_scope.
Open Scope go_scope.

(** ** Runs in which nothing fails *)



(** A scenario run, whose loops are settled by induction. *)
Section SettledRun.
Context `{Crypto} (inet : string → option string) (engine : Risk.Engine) (now : Z) (ids : nat → uuid).
Context (keys suffixes : nat → string) (fresh : nat → Fresh).
End SettledRun.

Section Audited.
Context `{Crypto} (parse_addr inet : string → option string) {Lib : Libs} {V : Verifier} {J : Jwt}.
Context (engine : Risk.Engine) (cfg : Config).





Section Rules.
Context (l : list audit_row) (P : audit_row → Prop).
End Rules.

(** ** The privileged endpoints *)



End Audited.

