(* ===== verification/Middleware.v ===== *)
(** * The middleware chain (internal/httpapi/middleware.go, problem.go, router.go)

    [Router.respond] says what a request is answered.  Here is how: handlers write
    headers, a status and a body to an [http.ResponseWriter], which middlewares wrap;
    [NewRouter] composes them.  A handler is a function of the writer's type, because
    [RequestLogger] hands its inner handlers a [statusRecorder] instead of the
    connection's writer.  The access log, and the level it is written at (package
    logging), are the lines a request leaves.  JSON encoding of the payloads is a
    parameter; the chain sends exactly what [respond] says. *)

From S2P Require Import Prelude GoStd Encode Identity Risk Posture Policy Behaviour Db AuditLog Device.
From S2P Require Import User Session Telemetry Incident RiskStore PolicyStore PostureStore BehaviourStore.
From S2P Require Import Trust Simulator RateLimit Web SessionApi DeviceApi TrustApi AdminApi Router.
Open Scope Z_scope.
Open Scope go_scope.

(** ** Package logging *)

Inductive Level := LevelDebug | LevelInfo | LevelWarn | LevelError.
Definition level_number (l : Level) : Z :=
  match l with LevelDebug => -4 | LevelInfo => 0 | LevelWarn => 4 | LevelError => 8 end.
Definition parseLevel (level : string) : Level :=
  let l := to_lower level in
  if str_eqb l "debug" then LevelDebug else if str_eqb l "warn" then LevelWarn
  else if str_eqb l "error" then LevelError else LevelInfo.
Inductive format := TextFormat | JSONFormat.
Record Logger := mkLogger { lg_level : Level; lg_format : format }.
(** [logging.New]. *)
Definition New (level fmt : string) : Logger :=
  mkLogger (parseLevel level) (if equal_fold fmt "text" then TextFormat else JSONFormat).

(** The lines of the request path, with the [request_id] of their logger. *)
Inductive message :=
  | HttpRequest_ (method path : string) (status bytes : Z)
  | PanicRecovered (panic : error) (path : string)
  | RateLimitExceeded (path : string) (retryAfter : Z)
  | EncodeFailed.
Record line := mkLine { ln_request_id : string; ln_message : message }.
Definition line_level (m : message) : Level :=
  match m with
  | HttpRequest_ _ _ _ _ => LevelInfo
  | RateLimitExceeded _ _ => LevelWarn
  | PanicRecovered _ _ | EncodeFailed => LevelError
  end.
(** What a logger lets through. *)
Definition emitted (lg : Logger) (ls : list line) : list line :=
  List.filter (λ l, level_number (lg_level lg) <=? level_number (line_level (ln_message l))) ls.

(** ** http.ResponseWriter *)

Abbreviation headers := (gmap string (list string)).
Class ResponseWriter (W : Type) := {
  header_set : string → string → W → W;
  header_add : string → string → W → W;
  write_header : Z → W → W * option error;   (* the panic, if it panics *)
  write : string → W → Z * W;
}.

(** The writer of net/http: the first final status sends the headers as they are.  [rs_body]
    is what was written to it, and counted. *)
Record response := mkResponse { rs_header : headers; rs_sent : option (Z * headers); rs_body : string }.
Definition fresh_response : response := mkResponse ∅ None "".
Definition body_allowed (status : Z) : bool := negb ((status <? 200) || (status =? 204) || (status =? 304)).
Definition response_write_header (code : Z) (w : response) : response * option error :=
  match rs_sent w with
  | Some _ => (w, None)                          (* superfluous *)
  | None =>
      if (code <? 100) || (code >? 999) then (w, Some (ErrPanic "invalid WriteHeader code"))
      else if (code <? 200) && negb (code =? 101) then (w, None)    (* informational *)
      else (mkResponse (rs_header w) (Some (code, rs_header w)) (rs_body w), None)
  end.
(** The body that goes to the client: net/http drops what is written in answer to HEAD. *)
Definition transmitted (method : string) (w : response) : string := if str_eqb method "HEAD" then "" else rs_body w.
#[export] Instance response_writer : ResponseWriter response := {
  header_set k v w := mkResponse (<[k := [v]]> (rs_header w)) (rs_sent w) (rs_body w);
  header_add k v w := mkResponse (<[k := default [] (rs_header w !! k) ++ [v]]> (rs_header w)) (rs_sent w) (rs_body w);
  write_header := response_write_header;
  write b w :=
    let w := match rs_sent w with Some _ => w | None => (response_write_header 200 w).1 end in
    match rs_sent w with
    | Some (status, _) => if body_allowed status then (len b, mkResponse (rs_header w) (rs_sent w) (rs_body w +:+ b)%stdpp)
                          else (0, w)
    | None => (0, w)
    end;
}.

Record statusRecorder (W : Type) := mkRecorder { sr_writer : W; sr_status : Z; sr_bytes : Z }.
Arguments mkRecorder {W}. Arguments sr_writer {W}. Arguments sr_status {W}. Arguments sr_bytes {W}.
Definition recorder_WriteHeader {W} `{ResponseWriter W} (code : Z) (s : statusRecorder W) : statusRecorder W * option error :=
  let '(w, p) := write_header code (sr_writer s) in (mkRecorder w code (sr_bytes s), p).
Definition recorder_Write {W} `{ResponseWriter W} (b : string) (s : statusRecorder W) : Z * statusRecorder W :=
  let status := if sr_status s =? 0 then 200 else sr_status s in
  let '(n, w) := write b (sr_writer s) in (n, mkRecorder w status (sr_bytes s +! n)).
#[export] Instance recorder_writer {W} `{ResponseWriter W} : ResponseWriter (statusRecorder W) := {
  header_set k v s := mkRecorder (header_set k v (sr_writer s)) (sr_status s) (sr_bytes s);
  header_add k v s := mkRecorder (header_add k v (sr_writer s)) (sr_status s) (sr_bytes s);
  write_header := recorder_WriteHeader;
  write := recorder_Write;
}.

(** ** Handlers *)

(** The context of a request: its identifier is in the [Req], and the gates of
    packages auth and device add the caller. *)
Record Ctx := mkCtx { cx_req : Req; cx_principal : option Principal; cx_device : option Device.Device }.
Definition with_request_id (id : string) (r : Req) : Req :=
  mkReq (q_http r) (q_authorization r) (q_origin r) (q_remote r) (q_query r) (q_params r) id.
Definition log (cx : Ctx) (m : message) : line := mkLine (q_request_id (cx_req cx)) m.

(** What a handler leaves: the writer, the limiters, the lines logged, and whether it
    panicked. *)
Record Out (W : Type) := mkOut {
  o_writer : W; o_limiters : Limiters; o_lines : list line; o_panic : option error }.
Arguments mkOut {W}. Arguments o_writer {W}. Arguments o_limiters {W}. Arguments o_lines {W}. Arguments o_panic {W}.
Definition Handler : Type := ∀ W, ResponseWriter W → Ctx → Limiters → W → M (Out W).

Section Middleware.
Context `{Crypto} (parse_addr inet : string → option string) {Lib : Libs} {V : Verifier} {J : Jwt}.
Context (engine : Risk.Engine) (cfg : Config) (render : payload → option string).

(** The JSON of a problem, with its omitempty fields, and the encoder's newline. *)
Definition omitempty (name v : string) : list (string * json) := if str_eqb v "" then [] else [(name, JString v)].
Definition newline : string := String (byte 10) "".
Definition problem_json (p : Problem) : string :=
  (marshal (JObject ([("type", JString (pb_Type p)); ("title", JString (pb_Title p)); ("status", JInt (pb_Status p))] ++
     omitempty "detail" (pb_Detail p) ++ omitempty "instance" (pb_Instance p) ++
     omitempty "request_id" (pb_RequestID p))) +:+ newline)%stdpp.

(** [WriteProblem] and [WriteJSON] on a writer. *)
Definition send {W} `{ResponseWriter W} (cx : Ctx) (ls : Limiters) (ctype : string) (status : Z)
    (body : option string) (w : W) : Out W :=
  let w := header_set "Content-Type" ctype w in
  match write_header status w with
  | (w, Some panic) => mkOut w ls [] (Some panic)
  | (w, None) =>
      match body with
      | Some b => mkOut (write b w).2 ls [] None
      | None => mkOut w ls [log cx EncodeFailed] None
      end
  end.
Definition send_problem {W} `{ResponseWriter W} (cx : Ctx) (ls : Limiters) (p : Problem) (w : W) : Out W :=
  send cx ls "application/problem+json" (pb_Status p) (Some (problem_json p)) w.
Definition send_reply {W} `{ResponseWriter W} (cx : Ctx) (ls : Limiters) (x : reply payload) (w : W) : Out W :=
  match x with
  | Refused p => send_problem cx ls p w
  | Json status v => send cx ls "application/json" status ((λ b, b +:+ newline)%stdpp <$> render v) w
  end.

(** ** Middlewares *)

(** [id] is the identifier that [uuid.NewString] draws. *)
Definition RequestID (id : string) (next : Handler) : Handler := λ W RW cx ls w,
  next W RW (mkCtx (with_request_id id (cx_req cx)) (cx_principal cx) (cx_device cx)) ls
    (header_set RequestIDHeader id w).

Definition RequestLogger (next : Handler) : Handler := λ W RW cx ls w,
  o <-- next (statusRecorder W) recorder_writer cx ls (mkRecorder w 0 0) ;;
  let rec := o_writer o in
  match o_panic o with
  | Some e => ret (mkOut (sr_writer rec) (o_limiters o) (o_lines o) (Some e))
  | None =>
      let status := if sr_status rec =? 0 then 200 else sr_status rec in
      ret (mkOut (sr_writer rec) (o_limiters o)
        (o_lines o ++ [log cx (HttpRequest_ (q_method (cx_req cx)) (q_path (cx_req cx)) status (sr_bytes rec))]) None)
  end.

Definition Recoverer (next : Handler) : Handler := λ W RW cx ls w,
  o <-- next W RW cx ls w ;;
  match o_panic o with
  | None => ret o
  | Some e =>
      let p := send_problem cx (o_limiters o) (WriteProblem (cx_req cx) 500 "Internal Server Error"
                 "The request could not be completed.") (o_writer o) in
      ret (mkOut (o_writer p) (o_limiters p)
        (o_lines o ++ log cx (PanicRecovered e (q_path (cx_req cx))) :: o_lines p) (o_panic p))
  end.

Definition set_all {W} `{ResponseWriter W} (hs : list (string * string)) (w : W) : W :=
  foldl (λ w kv, header_set kv.1 kv.2 w) w hs.
Definition SecurityHeaders (next : Handler) : Handler := λ W RW cx ls w,
  next W RW cx ls (set_all Web.SecurityHeaders w).

Definition CORS (allowed : list string) (next : Handler) : Handler := λ W RW cx ls w,
  let r := cx_req cx in
  let origin := q_origin r in
  let w :=
    if negb (str_eqb origin "") && str_mem origin allowed then
      header_add "Vary" "Origin" (set_all
        [("Access-Control-Allow-Origin", origin); ("Access-Control-Allow-Credentials", "true");
         ("Access-Control-Allow-Headers", "Authorization, Content-Type, " +:+ RequestIDHeader)%stdpp;
         ("Access-Control-Allow-Methods", "GET, POST, PATCH, DELETE, OPTIONS");
         ("Access-Control-Max-Age", "600")] w)
    else w in
  if str_eqb (q_method r) "OPTIONS" then
    let '(w, p) := write_header 204 w in ret (mkOut w ls [] p)
  else next W RW cx ls w.

(** [RateLimited]; [get] and [put] are which of the router's limiters it is. *)
Definition RateLimited (env : Env) (get : Limiters → limiter) (put : limiter → Limiters → Limiters)
    (key : Req → string) (next : Handler) : Handler := λ W RW cx ls w,
  let r := cx_req cx in
  let '(allowed, resetAt, l') := allow (get ls) (key r) (e_now env) in
  let ls := put l' ls in
  let w := header_set "X-RateLimit-Limit" (sprint_int (Requests (l_limit l'))) w in
  if allowed then next W RW cx ls w else
  let retryAfter := Z.quot (time_sub resetAt (e_now env)) second + 1 in
  let w := header_set "Retry-After" (sprint_int retryAfter) w in
  let p := send_problem cx ls (WriteProblem r 429 "Too Many Requests"
    "This client has made too many requests. Retry after the interval in the Retry-After header.") w in
  ret (mkOut (o_writer p) ls (log cx (RateLimitExceeded (q_path r) retryAfter) :: o_lines p) (o_panic p)).

(** The gates of package auth and of package device. *)
Definition RequireAuth (env : Env) (next : Handler) : Handler := λ W RW cx ls w,
  a <-- Web.RequireAuth inet env (cx_req cx) ;;
  match a with
  | inr p => ret (send_problem cx ls p w)
  | inl principal => next W RW (mkCtx (cx_req cx) (Some principal) (cx_device cx)) ls w
  end.
Definition RequireRole (env : Env) (roles : list Role) (next : Handler) : Handler := λ W RW cx ls w,
  match cx_principal cx with
  | None => ret (send_problem cx ls (WriteProblem (cx_req cx) 401 "Unauthorized" "A bearer token is required.") w)
  | Some principal =>
      d <-- Web.RequireRole inet env roles (cx_req cx) principal ;;
      match d with
      | Some p => ret (send_problem cx ls p w)
      | None => next W RW cx ls w
      end
  end.
Definition RequireDeviceSignature (env : Env) (next : Handler) : Handler := λ W RW cx ls w,
  o <-- Device.RequireDeviceSignature (e_now env) (q_http (cx_req cx)) ;;
  match o with
  | Reject status => ret (send_problem cx ls (rejected (cx_req cx) status) w)
  | Forward d _ => next W RW (mkCtx (cx_req cx) (cx_principal cx) (Some d)) ls w
  end.

(** ** NewRouter *)

(** An endpoint: its panic is the handler's. *)
Definition endpoint_handler (env : Env) (ep : endpoint) : Handler := λ W RW cx ls w,
  x <-- try (handle parse_addr inet engine cfg env (cx_req cx) ep (cx_principal cx) (cx_device cx)) ;;
  match x with
  | inl a => ret (send_reply cx ls a w)
  | inr e => ret (mkOut w ls [] (Some e))
  end.
Definition put_enrollment (l : limiter) (ls : Limiters) : Limiters := mkLimiters l (lim_ingest ls) (lim_tokens ls).
Definition put_ingest (l : limiter) (ls : Limiters) : Limiters := mkLimiters (lim_enrollment ls) l (lim_tokens ls).
Definition put_tokens (l : limiter) (ls : Limiters) : Limiters := mkLimiters (lim_enrollment ls) (lim_ingest ls) l.
(** The middlewares of a plane around its endpoint. *)
Definition mount (env : Env) (pl : plane) (h : Handler) : Handler :=
  match pl with
  | Public => h
  | PublicLimited => RateLimited env lim_enrollment put_enrollment ByIP h
  | TokenLimited => RateLimited env lim_tokens put_tokens ByIP h
  | Signed false => RequireDeviceSignature env h
  | Signed true => RequireDeviceSignature env (RateLimited env lim_ingest put_ingest ByDevice h)
  | Authenticated => RequireAuth env h
  | RolesOf roles => RequireAuth env (RequireRole env roles h)
  end.
(** What chi calls for a request it matched, or did not. *)
Definition dispatch (env : Env) (m : matching) : Handler :=
  match m with
  | Matched rt => mount env (rt_plane rt) (endpoint_handler env (rt_endpoint rt))
  | NotFound => λ W RW cx ls w,
      ret (send_problem cx ls (WriteProblem (cx_req cx) 404 "Not Found" "No such endpoint.") w)
  | MethodNotAllowed => λ W RW cx ls w,
      ret (send_problem cx ls (WriteProblem (cx_req cx) 405 "Method Not Allowed"
        "This method is not supported for this endpoint.") w)
  end.
Definition NewRouter (env : Env) (id : string) (m : matching) : Handler :=
  RequestID id (RequestLogger (Recoverer (SecurityHeaders (CORS (cf_origins cfg) (dispatch env m))))).
End Middleware.
