(* ===== verification/MiddlewareProps.v ===== *)
(** * What a client sees and what the log says

    The middleware chain of [NewRouter] against [respond]: every request is answered
    once, with the status, headers and body that [respond] gives, and leaves one line
    in the access log that agrees with it. *)

From S2P Require Import Prelude GoStd Encode Identity Risk Posture Policy Behaviour Db AuditLog Device.
From S2P Require Import User Session Telemetry Incident RiskStore PolicyStore PostureStore BehaviourStore.
From S2P Require Import Trust Simulator RateLimit Web SessionApi DeviceApi TrustApi AdminApi Router HttpProps Middleware.
Open Scope Z_scope.
Open Scope go_scope.

(** ** Results of handlers *)

(** [gives Q m]: when [m] returns, its result satisfies [Q]. *)
Definition gives {A} (Q : A → Prop) (m : M A) : Prop := ∀ w x w', m w = (inl x, w') → Q x.
Lemma gives_ret {A} (Q : A → Prop) a : Q a → gives Q (ret a).
Proof. by intros Ha w x w' [= <- _]. Qed.
Lemma gives_fail {A} (Q : A → Prop) e : gives Q (fail e).
Proof. done. Qed.
Lemma gives_bind {A B} (Q : B → Prop) (m : M A) (k : A → M B) : (∀ a, gives Q (k a)) → gives Q (bind m k).
Proof. intros Hk w x w'. unfold bind. destruct (m w) as [[a|e] w1]; [apply Hk|done]. Qed.

(** A status that net/http sends with a body. *)
Definition sendable (s : Z) : Prop := 200 <= s <= 599 ∧ body_allowed s = true.
Definition sends {A} (m : M (reply A)) : Prop := gives (λ x, sendable (reply_status x)) m.

Lemma sends_as {A} (f : A → payload) (m : M (reply A)) : sends m → sends (as_ f m).
Proof.
  intros Hm w x w'. unfold as_, bind. destruct (m w) as [[a|e] w1] eqn:E; [|done]. apply Hm in E.
  intros [= <- _]. by destruct a.
Qed.
Ltac sends := repeat first
  [ apply gives_ret; split; [split; discriminate|reflexivity]
  | apply gives_fail
  | apply gives_bind; intros ?
  | progress cbv beta iota zeta
  | match goal with
    | |- gives _ (match ?x with _ => _ end) => destruct x
    end ].
Section Status.
Context `{Crypto} (parse_addr inet : string → option string) {Lib : Libs} {V : Verifier} {J : Jwt}.
Context (engine : Risk.Engine) (cfg : Config).

Lemma ready_sends env_ started env : sends (Ready env_ started env).
Proof. unfold Ready. apply gives_bind. intros p. destruct p as [[]|e]; sends. Qed.
Lemma handle_sends env r ep p d : sends (handle parse_addr inet engine cfg env r ep p d).
Proof.
  destruct ep; unfold handle; try (destruct (cf_dev cfg)); try apply sends_as; try apply ready_sends; unfold sends;
    cbv [Live Ready mint enroll heartbeat submit auditRejection ingest handleMe issueNonce
    begin end_ listAudit listEvents sessionRisk listPolicies listDecisions listIncidents getIncident overview
    getBaseline setIncidentStatus addIncidentNote evaluate rebuildBaseline createPolicy evaluatePolicy
    listSessions getSession listDevices getDevice latest history issueEnrollmentToken revokeDevice
    listScenarios runScenario no_device no_principal bad_body bad_id internal refuse]; sends.
Qed.

(** ** The gates never fail *)

Definition total {A} (m : M A) : Prop := ∀ w, ∃ a w', m w = (inl a, w').
Lemma total_ret {A} (a : A) : total (ret a).
Proof. intros w. by eexists _, _. Qed.
Lemma total_try {A} (m : M A) : total (try m).
Proof. intros w. unfold try. destruct (m w). by eexists _, _. Qed.
Lemma total_bind {A B} (m : M A) (k : A → M B) : total m → (∀ a, total (k a)) → total (bind m k).
Proof. intros Hm Hk w. unfold bind. destruct (Hm w) as (a & w' & ->). apply Hk. Qed.
Ltac total := repeat (cbv beta iota zeta; match goal with
  | |- total (ret _) => apply total_ret
  | |- total (try _) => apply total_try
  | |- total (bind _ _) => apply total_bind; [|intros ?]
  | |- total (audit _ _ _) => unfold audit, AuditLog.Log
  | |- total (match ?x with _ => _ end) => destruct x
  end).

Lemma signature_total now r : total (Device.RequireDeviceSignature now r).
Proof. unfold Device.RequireDeviceSignature. total. Qed.
Lemma authenticate_total env r : total (Web.RequireAuth inet env r).
Proof. intros w. destruct (auth_total inet env r w) as (a & w' & E & _). eauto. Qed.
Lemma role_total env roles r p : total (Web.RequireRole inet env roles r p).
Proof. unfold Web.RequireRole. total. Qed.

(** Their refusals. *)
Definition refusal_fine (p : Problem) : Prop := sendable (pb_Status p).
Lemma auth_refusals env r : gives (λ a, match a with inr p => refusal_fine p | inl _ => True end) (Web.RequireAuth inet env r).
Proof.
  intros w x w' Hx. destruct (auth_total inet env r w) as (a & w1 & E & Ha). rewrite Hx in E. injection E as <- _.
  destruct x as [|p]; [done|]. unfold refusal_fine. destruct Ha as [-> | ->]; (split; [split; discriminate|reflexivity]).
Qed.
Lemma role_refusals env roles r p :
  gives (λ d, match d with Some p => refusal_fine p | None => True end) (Web.RequireRole inet env roles r p).
Proof.
  unfold Web.RequireRole. sends. by apply gives_ret.
Qed.
End Status.

(** ** Sending *)

Abbreviation recorder := (statusRecorder response).
(** The headers that handlers set themselves. *)
Definition own_headers : list string := ["Content-Type"; "X-RateLimit-Limit"; "Retry-After"].
(** Nothing sent yet, and [H] what the outer middlewares have set. *)
Record unsent (H : headers) (w : recorder) : Prop := mkUnsent {
  us_status : sr_status w = 0; us_bytes : sr_bytes w = 0;
  us_sent : rs_sent (sr_writer w) = None; us_body : rs_body (sr_writer w) = "";
  us_header : ∀ k, k ∉ own_headers → rs_header (sr_writer w) !! k = H !! k }.
Definition is_access (l : line) : bool := match ln_message l with HttpRequest_ _ _ _ _ => true | _ => false end.
(** One status, one set of headers, the body, and the recorder has seen them. *)
Record delivered (H : headers) (status : Z) (body : string) (o : Out recorder) : Prop := mkDelivered {
  dl_panic : o_panic o = None;
  dl_status : sr_status (o_writer o) = status;
  dl_bytes : sr_bytes (o_writer o) = 0 +! len body;
  dl_body : rs_body (sr_writer (o_writer o)) = body;
  dl_sent : ∃ H', rs_sent (sr_writer (o_writer o)) = Some (status, H') ∧ ∀ k, k ∉ own_headers → H' !! k = H !! k;
  dl_lines : List.filter is_access (o_lines o) = [] }.

Lemma unsent_set H w k v : k ∈ own_headers → unsent H w → unsent H (header_set k v w).
Proof.
  intros Hk [H1 H2 H3 H4 H5]. split; simpl; [done..|]. intros k' Hk'. rewrite lookup_insert_ne; [auto|congruence].
Qed.

Section Sending.
Context `{Crypto} (parse_addr inet : string → option string) {Lib : Libs} {V : Verifier} {J : Jwt}.
Context (engine : Risk.Engine) (cfg : Config) (render : payload → option string).

Lemma send_delivered H0 cx ls ctype status body (w : recorder) :
  unsent H0 w → sendable status →
  delivered H0 status (default "" body) (send cx ls ctype status body w) ∧ o_limiters (send cx ls ctype status body w) = ls.
Proof.
  intros Hw [Hr Hb]. apply (unsent_set H0 w "Content-Type" ctype) in Hw as [H1 H2 H3 H4 H5]; [|left].
  unfold send. set (w1 := header_set "Content-Type" ctype w) in *. clearbody w1. destruct w1 as [[h st bd] s n].
  simpl in H1, H2, H3, H4. subst s n st bd. unfold write_header, recorder_writer, recorder_WriteHeader. cbn [sr_writer sr_status sr_bytes].
  unfold write_header, response_writer, response_write_header. cbn [rs_sent rs_header rs_body].
  rewrite (proj2 (Z.ltb_ge status 100)), (Z.gtb_ltb status 999), (proj2 (Z.ltb_ge 999 status)),
    (proj2 (Z.ltb_ge status 200)) by lia. cbn [orb andb].
  destruct body as [b|]; cbn [default].
  - unfold write at 1, recorder_writer, recorder_Write. cbn [sr_status sr_writer rs_sent rs_header rs_body write response_writer]. rewrite Hb.
    rewrite (proj2 (Z.eqb_neq status 0)) by lia. split; [|done]. split; simpl; [done..| |done].
    exists h. split; [done|exact H5].
  - split; [|done]. split; simpl; [done..| |done]. exists h. split; [done|exact H5].
Qed.
Lemma problem_delivered H0 cx ls p (w : recorder) :
  unsent H0 w → refusal_fine p →
  delivered H0 (pb_Status p) (problem_json p) (send_problem cx ls p w) ∧ o_limiters (send_problem cx ls p w) = ls.
Proof. intros Hw Hp. exact (send_delivered H0 cx ls _ _ (Some (problem_json p)) w Hw Hp). Qed.

(** What goes with an answer. *)
Definition reply_body (x : reply payload) : string :=
  match x with
  | Refused p => problem_json p
  | Json _ v => default "" ((λ b, b +:+ newline)%stdpp <$> render v)
  end.
Lemma reply_delivered H0 cx ls x (w : recorder) :
  unsent H0 w → sendable (reply_status x) →
  delivered H0 (reply_status x) (reply_body x) (send_reply render cx ls x w) ∧
  o_limiters (send_reply render cx ls x w) = ls.
Proof.
  intros Hw Hs. destruct x as [p|s v]; [by apply problem_delivered|].
  exact (send_delivered H0 cx ls "application/json" s _ w Hw Hs).
Qed.

(** An answer of the inner chain: sent, or a panic on an untouched writer that
    [Recoverer] turns into the answer. *)
Definition fallback (r : Req) : Problem :=
  WriteProblem r 500 "Internal Server Error" "The request could not be completed.".
Definition answered (H0 : headers) (cx : Ctx) (x : reply payload) (ls' : Limiters) (o : Out recorder) : Prop :=
  o_limiters o = ls' ∧ sendable (reply_status x) ∧
  (delivered H0 (reply_status x) (reply_body x) o ∨
   ∃ e, o_panic o = Some e ∧ unsent H0 (o_writer o) ∧ x = Refused (fallback (cx_req cx)) ∧
     List.filter is_access (o_lines o) = []).

(** The two ways to run the rest of a request: the reply it computes, and the handler
    that writes it. *)
Definition agree (H0 : headers) (cx : Ctx) (m : M (reply payload * Limiters)) (h : M (Out recorder)) : Prop :=
  ∀ w, ∃ x ls' w' o, m w = (inl (x, ls'), w') ∧ h w = (inl o, w') ∧ answered H0 cx x ls' o.
Lemma agree_bind {A} H0 cx (m : M A) k h :
  total m → (∀ a, (∃ w w', m w = (inl a, w')) → agree H0 cx (k a) (h a)) → agree H0 cx (bind m k) (bind m h).
Proof. intros Hm Hk w. unfold bind. destruct (Hm w) as (a & w1 & E). rewrite E. apply Hk. eauto. Qed.
Lemma agree_assoc {A B} H0 cx (m : M A) (f : A → M B) k h :
  total m → (∀ a, (∃ w w', m w = (inl a, w')) → agree H0 cx (bind (f a) k) (h a)) →
  agree H0 cx (bind (bind m f) k) (bind m h).
Proof.
  intros Hm Hk w. destruct (Hm w) as (a & w1 & E). destruct (Hk a ltac:(eauto) w1) as (x & ls' & w' & o & Hx).
  exists x, ls', w', o. unfold bind in *. by rewrite E.
Qed.
Lemma agree_problem H0 cx p ls (w : recorder) :
  unsent H0 w → refusal_fine p → agree H0 cx (ret (Refused p, ls)) (ret (send_problem cx ls p w)).
Proof.
  intros Hw Hp wd. destruct (problem_delivered H0 cx ls p w Hw Hp) as [Hd Hl].
  eexists _, _, _, _. split; [done|]. split; [done|]. split; [done|]. split; [done|by left].
Qed.
Lemma agree_endpoint H0 env ep cx ls (w : recorder) :
  unsent H0 w →
  agree H0 cx (x <-- Web.Recoverer (cx_req cx) (handle parse_addr inet engine cfg env (cx_req cx) ep (cx_principal cx) (cx_device cx)) ;;
               ret (x, ls))
    (endpoint_handler parse_addr inet engine cfg render env ep _ recorder_writer cx ls w).
Proof.
  intros Hw wd. unfold Web.Recoverer, endpoint_handler, bind, try.
  destruct (handle _ _ _ _ _ _ _ _ _ wd) as [[a|e] w1] eqn:E.
  - apply handle_sends in E. destruct (reply_delivered H0 cx ls a w Hw E) as [Hd Hl].
    eexists _, _, _, _. split; [done|]. split; [done|]. split; [done|]. split; [done|by left].
  - eexists _, _, _, _. split; [done|]. split; [done|]. split; [done|]. split; [by split|right]. by exists e.
Qed.
(** A limiter in front of it. *)
Lemma agree_limited H0 env get put key cx ls (w : recorder) (h : Handler) (v : verdict) k :
  unsent H0 w →
  (∀ ls' w', unsent H0 w' → agree H0 cx (k (v, ls')) (h _ recorder_writer cx ls' w')) →
  (∀ p ls', k (Stop p, ls') = ret (Refused p, ls')) →
  agree H0 cx (k (let '(v', l) := limited (get ls) (key (cx_req cx)) env (cx_req cx) v in (v', put l ls)))
    (RateLimited env get put key h _ recorder_writer cx ls w).
Proof.
  intros Hw Hh Hk. unfold limited, RateLimited, Web.RateLimited. destruct (allow _ _ _) as [[ok resetAt] l'].
  apply (unsent_set H0 w "X-RateLimit-Limit" (sprint_int (Requests (l_limit l')))) in Hw; [|right; left].
  destruct ok; [by apply Hh|]. cbv zeta. rewrite Hk.
  set (retry := _ + 1). apply (unsent_set H0 _ "Retry-After" (sprint_int retry)) in Hw; [|do 2 right; left].
  intros wd. edestruct problem_delivered as [Hd Hl]; [exact Hw| |].
  2:{ eexists _, _, _, _. split; [done|]. split; [done|]. split; [done|]. split; [by split|left].
      destruct Hd as [D1 D2 D3 D4 D5 D6]. split; [exact D1|exact D2|exact D3|exact D4|exact D5|exact D6]. }
  split; [split; discriminate|reflexivity].
Qed.

(** [serve] after its gate. *)
Definition after_gate (env : Env) (r : Req) (ep : endpoint) (g : verdict * Limiters) : M (reply payload * Limiters) :=
  let '(v, ls') := g in
  match v with
  | Stop p => ret (Refused p, ls')
  | Pass principal dev =>
      x <-- Web.Recoverer r (handle parse_addr inet engine cfg env r ep principal dev) ;; ret (x, ls')
  end.
Lemma rejected_fine r status : refusal_fine (rejected r status).
Proof. unfold rejected. destruct (status =? 500); (split; [split; discriminate|reflexivity]). Qed.
(** The refusal of a device is the refusal of the request, whoever the request is. *)
Lemma agree_ctx H0 r p d p' d' m h : agree H0 (mkCtx r p d) m h → agree H0 (mkCtx r p' d') m h.
Proof. intros Ha. exact Ha. Qed.

Lemma mount_agrees H0 env rt r ls (w : recorder) :
  unsent H0 w →
  agree H0 (mkCtx r None None) (serve parse_addr inet engine cfg env ls r rt)
    (mount inet env (rt_plane rt) (endpoint_handler parse_addr inet engine cfg render env (rt_endpoint rt))
       _ recorder_writer (mkCtx r None None) ls w).
Proof.
  intros Hw. set (ep := rt_endpoint rt).
  change (agree H0 (mkCtx r None None) (g <-- gate inet env ls r (rt_plane rt) ;; after_gate env r ep g)
    (mount inet env (rt_plane rt) (endpoint_handler parse_addr inet engine cfg render env ep)
       _ recorder_writer (mkCtx r None None) ls w)).
  assert (∀ p d ls' (w' : recorder), unsent H0 w' →
    agree H0 (mkCtx r p d) (after_gate env r ep (Pass p d, ls'))
      (endpoint_handler parse_addr inet engine cfg render env ep _ recorder_writer (mkCtx r p d) ls' w')) as Hep.
  { intros p d ls' w' Hw'. exact (agree_endpoint H0 env ep (mkCtx r p d) ls' w' Hw'). }
  destruct (rt_plane rt) as [| | |lim| |roles]; cbn [gate mount].
  - by apply Hep.
  - pose proof (agree_limited H0 env lim_enrollment put_enrollment ByIP (mkCtx r None None) ls w _ (Pass None None)
      (after_gate env r ep) Hw (Hep None None)) as Ha. cbn [cx_req] in Ha.
    destruct (limited _ _ _ _ _) as [v l]. by apply Ha.
  - pose proof (agree_limited H0 env lim_tokens put_tokens ByIP (mkCtx r None None) ls w _ (Pass None None)
      (after_gate env r ep) Hw (Hep None None)) as Ha. cbn [cx_req] in Ha.
    destruct (limited _ _ _ _ _) as [v l]. by apply Ha.
  - assert (agree H0 (mkCtx r None None) (g <-- gate inet env ls r (Signed lim) ;; after_gate env r ep g)
      (RequireDeviceSignature env (if lim then RateLimited env lim_ingest put_ingest ByDevice
         (endpoint_handler parse_addr inet engine cfg render env ep)
         else endpoint_handler parse_addr inet engine cfg render env ep) _ recorder_writer (mkCtx r None None) ls w)) as Ha;
      [|by destruct lim].
    cbn [gate]. unfold RequireDeviceSignature. apply agree_assoc; [apply signature_total|]. intros [status|d body] _.
    + apply (agree_problem H0 (mkCtx r None None) (rejected r status) ls w Hw), rejected_fine.
    + apply (agree_ctx H0 r None (Some d)). destruct lim; [|by apply Hep].
      pose proof (agree_limited H0 env lim_ingest put_ingest ByDevice (mkCtx r None (Some d)) ls w _ (Pass None (Some d))
        (after_gate env r ep) Hw (Hep None (Some d))) as Ha. cbn [cx_req] in Ha.
      destruct (limited _ _ _ _ _) as [v l]. by apply Ha.
  - unfold RequireAuth. apply agree_assoc; [apply authenticate_total|]. intros [p|p] (wd & wd' & E).
    + apply (agree_ctx H0 r (Some p) None). by apply Hep.
    + apply (agree_problem H0 (mkCtx r None None) p ls w Hw). exact (auth_refusals inet env r _ _ _ E).
  - unfold RequireAuth. apply agree_assoc; [apply authenticate_total|]. intros [p|p] (wd & wd' & E).
    + apply (agree_ctx H0 r (Some p) None). unfold RequireRole. cbn [cx_principal cx_req cx_device].
      apply agree_assoc; [apply role_total|]. intros [q|] (w1 & w1' & E1); [|by apply Hep].
      apply (agree_problem H0 (mkCtx r (Some p) None) q ls w Hw). exact (role_refusals inet env roles r p _ _ _ E1).
    + apply (agree_problem H0 (mkCtx r None None) p ls w Hw). exact (auth_refusals inet env r _ _ _ E).
Qed.

Definition answer_status (a : answer) : Z := match a with NoContent => 204 | Answer x => reply_status x end.
Definition answer_body (a : answer) : string := match a with NoContent => "" | Answer x => reply_body x end.

(** What [Recoverer] makes of the inner chain. *)
Definition recover (cx : Ctx) (o : Out recorder) : Out recorder :=
  match o_panic o with
  | None => o
  | Some e =>
      let p := send_problem cx (o_limiters o) (fallback (cx_req cx)) (o_writer o) in
      mkOut (o_writer p) (o_limiters p)
        (o_lines o ++ log cx (PanicRecovered e (q_path (cx_req cx))) :: o_lines p) (o_panic p)
  end.
Lemma recover_delivers H0 cx x ls' o :
  answered H0 cx x ls' o →
  delivered H0 (reply_status x) (reply_body x) (recover cx o) ∧ o_limiters (recover cx o) = ls'.
Proof.
  intros (<- & _ & [Hd|(e & He & Hu & -> & Hl)]); unfold recover.
  - by rewrite (dl_panic _ _ _ _ Hd).
  - rewrite He. destruct (problem_delivered H0 cx (o_limiters o) (fallback (cx_req cx)) _ Hu) as [[D1 D2 D3 D4 D5 D6] Hl'];
      [split; [split; discriminate|reflexivity]|].
    split; [|exact Hl']. split; [exact D1|exact D2|exact D3|exact D4|exact D5|].
    cbn [o_lines]. rewrite List.filter_app, Hl. exact D6.
Qed.
Lemma dispatch_agrees H0 env m r ls (w : recorder) :
  unsent H0 w →
  agree H0 (mkCtx r None None)
    match m with
    | Matched rt => serve parse_addr inet engine cfg env ls r rt
    | NotFound => ret (Refused (WriteProblem r 404 "Not Found" "No such endpoint."), ls)
    | MethodNotAllowed => ret (Refused (WriteProblem r 405 "Method Not Allowed"
        "This method is not supported for this endpoint."), ls)
    end
    (dispatch parse_addr inet engine cfg render env m _ recorder_writer (mkCtx r None None) ls w).
Proof.
  intros Hw. destruct m as [rt| |]; [by apply mount_agrees|..];
    (apply agree_problem; [done|split; [split; discriminate|reflexivity]]).
Qed.

(** The headers set before the request is dispatched. *)
Definition outer (id : string) (r : Req) : list (string * string) :=
  (RequestIDHeader, id) :: Web.SecurityHeaders ++ (Web.CORS (cf_origins cfg) r).1.
Definition outer_writer (id : string) (r : Req) : recorder :=
  mkRecorder (mkResponse (list_to_map ((λ kv, (kv.1, [kv.2])) <$> outer id r)) None "") 0 0.
Lemma outer_names id r : NoDup (outer id r).*1.
Proof. unfold outer, Web.CORS. destruct (_ && _); apply (bool_decide_unpack _); vm_compute; exact I. Qed.
Lemma outer_apart id r k v : (k, v) ∈ outer id r → k ∉ own_headers.
Proof.
  intros Hin. assert (Forall (λ k, k ∉ own_headers) (outer id r).*1) as Hf.
  { unfold outer, Web.CORS. destruct (_ && _); apply (bool_decide_unpack _); vm_compute; exact I. }
  rewrite Forall_forall in Hf. apply Hf, list_elem_of_fmap. by exists (k, v).
Qed.
Lemma outer_set id r k v : (k, v) ∈ outer id r → rs_header (sr_writer (outer_writer id r)) !! k = Some [v].
Proof.
  intros Hin. cbn [outer_writer sr_writer rs_header]. apply elem_of_list_to_map_1.
  - rewrite <-list_fmap_compose. exact (outer_names id r).
  - apply list_elem_of_fmap. by exists (k, v).
Qed.
Lemma outer_only id r k : k ∉ (outer id r).*1 → rs_header (sr_writer (outer_writer id r)) !! k = None.
Proof. intros Hn. cbn [outer_writer sr_writer rs_header]. apply not_elem_of_list_to_map_1. by rewrite <-list_fmap_compose. Qed.

(** The chain up to the dispatch. *)
Lemma chain_writer id r :
  (if negb (str_eqb (q_origin r) "") && str_mem (q_origin r) (cf_origins cfg) then
     header_add "Vary" "Origin" (set_all
       [("Access-Control-Allow-Origin", q_origin r); ("Access-Control-Allow-Credentials", "true");
        ("Access-Control-Allow-Headers", "Authorization, Content-Type, " +:+ RequestIDHeader)%stdpp;
        ("Access-Control-Allow-Methods", "GET, POST, PATCH, DELETE, OPTIONS");
        ("Access-Control-Max-Age", "600")]
       (set_all Web.SecurityHeaders (mkRecorder (header_set RequestIDHeader id fresh_response) 0 0)))
   else set_all Web.SecurityHeaders (mkRecorder (header_set RequestIDHeader id fresh_response) 0 0))
  = outer_writer id r.
Proof. unfold outer_writer, outer, Web.CORS. destruct (_ && _); vm_compute; reflexivity. Qed.
Lemma outer_unsent id r : unsent (rs_header (sr_writer (outer_writer id r))) (outer_writer id r).
Proof. by split. Qed.

(** The rest of a chain that ended with [o] inside [RequestLogger]. *)
Definition logged (cx : Ctx) (o : Out recorder) : Out response :=
  let rec := o_writer o in
  let status := if sr_status rec =? 0 then 200 else sr_status rec in
  mkOut (sr_writer rec) (o_limiters o)
    (o_lines o ++ [log cx (HttpRequest_ (q_method (cx_req cx)) (q_path (cx_req cx)) status (sr_bytes rec))]) None.
Lemma logged_answer id r status body o :
  delivered (rs_header (sr_writer (outer_writer id r))) status body o → status ≠ 0 →
  let o' := logged (mkCtx r None None) o in
  ∃ sent, rs_sent (o_writer o') = Some (status, sent) ∧ rs_body (o_writer o') = body ∧
    (∀ k v, (k, v) ∈ outer id r → sent !! k = Some [v]) ∧
    (∀ k, k ∉ (outer id r).*1 → k ∉ own_headers → sent !! k = None) ∧
    List.filter is_access (o_lines o') =
      [mkLine (q_request_id r) (HttpRequest_ (q_method r) (q_path r) status (0 +! len body))].
Proof.
  intros [D1 D2 D3 D4 (sent & D5 & D5') D6] Hs. exists sent. split_and!; [done..| | |].
  - intros k v Hin. rewrite D5' by by eapply outer_apart. by apply outer_set.
  - intros k Hk Ho. rewrite D5' by done. by apply outer_only.
  - unfold logged. cbn [o_lines]. rewrite List.filter_app, D6, D2, D3. by rewrite (proj2 (Z.eqb_neq status 0)) by done.
Qed.
(** The chain around a dispatch that computes [o]. *)
Lemma chain_inner env id r m ls o w w' :
  let r' := with_request_id id r in let cx := mkCtx r' None None in
  str_eqb (q_method r') "OPTIONS" = false →
  dispatch parse_addr inet engine cfg render env m _ recorder_writer cx ls (outer_writer id r') w = (inl o, w') →
  o_panic (recover cx o) = None →
  NewRouter parse_addr inet engine cfg render env id m response response_writer (mkCtx r None None) ls
    fresh_response w = (inl (logged cx (recover cx o)), w').
Proof.
  intros r' cx Ho Hd Hp. unfold NewRouter, RequestID, RequestLogger, Recoverer, SecurityHeaders, CORS, bind at 1 2.
  cbn [cx_req cx_principal cx_device]. fold r'. fold cx. rewrite chain_writer, Ho, Hd.
  unfold recover in *. destruct (o_panic o) as [e|] eqn:Eo; unfold ret; cbn [o_panic o_writer o_limiters o_lines] in *.
  - fold (fallback r'). change (cx_req cx) with r' in Hp. rewrite Hp. done.
  - rewrite Eo. done.
Qed.
End Sending.

(** C16: what a client gets and what the log says are what the router decided.  For
    every request, whatever it holds and whatever fails, the chain of middlewares
    that [NewRouter] composes sends one response: the status and body of the answer
    that [respond] gives (to a HEAD request without the body), with the same effects; the identifier drawn for this
    request, the hardening headers, the CORS headers exactly for an allowed origin,
    and nothing else but the content type and the rate-limit headers.  No panic
    escapes, and exactly one access line is logged, under that identifier, with the
    status that was sent and the size of the body that was written. *)
Theorem chain_sends_the_answer `{Crypto} (parse_addr inet : string → option string) {Lib : Libs} {V : Verifier}
    {J : Jwt} (engine : Risk.Engine) (cfg : Config) (render : payload → option string) (env : Env) (ls : Limiters)
    (id : string) (r : Req) (m : matching) (w : World) :
  ∃ hs a ls' w' o sent,
    respond parse_addr inet engine cfg env ls (with_request_id id r) m w = (inl (hs, a, ls'), w') ∧
    NewRouter parse_addr inet engine cfg render env id m response response_writer (mkCtx r None None) ls
      fresh_response w = (inl o, w') ∧
    o_panic o = None ∧ o_limiters o = ls' ∧
    rs_sent (o_writer o) = Some (answer_status a, sent) ∧ rs_body (o_writer o) = answer_body render a ∧
    transmitted (q_method r) (o_writer o) = (if str_eqb (q_method r) "HEAD" then "" else answer_body render a) ∧
    (∀ k v, (k, v) ∈ hs → sent !! k = Some [v]) ∧
    (∀ k, k ∉ hs.*1 → k ∉ own_headers → sent !! k = None) ∧
    List.filter is_access (o_lines o) =
      [mkLine id (HttpRequest_ (q_method r) (q_path r) (answer_status a) (0 +! len (answer_body render a)))].
Proof.
  set (r' := with_request_id id r). set (cx := mkCtx r' None None).
  destruct (str_eqb (q_method r') "OPTIONS") eqn:Eo.
  - set (o := mkOut (mkRecorder (response_write_header 204 (sr_writer (outer_writer cfg id r'))).1 204 0) ls [] None).
    destruct (logged_answer cfg id r' 204 "" o) as (sent & S1 & S2 & S3 & S4 & S5); [|done|].
    { split; [done..| |done]. eexists. split; [reflexivity|done]. }
    exists (outer cfg id r'), NoContent, ls, w, (logged cx o), sent. split_and!; [| | | | | |unfold transmitted; destruct (str_eqb (q_method r) "HEAD"); [done|exact S2]|done..]; try done.
    + unfold respond, outer, Web.CORS. cbn [fst]. by rewrite Eo.
    + unfold NewRouter, RequestID, RequestLogger, Recoverer, SecurityHeaders, CORS, bind at 1 2.
      cbn [cx_req cx_principal cx_device]. fold r'. by rewrite chain_writer, Eo.
  - destruct (dispatch_agrees parse_addr inet engine cfg render _ env m r' ls _ (outer_unsent cfg id r') w)
      as (x & ls' & w' & o & Hx & Ho & Ha).
    assert (sendable (reply_status x)) as Hs by apply Ha.
    destruct (recover_delivers render _ _ _ _ _ Ha) as [Hd Hl].
    destruct (logged_answer cfg id r' _ _ _ Hd) as (sent & S1 & S2 & S3 & S4 & S5); [unfold sendable in Hs; lia|].
    exists (outer cfg id r'), (Answer x), ls', w', (logged cx (recover cx o)), sent.
    split_and!; [| | | | | |unfold transmitted; destruct (str_eqb (q_method r) "HEAD"); [done|exact S2]|done..]; try done.
    + unfold respond, outer, Web.CORS. cbn [fst]. rewrite Eo.
      destruct m as [rt| |]; [|by injection Hx as <- <- <-..]. unfold bind. by rewrite Hx.
    + apply chain_inner; [done..|apply Hd].
Qed.
