(* ===== verification/Startup.v ===== *)
(** * Starting the control plane (cmd/netrad/main.go)

    [run] up to the point where it serves: configuration, connection with retries,
    schema, verifier, default policies, evaluator and router. *)

From S2P Require Import Prelude GoStd Encode Identity Risk Posture Policy Behaviour Db AuditLog Device.
From S2P Require Import User Session Telemetry Incident RiskStore PolicyStore PostureStore BehaviourStore.
From S2P Require Import Trust RateLimit Web SessionApi DeviceApi TrustApi AdminApi Router System.
From S2P Require Import Config Migrate PolicyProps.
Open Scope Z_scope.
Open Scope go_scope.

(** ** connectWithRetry *)

Definition maxAttempts : nat := 10.
(** What happens at the n-th attempt: [store.New] succeeds; it fails with the
    context alive through the delay; or the context is done. *)
Inductive attempt_outcome := Connected | Unreachable | Cancelled.
(** From attempt [n] on, with [remaining] attempts to go: the attempt that connected. *)
Fixpoint connect (outcome : nat → attempt_outcome) (n remaining : nat) : result nat :=
  match remaining with
  | O => inr (ErrDB "database unreachable")
  | S remaining =>
      match outcome n with
      | Connected => inl n
      | Cancelled => inr (ErrDB "context canceled")
      | Unreachable => connect outcome (S n) remaining
      end
  end.
Definition connectWithRetry (outcome : nat → attempt_outcome) : result nat := connect outcome 1 maxAttempts.

(** ** buildVerifier *)

Inductive verifier := DevAuth (d : DevVerifier) | OrgAuth (v : OIDCVerifier).
Definition dev_of (v : verifier) : option DevVerifier :=
  match v with DevAuth d => Some d | OrgAuth _ => None end.
(** [secret] is the random signing key of development authentication. *)
Definition buildVerifier (cfg : Config.Config) (secret : string) : result verifier :=
  if DevAuthEnabled (OIDC cfg) then
    match NewDevVerifier (Env cfg) (DevAuthTTL (OIDC cfg)) secret with
    | inr e => inr e
    | inl d => inl (DevAuth d)
    end
  else
    match NewOIDCVerifier (Issuer (OIDC cfg)) (Audience (OIDC cfg)) with
    | inr e => inr e
    | inl v => inl (OrgAuth v)
    end.

(** ** run *)

Record Server := mkServer {
  srv_config : Config.Config; srv_verifier : verifier; srv_engine : Risk.Engine;
  srv_router : Router.Config; srv_routes : list route }.

Section Start.
Context {Schema : Type} (exec_sql : string → Schema → option Schema) (files : list (string * option string)).

(** What follows the schema: verifier, default policies, evaluator and router; [ids] are the
    identifiers of seeded policies. *)
Definition assemble (cfg : Config.Config) (secret : string) (now : Z) (ids : nat → uuid) : M Server :=
  v <-- lift (buildVerifier cfg secret) ;;
  EnsureDefaults now ids ;;;
  ret (mkServer cfg v (Risk.NewEngine (RWeights (CRisk cfg)) (Thresholds (CRisk cfg)))
    (Router.mkConfig (Env cfg) now (dev_of v) (AllowedOrigins (HTTP cfg)) (PWeights (CPosture cfg))
       (ExpectedAgentVersion (CPosture cfg)))
    (routes (bool_decide (is_Some (dev_of v))))).
(** The database has its schema [d], which [Migrate] works on (with faults of its own), and
    the rows of [w]; no script touches the rows that are modelled. *)
Definition start (environment : environ) (outcome : nat → attempt_outcome) (migration_faults : list fault)
    (secret : string) (now : Z) (ids : nat → uuid) (d : database) (w : World)
    : result Server * database * World :=
  match Load environment with
  | inr e => (inr e, d, w)
  | inl cfg =>
      match connectWithRetry outcome with
      | inr e => (inr e, d, w)
      | inl _ =>
          let '(migrated, d') :=
            if AutoMigrate (Database cfg) then fst (Migrate exec_sql files d migration_faults) else (inl (), d) in
          match migrated with
          | inr e => (inr e, d', w)
          | inl _ => let '(srv, w') := assemble cfg secret now ids w in (srv, d', w')
          end
      end
  end.
End Start.

(** ** What a running server guarantees *)

Lemma connect_spec outcome n k m :
  connect outcome n k = inl m →
  (n <= m < n + k)%nat ∧ outcome m = Connected ∧ ∀ i, (n <= i < m)%nat → outcome i = Unreachable.
Proof.
  revert n. induction k as [|k IH]; intros n; simpl; [done|]. destruct (outcome n) eqn:E; [|..].
  - intros [= <-]. split_and!; [lia|lia|done|lia].
  - intros (H1 & H2 & H3)%IH. split_and!; [lia|lia|done|]. intros i Hi.
    destruct (decide (i = n)) as [->|]; [done|]. apply H3. lia.
  - done.
Qed.

Definition some_enabled (t : Tables) : Prop := ∃ p, p ∈ policies t ∧ Policy.Enabled p = true.
Lemma enabled_active t : some_enabled t → active_policies (policies t) ≠ [].
Proof.
  intros (q & Hq & He). destruct (highest_enabled _ q Hq He) as (p & Hp & _ & Hn).
  assert (p ∈ active_policies (policies t)) as Hin by by apply elem_of_active.
  intros E. rewrite E in Hin. by apply elem_of_nil in Hin.
Qed.
(** Policies are only ever added. *)
Lemma enabled_create now id p by_ : keeps some_enabled (PolicyStore.Create now id p by_).
Proof.
  unfold PolicyStore.Create. keeps. apply keeps_stmt. intros t x t' (q & Hq & He). cbv zeta.
  repeat (case_match; try done). intros [= _ <-]. exists q. simpl. set_solver.
Qed.
Lemma enabled_keeps `{Crypto} parse_addr inet engine now o :
  keeps some_enabled (run parse_addr inet engine now o).
Proof.
  destruct o; lazymatch goal with
  | |- keeps _ (run _ _ _ _ (OpCreatePolicy _ _ _)) => apply keeps_bind; [apply enabled_create|intros; apply keeps_ret]
  | |- keeps _ (run _ _ _ _ (OpEnsureDefaults _)) =>
      unfold run, void, EnsureDefaults, All; keeps; apply create_all_keeps; intros; apply enabled_create
  | |- _ => frame end.
Qed.
Lemma create_enabled now id p by_ :
  Policy.Enabled p = true →
  hoare (λ _, True) (PolicyStore.Create now id p by_) (λ _, some_enabled) (λ _ _, True).
Proof.
  intros Hp. unfold PolicyStore.Create. eapply hoare_bind with (Q := λ _ _, True).
  { apply hoare_lift. by destruct (Validate p). }
  intros _. apply hoare_stmt; [|done]. intros t _. cbv zeta.
  repeat (case_match; simplify_eq; try done). split; [|done]. eexists. simpl.
  split; [apply elem_of_app; right; by apply list_elem_of_singleton|done].
Qed.
(** Seeding leaves an enabled policy behind, unless there were only disabled ones
    before. *)
Lemma ensure_enabled now ids :
  hoare (λ t, policies t = [] ∨ some_enabled t) (EnsureDefaults now ids) (λ _, some_enabled) (λ _ _, True).
Proof.
  unfold EnsureDefaults. eapply hoare_bind; [by apply hoare_query|]. intros l. simpl.
  destruct (is_nil l) eqn:El; simpl.
  - unfold DefaultPolicies. cbn [create_all]. eapply hoare_bind.
    { eapply hoare_weaken; [by apply create_enabled|done|intros a t Ht; exact Ht|done]. }
    intros ?. apply (hoare_weaken _ some_enabled some_enabled (λ _, some_enabled) _ (λ _, some_enabled));
      [apply keeps_hoare|done..].
    repeat (apply keeps_bind; [apply enabled_create|intros _]). apply keeps_ret.
  - apply hoare_ret. intros t [Ht ->]. destruct Ht as [Ht|Ht]; [|done].
    unfold All in El. rewrite Ht in El. done.
Qed.

Lemma dev_routes dev : (∃ rt, rt ∈ routes dev ∧ rt_endpoint rt = EpDevToken) ↔ dev = true.
Proof.
  split.
  - intros (rt & Hrt & He). destruct dev; [done|]. exfalso. revert He. unfold routes in Hrt. simpl in Hrt.
    repeat (apply elem_of_cons in Hrt as [->|Hrt]; [done|]). by apply elem_of_nil in Hrt.
  - intros ->. exists (mkRoute "POST" "/dev/token" EpDevToken TokenLimited). split; [|done].
    apply elem_of_app. right. apply elem_of_app. left. by apply list_elem_of_singleton.
Qed.
Lemma built_dev cfg secret v :
  buildVerifier cfg secret = inl v → bool_decide (is_Some (dev_of v)) = DevAuthEnabled (OIDC cfg).
Proof.
  unfold buildVerifier. destruct (DevAuthEnabled _).
  - destruct (NewDevVerifier _ _ _); [|done]. by intros [= <-].
  - destruct (NewOIDCVerifier _ _); [|done]. by intros [= <-].
Qed.
(** The stages of a successful start. *)
Lemma start_inv {Schema} (exec_sql : string → Schema → option Schema) files environment outcome mfs secret now ids d w srv d' w' :
  start exec_sql files environment outcome mfs secret now ids d w = (inl srv, d', w') →
  Load environment = inl (srv_config srv) ∧ is_ok (connectWithRetry outcome) = true ∧
  (if AutoMigrate (Database (srv_config srv)) then ∃ fs', Migrate exec_sql files d mfs = (inl (), d', fs') else d' = d) ∧
  buildVerifier (srv_config srv) secret = inl (srv_verifier srv) ∧
  srv_engine srv = Risk.NewEngine (RWeights (CRisk (srv_config srv))) (Thresholds (CRisk (srv_config srv))) ∧
  srv_routes srv = routes (bool_decide (is_Some (dev_of (srv_verifier srv)))) ∧
  ∃ n, EnsureDefaults now ids w = (inl n, w').
Proof.
  unfold start. destruct (Load environment) as [cfg|e]; [|done].
  destruct (connectWithRetry outcome) as [n|e]; [|done].
  destruct (if AutoMigrate (Database cfg) then _ else _) as [m d1] eqn:Em. destruct m as [[]|e]; [|done].
  unfold assemble, bind at 1, lift at 1. destruct (buildVerifier cfg secret) as [v|e] eqn:Ev; [|done].
  unfold bind. destruct (EnsureDefaults now ids w) as [[k|e] w2] eqn:Ee; [|done].
  intros [= <- <- <-]. simpl. split_and!; try done; [|by exists k].
  destruct (AutoMigrate (Database cfg)); [|by injection Em as <-].
  destruct (Migrate exec_sql files d mfs) as [[r d2] fs']. simpl in Em. injection Em as -> ->. by exists fs'.
Qed.

(** C34: what is served is authenticated, configured, migrated and policed.  When [run] gets
    to serving, the configuration is a safe one; the database answered at one of the ten
    attempts, all earlier ones having failed.  If automatic migration is configured, every
    script that was shipped is recorded, and the schema is what the recorded ones make of
    the initial one (as it was before: an invariant of [Migrate]); if it is not, the schema is
    untouched.  The development token endpoint is mounted exactly when development
    authentication is enabled, hence only in the development environment.  And unless the
    database was found with disabled policies only, some policy is active at every later
    instant, whatever operations ran. *)
Theorem start_safe `{Crypto} {Schema : Type} (exec_sql : string → Schema → option Schema)
    (files : list (string * option string)) (parse_addr inet : string → option string) (environment : environ)
    (outcome : nat → attempt_outcome) (mfs : list fault) (secret : string) (now now' : Z)
    (ids : nat → uuid) (d d' : database) (s0 : Schema) (ms : list Migration) (w w' : World) (srv : Server) (t' : Tables) :
  history exec_sql s0 d ms →
  start exec_sql files environment outcome mfs secret now ids d w = (inl srv, d', w') →
  config_safe (srv_config srv) ∧
  (∃ n, (1 <= n <= 10)%nat ∧ outcome n = Connected ∧ ∀ i, (1 <= i < n)%nat → outcome i = Unreachable) ∧
  (if AutoMigrate (Database (srv_config srv)) then
     ∃ new, history exec_sql s0 d' (ms ++ new) ∧ ∀ m, loaded files m → Version m ∈ Version <$> (ms ++ new)
   else d' = d) ∧
  ((∃ rt, rt ∈ srv_routes srv ∧ rt_endpoint rt = EpDevToken) ↔ DevAuthEnabled (OIDC (srv_config srv)) = true) ∧
  (DevAuthEnabled (OIDC (srv_config srv)) = true → Env (srv_config srv) = EnvDevelopment) ∧
  (policies (db w) = [] ∨ some_enabled (db w) →
   steps parse_addr inet (srv_engine srv) (λ _, True) now (db w') now' t' →
   active_policies (policies t') ≠ []).
Proof.
  intros Hh (Hl & Hc & Hm & Hv & _ & Hr & n & He)%start_inv.
  assert (config_safe (srv_config srv)) as Hs.
  { apply (load_config_safe environment). revert Hl. unfold Load.
    destruct (load_all environment) as [c [|]]; [by intros [= <-]|done]. }
  split_and!; [done| | | |apply Hs|].
  - unfold connectWithRetry in Hc. destruct (connect outcome 1 maxAttempts) as [m|] eqn:E; [|done].
    apply connect_spec in E as (H1 & H2 & H3). exists m. split_and!; [lia|unfold maxAttempts in H1; lia|done..].
  - destruct (AutoMigrate _); [|done]. destruct Hm as [fs' Hm]. by eapply migrate_complete.
  - rewrite Hr, dev_routes. by rewrite (built_dev _ _ _ Hv).
  - intros Hp Hst. apply enabled_active. eapply steps_keeps; [|exact Hst|].
    { intros k o _ _. apply enabled_keeps. }
    exact (ensure_enabled now ids w _ w' Hp He).
Qed.
