(* ===== verification/Process.v ===== *)
(** * The life of the process (cmd/netrad/main.go)

    From the moment [run] listens to the moment it returns: requests are accepted and
    answered, the pruner and the limiters' housekeeping tick, a signal starts the
    drain, the deferred [db.Close] waits for the connections in use, and the process exits.
    [netrad] is the composition of everything else: what it does to the database is a run of
    the transition system.  (Requests are answered whole here; what one that is cut off at
    the exit leaves behind is the subject of Interleave.v.) *)

From S2P Require Import Prelude GoStd Encode Identity Risk Posture Policy Behaviour Db AuditLog Device.
From S2P Require Import User Session Telemetry Incident RiskStore PolicyStore PostureStore BehaviourStore.
From S2P Require Import Trust RateLimit Web SessionApi DeviceApi TrustApi AdminApi Router System HttpProps.
From S2P Require Import Config Migrate Startup.
Open Scope Z_scope.
Open Scope go_scope.

(** The [select] of [run]: serving until the listener fails or a signal arrives, then
    draining until a deadline.  Then [run] returns [r], and its deferred calls run: [db.Close]
    waits until every connection in use is given back, while requests that [Shutdown] gave
    up on, or that a failed listener left behind, go on; [stop] ends the pruner only after
    that, if no signal had ended it before ([pruning]). *)
Inductive phase := Serving | Draining (deadline : Z) | Closing (pruning : bool) (r : result unit) | Exited (r : result unit).
Record process := mkProcess {
  ps_phase : phase; ps_clock : Z; ps_tables : Tables; ps_limiters : Limiters; ps_inflight : nat }.
Definition running (p : process) : Prop := ∀ r, ps_phase p ≠ Exited r.

(** One round of the housekeeping goroutines of [RateLimited]. *)
Definition prune_limiters (now : Z) (ls : Limiters) : Limiters :=
  mkLimiters (prune (lim_enrollment ls) now) (prune (lim_ingest ls) now) (prune (lim_tokens ls) now).

(** What [main] makes of the result of [run]. *)
Definition exit_code (r : result unit) : Z := match r with inl _ => 0 | inr _ => 1 end.
Definition main_code (started : result Server) (ended : result unit) : Z :=
  match started with inr _ => 1 | inl _ => exit_code ended end.

Section Process.
Context `{Crypto} (parse_addr inet : string → option string) {Lib : Libs} {V : Verifier} {J : Jwt}.
Context (srv : Server).
Definition shutdown_timeout : Z := ShutdownTimeout (HTTP (srv_config srv)).

Inductive pstep (p : process) : process → Prop :=
  | p_wait now :
      running p → ps_clock p <= now →
      pstep p (mkProcess (ps_phase p) now (ps_tables p) (ps_limiters p) (ps_inflight p))
  | p_accept :
      ps_phase p = Serving →
      pstep p (mkProcess Serving (ps_clock p) (ps_tables p) (ps_limiters p) (S (ps_inflight p)))
  | p_respond env r m fs n x ls' w' :
      running p → ps_inflight p = S n → e_now env = ps_clock p →
      respond parse_addr inet (srv_engine srv) (srv_router srv) env (ps_limiters p) r m
        (mkWorld (ps_tables p) fs) = (inl (x, ls'), w') →
      pstep p (mkProcess (ps_phase p) (ps_clock p) (db w') ls' n)
  | p_tick fs x w' :       (* startNoncePruner: until the context is done *)
      ps_phase p = Serving ∨ (∃ r, ps_phase p = Closing true r) → prune_tick (ps_clock p) (mkWorld (ps_tables p) fs) = (x, w') →
      pstep p (mkProcess (ps_phase p) (ps_clock p) (db w') (ps_limiters p) (ps_inflight p))
  | p_housekeeping :
      running p →
      pstep p (mkProcess (ps_phase p) (ps_clock p) (ps_tables p) (prune_limiters (ps_clock p) (ps_limiters p)) (ps_inflight p))
  | p_listener e :         (* ListenAndServe returned *)
      ps_phase p = Serving →
      pstep p (mkProcess (Closing true (inr e)) (ps_clock p) (ps_tables p) (ps_limiters p) (ps_inflight p))
  | p_signal :
      ps_phase p = Serving →
      pstep p (mkProcess (Draining (ps_clock p + shutdown_timeout)) (ps_clock p) (ps_tables p) (ps_limiters p) (ps_inflight p))
  | p_drained d :
      ps_phase p = Draining d → ps_inflight p = O →
      pstep p (mkProcess (Closing false (inl ())) (ps_clock p) (ps_tables p) (ps_limiters p) (ps_inflight p))
  | p_deadline d :
      ps_phase p = Draining d → d <= ps_clock p →
      pstep p (mkProcess (Closing false (inr (ErrDB "graceful shutdown"))) (ps_clock p) (ps_tables p) (ps_limiters p) (ps_inflight p))
  | p_closed b r :         (* db.Close returned: no connection is in use *)
      ps_phase p = Closing b r →
      pstep p (mkProcess (Exited r) (ps_clock p) (ps_tables p) (ps_limiters p) (ps_inflight p)).

(** The process when it starts to listen. *)
Definition listening (now : Z) (t : Tables) : process := mkProcess Serving now t newLimiters O.

Lemma pstep_keeps P p p' :
  (∀ now o, keeps P (run parse_addr inet (srv_engine srv) now o)) → pstep p p' → P (ps_tables p) → P (ps_tables p').
Proof.
  intros HP Hs. destruct Hs as [| |env r m fs n x ls' w' _ _ _ Hr|fs x w' _ Hr| | | | | |]; try done; intros Ht.
  - refine (keeps_respond parse_addr inet (srv_engine srv) (srv_router srv) P env _ r m _ (mkWorld (ps_tables p) fs) _ _ Ht Hr).
    intros now o _. apply HP.
  - exact (HP (ps_clock p) OpPrune (mkWorld (ps_tables p) fs) _ _ Ht Hr).
Qed.
(** Once [run] is about to return success, no request is in flight. *)
Definition all_served (p : process) : Prop :=
  (∃ b, ps_phase p = Closing b (inl ())) ∨ ps_phase p = Exited (inl ()) → ps_inflight p = O.
Lemma pstep_served p p' : pstep p p' → all_served p → all_served p'.
Proof.
  unfold all_served. intros Hs Hp. destruct Hs; simpl; try (naive_solver congruence).
Qed.
Lemma drain_ends p d :
  ps_phase p = Draining d → ∃ p' r, rtc pstep p p' ∧ ps_phase p' = Exited r.
Proof.
  intros Hp. eexists _, _. split.
  - eapply rtc_l; [apply (p_wait p (Z.max d (ps_clock p))); [intros r; by rewrite Hp|lia]|].
    eapply rtc_l; [apply (p_deadline _ d); simpl; [exact Hp|lia]|].
    by eapply rtc_once, p_closed.
  - done.
Qed.
End Process.

(** The life of the process.  Whatever requests are served, signals arrive and
    round trips fail between the start and the end: every property of the tables
    that the operations preserve is true of them at every instant if it was when
    the start began; [netrad] exits with 0 only when no request has been cut off; and after
    a signal it can return once the connections in use are given back. *)
Theorem process_life `{Crypto} {Schema : Type} (exec_sql : string → Schema → option Schema)
    (files : list (string * option string)) (parse_addr inet : string → option string) {Lib : Libs} {V : Verifier} {J : Jwt}
    (environment : environ) (outcome : nat → attempt_outcome) (mfs : list fault) (secret : string)
    (now : Z) (ids : nat → uuid) (d0 d1 : database) (w w' : World) (srv : Server) (p : process) :
  start exec_sql files environment outcome mfs secret now ids d0 w = (inl srv, d1, w') →
  rtc (pstep parse_addr inet srv) (listening now (db w')) p →
  (∀ P, (∀ n o, keeps P (run parse_addr inet (srv_engine srv) n o)) → P (db w) → P (ps_tables p)) ∧
  (∀ r, ps_phase p = Exited r → main_code (inl srv) r = 0 → ps_inflight p = O) ∧
  (∀ d, ps_phase p = Draining d → ∃ p' r, rtc (pstep parse_addr inet srv) p p' ∧ ps_phase p' = Exited r).
Proof.
  intros Hst Hr. apply start_inv in Hst as (_ & _ & _ & _ & _ & _ & n & He). split_and!.
  - intros P HP Hdb. assert (P (db w')) as Ht.
    { pose proof (HP now (OpEnsureDefaults ids)) as Hk.
      refine (Hk w (inl ()) w' Hdb _). cbn [run]. unfold void, bind. by rewrite He. }
    change (db w') with (ps_tables (listening now (db w'))) in Ht.
    induction Hr as [|p1 p2 p3 Hs _ IH]; [done|]. apply IH; [done..|by eapply pstep_keeps].
  - intros r Hp Hc. destruct r as [[]|e]; [|done].
    assert (all_served (listening now (db w'))) as H0 by by intros [[? ?]|?].
    assert (all_served p) as H1; [|apply H1; by right].
    clear Hp He. revert H0. induction Hr as [|p1 p2 p3 Hs _ IH]; [done|]. intros H0. apply IH. by eapply pstep_served.
  - intros d. apply drain_ends.
Qed.
