(* ===== verification/Scenario.v ===== *)
(** * A concrete run

    A small deployment executed step by step: a user, an enrolment, a heartbeat, a
    signed request, a session, telemetry, an evaluation.  Every theorem about the
    system is applied to it, which shows that its hypotheses can hold together.
    The cryptographic operations are toy functions with the documented laws. *)

From S2P Require Import Prelude GoStd Encode Risk RiskProps Posture Policy Behaviour Db AuditLog Device.
From S2P Require Import Session Telemetry Incident RiskStore PolicyStore PostureStore BehaviourStore.
From S2P Require Import Trust System DeviceProps SystemProps SessionProps PolicyProps TrustProps.
From S2P Require Import EventProps UserProps Schema Concurrency Liveness.
Open Scope Z_scope.
Open Scope go_scope.

#[local] Instance toy_crypto : Crypto := {
  sha256sum := toy_sha;
  ed25519_verify _ _ _ := true;
  b64_std s := Some s;
  b64_rawurl s := s;
  timestamptz t := Some (pg_time t);
  pg_lower := to_lower;
}.
#[local] Instance toy_laws : CryptoLaws toy_crypto.
Proof. split; [apply toy_sha_len|done]. Qed.

Definition toy_addr (s : string) : option string := Some s.
Definition eng : Risk.Engine := Risk.NewEngine Risk.DefaultWeights DefaultThresholds.
Definition noon : Z := 1700000000 * second.

(** The tables after a list of operations without faults. *)
Definition play (now : Z) (ops : list op) (t : Tables) : Tables :=
  foldl (λ t o, db (snd (run toy_addr toy_inet eng now o (calm t)))) t ops.
Lemma play_steps (ok : op → Prop) now now' ops t :
  now <= now' → Forall ok ops → steps toy_addr toy_inet eng ok now t now' (play now ops t).
Proof.
  intros Hle Hf. revert t. induction Hf as [|o ops Ho Hf IH]; intros t.
  - eapply steps_wait; [exact Hle|constructor].
  - eapply (steps_op _ _ _ _ now t o []); [done|apply surjective_pairing|apply IH].
Qed.

(** ** The cast *)

Definition alice : user_row := mkUser 1 "alice" "a@x" "Alice" None USER noon noon None.
Definition key32 : string := "0123456789abcdef0123456789abcdef".
Definition sig64 : string := "0123456789abcdef0123456789abcdef0123456789abcdef0123456789abcdef".
Definition laptop : EnrollRequest := mkEnroll "laptop-0001" "laptop" "windows" "11" "1.0" key32 "tpm".
Definition request (nonce : string) : HttpRequest :=
  mkHttp "POST" "/api/v1/agent/telemetry" "laptop-0001" "1700000000" nonce sig64 (Some "{}").
Definition nonce_a : string := "00112233445566778899aabbccddeeff".
Definition begin_req : BeginRequest :=
  mkBegin 1 "alice" "laptop-0001" (GenerateNonce key32) sig64 "10.0.0.1".
Definition fresh (n : N) : Fresh := mkFresh n (n + 1) (n + 2) (n + 3) (n + 4).
Definition event_a : Inbound := mkInbound "ev-1" 1700000000000 TypeApplicationStart "" ∅.

Definition start : Tables := set_users [alice] empty_tables.
Definition issued : Tables :=
  Eval vm_compute in play noon [OpIssueToken "token-1" 5 (Some 1%N) "lab" hour] start.
Definition enrolled : Tables := Eval vm_compute in play noon [OpEnroll 10 "token-1" laptop] issued.
Definition reporting : Tables := Eval vm_compute in play noon [OpHeartbeat 10 "1.1"] enrolled.
Definition challenged : Tables := Eval vm_compute in play noon [OpIssueNonce key32 1] reporting.
Definition signed_in : Tables := Eval vm_compute in play noon [OpBegin 20 begin_req] challenged.
(** A session recorded before attestation existed, under the shipped policies. *)
Definition legacy : Tables := Eval vm_compute in
  play noon [OpEnsureDefaults (λ i, (100 + N.of_nat i)%N)]
    (set_sessions [mkSession 21 1 10 ACTIVE "oidc" None "none" None None noon noon None] signed_in).

Definition result_of {A} (m : M A) (t : Tables) : A + error := fst (m (calm t)).
Definition after {A} (m : M A) (t : Tables) : World := snd (m (calm t)).
Lemma run_eq {A} (m : M A) (t : Tables) r : result_of m t = r → m (calm t) = (r, after m t).
Proof. intros <-. apply surjective_pairing. Qed.


(** ** The device boundary *)

Lemma canonical_string_witness : to_upper "post" = to_upper "POST".
Proof.
  apply (canonical_string_binds (mkSigningInput "post" "/p" noon nonce_a "{}")
           (mkSigningInput "POST" "/p" noon nonce_a "{}")); vm_compute; reflexivity.
Defined.

Lemma attestation_domain_witness :
  CanonicalString (mkSigningInput "POST" "/p" noon nonce_a "{}") ≠ AttestationString (GenerateNonce key32) "alice".
Proof.
  apply (attestation_domain_separate (GenerateNonce key32) "alice"). vm_compute. reflexivity.
Defined.

Lemma clock_skew_witness : CheckClockSkew (noon - 5 * minute) noon = inl ().
Proof.
  apply (clock_skew_window (noon - 5 * minute) noon); vm_compute; repeat split; discriminate.
Defined.

(** A second enrolment with the same token, an hour later. *)
Lemma token_witness :
  match result_of (Enroll (noon + hour) 11 "token-1 " laptop) reporting with inl _ => False | inr _ => True end.
Proof.
  destruct (result_of (Enroll (noon + hour) 11 "token-1 " laptop) reporting) as [d'|e'] eqn:R; [|exact I].
  destruct (Enroll noon 10 "token-1" laptop (calm issued)) as [[d|e] w'] eqn:E; [|vm_compute in E; discriminate E].
  assert (db w' = enrolled) as Hw by (vm_compute in E; injection E as _ <-; reflexivity).
  apply (enrollment_token_single_use toy_addr toy_inet eng noon (noon + hour) 10 11 "token-1" "token-1 "
           laptop laptop (calm issued) w' (after (Enroll (noon + hour) 11 "token-1 " laptop) reporting)
           reporting [] d (inl d')) with (d' := d'); [|exact E| |reflexivity|apply run_eq; exact R|reflexivity].
  - unfold tokens_ok. vm_compute. repeat constructor. intros []%elem_of_nil.
  - rewrite Hw. change reporting with (play noon [OpHeartbeat 10 "1.1"] enrolled).
    apply play_steps; [vm_compute; discriminate|repeat constructor].
Defined.

Ltac nodup := vm_compute; repeat constructor; repeat (rewrite elem_of_cons || rewrite elem_of_nil); intuition discriminate.
Ltac playing := apply play_steps; [vm_compute; discriminate|repeat constructor].

(** The laptop is revoked, and a heartbeat still arrives. *)
Definition revoked : Tables := Eval vm_compute in play noon [OpRevoke 10 "stolen"; OpHeartbeat 10 "1.2"] signed_in.
Lemma revocation_witness :
  result_of (RequireDeviceSignature (noon + minute) (request nonce_a)) revoked = inl (Reject StatusUnauthorized).
Proof.
  destruct (Revoke noon 10 "stolen" (calm signed_in)) as [[[]|e] w'] eqn:E; [|vm_compute in E; discriminate E].
  assert (db w' = play noon [OpRevoke 10 "stolen"] signed_in) as Hw
    by (vm_compute in E; injection E as <-; vm_compute; reflexivity).
  apply (proj1 (revocation_permanent toy_addr toy_inet eng noon (noon + minute) 10 "laptop-0001" "stolen"
           (calm signed_in) w' revoked [] ltac:(split; [split; nodup|eexists; split; [vm_compute; left|done]])
           E ltac:(rewrite Hw; apply (play_steps (λ _, True) noon (noon + minute) [OpHeartbeat 10 "1.2"]);
                   [vm_compute; discriminate|repeat constructor]))
           (request nonce_a) _ (after (RequireDeviceSignature (noon + minute) (request nonce_a)) revoked) eq_refl).
  apply run_eq. reflexivity.
Defined.

(** A captured request is sent again three minutes later, after the pruner ran. *)
Definition captured : Tables := Eval vm_compute in play noon [OpRequest (request nonce_a)] reporting.
Definition pruned : Tables := Eval vm_compute in play noon [OpPrune] captured.
Lemma replay_witness :
  match result_of (RequireDeviceSignature (noon + 3 * minute) (request nonce_a)) pruned with
  | inl (Forward _ _) => False
  | _ => True
  end.
Proof.
  destruct (result_of (RequireDeviceSignature (noon + 3 * minute) (request nonce_a)) pruned)
    as [[?|d' body']|?] eqn:R; [exact I| |exact I].
  destruct (RequireDeviceSignature noon (request nonce_a) (calm reporting)) as [[[?|d body]|e] w'] eqn:E;
    [vm_compute in E; discriminate E| |vm_compute in E; discriminate E].
  assert (db w' = captured) as Hw by (vm_compute in E; injection E as _ _ <-; reflexivity).
  apply (replay_rejected toy_addr toy_inet eng noon (noon + 3 * minute) (request nonce_a) (request nonce_a)
           10 1700000000 (calm reporting) w'
           (after (RequireDeviceSignature (noon + 3 * minute) (request nonce_a)) pruned) pruned [] d body
           (inl (Forward d' body'))) with (d' := d') (body' := body').
  - split; [split; nodup|eexists; split; [vm_compute; left|repeat split]].
  - exact E.
  - reflexivity.
  - vm_compute; split; discriminate.
  - vm_compute; split; discriminate.
  - vm_compute; split; discriminate.
  - rewrite Hw. change pruned with (play noon [OpPrune] captured). playing.
  - reflexivity.
  - reflexivity.
  - reflexivity.
  - apply run_eq. exact R.
  - reflexivity.
Defined.

Definition denied : AuditLog.Entry :=
  AuditLog.mkEntry zero_time ActorUser "alice" "login" "" "" "DENIED" "req-1" "10.0.0.1"
    (<["reason" := JString "token <expired>"]> (<["attempts" := JInt 9007199254740992]> ∅)).
Lemma denied_plain : entry_plain toy_inet denied.
Proof.
  split; [by right|]. apply detail_plain_insert; [done..|]. apply detail_plain_insert; [done| |apply detail_plain_empty].
  vm_compute. discriminate.
Qed.
Definition logged : Tables := Eval vm_compute in play noon [OpAudit 0 denied; OpAudit 2 denied] start.
Lemma audit_log_witness : audit_ok sha256sum logged.
Proof.
  refine (proj1 (audit_log_intact toy_addr toy_inet eng noon noon start logged _ _)).
  - split; [constructor|split; [constructor|reflexivity]].
  - apply (play_steps _ noon noon [OpAudit 0 denied; OpAudit 2 denied] start);
      [lia|repeat (constructor; [exact denied_plain|]); constructor].
Defined.

(** ** Sessions *)

Lemma begin_witness : begun noon 20 begin_req challenged signed_in.
Proof.
  destruct (Begin toy_addr toy_inet noon 20 begin_req (calm challenged)) as [[s|e] w'] eqn:E;
    [|vm_compute in E; discriminate E].
  assert (db w' = signed_in) as Hw by (vm_compute in E; injection E as _ <-; reflexivity).
  rewrite <-Hw. apply (begin_requires_proof toy_addr toy_inet noon 20 begin_req (calm challenged) w' s);
    [nodup|exact E].
Defined.

(** ** The schema *)

(** From a migrated database with one account to an open session. *)
Definition sign_in_ops : list op :=
  [OpIssueToken "token-1" 5 (Some 1%N) "lab" hour; OpEnroll 10 "token-1" laptop; OpHeartbeat 10 "1.1";
   OpIssueNonce key32 1; OpBegin 20 begin_req].
Lemma start_schema : schema_ok start.
Proof.
  apply (schema_users [alice] empty_tables); [set_solver| |apply schema_migrated].
  split_and!; nodup.
Qed.
Lemma schema_witness : schema_ok signed_in ∧ grows start signed_in.
Proof.
  apply (schema_respected toy_addr toy_inet eng noon noon start signed_in); [exact start_schema|].
  change signed_in with (play noon sign_in_ops start). playing.
Defined.

(** Two machines race for one token while two handlers append to the audit log; the
    first of each takes the lock, the second machine is then refused. *)
Definition desktop : EnrollRequest := mkEnroll "desktop-0002" "desktop" "windows" "11" "1.0" key32 "tpm".
Definition race_entry (who : string) : Entry :=
  mkEntry noon ActorUser who "device.enroll" "device" "" ResultSuccess "req" "" ∅.
Definition race_jobs : list job :=
  [JEnroll noon 10 "token-1" laptop; JEnroll noon 11 "token-1" desktop;
   JRecord noon 0 (race_entry "alice"); JRecord noon 2 (race_entry "bob")].
Definition race_choices : list choice :=
  Do noon (OpIssueToken "token-1" 5 (Some 1%N) "lab" hour) ::
  (Go <$> [0; 1; 2; 3; 2; 0; 2; 0; 2; 0; 0; 2; 0; 0; 2; 3; 0; 1; 3; 1; 3; 3; 3; 1])%nat.
Abbreviation race := (schedule toy_addr toy_inet eng race_choices (Concurrency.start start race_jobs)).
Lemma race_ends :
  (λ c, map (λ th, bool_decide (reply th = None)) (threads c)) <$> race = Some [false; true; false; false].
Proof. vm_compute. reflexivity. Qed.
Lemma serialisable_witness : match race with
  | Some c => replay toy_addr toy_inet eng start (history c) (committed c) ∧
      replies c ≡ₚ omap tx_of (history c) ∧ schema_ok (committed c)
  | None => False end.
Proof.
  pose proof race_ends as Hr. destruct race as [c|] eqn:E; [|discriminate Hr].
  apply (concurrent_serialisable toy_addr toy_inet eng start race_jobs c start_schema).
  eapply schedule_steps. exact E.
Defined.
Lemma race_witness : match race with
  | Some c => count (λ x, enrols "token-1" x.1) (replies c) <= 1
  | None => False end.
Proof.
  pose proof race_ends as Hr. destruct race as [c|] eqn:E; [|discriminate Hr].
  apply (concurrent_single_use toy_addr toy_inet eng start race_jobs c start_schema).
  eapply schedule_steps. exact E.
Defined.

(** ** The honest are let in *)

Definition laptop_row : device_row := Eval vm_compute in
  default (device_of noon 10 laptop) (hd_error (devices reporting)).
Lemma admission_witness :
  ∃ w, RequireDeviceSignature noon (request nonce_a) (calm reporting) = (inl (Forward (scanDevice laptop_row) "{}"), w).
Proof.
  assert (same_era noon (request nonce_a)) as Hera.
  { intros seconds Hp. vm_compute in Hp. injection Hp as <-. vm_compute. split_and!; congruence. }
  apply (proj1 (request_admission noon (request nonce_a) reporting ltac:(split; nodup) Hera)); [vm_compute; left|].
  split.
  - split; discriminate.
  - vm_compute. reflexivity.
  - exists 1700000000. split_and!; [vm_compute; reflexivity|vm_compute; discriminate|discriminate|vm_compute; reflexivity].
  - split; [reflexivity|vm_compute; discriminate].
  - split_and!; [vm_compute; left|reflexivity..].
  - intros x Hx. vm_compute in Hx. by apply elem_of_nil in Hx.
Defined.

(** Alice signs her challenge a minute later, after the pruner and another report. *)
Definition meanwhile : Tables := Eval vm_compute in play noon [OpPrune; OpHeartbeat 10 "1.2"] challenged.
Lemma honest_witness :
  ∃ s t2, Begin toy_addr toy_inet (noon + minute) 20
      (mkBegin 1 "alice" "laptop-0001" (GenerateNonce key32) sig64 "10.0.0.1") (calm meanwhile) = (inl s, calm t2) ∧
    SID s = 20%N ∧ SUserID s = 1%N ∧ SDeviceID s = 10%N ∧ SStatus s = ACTIVE.
Proof.
  destruct (honest_session_begins toy_addr toy_inet eng noon (noon + minute) key32 1 10 "alice" "laptop-0001" key32
    sig64 "10.0.0.1" noon reporting) as (t1 & Hi & Hb).
  - reflexivity.
  - intros x Hx. vm_compute in Hx. by apply elem_of_nil in Hx.
  - nodup.
  - split; [split_and!; nodup|]. exists alice. split; [vm_compute; left|done].
  - split; [split; nodup|]. exists laptop_row. split; [vm_compute; left|]. split_and!; [reflexivity..|].
    split_and!; [reflexivity..|]. exists noon. split; [reflexivity|vm_compute; split; discriminate].
  - vm_compute. split; discriminate.
  - vm_compute. split; discriminate.
  - vm_compute. discriminate.
  - vm_compute. split; discriminate.
  - vm_compute. discriminate.
  - vm_compute. discriminate.
  - vm_compute. discriminate.
  - vm_compute. discriminate.
  - vm_compute. discriminate.
  - vm_compute. reflexivity.
  - intros a Ha. injection Ha as <-. vm_compute. discriminate.
  - apply (Hb meanwhile 20%N); [|vm_compute; reflexivity].
    assert (t1 = challenged) as -> by (vm_compute in Hi; injection Hi as <-; vm_compute; reflexivity).
    change meanwhile with (play noon [OpPrune; OpHeartbeat 10 "1.2"] challenged). playing.
Defined.

Lemma challenge_witness :
  match result_of (Begin toy_addr toy_inet (noon + minute) 22 begin_req) signed_in with
  | inl _ => False
  | inr _ => True
  end.
Proof.
  destruct (result_of (Begin toy_addr toy_inet (noon + minute) 22 begin_req) signed_in) as [s'|?] eqn:R; [|exact I].
  destruct (Begin toy_addr toy_inet noon 20 begin_req (calm challenged)) as [[s|e] w'] eqn:E;
    [|vm_compute in E; discriminate E].
  assert (db w' = signed_in) as Hw by (vm_compute in E; injection E as _ <-; reflexivity).
  apply (attestation_nonce_single_use toy_addr toy_inet eng noon (noon + minute) 20 22 begin_req begin_req
           (calm challenged) w' (after (Begin toy_addr toy_inet (noon + minute) 22 begin_req) signed_in)
           signed_in [] s (inl s')) with (s' := s');
    [nodup|exact E| |reflexivity|apply run_eq; exact R|reflexivity].
  rewrite Hw. apply (play_steps (other_nonce (bq_Nonce begin_req)) noon (noon + minute) []);
    [vm_compute; discriminate|constructor].
Defined.

Definition legacy_session : session_row :=
  mkSession 21 1 10 ACTIVE "oidc" None "none" None None noon noon None.
Definition evaluated_legacy : Tables := Eval vm_compute in play noon [OpEvaluate (fresh 200) 21 "manual"] legacy.
Lemma session_witness :
  ∃ s, s ∈ sessions evaluated_legacy ∧ s_attestation s = "none" ∧ s_status s = ISOLATED.
Proof.
  destruct (sessions evaluated_legacy) as [|s l] eqn:E; [vm_compute in E; discriminate E|].
  exists s. split; [left|]. split; [|vm_compute in E; injection E as <- _; reflexivity].
  apply (session_never_reopens toy_addr toy_inet eng noon noon legacy evaluated_legacy legacy_session s).
  - split; [exists legacy_session; split; [vm_compute; left|reflexivity]|].
    intros s0 Hs0 _. vm_compute in Hs0. apply elem_of_cons in Hs0 as [->|[]%elem_of_nil]. reflexivity.
  - apply (play_steps _ noon noon [OpEvaluate (fresh 200) 21 "manual"] legacy); [lia|repeat constructor].
  - rewrite E. left.
  - vm_compute in E. injection E as <- _. reflexivity.
Defined.

(** ** Policies *)

Definition guard : Policy.Policy :=
  Policy.mkPolicy 0 "lockdown" 0 "Lockdown" "" 5 true (with_levels ["HIGH"])
    (mkActions DecisionRestrict true false "") FailSafe None zero_time.
Definition ids_from (n : N) (i : nat) : uuid := (n + N.of_nat i)%N.

Lemma most_restrictive_witness :
  severity DecisionAllow <= severity (RDecision (Policy.Evaluate (NewEngine DefaultPolicies) critical_request 0)).
Proof.
  transitivity (severity DecisionIsolate); [discriminate|].
  refine (proj1 (most_restrictive_wins (NewEngine DefaultPolicies) critical_request 0 eq_refl)
            (hd guard (matching (NewEngine DefaultPolicies) critical_request)) _).
  vm_compute. left.
Defined.

Lemma policy_versions_witness :
  ∃ q, result_of (PolicyStore.Create noon 300 guard (Some 1%N)) legacy = inl q ∧ PolicyID q = "lockdown" ∧
    policies (db (after (PolicyStore.Create noon 300 guard (Some 1%N)) legacy)) = policies legacy ++ [q].
Proof.
  destruct (policy_versions noon 300 guard (Some 1%N) (calm legacy)
    (after (PolicyStore.Create noon 300 guard (Some 1%N)) legacy)
    (result_of (PolicyStore.Create noon 300 guard (Some 1%N)) legacy)) as (_ & (added & Hp & _ & _ & Hr & _) & _).
  - split; [vm_compute; repeat constructor; discriminate|nodup].
  - apply run_eq. reflexivity.
  - destruct (result_of (PolicyStore.Create noon 300 guard (Some 1%N)) legacy) as [q|e] eqn:E; [|vm_compute in E; discriminate E].
    exists q. split; [reflexivity|]. split; [vm_compute in E; injection E as <-; reflexivity|].
    rewrite (Hr q eq_refl) in Hp. exact Hp.
Defined.

Lemma ensure_defaults_witness :
  EnsureDefaults noon (ids_from 100) (calm signed_in)
  = (inl 8, calm (set_policies (seeded noon (ids_from 100)) signed_in)).
Proof.
  apply (ensure_defaults_safe noon noon (ids_from 100) signed_in); [reflexivity|].
  unfold ids_from. lia.
Defined.

(** ** Evaluation *)

Lemma eng_ok : Risk.weights_ok (weights eng).
Proof. apply RiskProps.default_weights_ok. Qed.

Lemma risk_explained_witness : explained evaluated_legacy.
Proof.
  apply (risk_always_explained toy_addr toy_inet eng noon noon legacy evaluated_legacy eng_ok).
  - split; [intros f []%elem_of_nil|].
    intros s x Hs. vm_compute in Hs. apply elem_of_cons in Hs as [->|[]%elem_of_nil]. discriminate.
  - apply (play_steps _ noon noon [OpEvaluate (fresh 200) 21 "manual"] legacy); [lia|repeat constructor].
Defined.

Definition legacy_outcome := result_of (Trust.Evaluate eng noon (fresh 200) 21 "manual") legacy.
Lemma evaluate_enforces_witness :
  ∃ o, legacy_outcome = inl o ∧ 0 <= Risk.Score (OAssessment o) <= 100.
Proof.
  destruct legacy_outcome as [o|e] eqn:E; [|vm_compute in E; discriminate E].
  exists o. split; [reflexivity|].
  apply (evaluate_enforces eng noon (fresh 200) 21 "manual" (calm legacy)
           (after (Trust.Evaluate eng noon (fresh 200) 21 "manual") legacy) o eng_ok).
  apply run_eq. exact E.
Defined.

Lemma unattested_witness :
  ∃ o, legacy_outcome = inl o ∧ RDecision (ODecision o) = DecisionDeny.
Proof.
  destruct legacy_outcome as [o|e] eqn:E; [|vm_compute in E; discriminate E].
  exists o. split; [reflexivity|].
  apply (unattested_shut_out eng noon noon (ids_from 100) (fresh 200) 21 "manual" (calm legacy)
           (after (Trust.Evaluate eng noon (fresh 200) 21 "manual") legacy) o eng_ok).
  - vm_compute. reflexivity.
  - vm_compute. reflexivity.
  - intros s Hs _. vm_compute in Hs. apply elem_of_cons in Hs as [->|[]%elem_of_nil]. reflexivity.
  - apply run_eq. exact E.
Defined.

Lemma fleet_witness :
  ∃ f, result_of FleetSummary_ legacy = inl f ∧ Trusted f + AtRisk f = 1.
Proof.
  destruct (result_of FleetSummary_ legacy) as [f|e] eqn:E; [|vm_compute in E; discriminate E].
  exists f. split; [reflexivity|].
  transitivity (Endpoints f); [|vm_compute in E; injection E as <-; reflexivity].
  apply (fleet_partition legacy f (after FleetSummary_ legacy)). apply run_eq. exact E.
Defined.

(** ** Events and incidents *)

Lemma normalize_witness :
  ∃ e, Inbound_Normalize event_a 10 noon = inl e ∧ EDeviceID e = Some 10%N.
Proof.
  destruct (Inbound_Normalize event_a 10 noon) as [e|x] eqn:E; [|vm_compute in E; discriminate E].
  exists e. split; [reflexivity|].
  apply (normalize_trustworthy event_a 10 noon e); [vm_compute; split; discriminate..|exact E].
Defined.

Definition ingest_a := Ingest noon 400 (ids_from 401) 10 [event_a; event_a].
Definition ingested : Tables := Eval vm_compute in db (after ingest_a signed_in).
Lemma ingest_accounts_witness :
  ∃ r l, result_of ingest_a signed_in = inl r ∧ db (after ingest_a signed_in) = set_events (events signed_in ++ l) signed_in ∧
    ir_Accepted r = 1 ∧ ir_Duplicates r = 1 ∧ length l = 1%nat ∧ ir_SessionID r = Some 20%N.
Proof.
  destruct (result_of ingest_a signed_in) as [r|e] eqn:E; [|vm_compute in E; discriminate E].
  destruct (ingest_accounts noon 400 (ids_from 401) 10 [event_a; event_a] (calm signed_in)
           (after ingest_a signed_in) r) as (_ & _ & _ & user & _ & Hdb & Ha & Hd & _).
  { apply run_eq. exact E. }
  eexists r, _. split; [reflexivity|]. split; [exact Hdb|]. vm_compute in E. injection E as <-.
  split; [reflexivity|]. split; [reflexivity|]. split; [|reflexivity]. apply Nat2Z.inj. rewrite <-Ha. reflexivity.
Defined.

Lemma ingest_idempotent_witness :
  ∃ r, Ingest (noon + hour) 500 (ids_from 501) 10 [event_a; event_a] (calm ingested) = (inl r, calm ingested)
       ∧ ir_Duplicates r = 2.
Proof.
  destruct (result_of ingest_a signed_in) as [r|e] eqn:E; [|vm_compute in E; discriminate E].
  destruct (ingest_idempotent toy_addr toy_inet eng noon (noon + hour) 400 500 (ids_from 401) (ids_from 501) 10
           [event_a; event_a] (calm signed_in) (after ingest_a signed_in) ingested r)
    as (r' & Hr & _ & Hd & _).
  - repeat constructor; discriminate.
  - apply run_eq. exact E.
  - change (db (after ingest_a signed_in)) with ingested.
    apply (play_steps (λ _, True) noon (noon + hour) []); [vm_compute; discriminate|constructor].
  - exists r'. split; [exact Hr|]. rewrite Hd. vm_compute in E. injection E as <-. reflexivity.
Defined.

Definition escalate_a := OpenOrEscalate noon 600 20 1 10 "HIGH" 80 "Escalation" "twice".
Lemma incident_witness :
  ∃ i, result_of escalate_a signed_in = inl i ∧ incidents_ok (db (after escalate_a signed_in)).
Proof.
  destruct (result_of escalate_a signed_in) as [i|e] eqn:E; [|vm_compute in E; discriminate E].
  exists i. split; [reflexivity|].
  refine (proj1 (incident_correlates noon 600 20 1 10 "HIGH" "Escalation" "twice" 80 (calm signed_in)
           (after escalate_a signed_in) i _ _)).
  - constructor.
  - apply run_eq. exact E.
Defined.
