(* ===== verification/RaceScenario.v ===== *)
(** * Concrete races

    The theorems about interleaved operations applied to schedules on the deployment of
    [Scenario]: two copies of a captured request and the pruner run piece by piece
    against each other; an evaluation is overtaken by a revocation and by the end of its
    session. *)

From S2P Require Import Prelude GoStd Encode Risk RiskProps Posture Policy Behaviour Db AuditLog Device.
From S2P Require Import Session Telemetry Incident RiskStore PolicyStore PostureStore BehaviourStore.
From S2P Require Import Trust System DeviceProps SystemProps SessionProps PolicyProps TrustProps.
From S2P Require Import EventProps UserProps Schema Concurrency Liveness Interleave Scenario.
Open Scope Z_scope.
Open Scope go_scope.

#[local] Existing Instance toy_crypto.
#[local] Existing Instance toy_laws.

(** What the operations preserve holds along the story. *)
Lemma play_keeps (P : Tables → Prop) now ops t :
  Forall (λ o, keeps P (run toy_addr toy_inet eng now o)) ops → P t → P (play now ops t).
Proof.
  intros Hf. revert t. induction Hf as [|o ops Ho _ IH]; intros t Ht; [done|].
  apply IH. exact (Ho (calm t) _ _ Ht (surjective_pairing _)).
Qed.
Definition until_reporting : list op :=
  [OpIssueToken "token-1" 5 (Some 1%N) "lab" hour; OpEnroll 10 "token-1" laptop; OpHeartbeat 10 "1.1"].
Lemma reporting_played : reporting = play noon until_reporting start.
Proof. vm_compute. reflexivity. Qed.
Lemma reporting_schema : schema_ok reporting.
Proof.
  rewrite reporting_played. apply play_keeps; [|apply start_schema]. apply Forall_forall. intros. apply run_schema.
Qed.

(** ** Two copies of a request *)

(** Both copies pass the checks and read the device before either writes; the pruner
    runs in between; three minutes pass.  The second loses. *)
Definition copies : list turn :=
  [Begins (OpRequest (request nonce_a)); Begins (OpRequest (request nonce_a)); Begins OpPrune;
   Runs 0 []; Runs 1 []; Runs 2 []; Runs 1 []; Pass (Z.to_N (3 * minute)); Runs 2 []; Runs 0 []].
Definition on_time (o : op) (since now : Z) : bool :=
  match o with OpRequest _ => now <=? since + MaxClockSkew | _ => true end.
Lemma on_time_within o since now : on_time o since now = true → within_skew o since now.
Proof. unfold on_time, within_skew. destruct o; try (intros _; exact I). apply Z.leb_le. Qed.
Abbreviation copied := (take_turns toy_addr toy_inet eng on_time (opening noon reporting) copies).
Definition passed (th : running) : bool :=
  match ro_code th with Ret (inl (Some (Forward _ _))) => true | _ => false end.
Lemma copies_end :
  (λ c, (map passed (sys_running c), sys_clock c)) <$> copied = Some ([false; true; false], noon + 3 * minute).
Proof. vm_compute. reflexivity. Qed.
Lemma passed_forwarded th : passed th = true → forwarded (ro_code th).
Proof.
  unfold passed. destruct (ro_code th) as [[[[?|d b]|]|]|]; try done. intros _. by exists d, b.
Qed.
Lemma interleaved_replay_witness : match copied with
  | Some c => ∀ i j th th', sys_running c !! i = Some th → sys_running c !! j = Some th' →
      ro_op th = OpRequest (request nonce_a) → ro_op th' = OpRequest (request nonce_a) →
      passed th = true → passed th' = true → i = j
  | None => False end.
Proof.
  pose proof copies_end as He. destruct copied as [c|] eqn:E; [|discriminate He]. injection He as _ Hc.
  intros i j th th' Hi Hj Ho Ho' Hp Hp'.
  apply (interleaved_replay toy_addr toy_inet eng "laptop-0001" nonce_a "1700000000" 1700000000 noon reporting c i j th th').
  - vm_compute. reflexivity.
  - vm_compute. split; discriminate.
  - apply reporting_schema.
  - vm_compute. split; discriminate.
  - rewrite Hc. vm_compute. split; discriminate.
  - eapply turns_reach; [| |exact E]; [|repeat constructor].
    exact on_time_within.
  - exact Hi.
  - exact Hj.
  - rewrite Ho. repeat split.
  - rewrite Ho'. repeat split.
  - by apply passed_forwarded.
  - by apply passed_forwarded.
Defined.

(** ** A revocation overtakes an evaluation *)

(** The evaluation of a session begins; the device is revoked and its session ended;
    then the evaluation goes on, a request of the device arrives, and it is refused. *)
Definition overtaking : list turn :=
  [Begins (OpEvaluate (fresh 200) 20 "telemetry")] ++ repeat (Runs 0 []) 5 ++
  [Begins (OpRevoke 10 "stolen"); Begins (OpEnd 20 1); Runs 1 []; Runs 2 []].
Definition aftermath : list turn :=
  repeat (Runs 0 []) 8 ++ [Begins (OpRequest (request nonce_a)); Pass 1; Runs 3 []].
Abbreviation overtaken := (take_turns toy_addr toy_inet eng (λ _ _ _, true) (opening noon signed_in) overtaking).
Abbreviation after_that := (λ c, take_turns toy_addr toy_inet eng (λ _ _ _, true) c aftermath).
Lemma overtaken_state : match overtaken with
  | Some c => sys_running c !! 1%nat = Some (mkRunning (OpRevoke 10 "stolen") noon (Ret (inl None))) ∧
      length (sys_running c) = 3%nat
  | None => False end.
Proof. vm_compute. split; reflexivity. Qed.
Lemma aftermath_state : match overtaken ≫= after_that with
  | Some c' => ∃ a, sys_running c' !! 3%nat = Some (mkRunning (OpRequest (request nonce_a)) noon (Ret (inl a)))
  | None => False end.
Proof. vm_compute. eexists. reflexivity. Qed.
Lemma interleaved_revocation_witness : match overtaken ≫= after_that with
  | Some c' => match sys_running c' !! 3%nat with
      | Some th => match ro_code th with Ret (inl a) => a = Some (Reject StatusUnauthorized) | _ => False end
      | None => False end
  | None => False end.
Proof.
  pose proof overtaken_state as H1. pose proof aftermath_state as H2.
  destruct overtaken as [c|] eqn:E; [|exact (False_ind _ H1)]. cbn [mbind option_bind] in *. destruct H1 as [H1 Hlen].
  destruct (take_turns toy_addr toy_inet eng (λ _ _ _, true) c aftermath) as [c'|] eqn:E'; [|exact (False_ind _ H2)]. destruct H2 as [a H2]. rewrite H2.
  assert (∀ c1 xs c2, take_turns toy_addr toy_inet eng (λ _ _ _, true) c1 xs = Some c2 →
    rtc (moves toy_addr toy_inet eng (λ _, True) (λ _ _ _, True)) c1 c2) as Hr.
  { intros c1 xs c2. apply turns_reach; [done|]. apply Forall_forall. by intros [] _. }
  exact (interleaved_revocation toy_addr toy_inet eng noon noon 10 "laptop-0001" "stolen" signed_in c c' 1 3 None a _
    ltac:(split; [split; nodup|eexists; split; [vm_compute; left|done]]) (Hr _ _ _ E) H1 (Hr _ _ _ E')
    ltac:(rewrite Hlen; lia) H2 eq_refl eq_refl).
Defined.

(** The same schedule keeps the invariants: the evaluation records its score although
    the session has been ended meanwhile. *)
Lemma signed_in_explained : explained signed_in.
Proof.
  split; [by intros f ?%elem_of_nil|]. intros s x Hs Hx. vm_compute in Hs.
  apply list_elem_of_singleton in Hs. by subst s.
Qed.
Lemma signed_in_schema : schema_ok signed_in.
Proof.
  replace signed_in with (play noon [OpIssueNonce key32 1; OpBegin 20 begin_req] reporting) by (vm_compute; reflexivity).
  apply play_keeps; [|apply reporting_schema]. apply Forall_forall. intros. apply run_schema.
Qed.
Lemma interleaved_invariants_witness : match overtaken with
  | Some c => schema_ok (sys_tables c) ∧ explained (sys_tables c)
  | None => False end.
Proof.
  pose proof overtaken_state as H1. destruct overtaken as [c|] eqn:E; [|exact (False_ind _ H1)].
  destruct (interleaved_invariants toy_addr toy_inet eng noon signed_in c) as (Hs & _ & He & _).
  - apply signed_in_schema.
  - apply signed_in_explained.
  - split_and!; [constructor|constructor|reflexivity].
  - apply eng_ok.
  - eapply turns_reach; [| |exact E]; [done|]. repeat constructor.
  - done.
Defined.
