(* ===== verification/HttpScenario.v ===== *)
(** * Requests against the running deployment

    The deployment of Scenario.v behind the HTTP surface: an administrator and a
    plain user call it, an account is disabled.  Each theorem about the surface is
    applied to these requests. *)

From S2P Require Import Prelude GoStd Encode Json Decode Columns Identity Risk Posture Policy Behaviour Db AuditLog Device.
From S2P Require Import User Session Telemetry Incident RiskStore PolicyStore PostureStore BehaviourStore.
From S2P Require Import Trust RateLimit Web SessionApi DeviceApi TrustApi AdminApi Router System.
From S2P Require Import Config Migrate Startup SystemProps HttpProps UserProps AuditProps Process Scenario BodyProps.
Open Scope Z_scope.
Open Scope go_scope.

(** Identifiers are decimal. *)
#[local] Instance toy_libs : Libs := {
  err_text _ := "error";
  uuid_parse s := Z.to_N <$> parse_int64 s;
}.
Definition claims_of (subject : string) (roles : list Role) : Claims :=
  mkClaims subject (subject +:+ "@x")%stdpp subject "" roles 0 0.
(** The token is the subject; "root" is the administrator. *)
#[local] Instance toy_verifier : Verifier := {
  Verify _ raw := inl (claims_of raw (if str_eqb raw "root" then [RoleAdmin] else [RoleUser]))
}.
#[local] Instance toy_crypto' : Crypto := toy_crypto.
#[local] Instance toy_jwt' : Jwt := toy_jwt.

Definition cfg : Router.Config := Router.mkConfig "production" noon None ["https://soc"] Posture.DefaultWeights "1.0".
Definition env : Web.Env := mkEnv noon 0 (ids_from 500) key32 (fresh 600)
  (λ j, fresh (700 + 10 * N.of_nat j)) (λ _, key32) (λ n, sprint_int (Z.of_nat n)).
Definition from (token : string) (method path : string) (params : list (string * string)) (body : string) : Req :=
  mkReq (mkHttp method path "" "" "" "" (Some body)) ("Bearer " +:+ token)%stdpp "" "10.0.0.9:4711" ∅
    (list_to_map params) "req-1".
Definition revoke_route : route := mkRoute "POST" "/devices/{id}/revoke" EpRevoke admin.
Definition revoke_by (token : string) : Req :=
  from token "POST" "/api/v1/devices/10/revoke" [("id", "10")]
    (marshal (JObject [("reason", JString "stolen")])).
Definition serving (r : Req) (rt : route) := serve toy_addr toy_inet eng cfg env newLimiters r rt.

(** ** Authority *)

Lemma surface_witness :
  tokens_ok (db (after (respond toy_addr toy_inet eng cfg env newLimiters (revoke_by "root")
                          (Matched revoke_route)) signed_in)).
Proof.
  eapply (http_refines_operations toy_addr toy_inet eng cfg tokens_ok env newLimiters (revoke_by "root")
            (Matched revoke_route)) with (w := calm signed_in).
  - intros now o _. apply tokens_ok_keeps.
  - unfold tokens_ok. vm_compute. repeat constructor. intros []%elem_of_nil.
  - apply surjective_pairing.
Defined.

Lemma not_admin : bears env (revoke_by "alice") [RoleAdmin] → False.
Proof. intros (raw & claims & [= <-] & [= <-] & _ & Hr). vm_compute in Hr. discriminate Hr. Qed.
Lemma admin_witness :
  revoked_ids (db (after (serving (revoke_by "root") revoke_route) signed_in)) = [10%N] ∧
  revoked_ids (db (after (serving (revoke_by "alice") revoke_route) signed_in)) = [] ∧
  tokens (db (after (serving (revoke_by "alice") revoke_route) signed_in)) = tokens signed_in.
Proof.
  split; [vm_compute; reflexivity|].
  destruct (admin_authority toy_addr toy_inet eng cfg env newLimiters (revoke_by "alice") false revoke_route
    (calm signed_in) (after (serving (revoke_by "alice") revoke_route) signed_in)
    (result_of (serving (revoke_by "alice") revoke_route) signed_in)) as [Hb|(_ & Hr & _ & Ht)].
  - vm_compute. repeat constructor. intros []%elem_of_nil.
  - apply (proj2 (elem_of_app _ _ _)). right. apply (proj2 (elem_of_app _ _ _)). right. by repeat constructor.
  - apply surjective_pairing.
  - destruct (not_admin Hb).
  - split; [exact Hr|]. apply Ht. discriminate.
Defined.

Lemma role_gate_witness :
  ∃ p w', serving (revoke_by "alice") revoke_route (calm signed_in) = (inl (Refused p, newLimiters), w') ∧
    pb_Status p = 403 ∧ one_denial signed_in (db w').
Proof.
  destruct (role_gate toy_addr toy_inet eng cfg env newLimiters (revoke_by "alice") revoke_route [RoleAdmin]
    (calm signed_in) eq_refl) as [Hb|(p & w' & H1 & H2)]; [destruct (not_admin Hb)|].
  exists p, w'. split; [exact H1|]. destruct H2 as [[H2 _]|[H2 (_ & H3 & _)]]; [|split; assumption].
  vm_compute in H1. injection H1 as <- _. discriminate H2.
Defined.

(** ** Audit *)


(** A cursor above 2^53 stops the log from verifying: the read of the log is recorded
    with the cursor it was given, and the number comes back from the detail column as the
    nearest [float64].  (The digest of this example depends on every byte.) *)
Definition rolling_sha (s : string) : string := pad 32 (foldl (λ h c, (257 * h + ch c) mod 2 ^ 64) 7 (String.list_ascii_of_string s)).
Definition rolling_crypto : Crypto := {|
  sha256sum := rolling_sha; ed25519_verify _ _ _ := true; b64_std s := Some s; b64_rawurl s := s;
  timestamptz t := Some (pg_time t); pg_lower := to_lower |}.
Definition read_log (after : string) : Req :=
  mkReq (mkHttp "GET" "/api/v1/audit" "" "" "" "" (Some "")) "Bearer root" "" "10.0.0.9:4711" (list_to_map [("after", after)])
    ∅ "req-1".
Definition audit_route : route := mkRoute "GET" "/audit" EpAudit (RolesOf [RoleAuditor; RoleAdmin; RoleAnalyst]).
Definition log_after_reading (cursor : string) : Tables :=
  db (after (serve (H := rolling_crypto) toy_addr toy_inet eng cfg env newLimiters (read_log cursor) audit_route) signed_in).
Lemma audit_cursor_breaks_log :
  VerifyChain rolling_sha (records (log_after_reading "9007199254740992")) = inl () ∧
  VerifyChain rolling_sha (records (log_after_reading "9007199254740993"))
    = inr (ErrChain 1 "record contents do not match its hash") ∧
  (λ r, AuditLog.Detail (REntry r) !! "after") <$> records (log_after_reading "9007199254740993")
    = [Some (JInt 9007199254740992)].
Proof. vm_compute. done. Qed.

(** ** Accounts *)

Definition renamed : Claims := mkClaims "alice" "alice@new" "Alice B" "finance" [RoleAnalyst] 0 0.
Lemma account_witness :
  ∃ u, result_of (ResolveFromClaims noon 700 renamed) signed_in = inl u ∧ usr_ID u = 1%N.
Proof.
  destruct (ResolveFromClaims noon 700 (claims_of "alice" [RoleUser]) (calm signed_in)) as [[u|e] w1] eqn:E1;
    [|vm_compute in E1; discriminate E1].
  destruct (result_of (ResolveFromClaims noon 700 renamed) signed_in) as [u'|e] eqn:E2;
    [|vm_compute in E2; discriminate E2].
  exists u'. split; [reflexivity|].
  assert (usr_ID u = 1%N) as <- by (vm_compute in E1; injection E1 as <- _; reflexivity).
  destruct (ResolveFromClaims noon 700 renamed (mkWorld (db w1) [])) as [[u2|e] w2] eqn:E3;
    [|vm_compute in E1; injection E1 as _ <-; vm_compute in E3; discriminate E3].
  assert (usr_ID u' = usr_ID u2) as -> by (vm_compute in E1, E2; injection E1 as _ <-; injection E2 as <-;
    vm_compute in E3; injection E3 as <- _; reflexivity).
  apply (subject_keeps_account toy_addr toy_inet eng noon noon 700 700 (claims_of "alice" [RoleUser]) renamed
    (calm signed_in) w1 w2 (db w1) [] u u2); [|exact E1|constructor|exact E3|reflexivity].
  unfold users_ok. repeat split; nodup.
Defined.

(** Alice's account, disabled by an operator. *)
Definition without_alice : Tables := Eval vm_compute in
  set_users [mkUser 1 "alice" "a@x" "Alice" None USER noon noon (Some noon)] signed_in.
Lemma disabled_witness :
  ∃ p w, RequireAuth toy_inet env (revoke_by "alice") (calm without_alice) = (inl (inr p), w) ∧ pb_Status p = 403.
Proof.
  destruct (disabled_shut_out toy_addr toy_inet eng noon env (revoke_by "alice") 1 "alice"
    (claims_of "alice" [RoleUser]) without_alice without_alice []) as (p & w & H1 & H2 & _).
  - split; [unfold users_ok; repeat split; nodup|]. eexists. split; [vm_compute; left|]. repeat split. discriminate.
  - constructor.
  - reflexivity.
  - reflexivity.
  - reflexivity.
  - exists p, w. split; assumption.
Defined.

(** ** Startup *)

Definition third_time (n : nat) : attempt_outcome := if (n <? 3)%nat then Unreachable else Connected.
(** Migration 1 is recorded already when the server starts. *)
Definition before : database := mkDatabase ["a"] (Some [(1, "a")]).
Definition starting := Startup.start sample_exec sample_files (sample_env []) third_time [] "secret" noon (ids_from 900) before.
Lemma start_witness :
  ∃ srv d w, starting (calm empty_tables) = (inl srv, d, w) ∧ schema d = ["a"; "b"] ∧
    (∃ new, history sample_exec [] d (mkMigration 1 "a" "a" :: new) ∧
       ∀ m, loaded sample_files m → Version m ∈ Version <$> (mkMigration 1 "a" "a" :: new)) ∧
    active_policies (policies (db w)) ≠ [].
Proof.
  destruct (starting (calm empty_tables)) as [[[srv|e] d] w] eqn:E; [|vm_compute in E; discriminate E].
  exists srv, d, w. split; [reflexivity|].
  assert (AutoMigrate (Database (srv_config srv)) = true ∧ schema d = ["a"; "b"]) as [Hauto Hd]
    by (vm_compute in E; injection E as <- <- _; split; reflexivity).
  destruct (start_safe sample_exec sample_files toy_addr toy_inet (sample_env []) third_time [] "secret" noon noon (ids_from 900)
    before d [] [mkMigration 1 "a" "a"] (calm empty_tables) w srv (db w) ltac:(split; reflexivity) E) as (_ & _ & Hm & _ & _ & Hp).
  rewrite Hauto in Hm. split; [exact Hd|]. split; [exact Hm|]. apply Hp; [left; reflexivity|constructor].
Defined.

(** A request is in flight when the signal arrives; it is answered (404) and the
    process exits. *)
Definition stray : Req := from "alice" "GET" "/nowhere" [] "".
Definition ended (t : Tables) : process := mkProcess (Exited (inl ())) noon t newLimiters O.
Lemma shutdown_run srv t : rtc (pstep toy_addr toy_inet srv) (listening noon t) (ended t).
Proof.
  eapply rtc_l; [apply p_accept; reflexivity|]. eapply rtc_l; [apply p_signal; reflexivity|].
  eapply rtc_l; [eapply (p_respond _ _ _ _ env stray NotFound []); [intros r; discriminate|reflexivity..]|].
  eapply rtc_l; [eapply (p_drained _ _ _ (mkProcess _ noon t newLimiters O)); reflexivity|].
  eapply rtc_once, (p_closed _ _ _ (mkProcess _ noon t newLimiters O)). reflexivity.
Qed.
Example process_sample : ∃ srv d w, starting (calm empty_tables) = (inl srv, d, w) ∧ tokens_ok (ps_tables (ended (db w))).
Proof.
  destruct (starting (calm empty_tables)) as [[[srv|e] d] w] eqn:E; [|vm_compute in E; discriminate E].
  exists srv, d, w. split; [reflexivity|].
  apply (process_life sample_exec sample_files toy_addr toy_inet (sample_env []) third_time [] "secret" noon (ids_from 900)
    before d (calm empty_tables) w srv (ended (db w)) E (shutdown_run srv (db w))).
  - intros n o. apply tokens_ok_keeps.
  - apply NoDup_nil_2.
Qed.

(** ** Bodies and columns *)

(** A JSONB that keeps the text it is given. *)
#[local] Instance toy_jsonb : Jsonb := { jsonb := Some }.
#[local] Instance toy_jsonb_laws : JsonbLaws toy_jsonb.
Proof.
  constructor. intros j Ht _ Hd. exists (marshal j), (of_json j). split; [reflexivity|].
  split; [by apply (json_roundtrip j "")|exact Ht].
Defined.
Definition high_risk : Conditions := mkConditions (Some 70) None ["HIGH"; "CRITICAL"] [] ["NEW_DEVICE"].
Definition deny : Actions := mkActions "DENY" true false "".
Definition cursor_detail : gmap string any_value := {["after" := AnyInt 9007199254740992]}.
Lemma columns_witness :
  policy_columns (marshal (to_json high_risk)) (marshal (to_json deny)) = Some (high_risk, deny) ∧
  audit_detail (marshal (to_json cursor_detail)) = Some cursor_detail.
Proof.
  pose proof columns_roundtrip as (Hp & _ & _ & _ & Ha & _). split.
  - destruct (Hp high_risk deny) as (s & s' & [= <-] & [= <-] & Hr); [..|exact Hr];
      repeat split; repeat constructor; vm_compute; done.
  - destruct (Ha cursor_detail) as (s & [= <-] & Hr); [|exact Hr].
    intros k x Hk. unfold cursor_detail in Hk. apply lookup_singleton_Some in Hk as [<- <-]. split; [split; reflexivity|vm_compute; discriminate].
Defined.
(** One more is read back as another number. *)
Example larger_cursor :
  audit_detail (marshal (to_json ({["after" := AnyInt 9007199254740993]} : gmap string any_value))) = Some cursor_detail.
Proof. vm_compute. reflexivity. Qed.

(** The member [device_id] is not one of a batch of events. *)
Definition forged : string :=
  marshal (JObject [("events", JArray []); ("device_id", JString "10")]).
Lemma forged_refused : reads_as 1000 (Some forged) ["events"] of_batch → False.
Proof.
  intros (b & v & [= <-] & Hv & [->|(kvs & -> & Hk)]); vm_compute in Hv; [discriminate Hv|]. injection Hv as <-.
  inversion_clear Hk as [|? ? _ Hk']. inversion_clear Hk' as [|? ? (n & Hn & He & _) _].
  apply list_elem_of_singleton in Hn as ->. discriminate He.
Qed.
Lemma unknown_witness : decode_batch 1000 (Some forged) = None.
Proof.
  destruct (decode_batch 1000 (Some forged)) as [x|] eqn:E; [|reflexivity].
  destruct (forged_refused (proj2 (proj2 (proj2 (proj2 (proj2 (proj2 (proj2 (proj2 (proj2 (proj2 (proj2 (proj2
    (unknown_fields_refused 1000 (Some forged))))))))))))) x E)).
Defined.

(** A NUL in the metadata of an event passes every check of the code, although no
    JSONB column takes it. *)
Definition with_nul : Inbound :=
  mkInbound "e1" 0 "SECURITY_EVENT" "" {["name" := String (Ascii.ascii_of_nat 0) ""]}.
Lemma nul_not_refused :
  decode_batch large_json_limit (Some (wrapped "events" [with_nul])) = Some [with_nul] ∧
  (∃ e, Inbound_Normalize with_nul 10 noon = inl e ∧ Metadata e !! "name" = Some (String (Ascii.ascii_of_nat 0) "")) ∧
  no_nul (String (Ascii.ascii_of_nat 0) "") = false.
Proof. split; [vm_compute; reflexivity|]. split; [|reflexivity]. eexists. split; vm_compute; reflexivity. Qed.
