(* ===== verification/Demonstration.v ===== *)
(** * The simulator and the documented demonstration

    The simulator only makes situations: scores, decisions and incidents come from
    the evaluator.  The scenario the documentation narrates is run against a
    freshly migrated database with the shipped policies and weights. *)

From S2P Require Import Prelude GoStd Encode Identity Risk Posture Policy Behaviour Db AuditLog Device.
From S2P Require Import User Session Telemetry Incident RiskStore PolicyStore PostureStore BehaviourStore.
From S2P Require Import Trust Simulator System SystemProps Scenario.
Open Scope Z_scope.
Open Scope go_scope.

(** ** The simulator never writes a score *)

(** Nothing but users, devices, sessions, postures, profiles and events differs
    from [t0], and the events added are marked. *)
Definition situation_of (t0 t : Tables) : Prop :=
  risk_scores t = risk_scores t0 ∧ risk_factors t = risk_factors t0 ∧ decisions t = decisions t0 ∧
  incidents t = incidents t0 ∧ incident_events t = incident_events t0 ∧ notes t = notes t0 ∧
  policies t = policies t0 ∧ audit_logs t = audit_logs t0 ∧
  ∃ l, events t = events t0 ++ l ∧ Forall (λ e, e_source e = SourceSimulator) l.
Lemma situation_refl t : situation_of t t.
Proof. unfold situation_of. split_and!; [done..|]. exists []. by rewrite app_nil_r. Qed.
Lemma situation_event t0 t row :
  e_source row = SourceSimulator → situation_of t0 t → situation_of t0 (set_events (events t ++ [row]) t).
Proof.
  intros Hr (H1 & H2 & H3 & H4 & H5 & H6 & H7 & H8 & l & He & Hl). unfold situation_of. split_and!; [done..|].
  exists (l ++ [row]). simpl. split; [by rewrite He, app_assoc|]. apply Forall_app. by repeat constructor.
Qed.

Section Situation.
Context `{Crypto} (inet : string → option string) (now : Z) (ids : nat → uuid) (keys suffixes : nat → string).
Context (t0 : Tables).
Abbreviation P := (situation_of t0).

Lemma situation_user id : keeps P (sim_user now id).
Proof. apply keeps_stmt. intros t x t' Ht. cbv zeta. repeat case_match; intros; simplify_eq; exact Ht. Qed.
Lemma situation_device id uid h k : keeps P (sim_device now id uid h k).
Proof. apply keeps_stmt. intros t x t' Ht. cbv zeta. repeat case_match; intros; simplify_eq; exact Ht. Qed.
Lemma situation_session id u d st ip a b c : keeps P (sim_session inet id u d st ip a b c).
Proof. apply keeps_stmt. intros t x t' Ht. repeat case_match; intros; simplify_eq; exact Ht. Qed.
Lemma situation_posture id d s a : keeps P (PostureStore.Record now id d s a).
Proof. frame. Qed.
Lemma situation_rebuild u n : keeps P (Rebuild now u n).
Proof. frame. Qed.
Lemma situation_record st ty sev r md : keeps P (recordResource now ids st ty sev r md).
Proof.
  unfold recordResource, recordWithResource. keeps. apply keeps_insert. intros t Ht _. by apply situation_event.
Qed.
Lemma situation_seed_events n u d s started i count : keeps P (seed_events now ids n u d s started i count).
Proof.
  revert n i. induction count as [|count IH]; intros n i; simpl; keeps; [|apply IH].
  unfold RecordBackendEvent. apply keeps_insert. intros t Ht _. by apply situation_event.
Qed.
Lemma situation_seed_days n u d day : keeps P (seed_days inet now ids n u d day).
Proof.
  revert n. induction day as [|day IH]; intros n; cbn [seed_days]; keeps;
    auto using situation_session, situation_seed_events.
Qed.
Lemma situation_ensure n k key h : keeps P (ensureDevice now ids keys n k key h).
Proof. unfold ensureDevice, seedPosture. keeps; auto using situation_device, situation_posture. Qed.
Lemma situation_prepare : keeps P (prepare inet now ids keys).
Proof.
  unfold prepare, seedHistory. keeps;
    auto using situation_user, situation_ensure, situation_seed_days, situation_rebuild.
Qed.
Lemma situation_bulk st a r x i count : keeps P (bulk_loop now ids st a r x i count).
Proof. revert st i. induction count as [|count IH]; intros st i; simpl; keeps; auto using situation_record. Qed.
Lemma situation_perform st a : keeps P (perform inet now ids keys suffixes st a).
Proof.
  destruct a; simpl; unfold enrolDevice, startSession, accessResource, bulkAccess, networkEvent, record,
    resolveResource; keeps; auto using situation_ensure, situation_record, situation_bulk, situation_session.
Qed.
Lemma situation_perform_all st l : keeps P (perform_all inet now ids keys suffixes st l).
Proof. revert st. induction l as [|a l IH]; intros st; simpl; keeps; auto using situation_perform. Qed.
End Situation.

(** The simulator only makes situations.  Preparing a run and performing any
    actions of a step, whatever fails, leave the risk scores, factors, decisions,
    incidents, policies and the audit log untouched, and every event they add is
    marked SIMULATOR: whatever score or incident a scenario shows was put there by
    the evaluator. *)
Theorem simulator_never_scores `{Crypto} (inet : string → option string) (now : Z) (ids : nat → uuid)
    (keys suffixes : nat → string) (st : sim) (l : list action) (w w1 w2 : World) (r1 r2 : sim + error) :
  prepare inet now ids keys w = (r1, w1) →
  perform_all inet now ids keys suffixes st l w = (r2, w2) →
  situation_of (db w) (db w1) ∧ situation_of (db w) (db w2).
Proof.
  intros H1 H2. split.
  - exact (situation_prepare inet now ids keys (db w) w _ w1 (situation_refl _) H1).
  - exact (situation_perform_all inet now ids keys suffixes (db w) st l w _ w2 (situation_refl _) H2).
Qed.

(** ** The demonstration *)

(** The catalogue migration 0007 creates. *)
Definition demo_resources : list resource_row :=
  [mkResource 1 "mail" "inbox" "INTERNAL"; mkResource 2 "collab" "workspace" "INTERNAL";
   mkResource 3 "portal" "directory" "PUBLIC"; mkResource 4 "portal" "policies" "INTERNAL";
   mkResource 5 "operations" "field-reports" "SENSITIVE"; mkResource 6 "operations" "personnel" "SENSITIVE";
   mkResource 7 "critical" "operations-db" "CRITICAL"; mkResource 8 "critical" "deployment-plans" "CRITICAL"].
Definition migrated : Tables :=
  mkTables [] [] [] [] [] [] [] demo_resources [] [] [] [] [] [] [] [] [] [].
(** The platform after its first boot. *)
Definition booted (now : Z) : Tables :=
  db (snd (EnsureDefaults now (ids_from 1000) (calm migrated))).
Definition demo_key (n : nat) : string := sprint_int (Z.of_nat n).
Definition play_scenario (now : Z) (s : Scenario) : (SimResult + error) * World :=
  Run (H := toy_crypto) toy_inet eng now (ids_from 100000) demo_key demo_key
    (λ j, fresh (20000 + 10 * N.of_nat j)) s (calm (booted now)).
(** What a step shows: score, level, decision. *)
Definition shown (re : SimResult) : list (option Z * string * string) :=
  (λ s, (sr_Score s, sr_Level s, sr_Decision s)) <$> re_Steps re.
Definition outcome_of (now : Z) (s : Scenario) : list (option Z * string * string) :=
  match fst (play_scenario now s) with inl re => shown re | inr _ => [] end.

(** The demonstration does what the documentation says.  On a freshly migrated
    database with the shipped policies and weights, the compromised session scores
    9, 29, 56, 81 and 100 in its five steps, is allowed, allowed, asked to verify,
    restricted and isolated, one incident is opened and the session ends up
    ISOLATED; while the normal session stays at 9, LOW and allowed throughout. *)
Theorem demonstration_documented :
  outcome_of noon compromisedSession =
    [(Some 9, "LOW", "ALLOW"); (Some 29, "LOW", "ALLOW"); (Some 56, "ELEVATED", "VERIFY");
     (Some 81, "HIGH", "RESTRICT"); (Some 100, "CRITICAL", "ISOLATE")] ∧
  length (incidents (db (snd (play_scenario noon compromisedSession)))) = 1%nat ∧
  (s_status <$> last (sessions (db (snd (play_scenario noon compromisedSession))))) = Some ISOLATED ∧
  outcome_of noon normalSession =
    [(Some 9, "LOW", "ALLOW"); (Some 9, "LOW", "ALLOW"); (Some 9, "LOW", "ALLOW")].
Proof. split_and!; vm_compute; reflexivity. Qed.

(** What each of the other scenarios shows in the end. *)
Definition tables_after (now : Z) (s : Scenario) : Tables := db (snd (play_scenario now s)).
Definition last_session (now : Z) (s : Scenario) : option (session_status * string) :=
  (λ x, (s_status x, s_attestation x)) <$> last (sessions (tables_after now s)).
Definition last_codes (re : SimResult) : list string := default [] (sr_Factors <$> last (re_Steps re)).
Definition final_codes (now : Z) (s : Scenario) : list string :=
  match fst (play_scenario now s) with inl re => last_codes re | inr _ => [] end.
Lemma scenarios_meet_expectation :
  str_mem "NEW_DEVICE" (final_codes noon newDevice) = true ∧
  str_mem "UNUSUAL_LOGIN_TIME" (final_codes noon unusualLoginTime) = true ∧
  str_mem "CRITICAL_RESOURCE" (final_codes noon sensitiveAccess) = true ∧
  str_mem "ABNORMAL_ACCESS_VOLUME" (final_codes noon abnormalVolume) = true ∧
  str_mem "UNUSUAL_NETWORK" (final_codes noon networkAnomaly) = true.
Proof. split_and!; vm_compute; reflexivity. Qed.

(** The sessions of a scenario are stored as attested, with no challenge ever
    issued. *)
Lemma simulated_session_attested :
  session_nonces (tables_after noon normalSession) = [] ∧
  last_session noon normalSession = Some (ACTIVE, AttestationDeviceSignature).
Proof. split; vm_compute; reflexivity. Qed.

Lemma never_scores_witness :
  ∃ r w, prepare (H := toy_crypto) toy_inet noon (ids_from 100000) demo_key (calm migrated) = (r, w) ∧
    situation_of migrated (db w).
Proof.
  destruct (prepare (H := toy_crypto) toy_inet noon (ids_from 100000) demo_key (calm migrated)) as [r w] eqn:E.
  exists r, w. split; [reflexivity|].
  exact (proj1 (simulator_never_scores (H := toy_crypto) toy_inet noon (ids_from 100000) demo_key demo_key
    (mkSim 0 0 0 0 0 0 0) [] (calm migrated) w (calm migrated) r (inl (mkSim 0 0 0 0 0 0 0)) E eq_refl)).
Defined.
